(* ===== verification/_CoqProject ===== *)
-Q . S2P
Prelude.v
GoStd.v
GoPath.v
GoBytes.v
GoFmt.v
GoSha256.v
Token.v
Channel.v
Registry.v
Sweep.v
SweepRace.v
Limiter.v
Utf8.v
GoJson.v
Frame.v
Hub.v
Conn.v
Handler.v
World.v
Membership.v
Run.v
Protocol.v
Service.v
Spec.v
Fanout.v
Lines.v
Ordering.v
Broadcasts.v
JsonFacts.v
Wire.v
WireData.v
Prom.v
Metrics.v
Loadtest.v
Harness.v
Report.v
Endtoend.v
Store.v
GoNetip.v
NetipFacts.v
Upgrade.v
Rest.v
Server.v
ServerSafety.v
Routes.v
Migrate.v
Lifecycle.v
Flags.v
Site.v
Boot.v
