(* ===== verification/Prelude.v ===== *)
(** * wirefan: a verification library

    wirefan (src/, Go) is a publish/subscribe server over WebSockets.  A client
    upgrades on [/v1/connect] with an API key, subscribes to channels and
    publishes to them; the server fans each publish out to the channel's
    subscribers.  An admin creates, lists and revokes keys over REST, and a
    backend asks [/v1/auth/sign] for the single-use tokens that private
    channels need.  This library translates the server's own logic into
    executable definitions, file by file, and proves what makes it correct.

    ** Parts, and where they are

    - [Prelude]: results, the string notation, generic lemmas and tactics.
    - [GoStd], [GoBytes], [GoFmt], [GoPath], [GoSha256], [Utf8], [GoJson],
      [GoNetip]: what the program uses of Go's standard library (strings, strconv,
      time, float64 and its printing, path/filepath, hex, base64, HMAC-SHA256,
      UTF-8, encoding/json, net/netip), as executable functions checked on test
      vectors.  [JsonFacts] and [NetipFacts] hold
      their lemmas.
    - [Token] (internal/auth): secrets, signing and verifying of subscribe
      tokens, the replay cache.
    - [Channel], [Registry], [Sweep], [SweepRace] (internal/registry and
      internal/hub/channel.go): a channel is a heap cell behind a location,
      since the registry, the conns and the handlers share it; [Registry] is a
      class with laws, implemented by the sync.Map and by the sharded registry;
      [Sweep] is one collector pass, [SweepRace] interleaves collectors with
      subscribers at every registry and lock operation.
    - [Limiter] (internal/ratelimit): a token bucket per key, with eviction.
    - [Hub] (internal/hub/hub.go): the open conns, CloseKey and Drain.
    - [Conn], [Frame], [Handler], [Run] (internal/conn, internal/hub/stats.go):
      a conn's state and policies, the bytes of outbound frames, what one
      inbound frame does, and a conn's start and teardown.  [Conn.World] is
      everything a handler can reach: registry, heap, conns, hub, limiter,
      replay cache, fan-out and counters.  [Run.world_step] interleaves frames,
      pumps, sweeps, fan-out workers, revocations and shutdown.
    - [World], [Membership]: lemmas about sends and about subscriptions.
    - [Protocol], [Service], [Ordering]: what the handlers promise, one frame at
      a time, in every reachable world, and along every run.  [Broadcasts]: the
      snapshot and the sends of concurrent broadcasts as steps of their own.
    - [Spec]: the service as a specification of its own (members, joined names,
      inboxes, eight operations), and the abstraction of the world to it.
      [Lines]: the same with lines of waiting events, for the sharded pool.
    - [Fanout] (internal/fanout): the sharded pool, as publishers, workers and
      closers over queues and a lock.
    - [Store], [Migrate] (internal/store): the two key stores behind one
      class, and the schema versions of the SQLite one.
    - [Upgrade], [Rest], [Server], [ServerSafety] (internal/server): the checks
      before a WebSocket, the REST handlers, and the whole server as one
      transition system, with its invariant.  [Routes]: the two listeners'
      tables of routes, the pattern matching of http.ServeMux, and a REST
      request from its method and path to its answer.  [Site]: [New], and any
      request of either listener as a run of the transition system.
    - [Lifecycle] (internal/conn/conn.go, pumps.go): the goroutines of one
      conn, their channels and timers, as a labelled step relation.
    - [Flags], [Boot] (cmd/wirefan, the ends of internal/server/server.go): the
      command line, the admin token, the choice of parts, and the trace of a
      whole run from its start to its exit code.
    - [Wire], [WireData]: what the encoders write, the decoder reads.
    - [Prom], [Metrics] (internal/metrics): the collectors and their
      registration, and what the stats channel reports.
    - [Loadtest], [Report] (cmd/loadtest): the load generator's frames,
      connections, tallies and verdict; the text it prints and how
      scripts/bench.sh reads it.  [Harness]: its main, the wait group and the
      samples' collector.  [Endtoend]: its frames through the server's handler
      and back.

    A Go function is a function here, on the value of its receiver, and returns
    the new value; an [error] is an [Err] of [Prelude.res].  Code under one lock
    is one step.  Clock readings, random bytes, fresh identifiers and the
    failures of the operating system and of SQL statements are arguments.

    ** What is shown

    - Authorization ([Service], [Token], [Routes], [ServerSafety], [Site]): a conn gets a
      private channel only with a token for this socket and channel, verified
      in that step; tokens bind, expire and are used once; credentials work
      until they are revoked; a revoked key opens and signs nothing more, from
      the DELETE request on; no request without the admin token gets at the keys.
    - Consistency ([Service], [SweepRace], [Sweep], [Membership]): conns and
      channels agree about subscriptions, the registry finds every channel that
      has a subscriber, and collecting channels never loses one.
    - Delivery and order ([Service], [World], [Ordering], [Broadcasts],
      [Fanout]): a publish reaches the policy of every subscriber; what a conn
      has queued is written first in, first out; concurrent broadcasts keep
      each publisher's order and lose nothing to one another; the pool is a
      queue per channel, loses nothing and does not deadlock.
    - Refinement ([Spec], [Lines]): every step of the server with the default
      fan-out is one operation of the specification, or none; a frame is the
      operation it asks for, or the refusal of the first check it fails.  With
      the sharded pool the same holds of the specification with lines, in at
      most two operations a step.
    - Answers ([Protocol], [Upgrade], [Rest]): every frame, upgrade and REST
      call is answered by the first check it fails, in the documented order.
    - Bounds ([Service], [Limiter], [ServerSafety]): buffers, channels and
      subscribers per conn, budgets per key, connections per address.
    - Equivalences: the two registries, the two stores, the limiter and a
      private bucket per key.
    - Termination ([Lifecycle], [Fanout]): a conn that must end ends, in every
      fair schedule, and its teardown runs alone.
    - Shutdown ([Hub], [Fanout], [ServerSafety], [Boot]): draining is complete,
      a draining server opens nothing, and all that was opened is closed, the
      listeners too unless one failed, in an order in which nothing is used after
      its close.
    - Storage ([Store], [Migrate], [Boot]): each schema step runs once per file,
      opening converges, foreign databases are refused and left untouched.
    - The wire ([JsonFacts], [Wire], [WireData], [Metrics], [Loadtest], [Endtoend]):
      what a publisher wrote is what subscribers decode; the stats frame carries
      the true numbers; the load generator and the server understand each other.
    - Configuration ([Flags], [Boot]): what is parsed is what the command line
      spells, and well-formed; flags round-trip, the admin token is stable.
    - Measurements ([Loadtest], [Harness], [Report]): main reports when all has
      ended, with every sample kept; a run passes exactly when it was clean,
      and what the benchmark script reads out of its report is what was counted.

    ** Bounds and fuel

    [GoJson]'s parser takes fuel [2 * length + 1], and [unquote] a unit per
    rune; [JsonFacts] shows that more fuel never changes the result.  A
    subscribe tries three times, as the code does.  [GoNetip]'s loop reads at
    most eight groups.  All other recursion is structural.  Go's int64 is [Z],
    with the range checked where the code checks it; bytes are ascii, or [N]
    below 256.

    ** What is assumed

    Class laws, each discharged by an instance used in the witnesses: a rested
    token bucket is full ([Limiter.TokenBucket]); a metric writes its value and a
    name registers once ([Prom.PrometheusLaws]); the meaning of the SQL
    statements of the key store, and what a CREATE TABLE IF NOT EXISTS statement
    does, read from the text the server ships ([Store.SqlLaws],
    [Migrate.SchemaSQL]).  Fresh identifiers ([ulid.Make]) are hypotheses of the
    steps that draw them.  The hash is a function; a theorem that rests on its
    collision resistance names the two inputs that would have to collide.

    ** What is not modelled

    Sockets, the WebSocket handshake, pings and deadlines (coder/websocket and
    net/http; their outcomes are steps or labels); CONNECT requests; the
    exposition of the metrics and the pprof handlers; signals and logging; the
    embedded static files.  The counters of [World] are integers: float64 ones
    that only had ones added to them are exact below 2 to the 53.  Other floats
    are [SpecFloat]'s. *)
From stdpp Require Export base tactics gmap sets list strings pretty relations.
From Stdlib Require Export Ascii.
From Stdlib Require Export ZArith Lia.
From stdpp Require Import options.

(** ** Results

    Go functions that return an [error] next to their value are modelled by
    values of [res]: [Ok] for a nil error, [Err] otherwise. *)
Inductive res (E A : Type) : Type :=
  | Ok (a : A)
  | Err (e : E).
Arguments Ok {E A} a.
Arguments Err {E A} e.

#[export] Instance res_eq_dec {E A} `{EqDecision E, EqDecision A} : EqDecision (res E A).
Proof. solve_decision. Defined.

Definition is_ok {E A} (r : res E A) : bool :=
  match r with Ok _ => true | Err _ => false end.

(** ** Automation *)

Create HintDb wirefan discriminated.

(** Case analysis on the innermost discriminee of the goal or a hypothesis. *)
Ltac case_goal :=
  match goal with
  | |- context [match ?x with _ => _ end] =>
      lazymatch x with
      | context [match _ with _ => _ end] => fail
      | _ => let H := fresh "Hc" in destruct x eqn:H
      end
  end.

Ltac case_hyp H :=
  match type of H with
  | context [match ?x with _ => _ end] =>
      lazymatch x with
      | context [match _ with _ => _ end] => fail
      | _ => let E := fresh "Hc" in destruct x eqn:E
      end
  end.

(** Turn boolean tests of the code into propositions. *)
Ltac bool_hyps :=
  repeat match goal with
  | H : bool_decide _ = true |- _ => apply bool_decide_eq_true_1 in H
  | H : bool_decide _ = false |- _ => apply bool_decide_eq_false_1 in H
  | H : (_ =? _)%Z = true |- _ => apply Z.eqb_eq in H
  | H : (_ =? _)%Z = false |- _ => apply Z.eqb_neq in H
  | H : (_ <? _)%Z = true |- _ => apply Z.ltb_lt in H
  | H : (_ <? _)%Z = false |- _ => apply Z.ltb_ge in H
  | H : (_ <=? _)%Z = true |- _ => apply Z.leb_le in H
  | H : (_ <=? _)%Z = false |- _ => apply Z.leb_gt in H
  | H : (_ =? _)%N = true |- _ => apply N.eqb_eq in H
  | H : (_ =? _)%N = false |- _ => apply N.eqb_neq in H
  | H : (_ <? _)%N = true |- _ => apply N.ltb_lt in H
  | H : (_ <? _)%N = false |- _ => apply N.ltb_ge in H
  | H : (_ <=? _)%N = true |- _ => apply N.leb_le in H
  | H : (_ <=? _)%N = false |- _ => apply N.leb_gt in H
  | H : (_ =? _)%nat = true |- _ => apply Nat.eqb_eq in H
  | H : (_ =? _)%nat = false |- _ => apply Nat.eqb_neq in H
  | H : (_ && _)%bool = true |- _ => apply andb_true_iff in H; destruct H
  | H : (_ || _)%bool = false |- _ => apply orb_false_iff in H; destruct H
  | H : negb _ = true |- _ => apply negb_true_iff in H
  | H : negb _ = false |- _ => apply negb_false_iff in H
  end.

(** Decide a closed proposition by computation.  Only the boolean is reduced,
    so the types in the statement are never normalised. *)
Ltac vm_decide :=
  match goal with |- ?P => refine (bool_decide_eq_true_1 P _) end;
  vm_compute; reflexivity.

(** ** Reachability *)

Section Reach.
Context {S : Type} (step : S -> S -> Prop).

(** A property that holds initially and is preserved by every step holds in
    every state the system reaches. *)
Lemma rtc_invariant (P : S -> Prop) s s' :
  P s -> (forall a b, P a -> step a b -> P b) -> rtc step s s' -> P s'.
Proof. intros Hs Hstep Hr. induction Hr; eauto. Qed.

(** Progress from a measure: if every state of the invariant is final or has
    a step that lowers the measure, a final state is reachable. *)
Lemma rtc_measure (final Inv : S -> Prop) (m : S -> nat) :
  (forall a, Inv a -> final a \/ exists b, step a b /\ Inv b /\ m b < m a) ->
  forall s, Inv s -> exists s', rtc step s s' /\ final s'.
Proof.
  intros Hprog s. remember (m s) as n eqn:Hn. revert s Hn.
  induction n as [n IHn] using lt_wf_ind; intros s -> Hs.
  destruct (Hprog s Hs) as [?|(b & Hb & Ib & Hlt)]; [by eauto using rtc_refl|].
  destruct (IHn _ Hlt b eq_refl Ib) as (s' & Hr & Hf). eauto using rtc_l.
Qed.
End Reach.

(** ** Bounded naturals *)

(** A boolean check of every natural below a bound. *)
Lemma N_lt_cases (f : N -> bool) (n : nat) (b : N) :
  forallb (f ∘ N.of_nat) (seq 0 n) = true -> (b < N.of_nat n)%N -> f b = true.
Proof.
  intros Hf Hb. rewrite forallb_forall in Hf.
  specialize (Hf (N.to_nat b)). unfold compose in Hf. rewrite N2Nat.id in Hf.
  apply Hf, in_seq. lia.
Qed.

(** ** Finite sets *)

Lemma size_insert_le `{Countable A} (x : A) (X : gset A) : size ({[x]} ∪ X) <= S (size X).
Proof.
  rewrite size_union_alt, size_singleton.
  assert (size (X ∖ {[x]}) <= size X) by (apply subseteq_size; set_solver). lia.
Qed.

(** ** Lists *)

Lemma bind_singletons {A} (f : A -> list A) l : (forall x, x ∈ l -> f x = [x]) -> l ≫= f = l.
Proof.
  induction l as [|x l IH]; intros Hf; [done|]. cbn. rewrite Hf by left. cbn. f_equal.
  apply IH. intros y Hy. apply Hf. by right.
Qed.

Lemma filter_everything {A} (P : A -> Prop) `{forall x, Decision (P x)} l : Forall P l -> filter P l = l.
Proof. induction 1 as [|x l Hx _ IH]; [done|]. by rewrite filter_cons_True, IH. Qed.

Lemma filter_nothing {A} (P : A -> Prop) `{forall x, Decision (P x)} l : Forall (fun x => ~ P x) l -> filter P l = [].
Proof. induction 1 as [|x l Hx _ IH]; [done|]. by rewrite filter_cons_False. Qed.

(** ** Go strings

    A Go [string] or [[]byte] value is a Rocq [string]: a sequence of bytes. *)

Lemma string_app_cons c (a b : string) : String c a +:+ b = String c (a +:+ b).
Proof. done. Qed.

Lemma string_app_nil_l (s : string) : "" +:+ s = s.
Proof. done. Qed.

(** [String.append] is opaque to [simpl] in stdpp; unfold it along the
    constructors of its first argument, in the goal and the hypotheses. *)
Ltac str_simpl :=
  repeat match goal with
  | H : context [String.append (String _ _) _] |- _ => rewrite string_app_cons in H
  | H : context [String.append EmptyString _] |- _ => rewrite string_app_nil_l in H
  end;
  rewrite ?string_app_cons, ?string_app_nil_l.

Lemma string_app_nil_r (s : string) : s +:+ "" = s.
Proof. induction s; str_simpl; congruence. Qed.

Lemma string_app_assoc (a b c : string) : (a +:+ b) +:+ c = a +:+ (b +:+ c).
Proof. induction a; str_simpl; congruence. Qed.

Lemma string_length_app (a b : string) :
  String.length (a +:+ b) = String.length a + String.length b.
Proof. induction a as [|c a IH]; str_simpl; cbn; congruence. Qed.

(** Appends with prefixes of equal length split. *)
Lemma string_app_inj_len (a a' b b' : string) :
  String.length a = String.length a' -> a +:+ b = a' +:+ b' -> a = a' /\ b = b'.
Proof.
  revert a'. induction a as [|c a IH]; intros [|c' a'] Hlen Heq;
    simplify_eq/=; str_simpl; [done|].
  simplify_eq. destruct (IH a') as [-> ->]; naive_solver.
Qed.

(** The bytes of a string, and membership of a byte in it. *)
Fixpoint string_elem (c : ascii) (s : string) : bool :=
  match s with
  | EmptyString => false
  | String d s' => bool_decide (c = d) || string_elem c s'
  end.

Lemma string_elem_app c a b : string_elem c (a +:+ b) = string_elem c a || string_elem c b.
Proof. induction a as [|d a IH]; str_simpl; cbn; [done|]. by rewrite IH, orb_assoc. Qed.

(** A separator byte that occurs in neither prefix splits both sides alike. *)
Lemma string_sep_inj c (a a' b b' : string) :
  string_elem c a = false -> string_elem c a' = false ->
  a +:+ String c b = a' +:+ String c b' -> a = a' /\ b = b'.
Proof.
  revert a'. induction a as [|d a IH]; intros [|d' a'] Ha Ha' Heq;
    str_simpl; simplify_eq/=.
  - done.
  - by rewrite bool_decide_eq_true_2 in Ha'.
  - by rewrite bool_decide_eq_true_2 in Ha.
  - apply orb_false_iff in Ha as [_ Ha], Ha' as [_ Ha'].
    destruct (IH a') as [-> ->]; auto.
Qed.

Create Rewrite HintDb wirefan_str.
#[export] Hint Rewrite string_app_nil_r string_app_assoc string_length_app
  string_elem_app : wirefan_str.
