(* ===== verification/GoStd.v ===== *)
(** * The parts of Go's standard library the program calls

    Executable definitions of the functions of [strings], [strconv], [time],
    [encoding/hex], [encoding/base64] and [hash/fnv] that wirefan uses, with
    the facts about them its properties rest on.  A Go string or byte slice is
    a [string]; an [int64] is a [Z] with its range checked where Go checks it. *)
From S2P Require Import Prelude.
From stdpp Require Import options.

(** ** strings *)

(** [strings.HasPrefix]. *)
Definition HasPrefix (s p : string) : bool := String.prefix p s.

(** The suffix [s[n:]]. *)
Fixpoint string_drop (n : nat) (s : string) : string :=
  match n, s with
  | 0, _ => s
  | S n', String _ s' => string_drop n' s'
  | S _, EmptyString => EmptyString
  end.

Lemma HasPrefix_cons a s b p : HasPrefix (String a s) (String b p) = bool_decide (a = b) && HasPrefix s p.
Proof.
  unfold HasPrefix. cbn. destruct (ascii_dec b a) as [<-|Hn].
  - by rewrite bool_decide_eq_true_2.
  - by rewrite bool_decide_eq_false_2 by congruence.
Qed.

Lemma HasPrefix_app p s : HasPrefix (p +:+ s) p = true.
Proof.
  unfold HasPrefix. induction p as [|c p IH]; str_simpl; cbn; [by destruct s|].
  by destruct (ascii_dec c c).
Qed.

(** [strings.TrimPrefix]. *)
Definition TrimPrefix (s p : string) : string :=
  if HasPrefix s p then string_drop (String.length p) s else s.

(** [strings.Cut] at the first occurrence of a one-byte separator. *)
Fixpoint Cut (sep : ascii) (s : string) : option (string * string) :=
  match s with
  | EmptyString => None
  | String c s' =>
      if decide (c = sep) then Some ("", s')
      else '(a, b) ← Cut sep s'; Some (String c a, b)
  end.

(** [strings.SplitN s sep n] for a one-byte separator and [n > 0]. *)
Fixpoint SplitN (sep : ascii) (n : nat) (s : string) : list string :=
  match n with
  | 0 => []
  | 1 => [s]
  | S n' => match Cut sep s with
            | None => [s]
            | Some (a, b) => a :: SplitN sep n' b
            end
  end.

(** [strings.Split] at a one-byte separator. *)
Fixpoint Split (sep : ascii) (s : string) : list string :=
  match s with
  | EmptyString => [EmptyString]
  | String c s' =>
      if decide (c = sep) then EmptyString :: Split sep s'
      else match Split sep s' with
           | [] => [String c EmptyString]
           | a :: l => String c a :: l
           end
  end.

Lemma Cut_app sep a b :
  string_elem sep a = false -> Cut sep (a +:+ String sep b) = Some (a, b).
Proof.
  induction a as [|c a IH]; intros Ha; str_simpl; cbn in *.
  - by rewrite decide_True.
  - apply orb_false_iff in Ha as [Hc Ha]. bool_hyps.
    rewrite decide_False by congruence. by rewrite IH.
Qed.

Lemma Cut_none sep s : string_elem sep s = false -> Cut sep s = None.
Proof.
  induction s as [|c s IH]; intros Hs; cbn in *; [done|].
  apply orb_false_iff in Hs as [Hc Hs]. bool_hyps.
  rewrite decide_False by congruence. by rewrite IH.
Qed.

Lemma Cut_None sep s : Cut sep s = None -> string_elem sep s = false.
Proof.
  induction s as [|c s IH]; [done|]. cbn. case_decide as Hc; [done|].
  destruct (Cut sep s) as [[]|]; [done|]. intros _. rewrite bool_decide_eq_false_2 by congruence. by apply IH.
Qed.

Lemma Cut_Some sep s a b :
  Cut sep s = Some (a, b) -> s = a +:+ String sep b /\ string_elem sep a = false.
Proof.
  revert a b. induction s as [|c s IH]; intros a b H; cbn in H; [done|].
  case_decide as Hc; [by simplify_eq|].
  destruct (Cut sep s) as [[a' b']|] eqn:E; simplify_eq/=.
  destruct (IH _ _ eq_refl) as [-> Ha]. str_simpl. split; [done|].
  rewrite Ha, bool_decide_eq_false_2; [done|congruence].
Qed.

Lemma Split_none sep s : string_elem sep s = false -> Split sep s = [s].
Proof.
  induction s as [|c s IH]; intros Hs; [done|]. cbn in Hs. apply orb_false_iff in Hs as [Hc Hs].
  bool_hyps. cbn. rewrite decide_False by congruence. by rewrite IH.
Qed.

Lemma Split_app sep a b :
  string_elem sep a = false -> Split sep (a +:+ String sep b) = a :: Split sep b.
Proof.
  induction a as [|c a IH]; intros Ha; str_simpl; cbn in *.
  - by rewrite decide_True.
  - apply orb_false_iff in Ha as [Hc Ha]. bool_hyps. rewrite decide_False by congruence. by rewrite IH.
Qed.

(** Splitting at any separator, not only the first. *)
Lemma Split_nonempty sep s : Split sep s <> [].
Proof. destruct s as [|c s]; cbn; [done|]. case_decide; [done|]. by destruct (Split sep s). Qed.

Lemma Split_middle sep a b : Split sep (a +:+ String sep b) = Split sep a ++ Split sep b.
Proof.
  induction a as [|c a IH]; str_simpl; cbn [Split].
  - by rewrite decide_True.
  - rewrite IH. case_decide; [done|]. pose proof (Split_nonempty sep a). by destruct (Split sep a).
Qed.

(** No part holds the separator. *)
Lemma Split_elem sep s : Forall (fun p => string_elem sep p = false) (Split sep s).
Proof.
  induction s as [|c s IH]; cbn; [by repeat constructor|].
  case_decide as Hc; [by constructor|].
  destruct (Split sep s) as [|a l]; [by repeat constructor; cbn; rewrite bool_decide_eq_false_2 by congruence|].
  inversion IH as [|? ? Ha Hl]; subst. constructor; [|done]. cbn.
  by rewrite bool_decide_eq_false_2, Ha by congruence.
Qed.

(** [strings.Join] with a one-byte separator. *)
Fixpoint join_with (sep : ascii) (l : list string) : string :=
  match l with
  | [] => ""
  | [a] => a
  | a :: l' => a +:+ String sep (join_with sep l')
  end.

Lemma Split_join sep l :
  l <> [] -> Forall (fun p => string_elem sep p = false) l -> Split sep (join_with sep l) = l.
Proof.
  intros Hne. induction 1 as [|a l Ha Hl IH]; [done|]. destruct l as [|b l]; [by apply Split_none|].
  change (join_with sep (a :: b :: l)) with (a +:+ String sep (join_with sep (b :: l))).
  by rewrite Split_app, IH.
Qed.

(** ** strconv *)

(** The value of a decimal digit. *)
Definition digit_val (c : ascii) : option Z :=
  let n := Z.of_N (N_of_ascii c) in
  if decide (48 <= n <= 57)%Z then Some (n - 48)%Z else None.

(** The digit loop of [strconv.ParseUint] in base 10, on unbounded integers;
    the range is checked by the caller. *)
Fixpoint parse_digits (acc : Z) (s : string) : option Z :=
  match s with
  | EmptyString => Some acc
  | String c s' => d ← digit_val c; parse_digits (acc * 10 + d) s'
  end.

Definition parse_uint (s : string) : option Z :=
  match s with EmptyString => None | _ => parse_digits 0 s end.

Definition int64_min : Z := - 2 ^ 63.
Definition int64_max : Z := 2 ^ 63 - 1.
Definition int64_ok (z : Z) : Prop := (int64_min <= z <= int64_max)%Z.
#[export] Instance int64_ok_dec z : Decision (int64_ok z).
Proof. unfold int64_ok. apply _. Defined.

(** [strconv.ParseInt s 10 64]: an optional sign, at least one digit, and a
    value in range; [None] is any non-nil error. *)
Definition ParseInt (s : string) : option Z :=
  z ← match s with
      | String "-" s' => Z.opp <$> parse_uint s'
      | String "+" s' => parse_uint s'
      | _ => parse_uint s
      end;
  if decide (int64_ok z) then Some z else None.

(** [strconv.FormatInt z 10], also the [%d] verb of [fmt] on an integer. *)
Definition FormatInt (z : Z) : string := pretty z.

Lemma pretty_N_char_digit n : (n < 10)%N -> digit_val (pretty_N_char n) = Some (Z.of_N n).
Proof.
  intros Hn.
  pose proof (N_lt_cases (fun n => bool_decide (digit_val (pretty_N_char n) = Some (Z.of_N n)))
    10 n eq_refl Hn) as H. by apply bool_decide_eq_true_1 in H.
Qed.

Lemma parse_digits_app s s' acc :
  parse_digits acc (s +:+ s') = parse_digits acc s ≫= λ a, parse_digits a s'.
Proof.
  revert acc. induction s as [|c s IH]; intros acc; str_simpl; cbn; [done|].
  destruct (digit_val c); cbn; [apply IH|done].
Qed.

(** The digits [pretty] prints in front of [s]. *)
Lemma pretty_N_go_app n s : pretty_N_go n s = pretty_N_go n "" +:+ s.
Proof.
  revert s. induction (N.lt_wf_0 n) as [n _ IH]; intros s.
  destruct (decide (n = 0)%N) as [->|Hn]; [done|].
  rewrite !(pretty_N_go_step n) by lia.
  assert (n `div` 10 < n)%N by (apply N.div_lt; lia).
  rewrite IH by done. rewrite (IH _ ltac:(done) (String _ "")).
  by rewrite string_app_assoc.
Qed.

Lemma parse_pretty_N_go n : parse_digits 0 (pretty_N_go n "") = Some (Z.of_N n).
Proof.
  induction (N.lt_wf_0 n) as [n _ IH].
  destruct (decide (n = 0)%N) as [->|Hn]; [done|].
  rewrite (pretty_N_go_step n) by lia.
  rewrite pretty_N_go_app, parse_digits_app.
  assert (n `div` 10 < n)%N by (apply N.div_lt; lia).
  rewrite IH by done. cbn.
  rewrite pretty_N_char_digit by (apply N.mod_lt; lia). cbn. f_equal.
  pose proof (N.div_mod' n 10). lia.
Qed.

(** Every byte of a printed natural is a digit. *)
Definition digits_only (s : string) : Prop :=
  forall c, string_elem c s = true -> is_Some (digit_val c).

Lemma pretty_N_go_digits n s : digits_only s -> digits_only (pretty_N_go n s).
Proof.
  revert s. induction (N.lt_wf_0 n) as [n _ IH]; intros s Hs.
  destruct (decide (n = 0)%N) as [->|Hn]; [done|].
  rewrite (pretty_N_go_step n) by lia.
  apply IH; [apply N.div_lt; lia|]. intros c Hc. cbn in Hc.
  apply orb_true_iff in Hc as [Hc|Hc]; [|by apply Hs].
  bool_hyps. subst c. rewrite pretty_N_char_digit by (apply N.mod_lt; lia). eauto.
Qed.

Lemma pretty_pos_eq p : pretty (Zpos p) = pretty_N_go (Npos p) "".
Proof. done. Qed.

Lemma pretty_pos_nonempty p : pretty (Zpos p) <> "".
Proof.
  rewrite pretty_pos_eq, pretty_N_go_step, pretty_N_go_app by lia.
  by destruct (pretty_N_go _ "").
Qed.

(** A byte that is neither a digit nor '-' does not occur in a printed integer. *)
Lemma FormatInt_elem c z :
  digit_val c = None -> c <> "-"%char -> string_elem c (FormatInt z) = false.
Proof.
  intros Hd Hm.
  assert (forall p, string_elem c (pretty (Zpos p)) = false) as Hp.
  { intros p. rewrite pretty_pos_eq. apply not_true_iff_false. intros Hin.
    apply pretty_N_go_digits in Hin; [|by intros ?]. rewrite Hd in Hin. by destruct Hin. }
  destruct z as [|p|p]; [|apply Hp|].
  - cbn. rewrite bool_decide_eq_false_2; [done|]. by intros ->.
  - change (FormatInt (Zneg p)) with ("-" +:+ pretty (Zpos p)).
    str_simpl. cbn. rewrite bool_decide_eq_false_2 by done. apply Hp.
Qed.

Lemma parse_uint_pretty p : parse_uint (pretty (Zpos p)) = Some (Zpos p).
Proof.
  pose proof (pretty_pos_nonempty p) as Hne.
  pose proof (parse_pretty_N_go (Npos p)) as Hp. rewrite <- pretty_pos_eq in Hp.
  by destruct (pretty (Z.pos p)).
Qed.

(** [ParseInt] inverts [FormatInt] on every int64. *)
Lemma ParseInt_FormatInt z : int64_ok z -> ParseInt (FormatInt z) = Some z.
Proof.
  intros Hz. destruct z as [|p|p]; [done| |].
  - unfold ParseInt, FormatInt.
    assert (forall c s, pretty (Zpos p) = String c s -> is_Some (digit_val c)) as Hc.
    { intros c s Hs. apply (pretty_N_go_digits (Npos p) "" ltac:(by intros ?)).
      rewrite <- pretty_pos_eq, Hs. cbn. by rewrite bool_decide_eq_true_2. }
    pose proof (parse_uint_pretty p) as Hp.
    assert (forall r : option Z, r = Some (Zpos p) ->
      (z ← r; if decide (int64_ok z) then Some z else None) = Some (Zpos p)) as Hr.
    { intros r ->. cbn. by rewrite decide_True. }
    apply Hr. destruct (pretty (Z.pos p)) as [|c s] eqn:E; [done|].
    specialize (Hc _ _ eq_refl). rewrite <- Hp.
    destruct c as [[] [] [] [] [] [] [] []]; first [done | by destruct Hc].
  - unfold ParseInt. change (FormatInt (Zneg p)) with ("-" +:+ pretty (Zpos p)).
    str_simpl. rewrite parse_uint_pretty. cbn. by rewrite decide_True.
Qed.

(** ** time

    A [time.Time] is its Unix time in nanoseconds. *)

Definition millisecond : Z := 1000000.
Definition second : Z := 1000 * millisecond.

(** [t.UnixMilli] rounds down; [time.UnixMilli] is exact. *)
Definition UnixMilli (t : Z) : Z := t / millisecond.
Definition time_of_millis (ms : Z) : Z := ms * millisecond.

Lemma UnixMilli_mono t t' : (t <= t')%Z -> (UnixMilli t <= UnixMilli t')%Z.
Proof. apply Z.div_le_mono. done. Qed.

Lemma UnixMilli_lt t ms : (t < time_of_millis ms)%Z <-> (UnixMilli t < ms)%Z.
Proof.
  unfold UnixMilli, time_of_millis, millisecond. split; intros H.
  - apply Z.div_lt_upper_bound; lia.
  - pose proof (Z.mul_succ_div_gt t 1000000). lia.
Qed.

(** ** hash/fnv: the 32-bit FNV-1a hash *)

Definition fnv32_offset : Z := 2166136261.
Definition fnv32_prime : Z := 16777619.

Fixpoint fnv32a_from (h : Z) (s : string) : Z :=
  match s with
  | EmptyString => h
  | String c s' =>
      fnv32a_from ((Z.lxor h (Z.of_N (N_of_ascii c)) * fnv32_prime) mod 2 ^ 32) s'
  end.

(** [fnv.New32a], [Write] and [Sum32] on a whole string. *)
Definition Sum32a (s : string) : Z := fnv32a_from fnv32_offset s.

Lemma fnv32a_from_range h s : (0 <= h < 2 ^ 32)%Z -> (0 <= fnv32a_from h s < 2 ^ 32)%Z.
Proof.
  revert h. induction s as [|c s IH]; intros h Hh; [done|].
  apply IH. apply Z.mod_pos_bound. lia.
Qed.

Lemma Sum32a_range s : (0 <= Sum32a s < 2 ^ 32)%Z.
Proof. apply fnv32a_from_range. by vm_compute. Qed.
