(* ===== verification/GoPath.v ===== *)
(** * path and path/filepath, on Unix

    [Clean], [Join] and [Abs] as executable functions. *)
From S2P Require Import Prelude GoStd.
From stdpp Require Import options.

(** [filepath.IsAbs]. *)
Definition IsAbs (path : string) : bool := HasPrefix path "/".

(** One component of a path against the ones kept so far, last first. *)
Definition clean_step (rooted : bool) (stack : list string) (c : string) : list string :=
  if decide (c = "" \/ c = ".") then stack
  else if decide (c = "..") then
    match stack with
    | top :: stack' => if decide (top = "..") then ".." :: stack else stack'
    | [] => if rooted then [] else [".."]
    end
  else c :: stack.

Definition Clean (path : string) : string :=
  if decide (path = "") then "." else
  let rooted := IsAbs path in
  let body := join_with "/" (reverse (foldl (clean_step rooted) [] (Split "/" path))) in
  if rooted then String "/" body else if decide (body = "") then "." else body.

Definition Join (dir name : string) : string :=
  if decide (dir = "") then (if decide (name = "") then "" else Clean name)
  else Clean (dir +:+ "/" +:+ name).

Definition Abs (cwd path : string) : string := if IsAbs path then Clean path else Join cwd path.

(** ** Facts *)

Lemma IsAbs_slash s : IsAbs s = true <-> exists s', s = String "/" s'.
Proof.
  unfold IsAbs, HasPrefix. destruct s as [|c s]; [split; [done|by intros [? ?]]|].
  cbn [String.prefix]. destruct (ascii_dec "/" c) as [He|Hc]; [subst c|].
  - split; [by eexists|]. intros _. by destruct s.
  - split; [done|]. intros [s' [= He]]. by subst c.
Qed.

Lemma Clean_rooted p : IsAbs p = true -> IsAbs (Clean p) = true.
Proof.
  intros Hp. unfold Clean. rewrite Hp. case_decide; [by subst|]. apply IsAbs_slash. by eexists.
Qed.

Lemma Join_rooted dir name : IsAbs dir = true -> IsAbs (Join dir name) = true.
Proof.
  intros Hd. unfold Join. case_decide; [by subst|]. apply Clean_rooted.
  apply IsAbs_slash in Hd as [d ->]. apply IsAbs_slash. by eexists.
Qed.

Example Clean_tests :
  Clean <$> [""; "a//b/./c/"; "/a/../../b"; "../x/../y"; "a/.."; "/"]
  = ["."; "a/b/c"; "/b"; "../y"; "."; "/"].
Proof. reflexivity. Qed.
