(* ===== verification/GoBytes.v ===== *)
(** * Byte encodings of Go's standard library

    [encoding/hex] and [encoding/base64] (the unpadded URL alphabet), on bytes
    as naturals below 256. *)
From S2P Require Import Prelude GoStd.
From stdpp Require Import options.
Local Open Scope N_scope.

(** ** Bytes *)

Definition byte_ok (b : N) : Prop := b < 256.

Fixpoint bytes_of_string (s : string) : list N :=
  match s with
  | EmptyString => []
  | String c s' => N_of_ascii c :: bytes_of_string s'
  end.

Fixpoint string_of_bytes (l : list N) : string :=
  match l with
  | [] => EmptyString
  | b :: l' => String (ascii_of_N b) (string_of_bytes l')
  end.

Lemma bytes_of_string_ok s : Forall byte_ok (bytes_of_string s).
Proof. induction s; constructor; [apply N_ascii_bounded|done]. Qed.

Lemma bytes_of_string_inj s s' : bytes_of_string s = bytes_of_string s' -> s = s'.
Proof.
  revert s'. induction s as [|c s IH]; intros [|c' s'] H; simplify_eq/=; [done|].
  f_equal; [|by apply IH]. rewrite <- (ascii_N_embedding c), <- (ascii_N_embedding c').
  congruence.
Qed.

Lemma bytes_of_string_length s : length (bytes_of_string s) = String.length s.
Proof. induction s; cbn; congruence. Qed.

(** ** encoding/hex: [EncodeToString] *)

Definition hex_digit (n : N) : ascii :=
  ascii_of_N (if decide (n < 10) then 48 + n else 87 + n).

Fixpoint hex_encode (l : list N) : string :=
  match l with
  | [] => EmptyString
  | b :: l' => String (hex_digit (b / 16)) (String (hex_digit (b mod 16)) (hex_encode l'))
  end.

Definition is_hex_digit (c : ascii) : bool :=
  let n := N_of_ascii c in
  bool_decide (48 <= n <= 57) || bool_decide (97 <= n <= 102).

Fixpoint string_forall (f : ascii -> bool) (s : string) : bool :=
  match s with
  | EmptyString => true
  | String c s' => f c && string_forall f s'
  end.

Lemma hex_digit_is_hex n : n < 16 -> is_hex_digit (hex_digit n) = true.
Proof.
  apply (N_lt_cases (fun n => is_hex_digit (hex_digit n)) 16). by vm_compute.
Qed.

Lemma hex_encode_hex l : Forall byte_ok l -> string_forall is_hex_digit (hex_encode l) = true.
Proof.
  induction 1 as [|b l Hb _ IH]; [done|]. cbn.
  rewrite !hex_digit_is_hex, IH; [done| |].
  - apply N.mod_lt. lia.
  - unfold byte_ok in Hb. apply N.Div0.div_lt_upper_bound. lia.
Qed.

Lemma hex_encode_length l : String.length (hex_encode l) = (2 * length l)%nat.
Proof. induction l as [|b l IH]; cbn in *; [done|]. rewrite IH. lia. Qed.

Lemma string_forall_elem f s c :
  string_forall f s = true -> f c = false -> string_elem c s = false.
Proof.
  induction s as [|d s IH]; intros Hs Hc; cbn in *; [done|]. bool_hyps.
  rewrite bool_decide_eq_false_2 by congruence. by apply IH.
Qed.

(** ** encoding/base64: [RawURLEncoding] *)

Definition b64_char (n : N) : ascii :=
  ascii_of_N (if decide (n < 26) then 65 + n
              else if decide (n < 52) then 71 + n
              else if decide (n < 62) then n - 4
              else if decide (n = 62) then 45 else 95).

(** The decode map: [None] for a byte outside the alphabet. *)
Definition b64_val (c : ascii) : option N :=
  let n := N_of_ascii c in
  if decide (65 <= n <= 90) then Some (n - 65)
  else if decide (97 <= n <= 122) then Some (n - 71)
  else if decide (48 <= n <= 57) then Some (n + 4)
  else if decide (n = 45) then Some 62
  else if decide (n = 95) then Some 63 else None.

(** [EncodeToString] without padding. *)
Fixpoint b64_encode (l : list N) : string :=
  match l with
  | [] => EmptyString
  | [a] => String (b64_char (a / 4)) (String (b64_char ((a mod 4) * 16)) EmptyString)
  | [a; b] =>
      String (b64_char (a / 4))
        (String (b64_char ((a mod 4) * 16 + b / 16))
          (String (b64_char ((b mod 16) * 4)) EmptyString))
  | a :: b :: c :: l' =>
      String (b64_char (a / 4))
        (String (b64_char ((a mod 4) * 16 + b / 16))
          (String (b64_char ((b mod 16) * 4 + c / 64))
            (String (b64_char (c mod 64)) (b64_encode l'))))
  end.

(** [DecodeString] drops CR and LF, refuses every other byte outside the
    alphabet and a lone final character, and (outside strict mode, which the
    program does not use) ignores the unused low bits of the last group. *)
Fixpoint b64_sextets (s : string) : option (list N) :=
  match s with
  | EmptyString => Some []
  | String c s' =>
      if decide (c = "010"%char \/ c = "013"%char) then b64_sextets s'
      else v ← b64_val c; vs ← b64_sextets s'; Some (v :: vs)
  end.

Fixpoint b64_groups (l : list N) : option (list N) :=
  match l with
  | [] => Some []
  | [_] => None
  | [a; b] => Some [a * 4 + b / 16]
  | [a; b; c] => Some [a * 4 + b / 16; (b mod 16) * 16 + c / 4]
  | a :: b :: c :: d :: l' =>
      r ← b64_groups l';
      Some (a * 4 + b / 16 :: (b mod 16) * 16 + c / 4 :: (c mod 4) * 64 + d :: r)
  end.

Definition b64_decode (s : string) : option (list N) := b64_sextets s ≫= b64_groups.

Lemma b64_char_val n :
  n < 64 -> b64_val (b64_char n) = Some n
            /\ b64_char n <> "010"%char /\ b64_char n <> "013"%char.
Proof.
  set (f := fun n => bool_decide (b64_val (b64_char n) = Some n)
    && bool_decide (b64_char n <> "010"%char) && bool_decide (b64_char n <> "013"%char)).
  intros Hn. assert (f n = true) as H by (by apply (N_lt_cases f 64); [vm_compute|]).
  subst f. cbn beta in H.
  by bool_hyps.
Qed.

(** The sextets [b64_encode] prints. *)
Fixpoint b64_split (l : list N) : list N :=
  match l with
  | [] => []
  | [a] => [a / 4; (a mod 4) * 16]
  | [a; b] => [a / 4; (a mod 4) * 16 + b / 16; (b mod 16) * 4]
  | a :: b :: c :: l' =>
      a / 4 :: (a mod 4) * 16 + b / 16 :: (b mod 16) * 4 + c / 64 :: c mod 64 :: b64_split l'
  end.

Ltac forall_hyps :=
  repeat match goal with
  | H : Forall _ (_ :: _) |- _ => apply Forall_cons in H as [? ?]
  | H : Forall _ [] |- _ => clear H
  end.

Lemma list_ind3 {A} (P : list A -> Prop) :
  P [] -> (forall a, P [a]) -> (forall a b, P [a; b]) ->
  (forall a b c l, P l -> P (a :: b :: c :: l)) -> forall l, P l.
Proof.
  intros H0 H1 H2 H3 l.
  enough (P l /\ (forall a, P (a :: l)) /\ (forall a b, P (a :: b :: l))) by tauto.
  induction l as [|x l (Hl & Hl1 & Hl2)]; [done|]. auto.
Qed.

Ltac solve_sextet :=
  unfold byte_ok in *; zify; Z.to_euclidean_division_equations; lia.

Lemma b64_split_ok l : Forall byte_ok l -> Forall (fun n => n < 64) (b64_split l).
Proof.
  induction l using list_ind3; intros Hl; forall_hyps; cbn;
    repeat constructor; [solve_sextet..|auto].
Qed.

Lemma b64_sextets_cons n s :
  n < 64 -> b64_sextets (String (b64_char n) s) = vs ← b64_sextets s; Some (n :: vs).
Proof.
  intros Hn. destruct (b64_char_val n Hn) as (Hv & H10 & H13). cbn.
  rewrite decide_False by tauto. by rewrite Hv.
Qed.

Lemma b64_encode_sextets l :
  Forall byte_ok l -> b64_sextets (b64_encode l) = Some (b64_split l).
Proof.
  induction l using list_ind3; intros Hl; pose proof (b64_split_ok _ Hl) as Hs;
    cbn [b64_encode b64_split] in *; forall_hyps;
    rewrite ?b64_sextets_cons by done; [done..|]. by rewrite IHl.
Qed.

Lemma b64_groups_split l : Forall byte_ok l -> b64_groups (b64_split l) = Some l.
Proof.
  induction l using list_ind3; intros Hl; forall_hyps;
    cbn [b64_split b64_groups]; rewrite ?IHl by done; cbn; apply (f_equal Some);
    repeat (apply (f_equal2 cons); [solve_sextet|]); done.
Qed.

(** Decoding inverts encoding. *)
Lemma b64_decode_encode l : Forall byte_ok l -> b64_decode (b64_encode l) = Some l.
Proof.
  intros Hl. unfold b64_decode. rewrite b64_encode_sextets by done. cbn.
  by apply b64_groups_split.
Qed.
