(* ===== verification/GoFmt.v ===== *)
(** * float64, and how [fmt] prints numbers and durations

    A float64 is [SpecFloat]'s [spec_float] with 53 bits and exponents up to
    1024; its arithmetic is correctly rounded.  [fmt_f prec] is the verb
    [%.<prec>f]: the exact binary value, rounded to the nearest decimal with
    [prec] places, ties to even.  [Duration_String] is [time.Duration]'s
    [String]. *)
From Stdlib Require Import SpecFloat.
From S2P Require Import Prelude GoStd.
From stdpp Require Import options.

Local Open Scope Z_scope.

(** ** float64 *)

Definition of_int (n : Z) : spec_float := binary_normalize 53 1024 n 0 false.
Definition fmul : spec_float -> spec_float -> spec_float := SFmul 53 1024.
Definition fadd : spec_float -> spec_float -> spec_float := SFadd 53 1024.
Definition fdiv : spec_float -> spec_float -> spec_float := SFdiv 53 1024.

(** [int(f)]: towards zero.  Out of range the result is the processor's, amd64's
    here. *)
Definition trunc (f : spec_float) : Z :=
  match f with
  | S754_zero _ => 0
  | S754_finite s m e =>
      let a := if 0 <=? e then Z.shiftl (Zpos m) e else Z.shiftr (Zpos m) (- e) in
      let z := if s then - a else a in
      if decide (int64_ok z) then z else int64_min
  | _ => int64_min
  end.

(** ** Decimals *)

(** The last [k] digits of [z], with their leading zeros. *)
Fixpoint low_digits (k : nat) (z : Z) : string :=
  match k with
  | O => ""
  | S k => low_digits k (z `div` 10) +:+ String (pretty_N_char (Z.to_N (z `mod` 10))) ""
  end.

(** [z] tenths, hundredths, ... *)
Definition fixed (prec : nat) (z : Z) : string :=
  FormatInt (z `div` 10 ^ Z.of_nat prec)
  +:+ (if decide (prec = 0%nat) then "" else String "." (low_digits prec z)).

(** The nearest integer to [n / d], ties to even. *)
Definition round_even (n d : Z) : Z :=
  let q := n `div` d in
  match (2 * (n `mod` d) ?= d) with
  | Lt => q
  | Gt => q + 1
  | Eq => if Z.even q then q else q + 1
  end.

(** [m * 2 ^ e] in units of the last decimal place. *)
Definition scaled (prec : nat) (m : positive) (e : Z) : Z :=
  let n := Zpos m * 10 ^ Z.of_nat prec in
  if 0 <=? e then n * 2 ^ e else round_even n (2 ^ (- e)).

Definition minus (s : bool) : string := if s then "-" else "".

(** [%.<prec>f]. *)
Definition fmt_f (prec : nat) (f : spec_float) : string :=
  match f with
  | S754_zero s => minus s +:+ fixed prec 0
  | S754_infinity s => (if s then "-" else "+") +:+ "Inf"
  | S754_nan => "NaN"
  | S754_finite s m e => minus s +:+ fixed prec (scaled prec m e)
  end.

(** ** time.Duration *)

(** [d.Seconds()]. *)
Definition Seconds (d : Z) : spec_float :=
  fadd (of_int (Z.quot d second)) (fdiv (of_int (Z.rem d second)) (of_int 1000000000)).

Fixpoint trim_zeros (s : string) : string :=
  match s with
  | EmptyString => ""
  | String c s' =>
      let t := trim_zeros s' in
      if bool_decide (t = "") && bool_decide (c = "0"%char) then "" else String c t
  end.

(** [fmtFrac]: the last [prec] digits behind a point, without trailing zeros. *)
Definition fmt_frac (prec : nat) (z : Z) : string :=
  let s := trim_zeros (low_digits prec z) in if decide (s = "") then "" else String "." s.

Definition Duration_String (d : Z) : string :=
  let u := Z.abs d in
  let unit_of prec := FormatInt (u `div` 10 ^ Z.of_nat prec) +:+ fmt_frac prec u in
  let neg := minus (d <? 0) in
  if decide (u = 0) then "0s"
  else if decide (u < 1000) then neg +:+ unit_of 0%nat +:+ "ns"
  else if decide (u < millisecond) then neg +:+ unit_of 3%nat +:+ "µs"
  else if decide (u < second) then neg +:+ unit_of 6%nat +:+ "ms"
  else
    let s := u `div` second in
    let m := s `div` 60 in
    let h := m `div` 60 in
    let secs := FormatInt (s `mod` 60) +:+ fmt_frac 9 u +:+ "s" in
    let mins := if decide (m = 0) then "" else FormatInt (m `mod` 60) +:+ "m" in
    let hours := if decide (h = 0) then "" else FormatInt h +:+ "h" in
    neg +:+ hours +:+ mins +:+ secs.

Example fmt_examples :
  fmt_f 1 (fdiv (of_int 514199) (of_int 1000)) = "514.2"
  /\ fmt_f 2 (fdiv (of_int 141770) (of_int 14981)) = "9.46"
  /\ (fmt_f 0 <$> [fdiv (of_int 1) (of_int 2); fdiv (of_int 3) (of_int 2); of_int (-7)]) = ["0"; "2"; "-7"]
  /\ fmt_f 1 (fdiv (of_int 1) (of_int 4)) = "0.2"
  /\ fmt_f 1 (fdiv (of_int (-1)) (of_int 100)) = "-0.0"
  /\ fmt_f 1 (fdiv (of_int 1) (of_int 0)) = "+Inf"
  /\ fmt_f 0 (fdiv (of_int 0) (of_int 0)) = "NaN"
  /\ (Duration_String <$> [0; 30 * second; 90 * second; 3600 * second; 1500 * millisecond; 1500; -7])
     = ["0s"; "30s"; "1m30s"; "1h0m0s"; "1.5s"; "1.5µs"; "-7ns"].
Proof. by vm_compute. Qed.

(** ** What a printed number holds *)

(** A byte that is neither a digit nor one of [+ - . I n f N a]. *)
Definition no_number_byte (c : ascii) : bool :=
  bool_decide (digit_val c = None) && negb (string_elem c "+-.InfNa").

Lemma low_digits_elem c k z : digit_val c = None -> string_elem c (low_digits k z) = false.
Proof.
  intros Hc. revert z. induction k as [|k IH]; intros z; cbn; [done|].
  rewrite string_elem_app, IH. cbn. rewrite bool_decide_eq_false_2; [done|].
  intros ->. pose proof (Z.mod_pos_bound z 10 ltac:(lia)).
  rewrite pretty_N_char_digit in Hc by lia. done.
Qed.

Lemma fixed_elem c prec z : no_number_byte c = true -> string_elem c (fixed prec z) = false.
Proof.
  unfold no_number_byte. intros Hc. bool_hyps. cbn in *. bool_hyps.
  unfold fixed. rewrite string_elem_app, FormatInt_elem by (try congruence; done).
  case_decide; [done|]. cbn. rewrite low_digits_elem by done. rewrite bool_decide_eq_false_2; [done|congruence].
Qed.

Lemma fmt_f_elem c prec f : no_number_byte c = true -> string_elem c (fmt_f prec f) = false.
Proof.
  intros Hc. pose proof Hc as Hb. unfold no_number_byte in Hb. bool_hyps. cbn in *. bool_hyps.
  destruct f as [[]|[]| |[] m e]; cbn [fmt_f minus]; rewrite ?string_elem_app, ?fixed_elem by done;
    cbn; rewrite ?bool_decide_eq_false_2 by congruence; done.
Qed.

(** The printed decimal is the value, to half a unit of the last place. *)
Lemma round_even_near n d : 0 < d -> Z.abs (2 * (round_even n d * d - n)) <= d.
Proof.
  intros Hd. unfold round_even. pose proof (Z.div_mod n d ltac:(lia)). pose proof (Z.mod_pos_bound n d Hd).
  set (q := n `div` d) in *. set (r := n `mod` d) in *.
  destruct (Z.compare_spec (2 * r) d); [destruct (Z.even q)| |]; nia.
Qed.

Lemma trim_zeros_elem c s : string_elem c s = false -> string_elem c (trim_zeros s) = false.
Proof.
  induction s as [|d s IH]; [done|]. cbn. intros [Hd Hs]%orb_false_iff.
  destruct (_ && _); [done|]. cbn. by rewrite Hd, IH.
Qed.

Lemma fmt_frac_elem c prec z : digit_val c = None -> c <> "."%char -> string_elem c (fmt_frac prec z) = false.
Proof.
  intros Hc Hp. unfold fmt_frac. case_decide; [done|]. cbn.
  rewrite bool_decide_eq_false_2 by done. by apply trim_zeros_elem, low_digits_elem.
Qed.

(** A printed duration holds digits, the point, the sign and its units. *)
Lemma Duration_String_elem c d :
  digit_val c = None -> string_elem c "-.hmnµs" = false -> string_elem c (Duration_String d) = false.
Proof.
  intros Hd Hc. cbn in Hc. bool_hyps.
  assert (forall z, string_elem c (FormatInt z) = false) as Hi by (intros; apply FormatInt_elem; congruence).
  assert (forall p z, string_elem c (fmt_frac p z) = false) as Hf by (intros; apply fmt_frac_elem; congruence).
  assert (forall b, string_elem c (minus b) = false) as Hs.
  { intros []; cbn; [|done]. rewrite bool_decide_eq_false_2; [done|congruence]. }
  assert (c <> "0"%char) as Hz by (intros ->; done).
  unfold Duration_String. repeat case_decide; rewrite ?string_elem_app, ?Hi, ?Hf, ?Hs; cbn;
    by rewrite ?bool_decide_eq_false_2 by congruence.
Qed.
