(* ===== verification/GoSha256.v ===== *)
(** * crypto/sha256 and crypto/hmac

    Executable SHA-256 and HMAC-SHA-256 on lists of bytes.  The round
    constants and the initial state are not transcribed: they are computed
    from their definition, the leading 32 bits of the fractional parts of the
    cube and square roots of the first primes, and test vectors check the
    result.  The properties of the token layer treat the hash as a black box;
    only the length and range facts below are used. *)
From S2P Require Import Prelude GoStd GoBytes.
From stdpp Require Import options.
Local Open Scope N_scope.

(** ** Constants *)

(** The largest [x < 2 ^ bits] with [x ^ k <= n], one bit at a time. *)
Fixpoint iroot_from (k n x : N) (bits : nat) : N :=
  match bits with
  | O => x
  | S b => let y := x + 2 ^ N.of_nat b in
           iroot_from k n (if decide (y ^ k <= n) then y else x) b
  end.

Definition is_prime (n : nat) : bool :=
  forallb (fun d => negb (Nat.eqb (Nat.modulo n d) 0)) (seq 2 (n - 2)).

(** The leading 32 fractional bits of the [k]-th root of [p]. *)
Definition root_frac (k p : N) : N :=
  iroot_from k (p * 2 ^ (32 * k)) 0 36 mod 2 ^ 32.

Definition primes : list N :=
  Eval vm_compute in take 64 (N.of_nat <$> List.filter is_prime (seq 2 312)).

Definition sha_K : list N := Eval vm_compute in root_frac 3 <$> primes.
Definition sha_H0 : list N := Eval vm_compute in root_frac 2 <$> take 8 primes.

(** ** The compression function *)

Definition mask32 : N := 4294967295.
Definition add32 (x y : N) : N := N.land (x + y) mask32.
Definition rotr (x n : N) : N :=
  N.lor (N.shiftr x n) (N.land (N.shiftl x (32 - n)) mask32).
Definition xor3 (x y z : N) : N := N.lxor x (N.lxor y z).

Definition ch (x y z : N) : N := N.lxor (N.land x y) (N.land (N.lxor x mask32) z).
Definition maj (x y z : N) : N := xor3 (N.land x y) (N.land x z) (N.land y z).
Definition big0 (x : N) : N := xor3 (rotr x 2) (rotr x 13) (rotr x 22).
Definition big1 (x : N) : N := xor3 (rotr x 6) (rotr x 11) (rotr x 25).
Definition small0 (x : N) : N := xor3 (rotr x 7) (rotr x 18) (N.shiftr x 3).
Definition small1 (x : N) : N := xor3 (rotr x 17) (rotr x 19) (N.shiftr x 10).

(** The message schedule, newest word first. *)
Fixpoint schedule (n : nat) (w : list N) : list N :=
  match n with
  | O => w
  | S n' =>
      let t := add32 (add32 (small1 (nth 1 w 0)) (nth 6 w 0))
                     (add32 (small0 (nth 14 w 0)) (nth 15 w 0)) in
      schedule n' (t :: w)
  end.

Definition round (s : list N) (kw : N * N) : list N :=
  match s with
  | [a; b; c; d; e; f; g; h] =>
      let t1 := add32 h (add32 (big1 e) (add32 (ch e f g) (add32 kw.1 kw.2))) in
      let t2 := add32 (big0 a) (maj a b c) in
      [add32 t1 t2; a; b; c; add32 d t1; e; f; g]
  | _ => s
  end.

Definition compress (h block : list N) : list N :=
  let w := rev (schedule 48 (rev block)) in
  zip_with add32 h (foldl round h (zip sha_K w)).

(** ** Padding and the digest *)

Definition be_bytes (n : nat) (x : N) : list N :=
  (fun i => N.shiftr x (8 * N.of_nat i) mod 256) <$> rev (seq 0 n).

Fixpoint be_words (l : list N) : list N :=
  match l with
  | a :: b :: c :: d :: l' => ((a * 256 + b) * 256 + c) * 256 + d :: be_words l'
  | _ => []
  end.

Definition sha_pad (m : list N) : list N :=
  let n := length m in
  m ++ 128 :: replicate ((119 - n mod 64) mod 64)%nat 0 ++ be_bytes 8 (8 * N.of_nat n).

Fixpoint blocks (fuel : nat) (h : list N) (ws : list N) : list N :=
  match fuel with
  | O => h
  | S f => match ws with
           | [] => h
           | _ => blocks f (compress h (take 16 ws)) (drop 16 ws)
           end
  end.

(** [sha256.Sum256]: the fuel, one unit per word, exceeds the block count. *)
Definition sha256 (m : list N) : list N :=
  let ws := be_words (sha_pad m) in
  mbind (be_bytes 4) (blocks (length ws) sha_H0 ws).

(** ** HMAC: [hmac.New(sha256.New, key)], [Write], [Sum] *)

Definition hmac_key (key : list N) : list N :=
  let k := if decide (length key <= 64)%nat then key else sha256 key in
  k ++ replicate (64 - length k) 0.

Definition hmac_sha256 (key m : list N) : list N :=
  let k := hmac_key key in
  sha256 ((N.lxor 92 <$> k) ++ sha256 ((N.lxor 54 <$> k) ++ m)).

(** ** Facts *)

(** The mask is reduction modulo [2 ^ 32]. *)
Lemma add32_mod x y : add32 x y = (x + y) mod 2 ^ 32.
Proof. unfold add32. change mask32 with (N.ones 32). apply N.land_ones. Qed.

Lemma be_bytes_ok n x : Forall byte_ok (be_bytes n x).
Proof.
  apply Forall_fmap, Forall_forall. intros i _. apply N.mod_lt. lia.
Qed.

Lemma sha256_ok m : Forall byte_ok (sha256 m).
Proof.
  apply Forall_bind, Forall_forall. intros w _. apply be_bytes_ok.
Qed.

Lemma hmac_ok key m : Forall byte_ok (hmac_sha256 key m).
Proof. apply sha256_ok. Qed.

(** Test vectors: the digests of "abc" and of the empty string, and RFC 4231
    case 2. *)
Example sha256_abc :
  hex_encode (sha256 (bytes_of_string "abc"))
  = "ba7816bf8f01cfea414140de5dae2223b00361a396177a9cb410ff61f20015ad".
Proof. vm_compute. reflexivity. Qed.

Example hmac_rfc4231_2 :
  hex_encode (hmac_sha256 (bytes_of_string "Jefe")
    (bytes_of_string "what do ya want for nothing?"))
  = "5bdcc146bf60754e6a042426089575c75a003f089d2739839dec58b964ec3843".
Proof. vm_compute. reflexivity. Qed.
