(* ===== verification/Token.v ===== *)
(** * internal/auth: API key secrets, subscribe tokens and the replay cache

    [keys.go] is [Keys], [token.go] is the rest.  Random bytes and clock
    readings are arguments: [rnd] is what [rand.Read] filled in, or [None]
    when it failed, and [now] is the value of [time.Now] in nanoseconds. *)
From S2P Require Import Prelude GoStd GoBytes GoSha256.
From stdpp Require Import options.
Local Open Scope Z_scope.

(** ** keys.go *)
Module Keys.

Definition GenerateSecret (rnd : option (list N)) : option string :=
  hex_encode <$> rnd.

Definition HashSecret (secret : string) : string :=
  hex_encode (sha256 (bytes_of_string secret)).

(** [subtle.ConstantTimeCompare] returns 1 on equal slices only. *)
Definition VerifySecret (secret hash : string) : bool :=
  bool_decide (HashSecret secret = hash).

End Keys.

(** ** token.go: signing *)

Inductive token_err : Type :=
  | ErrTokenMalformed
  | ErrTokenExpired
  | ErrTokenInvalid
  | ErrTokenReplayed.

#[export] Instance token_err_eq_dec : EqDecision token_err.
Proof. solve_decision. Defined.

Definition jtiHexLen : nat := 32.

(** The MAC input: a version tag and length-prefixed fields. *)
Definition macPayload (expMs : Z) (socketID channel jti : string) : string :=
  "v1|" +:+ FormatInt expMs +:+ "|" +:+
  FormatInt (Z.of_nat (String.length socketID)) +:+ ":" +:+ socketID +:+ "|" +:+
  FormatInt (Z.of_nat (String.length channel)) +:+ ":" +:+ channel +:+ "|" +:+ jti.

(** The MAC [SignToken] and [VerifyTokenAgainst] both compute. *)
Definition token_mac (secret : string) (expMs : Z) (socketID channel jti : string) : list N :=
  hmac_sha256 (bytes_of_string secret)
    (bytes_of_string (macPayload expMs socketID channel jti)).

Definition SignToken (rnd : option (list N)) (secret socketID channel : string)
    (expiry : Z) : option string :=
  let expMs := UnixMilli expiry in
  jtiBytes ← rnd;
  let jti := hex_encode jtiBytes in
  Some (FormatInt expMs +:+ ":" +:+ jti +:+ ":" +:+
        b64_encode (token_mac secret expMs socketID channel jti)).

Definition validJTI (s : string) : bool :=
  if decide (String.length s <> jtiHexLen) then false else string_forall is_hex_digit s.

(** ** token.go: the replay cache *)

(** [ReplayCache.seen]: jti to expiry. *)
Abbreviation ReplayCache := (gmap string Z).

Definition NewReplayCache : ReplayCache := ∅.

Definition CheckAndRecord (jti : string) (exp : Z) (c : ReplayCache) : bool * ReplayCache :=
  match c !! jti with
  | Some _ => (false, c)
  | None => (true, <[jti := exp]> c)
  end.

(** [Sweep] deletes an entry unless [now.Before(exp)], and counts them. *)
Definition Sweep (now : Z) (c : ReplayCache) : nat * ReplayCache :=
  (size (filter (fun e => ~ now < e.2) c), filter (fun e => now < e.2) c).

Definition Len (c : ReplayCache) : nat := size c.

(** ** token.go: verification *)

Definition VerifyTokenAgainst (now : Z) (secret socketID channel tok : string)
    (cache : option ReplayCache) : res token_err unit * option ReplayCache :=
  match SplitN ":" 3 tok with
  | [p0; jti; p2] =>
      match ParseInt p0 with
      | None => (Err ErrTokenMalformed, cache)
      | Some expMs =>
          if expMs <? UnixMilli now then (Err ErrTokenExpired, cache) else
          if negb (validJTI jti) then (Err ErrTokenMalformed, cache) else
          match b64_decode p2 with
          | None => (Err ErrTokenMalformed, cache)
          | Some sig =>
              if decide (sig = token_mac secret expMs socketID channel jti) then
                match cache with
                | None => (Ok tt, None)
                | Some c =>
                    let '(fresh, c') := CheckAndRecord jti (time_of_millis expMs) c in
                    ((if fresh then Ok tt else Err ErrTokenReplayed), Some c')
                end
              else (Err ErrTokenInvalid, cache)
          end
      end
  | _ => (Err ErrTokenMalformed, cache)
  end.

(** [VerifyToken] runs without replay protection. *)
Definition VerifyToken (now : Z) (secret socketID channel tok : string) : res token_err unit :=
  (VerifyTokenAgainst now secret socketID channel tok None).1.

(** ** What an accepted token carries *)

(** [tok] decodes to expiry [expMs], identifier [jti] and signature [sig]. *)
Definition token_parts (tok : string) (expMs : Z) (jti : string) (sig : list N) : Prop :=
  exists p0 p2, SplitN ":" 3 tok = [p0; jti; p2] /\ ParseInt p0 = Some expMs
    /\ validJTI jti = true /\ b64_decode p2 = Some sig.

Lemma token_parts_inj tok e j s e' j' s' :
  token_parts tok e j s -> token_parts tok e' j' s' -> e = e' /\ j = j' /\ s = s'.
Proof.
  intros (p0 & p2 & Hs & Hp & _ & Hd) (q0 & q2 & Hs' & Hp' & _ & Hd').
  rewrite Hs in Hs'. by simplify_eq.
Qed.

(** Acceptance, in one equivalence: the parts verify and the identifier is new
    to the cache, which then records it. *)
Lemma VerifyTokenAgainst_ok now secret sid ch tok cache cache' :
  VerifyTokenAgainst now secret sid ch tok cache = (Ok tt, cache') <->
  exists expMs jti sig, token_parts tok expMs jti sig
    /\ UnixMilli now <= expMs
    /\ sig = token_mac secret expMs sid ch jti
    /\ match cache with
       | None => cache' = None
       | Some c => c !! jti = None /\ cache' = Some (<[jti := time_of_millis expMs]> c)
       end.
Proof.
  unfold VerifyTokenAgainst, token_parts. split.
  - intros H. destruct (SplitN _ _ _) as [|p0 [|jti [|p2 [|]]]]; try done.
    destruct (ParseInt p0) as [e|] eqn:Hp; [|done].
    destruct (e <? UnixMilli now) eqn:He; [done|].
    destruct (validJTI jti) eqn:Hj; [|done]. cbn in H.
    destruct (b64_decode p2) as [s|] eqn:Hd; [|done]. case_decide; [|done].
    bool_hyps. exists e, jti, s. split; [by eauto 10|]. do 2 (split; [done|]).
    destruct cache as [c|]; [|by simplify_eq]. unfold CheckAndRecord in H.
    destruct (c !! jti) eqn:Hc; by simplify_eq.
  - intros (e & jti & s & (p0 & p2 & -> & -> & -> & ->) & He & -> & Hc).
    rewrite (proj2 (Z.ltb_ge _ _)) by done. cbn. rewrite decide_True by done.
    destruct cache as [c|]; [|by subst]. destruct Hc as [Hc ->].
    unfold CheckAndRecord. by rewrite Hc.
Qed.

(** ** Sequences of cache operations

    The cache is guarded by one mutex, so what concurrent subscribes and the
    sweeper do to it is a sequence of whole operations. *)

Inductive cache_op : Type :=
  | CRecord (jti : string) (exp : Z)
  | CSweep (now : Z).

Definition cache_step (o : cache_op) (c : ReplayCache) : ReplayCache :=
  match o with
  | CRecord jti exp => (CheckAndRecord jti exp c).2
  | CSweep now => (Sweep now c).2
  end.

Definition cache_run (ops : list cache_op) (c : ReplayCache) : ReplayCache :=
  foldl (fun c o => cache_step o c) c ops.

(** A sweep late enough to evict an entry that expires at [exp]. *)
Definition evicts (exp : Z) (o : cache_op) : Prop :=
  match o with CSweep now => exp <= now | CRecord _ _ => False end.

#[export] Instance evicts_dec exp o : Decision (evicts exp o).
Proof. destruct o; unfold evicts; apply _. Defined.

(** Whole verifications and sweeps, at the clock readings they make. *)
Inductive token_op : Type :=
  | TVerify (now : Z) (secret socketID channel tok : string)
  | TSweep (now : Z).

Definition token_op_time (o : token_op) : Z :=
  match o with TVerify now _ _ _ _ => now | TSweep now => now end.

Definition token_step (o : token_op) (c : ReplayCache) : ReplayCache :=
  match o with
  | TVerify now secret sid ch tok =>
      default c (VerifyTokenAgainst now secret sid ch tok (Some c)).2
  | TSweep now => (Sweep now c).2
  end.

Definition token_run (ops : list token_op) (c : ReplayCache) : ReplayCache :=
  foldl (fun c o => token_step o c) c ops.

(** ** Signing *)

Lemma FormatInt_no_sep c z : c = ":"%char \/ c = "|"%char -> string_elem c (FormatInt z) = false.
Proof. intros Hc. apply FormatInt_elem; by destruct Hc as [->| ->]. Qed.

Lemma hex_no_colon l : Forall byte_ok l -> string_elem ":" (hex_encode l) = false.
Proof. intros Hl. by apply (string_forall_elem is_hex_digit); [apply hex_encode_hex|]. Qed.

Lemma validJTI_hex l : Forall byte_ok l -> length l = 16%nat -> validJTI (hex_encode l) = true.
Proof.
  intros Hl Hlen. unfold validJTI, jtiHexLen. rewrite hex_encode_length, Hlen.
  rewrite decide_False by (intros []; done). by apply hex_encode_hex.
Qed.

(** The three parts of a signed token. *)
Lemma SignToken_parts rnd secret sid ch expiry tok :
  SignToken (Some rnd) secret sid ch expiry = Some tok ->
  Forall byte_ok rnd -> length rnd = 16%nat -> int64_ok (UnixMilli expiry) ->
  token_parts tok (UnixMilli expiry) (hex_encode rnd)
    (token_mac secret (UnixMilli expiry) sid ch (hex_encode rnd)).
Proof.
  intros Htok Hb Hlen Hexp. unfold SignToken in Htok. cbn [mbind option_bind] in Htok.
  injection Htok as <-. eexists _, _. split; [|split; [by apply ParseInt_FormatInt|]].
  - change (":" +:+ ?s) with (String ":" s). cbn [SplitN].
    rewrite Cut_app by (apply FormatInt_no_sep; auto).
    str_simpl. by rewrite Cut_app by (by apply hex_no_colon).
  - split; [by apply validJTI_hex|]. apply b64_decode_encode, hmac_ok.
Qed.

(** The MAC input determines every field: nothing can move from one field into
    its neighbour. *)
Lemma macPayload_inj e sid ch jti e' sid' ch' jti' :
  macPayload e sid ch jti = macPayload e' sid' ch' jti' ->
  e = e' /\ sid = sid' /\ ch = ch' /\ jti = jti'.
Proof.
  unfold macPayload. intros H. apply (inj (String.append "v1|")) in H.
  assert (forall c s s' x x', c = ":"%char \/ c = "|"%char ->
    FormatInt x +:+ String c s = FormatInt x' +:+ String c s' -> x = x' /\ s = s') as Hsep.
  { intros c s s' x x' Hc Hs.
    apply string_sep_inj in Hs as [Hx ->]; [|by apply FormatInt_no_sep..].
    unfold FormatInt in Hx. by apply (inj pretty) in Hx. }
  assert (forall s s' t t' : string,
    FormatInt (Z.of_nat (String.length s)) +:+ ":" +:+ s +:+ t
    = FormatInt (Z.of_nat (String.length s')) +:+ ":" +:+ s' +:+ t' -> s = s' /\ t = t') as Hfld.
  { intros s s' t t' Hs. apply Hsep in Hs as [Hl Hs]; [|auto].
    apply Nat2Z.inj in Hl. by apply string_app_inj_len in Hs. }
  apply Hsep in H as [-> H]; [|auto].
  apply Hfld in H as [-> H]. apply (inj (String.append "|")) in H.
  apply Hfld in H as [-> H]. by apply (inj (String.append "|")) in H.
Qed.

(** C8. Sign and verify round trip. A token minted for a socket and a channel
    verifies for them until its expiry while its identifier is unused, and
    verifying records the identifier with that expiry. *)
Theorem sign_verify now rnd secret sid ch expiry tok c :
  SignToken (Some rnd) secret sid ch expiry = Some tok ->
  Forall byte_ok rnd -> length rnd = 16%nat -> int64_ok (UnixMilli expiry) ->
  UnixMilli now <= UnixMilli expiry ->
  c !! hex_encode rnd = None ->
  VerifyTokenAgainst now secret sid ch tok (Some c)
  = (Ok tt, Some (<[hex_encode rnd := time_of_millis (UnixMilli expiry)]> c)).
Proof.
  intros Htok Hb Hlen Hexp Hnow Hc. apply VerifyTokenAgainst_ok.
  eexists _, _, _. split; [by eapply SignToken_parts|]. done.
Qed.

(** C9. Tokens are bound. If a signed token is accepted for some socket and
    channel, it has not expired, and either they are the ones it was signed for,
    or the MAC inputs of the two (expiry, socket, channel and identifier) are
    different strings with the same HMAC-SHA256 under the secret: nothing but a
    collision of those two very strings moves a token to another socket or
    channel. *)
Theorem signed_token_bound now rnd secret sid ch sid' ch' expiry tok cache cache' :
  SignToken (Some rnd) secret sid ch expiry = Some tok ->
  Forall byte_ok rnd -> length rnd = 16%nat -> int64_ok (UnixMilli expiry) ->
  VerifyTokenAgainst now secret sid' ch' tok cache = (Ok tt, cache') ->
  let signed := macPayload (UnixMilli expiry) sid ch (hex_encode rnd) in
  let asked := macPayload (UnixMilli expiry) sid' ch' (hex_encode rnd) in
  let mac m := hmac_sha256 (bytes_of_string secret) (bytes_of_string m) in
  UnixMilli now <= UnixMilli expiry
  /\ (sid' = sid /\ ch' = ch \/ asked <> signed /\ mac asked = mac signed).
Proof.
  intros Htok Hb Hlen Hexp (e & jti & s & Hparts & Hnow & Hs & _)%VerifyTokenAgainst_ok. cbn zeta.
  pose proof (SignToken_parts _ _ _ _ _ _ Htok Hb Hlen Hexp) as Hparts'.
  destruct (token_parts_inj _ _ _ _ _ _ _ Hparts Hparts') as (-> & -> & ->). split; [done|].
  destruct (decide (sid' = sid /\ ch' = ch)) as [|Hne]; [by left|right].
  split; [|by symmetry]. intros (_ & ? & ? & _)%macPayload_inj. by apply Hne.
Qed.

(** ** Single use *)

Lemma Sweep_lookup now c jti :
  (Sweep now c).2 !! jti = (e ← c !! jti; if decide (now < e) then Some e else None).
Proof.
  unfold Sweep. cbn. destruct (c !! jti) as [e|] eqn:He; cbn.
  - case_decide; [by apply map_lookup_filter_Some|].
    apply map_lookup_filter_None. right. naive_solver.
  - apply map_lookup_filter_None. by left.
Qed.

(** An entry only leaves the cache through a sweep at or after its expiry, and
    is never overwritten. *)
Lemma cache_step_keeps o c jti exp :
  c !! jti = Some exp -> ~ evicts exp o -> cache_step o c !! jti = Some exp.
Proof.
  intros Hc Ho. destruct o as [j e|now]; unfold cache_step.
  - unfold CheckAndRecord. destruct (c !! j) eqn:Hj; [done|]. cbn.
    rewrite lookup_insert_ne; [done|congruence].
  - rewrite Sweep_lookup, Hc. cbn. rewrite decide_True; [done|]. cbn in Ho. lia.
Qed.

Lemma cache_run_keeps ops c jti exp :
  c !! jti = Some exp -> Forall (fun o => ~ evicts exp o) ops ->
  cache_run ops c !! jti = Some exp.
Proof.
  revert c. induction ops as [|o ops IH]; intros c Hc Hops; [done|].
  apply Forall_cons in Hops as [Ho Hops]. cbn.
  apply IH; [by apply cache_step_keeps|done].
Qed.

Lemma CheckAndRecord_fresh jti exp c :
  (CheckAndRecord jti exp c).1 = true <-> c !! jti = None.
Proof. unfold CheckAndRecord. by destruct (c !! jti). Qed.

Lemma CheckAndRecord_records jti exp c :
  c !! jti = None -> (CheckAndRecord jti exp c).2 !! jti = Some exp.
Proof. intros Hc. unfold CheckAndRecord. rewrite Hc. apply lookup_insert_eq. Qed.

(** If a recorded identifier is accepted again, something evicted it. *)
Lemma cache_reaccept ops c jti exp :
  c !! jti = Some exp -> cache_run ops c !! jti = None -> Exists (evicts exp) ops.
Proof.
  intros Hc Hr. destruct (decide (Exists (evicts exp) ops)) as [He|He]; [done|].
  apply not_Exists_Forall in He; [|apply _].
  by rewrite (cache_run_keeps _ _ _ _ Hc He) in Hr.
Qed.

(** An identifier is accepted once. For every sequence of cache operations,
    an identifier the cache accepted is accepted again only after a sweep at or
    past its recorded expiry. *)
Theorem cache_single_use ops c jti exp exp' :
  (CheckAndRecord jti exp c).1 = true ->
  (CheckAndRecord jti exp' (cache_run ops (CheckAndRecord jti exp c).2)).1 = true ->
  exists now, CSweep now ∈ ops /\ exp <= now.
Proof.
  intros Hc%CheckAndRecord_fresh H%CheckAndRecord_fresh.
  apply cache_reaccept with (exp := exp) in H; [|by apply CheckAndRecord_records].
  apply Exists_exists in H as ([|now] & Hin & He); [done|]. eauto.
Qed.

(** ** Single use of a token *)

Lemma cache_run_app ops ops' c : cache_run (ops ++ ops') c = cache_run ops' (cache_run ops c).
Proof. apply foldl_app. Qed.

(** A verification acts on the cache as one [CheckAndRecord] or not at all. *)
Lemma VerifyTokenAgainst_cache now secret sid ch tok c :
  exists ops, (VerifyTokenAgainst now secret sid ch tok (Some c)).2 = Some (cache_run ops c)
    /\ Forall (fun o => exists jti exp, o = CRecord jti exp) ops.
Proof.
  unfold VerifyTokenAgainst.
  repeat (case_goal; try (by exists [])).
  all: match goal with
       | H : CheckAndRecord ?j ?e _ = _ |- _ =>
           exists [CRecord j e]; cbn; rewrite H; split; [done|]; repeat constructor; eauto
       end.
Qed.

(** Verifications and sweeps are sequences of cache operations; its sweeps are
    the sweeps. *)
Lemma token_run_cache tops c :
  exists ops, token_run tops c = cache_run ops c /\
    (forall now, CSweep now ∈ ops -> TSweep now ∈ tops).
Proof.
  revert c. induction tops as [|o tops IH]; intros c.
  { exists []. split; [done|]. by intros ? ?%elem_of_nil. }
  assert (exists ops, token_step o c = cache_run ops c /\
    forall now, CSweep now ∈ ops -> o = TSweep now) as (ops & Ho & Hsw).
  { destruct o as [now secret sid ch tok|now]; cbn [token_step].
    - destruct (VerifyTokenAgainst_cache now secret sid ch tok c) as (ops & -> & Hops).
      exists ops. split; [done|]. rewrite Forall_forall in Hops.
      by intros ? (? & ? & ?)%Hops.
    - exists [CSweep now]. split; [done|]. by intros ? [= ->]%list_elem_of_singleton. }
  destruct (IH (token_step o c)) as (ops' & Hr & Hsw').
  exists (ops ++ ops'). change (token_run (o :: tops) c) with (token_run tops (token_step o c)).
  rewrite Hr, Ho, cache_run_app. split; [done|].
  intros now [?%Hsw| ?%Hsw']%elem_of_app; subst; set_solver.
Qed.

(** C10. Single use under a monotone clock. If a token is accepted twice against
    one cache, whatever verifications and sweeps happen in between at non-
    decreasing times, the second acceptance falls in the very millisecond the
    token expires in, after a sweep in that millisecond. *)
Theorem token_single_use ops c c1 secret sid ch sid' ch' tok t1 t2 cache' :
  VerifyTokenAgainst t1 secret sid ch tok (Some c) = (Ok tt, Some c1) ->
  Forall (fun o => token_op_time o <= t2) ops ->
  VerifyTokenAgainst t2 secret sid' ch' tok (Some (token_run ops c1)) = (Ok tt, cache') ->
  exists expMs jti sig now, token_parts tok expMs jti sig /\ UnixMilli t2 = expMs
    /\ TSweep now ∈ ops /\ time_of_millis expMs <= now <= t2.
Proof.
  intros (e & j & s & Hp & _ & _ & Hc & Hc1)%VerifyTokenAgainst_ok Hops
    (e' & j' & s' & Hp' & He' & _ & Hr & _)%VerifyTokenAgainst_ok.
  destruct (token_parts_inj _ _ _ _ _ _ _ Hp Hp') as (<- & <- & <-).
  injection Hc1 as ->. destruct (token_run_cache ops (<[j:=time_of_millis e]> c))
    as (cops & Hrun & Hsw). rewrite Hrun in Hr.
  apply cache_reaccept with (exp := time_of_millis e) in Hr; [|apply lookup_insert_eq].
  apply Exists_exists in Hr as ([|now] & Hin & Hev); [done|]. cbn in Hev.
  apply Hsw in Hin. rewrite Forall_forall in Hops. specialize (Hops _ Hin). cbn in Hops.
  exists e, j, s, now. split; [done|]. split; [|done].
  apply Z.le_antisymm; [done|]. apply Z.nlt_ge. rewrite <- UnixMilli_lt. lia.
Qed.

(** ** A concrete token

    Signed for socket "S" and channel "private-a", expiring at 1000 ms. *)

Definition demo_rnd : list N := replicate 16 7%N.
Definition demo_token : string :=
  default "" (SignToken (Some demo_rnd) "k" "S" "private-a" second).
Definition demo_jti : string := hex_encode demo_rnd.

Definition demo_verify (now : Z) (c : ReplayCache) :=
  VerifyTokenAgainst now "k" "S" "private-a" demo_token (Some c).

(** The replay window. In the millisecond in which a token expires, a sweep
    evicts its identifier while verification still accepts the token, so the
    same token is accepted twice. *)
Theorem replay_in_last_millisecond :
  exists c1 c2,
    demo_verify 0 NewReplayCache = (Ok tt, Some c1)
    /\ demo_verify second c1 = (Err ErrTokenReplayed, Some c1)
    /\ (Sweep second c1).1 = 1%nat
    /\ demo_verify second (Sweep second c1).2 = (Ok tt, Some c2).
Proof.
  exists {[demo_jti := second]}, {[demo_jti := second]}.
  split_and!; vm_decide.
Qed.

Lemma sign_verify_witness :
  UnixMilli 0 <= UnixMilli second /\
  demo_verify 0 NewReplayCache = (Ok tt, Some {[demo_jti := second]}).
Proof.
  split; [vm_decide|].
  apply (sign_verify 0 demo_rnd "k" "S" "private-a" second demo_token NewReplayCache).
  - vm_decide.
  - repeat constructor.
  - reflexivity.
  - vm_decide.
  - vm_decide.
  - reflexivity.
Defined.

Lemma signed_token_bound_witness :
  let payload := macPayload 1000 "S" "private-a" demo_jti in
  let mac m := hmac_sha256 (bytes_of_string "k") (bytes_of_string m) in
  0 <= 1000 /\ ("S" = "S" /\ "private-a" = "private-a" \/ payload <> payload /\ mac payload = mac payload).
Proof.
  apply (signed_token_bound 0 demo_rnd "k" "S" "private-a" "S" "private-a" second
    demo_token None None).
  - vm_decide.
  - repeat constructor.
  - reflexivity.
  - vm_decide.
  - vm_decide.
Defined.

Lemma cache_single_use_witness :
  exists now, CSweep now ∈ [CSweep 3] /\ 2 <= now.
Proof.
  apply (cache_single_use [CSweep 3] NewReplayCache "j" 2 9); vm_decide.
Defined.

Lemma token_single_use_witness :
  exists expMs jti sig now, token_parts demo_token expMs jti sig
    /\ UnixMilli second = expMs /\ TSweep now ∈ [TSweep second]
    /\ time_of_millis expMs <= now <= second.
Proof.
  apply (token_single_use [TSweep second] NewReplayCache {[demo_jti := second]}
    "k" "S" "private-a" "S" "private-a" demo_token 0 second (Some {[demo_jti := second]})).
  - vm_decide.
  - vm_decide.
  - vm_decide.
Defined.
