(* ===== verification/Channel.v ===== *)
(** * internal/registry/registry.go and internal/hub/channel.go

    A channel is a heap cell shared by the registry and the connections, so it
    is modelled behind a location.  [SubsMu] makes each operation on a channel
    one step; [Broadcast] only snapshots the subscribers under it and sends
    after releasing it, so it is the snapshot here and the sends are
    [Conn.hub_Broadcast]. *)
From S2P Require Import Prelude.
From stdpp Require Import options.

(** A [*Channel] and a [Subscriber] (a [*Conn]): identities, compared by [==]. *)
Abbreviation loc := nat.
Abbreviation conn_id := nat.

Record Channel : Type := MkChannel {
  Name : string;
  Subscribers : gset conn_id;
  Deleted : bool;
}.

#[export] Instance Channel_eq_dec : EqDecision Channel.
Proof. solve_decision. Defined.

Definition newChannel (name : string) : Channel := MkChannel name ∅ false.

(** ** The heap of channels *)

Record Heap : Type := MkHeap {
  cells : gmap loc Channel;
  next : loc;
}.

#[export] Instance Heap_eq_dec : EqDecision Heap.
Proof. solve_decision. Defined.

Definition heap_empty : Heap := MkHeap ∅ 0.

(** Every location below [next], and no other, is allocated. *)
Definition heap_ok (h : Heap) : Prop :=
  forall l, is_Some (cells h !! l) <-> l < next h.

(** Go has no dangling pointers: under [heap_ok] the default is never read. *)
Definition chan_at (l : loc) (h : Heap) : Channel := default (newChannel "") (cells h !! l).
Definition chan_set (l : loc) (c : Channel) (h : Heap) : Heap :=
  MkHeap (<[l := c]> (cells h)) (next h).
Definition chan_alloc (c : Channel) (h : Heap) : loc * Heap :=
  (next h, MkHeap (<[next h := c]> (cells h)) (S (next h))).

(** ** hub/channel.go *)

Inductive sub_err : Type :=
  | ErrTooManySubs
  | ErrChannelDeleted.

#[export] Instance sub_err_eq_dec : EqDecision sub_err.
Proof. solve_decision. Defined.

Definition Subscribe (l : loc) (s : conn_id) (max : nat) (h : Heap) : res sub_err unit * Heap :=
  let c := chan_at l h in
  if Deleted c then (Err ErrChannelDeleted, h) else
  if decide (max <= size (Subscribers c)) then (Err ErrTooManySubs, h) else
  (Ok tt, chan_set l (MkChannel (Name c) ({[s]} ∪ Subscribers c) (Deleted c)) h).

Definition Unsubscribe (l : loc) (s : conn_id) (h : Heap) : Heap :=
  let c := chan_at l h in
  chan_set l (MkChannel (Name c) (Subscribers c ∖ {[s]}) (Deleted c)) h.

(** The snapshot [Broadcast] takes under [SubsMu.RLock]. *)
Definition subs_snapshot (l : loc) (h : Heap) : list conn_id :=
  elements (Subscribers (chan_at l h)).

Definition SubscriberCount (l : loc) (h : Heap) : nat :=
  size (Subscribers (chan_at l h)).

(** [c.Deleted.Store(true)]. *)
Definition mark_deleted (l : loc) (h : Heap) : Heap :=
  let c := chan_at l h in chan_set l (MkChannel (Name c) (Subscribers c) true) h.

(** ** Facts *)

Lemma chan_at_set l l' c h :
  chan_at l' (chan_set l c h) = if decide (l = l') then c else chan_at l' h.
Proof.
  unfold chan_at, chan_set. cbn. rewrite lookup_insert. by case_decide.
Qed.

Lemma chan_at_set_eq l c h : chan_at l (chan_set l c h) = c.
Proof. rewrite chan_at_set. by rewrite decide_True. Qed.

Lemma chan_at_set_ne l l' c h : l <> l' -> chan_at l' (chan_set l c h) = chan_at l' h.
Proof. intros. rewrite chan_at_set. by rewrite decide_False. Qed.

Lemma chan_at_alloc c h l :
  chan_at l (chan_alloc c h).2 = if decide (l = next h) then c else chan_at l h.
Proof.
  unfold chan_at, chan_alloc. cbn. rewrite lookup_insert.
  repeat case_decide; by simplify_eq/=.
Qed.

Lemma heap_ok_empty : heap_ok heap_empty.
Proof. intros l. cbn. rewrite lookup_empty. split; [by intros []|lia]. Qed.

Lemma heap_ok_set l c h : heap_ok h -> l < next h -> heap_ok (chan_set l c h).
Proof.
  intros Hok Hl l'. cbn. rewrite lookup_insert. case_decide; [by subst|apply Hok].
Qed.

Lemma heap_ok_alloc c h : heap_ok h -> heap_ok (chan_alloc c h).2.
Proof.
  intros Hok l. cbn. rewrite lookup_insert. case_decide; [subst; split; [lia|eauto]|].
  rewrite (Hok l). lia.
Qed.

Lemma next_set l c h : next (chan_set l c h) = next h.
Proof. done. Qed.

(** What the operations do to each field. *)
Lemma Unsubscribe_at l s h l' :
  chan_at l' (Unsubscribe l s h) =
  MkChannel (Name (chan_at l' h))
    (if decide (l = l') then Subscribers (chan_at l h) ∖ {[s]} else Subscribers (chan_at l' h))
    (Deleted (chan_at l' h)).
Proof.
  unfold Unsubscribe. rewrite chan_at_set. case_decide; [by subst|]. by destruct (chan_at l' h).
Qed.

Lemma mark_deleted_at l h l' :
  chan_at l' (mark_deleted l h) =
  MkChannel (Name (chan_at l' h)) (Subscribers (chan_at l' h))
    (if decide (l = l') then true else Deleted (chan_at l' h)).
Proof.
  unfold mark_deleted. rewrite chan_at_set. case_decide; [by subst|]. by destruct (chan_at l' h).
Qed.

Lemma Subscribe_Ok l s max h h' :
  Subscribe l s max h = (Ok tt, h') <->
  Deleted (chan_at l h) = false /\ size (Subscribers (chan_at l h)) < max /\
  h' = chan_set l (MkChannel (Name (chan_at l h)) ({[s]} ∪ Subscribers (chan_at l h)) false) h.
Proof.
  unfold Subscribe. destruct (Deleted (chan_at l h)); [naive_solver|].
  case_decide; naive_solver lia.
Qed.

Lemma Subscribe_Err l s max h e h' :
  Subscribe l s max h = (Err e, h') ->
  h' = h /\ match e with
            | ErrChannelDeleted => Deleted (chan_at l h) = true
            | ErrTooManySubs => Deleted (chan_at l h) = false
                                /\ max <= size (Subscribers (chan_at l h))
            end.
Proof.
  unfold Subscribe. destruct (Deleted (chan_at l h)); [naive_solver|].
  case_decide; naive_solver.
Qed.

(** A success keeps the per-channel cap. *)
Lemma Subscribe_cap l s max h h' :
  Subscribe l s max h = (Ok tt, h') -> size (Subscribers (chan_at l h')) <= max.
Proof.
  intros (_ & Hlt & ->)%Subscribe_Ok. rewrite chan_at_set_eq. cbn.
  etrans; [apply size_insert_le|]. lia.
Qed.
