(* ===== verification/Registry.v ===== *)
(** * internal/registry: the registry interface and its two implementations

    [Registry] states the interface's operations and [RegistryLaws] what a
    client may rely on, against an abstract map from names to channels.
    [SyncMap] and [Sharded] implement it; [registries_agree] shows a client
    cannot tell them apart. *)
From S2P Require Import Prelude GoStd Channel.
From stdpp Require Import options.

(** ** The interface *)

Class Registry (R : Type) : Type := {
  reg_new : R;
  GetOrCreate : string -> R * Heap -> loc * (R * Heap);
  Lookup : string -> R -> option loc;
  Delete : string -> R -> R;
  CompareAndDelete : string -> loc -> R -> bool * R;
  (** [Range fn] with the loop state threaded through: [view] finds the
      registry in it, so [fn] may change the registry it ranges over. *)
  Range : forall {St : Type}, (St -> R) -> (loc -> St -> bool * St) -> St -> St;
  Len : R -> nat;
}.

(** The visit [Range] makes of a list of entries: stop when [fn] says false. *)
Fixpoint visit {St} (fn : loc -> St -> bool * St) (ls : list loc) (s : St) : bool * St :=
  match ls with
  | [] => (true, s)
  | l :: ls' => match fn l s with
                | (true, s') => visit fn ls' s'
                | (false, s') => (false, s')
                end
  end.

Class RegistryLaws (R : Type) `{Registry R} : Type := {
  reg_abs : R -> gmap string loc;
  reg_wf : R -> Prop;
  reg_new_wf : reg_wf reg_new;
  reg_new_abs : reg_abs reg_new = ∅;
  GetOrCreate_wf name r h : reg_wf r -> reg_wf (GetOrCreate name (r, h)).2.1;
  (** An existing entry is returned untouched; a missing one is bound to a
      fresh, empty channel. *)
  GetOrCreate_found name r h l :
    reg_wf r -> reg_abs r !! name = Some l -> GetOrCreate name (r, h) = (l, (r, h));
  GetOrCreate_fresh name r h :
    reg_wf r -> reg_abs r !! name = None ->
    (GetOrCreate name (r, h)).1 = next h
    /\ reg_abs (GetOrCreate name (r, h)).2.1 = <[name := next h]> (reg_abs r)
    /\ (GetOrCreate name (r, h)).2.2 = (chan_alloc (newChannel name) h).2;
  Lookup_abs name r : reg_wf r -> Lookup name r = reg_abs r !! name;
  Delete_wf name r : reg_wf r -> reg_wf (Delete name r);
  Delete_abs name r : reg_wf r -> reg_abs (Delete name r) = delete name (reg_abs r);
  CompareAndDelete_wf name l r : reg_wf r -> reg_wf (CompareAndDelete name l r).2;
  CompareAndDelete_abs name l r :
    reg_wf r ->
    (CompareAndDelete name l r).1 = bool_decide (reg_abs r !! name = Some l)
    /\ reg_abs (CompareAndDelete name l r).2
       = if decide (reg_abs r !! name = Some l) then delete name (reg_abs r) else reg_abs r;
  Len_abs r : reg_wf r -> Len r = size (reg_abs r);
  (** A [Range] whose [fn] never stops, keeps an invariant and touches no entry
      but the visited one visits every entry once. *)
  Range_visits {St} (view : St -> R) (fn : loc -> St -> bool * St) (Inv : St -> Prop)
      (s : St) :
    Inv s -> (forall s', Inv s' -> reg_wf (view s')) ->
    (forall name l s', Inv s' -> reg_abs (view s') !! name = Some l ->
       (fn l s').1 = true /\ Inv (fn l s').2
       /\ forall name', name' <> name ->
            reg_abs (view (fn l s').2) !! name' = reg_abs (view s') !! name') ->
    exists es, es ≡ₚ map_to_list (reg_abs (view s))
      /\ Range view fn s = foldl (fun s' l => (fn l s').2) s es.*2;
}.

(** ** syncmap.go *)
Module SyncMap.

(** [syncMapReg.m], a [sync.Map]. *)
Record t : Type := Mk { m : gmap string loc }.

(** [Load] misses, so [LoadOrStore] stores the new channel: nothing runs in
    between here.  [SweepRace] models what can. *)
Definition GetOrCreate (name : string) (s : t * Heap) : loc * (t * Heap) :=
  let '(r, h) := s in
  match m r !! name with
  | Some v => (v, (r, h))
  | None =>
      let '(c, h') := chan_alloc (newChannel name) h in
      match m r !! name with
      | Some actual => (actual, (r, h'))
      | None => (c, (Mk (<[name := c]> (m r)), h'))
      end
  end.

Definition Lookup (name : string) (r : t) : option loc := m r !! name.

Definition Delete (name : string) (r : t) : t := Mk (delete name (m r)).

Definition CompareAndDelete (name : string) (c : loc) (r : t) : bool * t :=
  if decide (m r !! name = Some c) then (true, Mk (delete name (m r))) else (false, r).

Definition Range {St} (view : St -> t) (fn : loc -> St -> bool * St) (s : St) : St :=
  (visit fn (map_to_list (m (view s))).*2 s).2.

Definition Len (r : t) : nat := length (map_to_list (m r)).

End SyncMap.

#[export] Instance SyncMap_Registry : Registry SyncMap.t := {|
  reg_new := SyncMap.Mk ∅;
  GetOrCreate := SyncMap.GetOrCreate;
  Lookup := SyncMap.Lookup;
  Delete := SyncMap.Delete;
  CompareAndDelete := SyncMap.CompareAndDelete;
  Range := @SyncMap.Range;
  Len := SyncMap.Len;
|}.

(** ** sharded.go *)
Module Sharded.

Definition numShards : nat := 16.

(** [shard.chans] of each shard, in index order. *)
Record t : Type := Mk { shards : list (gmap string loc) }.

Definition NewSharded : t := Mk (replicate numShards ∅).

Definition shardFor (name : string) : nat := Z.to_nat (Sum32a name mod Z.of_nat numShards).

(** [r.shardFor(name).chans]. *)
Definition chans (name : string) (r : t) : gmap string loc :=
  default ∅ (shards r !! shardFor name).

Definition set_chans (name : string) (f : gmap string loc -> gmap string loc) (r : t) : t :=
  Mk (alter f (shardFor name) (shards r)).

Definition GetOrCreate (name : string) (s : t * Heap) : loc * (t * Heap) :=
  let '(r, h) := s in
  match chans name r !! name with
  | Some c => (c, (r, h))
  | None =>
      match chans name r !! name with
      | Some c => (c, (r, h))
      | None =>
          let '(c, h') := chan_alloc (newChannel name) h in
          (c, (set_chans name <[name := c]> r, h'))
      end
  end.

Definition Lookup (name : string) (r : t) : option loc := chans name r !! name.

Definition Delete (name : string) (r : t) : t := set_chans name (delete name) r.

Definition CompareAndDelete (name : string) (c : loc) (r : t) : bool * t :=
  match chans name r !! name with
  | Some cur => if decide (cur <> c) then (false, r)
                else (true, set_chans name (delete name) r)
  | None => (false, r)
  end.

(** Each shard is copied out when the loop reaches it. *)
Fixpoint range_shards {St} (view : St -> t) (fn : loc -> St -> bool * St)
    (idxs : list nat) (s : St) : St :=
  match idxs with
  | [] => s
  | i :: idxs' =>
      let buf := (map_to_list (default ∅ (shards (view s) !! i))).*2 in
      match visit fn buf s with
      | (true, s') => range_shards view fn idxs' s'
      | (false, s') => s'
      end
  end.

Definition Range {St} (view : St -> t) (fn : loc -> St -> bool * St) (s : St) : St :=
  range_shards view fn (seq 0 numShards) s.

Definition Len (r : t) : nat := foldl (fun n s => n + size s) 0 (shards r).

End Sharded.

#[export] Instance Sharded_Registry : Registry Sharded.t := {|
  reg_new := Sharded.NewSharded;
  GetOrCreate := Sharded.GetOrCreate;
  Lookup := Sharded.Lookup;
  Delete := Sharded.Delete;
  CompareAndDelete := Sharded.CompareAndDelete;
  Range := @Sharded.Range;
  Len := Sharded.Len;
|}.

(** ** A sequence of registry calls and its results *)

Inductive reg_call : Type :=
  | CGetOrCreate (name : string)
  | CLookup (name : string)
  | CDelete (name : string)
  | CCompareAndDelete (name : string) (l : loc)
  | CLen.

Inductive reg_ret : Type :=
  | RLoc (l : loc)
  | RLookup (l : option loc)
  | RBool (b : bool)
  | RNat (n : nat)
  | RUnit.

Section Calls.
Context {R : Type} `{Registry R}.

Definition reg_step (c : reg_call) (s : R * Heap) : reg_ret * (R * Heap) :=
  let '(r, h) := s in
  match c with
  | CGetOrCreate name => let '(l, s') := GetOrCreate name (r, h) in (RLoc l, s')
  | CLookup name => (RLookup (Lookup name r), (r, h))
  | CDelete name => (RUnit, (Delete name r, h))
  | CCompareAndDelete name l =>
      let '(b, r') := CompareAndDelete name l r in (RBool b, (r', h))
  | CLen => (RNat (Len r), (r, h))
  end.

Fixpoint reg_run (cs : list reg_call) (s : R * Heap) : list reg_ret * (R * Heap) :=
  match cs with
  | [] => ([], s)
  | c :: cs' =>
      let '(x, s') := reg_step c s in
      let '(xs, s'') := reg_run cs' s' in (x :: xs, s'')
  end.
End Calls.

(** ** Visiting entries *)

Section Visit.
Context {St : Type} (fn : loc -> St -> bool * St).
Context (abs : St -> gmap string loc) (wf : St -> Prop).
Hypothesis fn_local : forall name l s,
  wf s -> abs s !! name = Some l ->
  (fn l s).1 = true /\ wf (fn l s).2
  /\ forall name', name' <> name -> abs (fn l s).2 !! name' = abs s !! name'.

(** Visiting entries that are all present visits each of them, and changes no
    other entry. *)
Lemma visit_entries es s :
  wf s -> NoDup es.*1 ->
  (forall name l, (name, l) ∈ es -> abs s !! name = Some l) ->
  visit fn es.*2 s = (true, foldl (fun s' l => (fn l s').2) s es.*2)
  /\ wf (foldl (fun s' l => (fn l s').2) s es.*2)
  /\ forall name, name ∉ es.*1 ->
       abs (foldl (fun s' l => (fn l s').2) s es.*2) !! name = abs s !! name.
Proof using All.
  revert s. induction es as [|[n l] es IH]; intros s Hwf Hnd Hin; [done|].
  apply NoDup_cons in Hnd as [Hn Hnd].
  destruct (fn_local n l s Hwf) as (Hb & Hwf' & Hoth); [apply Hin; set_solver|].
  destruct (IH (fn l s).2) as (Hv & Hwf'' & Hkeep); [done..| |].
  - intros n' l' Hl'. rewrite Hoth; [apply Hin; set_solver|].
    intros ->. apply Hn. apply list_elem_of_fmap. by exists (n, l').
  - cbn. destruct (fn l s) as [b s'] eqn:E. cbn in *. subst b.
    rewrite Hv. split_and!; [done..|]. intros n' Hn'%not_elem_of_cons.
    rewrite Hkeep by tauto. apply Hoth. tauto.
Qed.
End Visit.

Lemma map_to_list_elem (m : gmap string loc) name l :
  (name, l) ∈ map_to_list m <-> m !! name = Some l.
Proof. apply elem_of_map_to_list. Qed.

(** ** The sync.Map registry satisfies the laws *)

Lemma SyncMap_Range_visits {St} (view : St -> SyncMap.t) (fn : loc -> St -> bool * St)
    (Inv : St -> Prop) s :
  Inv s ->
  (forall name l s', Inv s' -> SyncMap.m (view s') !! name = Some l ->
     (fn l s').1 = true /\ Inv (fn l s').2
     /\ forall name', name' <> name ->
          SyncMap.m (view (fn l s').2) !! name' = SyncMap.m (view s') !! name') ->
  exists es, es ≡ₚ map_to_list (SyncMap.m (view s))
    /\ SyncMap.Range view fn s = foldl (fun s' l => (fn l s').2) s es.*2.
Proof.
  intros Hs Hfn. exists (map_to_list (SyncMap.m (view s))). split; [done|].
  unfold SyncMap.Range.
  destruct (visit_entries fn (fun s => SyncMap.m (view s)) Inv Hfn
    (map_to_list (SyncMap.m (view s))) s) as (-> & _); [done| | |done].
  - apply NoDup_fst_map_to_list.
  - intros. by apply map_to_list_elem.
Qed.

#[export] Instance SyncMap_laws : RegistryLaws SyncMap.t.
Proof.
  refine {| reg_abs := SyncMap.m; reg_wf := fun _ => True |}; try done.
  - intros name r h l _ Hl. cbn in *. by rewrite Hl.
  - intros name r h _ Hl. cbn in *. by rewrite !Hl.
  - intros name l r _. cbn. unfold SyncMap.CompareAndDelete.
    by case_decide; [rewrite bool_decide_eq_true_2|rewrite bool_decide_eq_false_2].
  - intros r _. apply length_map_to_list.
  - intros St view fn Inv s Hs _ Hfn. by eapply SyncMap_Range_visits.
Defined.

(** ** The sharded registry satisfies the laws *)
Module ShardedFacts.
Import Sharded.

Definition wf (r : t) : Prop :=
  length (shards r) = numShards /\
  forall i ch name l, shards r !! i = Some ch -> ch !! name = Some l -> shardFor name = i.

Definition entries (ss : list (gmap string loc)) : list (string * loc) :=
  ss ≫= map_to_list.

Definition abs (r : t) : gmap string loc := list_to_map (entries (shards r)).

Lemma shardFor_lt name : shardFor name < numShards.
Proof.
  unfold shardFor. pose proof (Z.mod_pos_bound (Sum32a name) (Z.of_nat numShards)).
  unfold numShards in *. lia.
Qed.

Lemma shard_lookup name r : wf r -> shards r !! shardFor name = Some (chans name r).
Proof.
  intros [Hlen _]. unfold chans.
  destruct (lookup_lt_is_Some_2 (shards r) (shardFor name)) as [ch ->]; [|done].
  rewrite Hlen. apply shardFor_lt.
Qed.

Lemma entries_elem r name l :
  wf r -> (name, l) ∈ entries (shards r) <-> chans name r !! name = Some l.
Proof.
  intros Hwf. unfold entries. rewrite list_elem_of_bind. split.
  - intros (ch & Hch & [i Hi]%list_elem_of_lookup). apply map_to_list_elem in Hch.
    assert (shardFor name = i) as <- by (by eapply Hwf).
    rewrite shard_lookup in Hi by done. by simplify_eq.
  - intros Hl. exists (chans name r). split; [by apply map_to_list_elem|].
    apply list_elem_of_lookup. eexists. by apply shard_lookup.
Qed.

(** Entries of different shards have different names. *)
Lemma entries_NoDup ss :
  (forall i j ch ch' name, ss !! i = Some ch -> ss !! j = Some ch' ->
     is_Some (ch !! name) -> is_Some (ch' !! name) -> i = j) ->
  NoDup (entries ss).*1.
Proof.
  induction ss as [|ch ss IH]; intros Hd; cbn; [constructor|].
  rewrite fmap_app. apply NoDup_app. split_and!.
  - apply NoDup_fst_map_to_list.
  - intros name Hn Hn'. apply list_elem_of_fmap in Hn as ([? l] & -> & Hl).
    apply list_elem_of_fmap in Hn' as ([? l'] & Heq & Hl'). cbn in *. subst.
    apply list_elem_of_bind in Hl' as (ch' & Hl' & [j Hj]%list_elem_of_lookup).
    apply map_to_list_elem in Hl, Hl'.
    assert (0 = S j); [|done]. eapply (Hd 0 (S j) ch ch'); eauto.
  - apply IH. intros i j ch1 ch2 name Hi Hj H1 H2.
    enough (S i = S j) by lia. by eapply (Hd (S i) (S j)).
Qed.

Lemma wf_entries_NoDup r : wf r -> NoDup (entries (shards r)).*1.
Proof.
  intros [_ Hwf]. apply entries_NoDup. intros i j ch ch' name Hi Hj [l Hl] [l' Hl'].
  transitivity (shardFor name); [symmetry|]; by eapply Hwf.
Qed.

Lemma abs_lookup r name : wf r -> abs r !! name = chans name r !! name.
Proof.
  intros Hwf. apply option_eq. intros l. unfold abs.
  rewrite <- elem_of_list_to_map by (by apply wf_entries_NoDup).
  by apply entries_elem.
Qed.

Lemma abs_to_list r : wf r -> entries (shards r) ≡ₚ map_to_list (abs r).
Proof. intros Hwf. symmetry. apply map_to_list_to_map. by apply wf_entries_NoDup. Qed.

(** An update of one name in its shard. *)
Lemma set_chans_spec name f r :
  wf r -> (forall ch name', name' <> name -> f ch !! name' = ch !! name') ->
  wf (set_chans name f r) /\
  (forall name', abs (set_chans name f r) !! name' =
     if decide (name' = name) then f (chans name r) !! name else abs r !! name').
Proof.
  intros Hwf Hf. assert (wf (set_chans name f r)) as Hwf'.
  { destruct Hwf as [Hlen Hsh]. split; [by unfold set_chans; cbn; rewrite length_alter|].
    intros i ch n l Hi Hn. unfold set_chans in Hi. cbn in Hi.
    destruct (decide (i = shardFor name)) as [->|Hne].
    - rewrite list_lookup_alter_eq in Hi. apply fmap_Some in Hi as (ch0 & Hi & ->).
      destruct (decide (n = name)) as [->|]; [done|]. rewrite Hf in Hn by done. eauto.
    - rewrite list_lookup_alter_ne in Hi by done. eauto. }
  split; [done|]. intros n. rewrite !abs_lookup by done.
  unfold chans, set_chans. cbn.
  destruct (decide (shardFor n = shardFor name)) as [Heq|Hne].
  - rewrite Heq, list_lookup_alter_eq, (shard_lookup name r Hwf). cbn.
    case_decide; [by subst|]. by rewrite Hf.
  - rewrite list_lookup_alter_ne by done. case_decide; [by subst|done].
Qed.

Lemma wf_new : wf NewSharded.
Proof.
  split; [done|]. intros i ch name l [-> _]%lookup_replicate Hl.
  by rewrite lookup_empty in Hl.
Qed.

Lemma GetOrCreate_cases name r h :
  Sharded.GetOrCreate name (r, h) =
  match chans name r !! name with
  | Some c => (c, (r, h))
  | None => (next h, (set_chans name <[name := next h]> r,
                      (chan_alloc (newChannel name) h).2))
  end.
Proof. cbn. by destruct (chans name r !! name). Qed.

Lemma insert_local name (l : loc) (ch : gmap string loc) name' :
  name' <> name -> <[name := l]> ch !! name' = ch !! name'.
Proof. intros. by apply lookup_insert_ne. Qed.

Lemma delete_local name (ch : gmap string loc) name' :
  name' <> name -> delete name ch !! name' = ch !! name'.
Proof. intros. by apply lookup_delete_ne. Qed.

Lemma delete_abs name r : wf r -> abs (set_chans name (delete name) r) = delete name (abs r).
Proof.
  intros Hwf. destruct (set_chans_spec name (delete name) r Hwf (delete_local name)) as [_ Hl].
  apply map_eq. intros n. rewrite Hl. case_decide; subst.
  - by rewrite !lookup_delete_eq.
  - by rewrite lookup_delete_ne.
Qed.

Lemma Len_sum r : Len r = length (entries (shards r)).
Proof.
  unfold Len. assert (forall ss n, foldl (fun n s => n + size s) n ss
    = n + length (entries ss)) as H.
  { induction ss as [|ch ss IH]; intros n; [cbn; lia|].
    change (entries (ch :: ss)) with (map_to_list ch ++ entries ss). cbn [foldl].
    rewrite IH, length_app, length_map_to_list. lia. }
  by rewrite H.
Qed.

(** The loop over the shards visits the entries shard by shard: the shards
    not reached yet still hold what they held at the start. *)
Section Range.
Context {St : Type} (view : St -> t) (fn : loc -> St -> bool * St).
Context (Inv : St -> Prop) (Inv_wf : forall s, Inv s -> wf (view s)).
Hypothesis fn_local : forall name l s,
  Inv s -> abs (view s) !! name = Some l ->
  (fn l s).1 = true /\ Inv (fn l s).2
  /\ forall name', name' <> name -> abs (view (fn l s).2) !! name' = abs (view s) !! name'.

Lemma shard_eq s s' i :
  wf (view s) -> wf (view s') ->
  (forall name, shardFor name = i -> abs (view s') !! name = abs (view s) !! name) ->
  i < numShards -> shards (view s') !! i = shards (view s) !! i.
Proof using Type.
  intros Hwf Hwf' Heq Hi.
  destruct (lookup_lt_is_Some_2 (shards (view s)) i) as [ch Hch];
    [by rewrite (proj1 Hwf)|].
  destruct (lookup_lt_is_Some_2 (shards (view s')) i) as [ch' Hch'];
    [by rewrite (proj1 Hwf')|].
  rewrite Hch, Hch'. f_equal. apply map_eq. intros name.
  destruct (decide (shardFor name = i)) as [<-|Hne].
  - specialize (Heq name eq_refl). rewrite !abs_lookup in Heq by done.
    rewrite !shard_lookup in * by done. by simplify_eq.
  - assert (forall v chx, wf v -> shards v !! i = Some chx -> chx !! name = None) as Hn.
    { intros v chx Hv Hx. apply eq_None_not_Some. intros [l Hl].
      apply Hne. by eapply Hv. }
    by rewrite (Hn _ _ Hwf Hch), (Hn _ _ Hwf' Hch').
Qed.

Lemma range_shards_visits n k s :
  Inv s -> k + n = numShards ->
  range_shards view fn (seq k n) s
  = foldl (fun s' l => (fn l s').2) s (entries (drop k (shards (view s)))).*2.
Proof using All.
  revert k s. induction n as [|n IH]; intros k s HI Hkn; cbn;
    pose proof (Inv_wf s HI) as Hwf.
  { by rewrite drop_ge by (rewrite (proj1 Hwf); lia). }
  destruct (lookup_lt_is_Some_2 (shards (view s)) k) as [ch Hch];
    [rewrite (proj1 Hwf); lia|].
  rewrite Hch. cbn.
  destruct (visit_entries fn (fun s => abs (view s)) Inv fn_local
    (map_to_list ch) s) as (Hv & HI' & Hkeep); [done|apply NoDup_fst_map_to_list| |].
  { intros name l Hl%map_to_list_elem. rewrite abs_lookup by done.
    apply entries_elem; [done|]. apply list_elem_of_bind. exists ch.
    split; [by apply map_to_list_elem|]. by eapply list_elem_of_lookup_2. }
  pose proof (Inv_wf _ HI') as Hwf'.
  rewrite Hv, IH by (done || lia). rewrite (drop_S _ _ _ Hch).
  unfold entries at 2. cbn. rewrite fmap_app, foldl_app. do 3 f_equal.
  apply list_eq. intros i. rewrite !lookup_drop.
  destruct (decide (S k + i < numShards)) as [Hi|Hi].
  - apply shard_eq; [done..| |done]. intros name Hname. apply Hkeep.
    intros ([n' l] & -> & Hl)%list_elem_of_fmap. apply map_to_list_elem in Hl.
    assert (shardFor n' = k) by (by eapply Hwf). cbn in *. lia.
  - rewrite !lookup_ge_None_2; [done| |]; rewrite (proj1 Hwf) || rewrite (proj1 Hwf'); lia.
Qed.
End Range.
End ShardedFacts.

#[export] Instance Sharded_laws : RegistryLaws Sharded.t.
Proof.
  refine {| reg_abs := ShardedFacts.abs; reg_wf := ShardedFacts.wf |}.
  - apply ShardedFacts.wf_new.
  - done.
  - intros name r h Hwf. cbn [GetOrCreate Sharded_Registry].
    rewrite ShardedFacts.GetOrCreate_cases. case_match; [done|].
    by apply ShardedFacts.set_chans_spec, ShardedFacts.insert_local.
  - intros name r h l Hwf Hl. rewrite ShardedFacts.abs_lookup in Hl by done.
    cbn [GetOrCreate Sharded_Registry]. by rewrite ShardedFacts.GetOrCreate_cases, Hl.
  - intros name r h Hwf Hl. rewrite ShardedFacts.abs_lookup in Hl by done.
    cbn [GetOrCreate Sharded_Registry]. rewrite ShardedFacts.GetOrCreate_cases, Hl.
    split_and!; [done| |done]. apply map_eq. intros n. cbn.
    destruct (ShardedFacts.set_chans_spec name <[name := next h]> r Hwf
      (fun ch n' => ShardedFacts.insert_local name (next h) ch n')) as [_ ->].
    case_decide; [subst; by rewrite !lookup_insert_eq|by rewrite lookup_insert_ne].
  - intros name r Hwf. symmetry. by apply ShardedFacts.abs_lookup.
  - intros name r Hwf. by apply ShardedFacts.set_chans_spec, ShardedFacts.delete_local.
  - intros. by apply ShardedFacts.delete_abs.
  - intros name l r Hwf. cbn. unfold Sharded.CompareAndDelete.
    repeat case_match; try done. by apply ShardedFacts.set_chans_spec, ShardedFacts.delete_local.
  - intros name l r Hwf. cbn. rewrite ShardedFacts.abs_lookup by done.
    unfold Sharded.CompareAndDelete. destruct (Sharded.chans name r !! name) as [cur|]; [|done].
    destruct (decide (cur = l)) as [->|Hne].
    + rewrite decide_False by tauto. cbn. rewrite bool_decide_eq_true_2, decide_True by done.
      split; [done|]. by apply ShardedFacts.delete_abs.
    + rewrite decide_True by done. cbn.
      by rewrite bool_decide_eq_false_2, decide_False by congruence.
  - intros r Hwf. cbn. rewrite ShardedFacts.Len_sum.
    rewrite (ShardedFacts.abs_to_list r Hwf). apply length_map_to_list.
  - intros St view fn Inv s Hs Hwf Hfn.
    exists (ShardedFacts.entries (Sharded.shards (view s))).
    split; [by apply ShardedFacts.abs_to_list, Hwf|].
    by apply (ShardedFacts.range_shards_visits view fn Inv Hwf Hfn 16 0 s).
Defined.

(** ** Registry and heap together *)

Section Consistent.
Context {R : Type} `{RegistryLaws R}.

(** Registered channels carry the name they are registered under. *)
Definition reg_named (r : R) (h : Heap) : Prop :=
  forall name l, reg_abs r !! name = Some l -> Name (chan_at l h) = name.

(** What holds of a registry and the heap its channels live in. *)
Record reg_ok (r : R) (h : Heap) : Prop := {
  ok_wf : reg_wf r;
  ok_heap : heap_ok h;
  ok_named : reg_named r h;
  ok_bound : forall name l, reg_abs r !! name = Some l -> l < next h;
}.

Lemma reg_ok_new : reg_ok reg_new heap_empty.
Proof.
  split; [apply reg_new_wf|apply heap_ok_empty| |];
    intros name l; rewrite reg_new_abs; by rewrite lookup_empty.
Qed.

(** [GetOrCreate] binds the name to a channel of that name and changes no
    other entry and no existing channel. *)
Lemma GetOrCreate_spec name r h l r' h' :
  reg_ok r h -> GetOrCreate name (r, h) = (l, (r', h')) ->
  reg_ok r' h' /\ reg_abs r' !! name = Some l
  /\ (forall name', name' <> name -> reg_abs r' !! name' = reg_abs r !! name')
  /\ (forall l', l' < next h -> chan_at l' h' = chan_at l' h)
  /\ (reg_abs r !! name = Some l /\ r' = r /\ h' = h
      \/ reg_abs r !! name = None /\ l = next h /\ chan_at l h' = newChannel name
         /\ next h' = S (next h)).
Proof.
  intros [Hwf Hh Hn Hb] Hg. destruct (reg_abs r !! name) as [l0|] eqn:E.
  - rewrite (GetOrCreate_found _ _ _ _ Hwf E) in Hg. simplify_eq.
    split_and!; try done; eauto.
  - destruct (GetOrCreate_fresh _ _ h Hwf E) as (H1 & H2 & H3).
    pose proof (GetOrCreate_wf name r h Hwf) as Hwf'. rewrite Hg in *. cbn [fst snd] in *. subst.
    assert (forall l', l' < next h ->
      chan_at l' (chan_alloc (newChannel name) h).2 = chan_at l' h) as Hold.
    { intros l' Hl'. rewrite chan_at_alloc. by rewrite decide_False by lia. }
    split_and!.
    + split; [done|by apply heap_ok_alloc| |]; intros n l; rewrite H2, lookup_insert_Some;
        (intros [[<- <-]|[Hne Hl]]; [|specialize (Hb _ _ Hl)]).
      * by rewrite chan_at_alloc, decide_True.
      * rewrite Hold by done. eauto.
      * cbn. lia.
      * cbn. lia.
    + by rewrite H2, lookup_insert_eq.
    + intros. by rewrite H2, lookup_insert_ne.
    + done.
    + right. split_and!; [done|done|by rewrite chan_at_alloc, decide_True|done].
Qed.
End Consistent.

(** ** The two implementations are interchangeable *)

Section Agree.
Context {R1 R2 : Type} `{RegistryLaws R1, RegistryLaws R2}.

(** Same names bound to the same channels, same heap. *)
Definition reg_rel (s1 : R1 * Heap) (s2 : R2 * Heap) : Prop :=
  reg_wf s1.1 /\ reg_wf s2.1 /\ reg_abs s1.1 = reg_abs s2.1 /\ s1.2 = s2.2.

Lemma GetOrCreate_rel name s1 s2 :
  reg_rel s1 s2 ->
  (GetOrCreate name s1).1 = (GetOrCreate name s2).1
  /\ reg_rel (GetOrCreate name s1).2 (GetOrCreate name s2).2.
Proof.
  destruct s1 as [r1 h1], s2 as [r2 h2]. intros (Hw1 & Hw2 & Ha & Hh). cbn in *. subst h2.
  destruct (reg_abs r1 !! name) as [l|] eqn:E.
  - rewrite (GetOrCreate_found _ r1 _ l), (GetOrCreate_found _ r2 _ l) by congruence.
    done.
  - destruct (GetOrCreate_fresh name r1 h1) as (-> & Ha1 & Hh1); [done..|].
    destruct (GetOrCreate_fresh name r2 h1) as (-> & Ha2 & Hh2); [congruence..|].
    split; [done|]. repeat split; [by apply GetOrCreate_wf..|congruence|congruence].
Qed.

Lemma reg_step_rel c s1 s2 :
  reg_rel s1 s2 ->
  (reg_step c s1).1 = (reg_step c s2).1 /\ reg_rel (reg_step c s1).2 (reg_step c s2).2.
Proof.
  intros Hrel. destruct c as [name|name|name|name l|].
  - pose proof (GetOrCreate_rel name _ _ Hrel) as [Hl Hr].
    destruct s1 as [r1 h1], s2 as [r2 h2]. cbn.
    destruct (GetOrCreate name (r1, h1)), (GetOrCreate name (r2, h2)). cbn in *.
    by subst.
  - destruct s1 as [r1 h1], s2 as [r2 h2]. destruct Hrel as (Hw1 & Hw2 & Ha & Hh). cbn in *.
    split; [|done]. by rewrite !Lookup_abs, Ha.
  - destruct s1 as [r1 h1], s2 as [r2 h2]. destruct Hrel as (Hw1 & Hw2 & Ha & Hh). cbn in *.
    split; [done|]. repeat split; cbn; [by apply Delete_wf..| |done].
    by rewrite !Delete_abs, Ha.
  - destruct s1 as [r1 h1], s2 as [r2 h2]. destruct Hrel as (Hw1 & Hw2 & Ha & Hh). cbn in *.
    pose proof (CompareAndDelete_abs name l r1 Hw1) as [Hb1 Ha1].
    pose proof (CompareAndDelete_abs name l r2 Hw2) as [Hb2 Ha2].
    pose proof (CompareAndDelete_wf name l r1 Hw1).
    pose proof (CompareAndDelete_wf name l r2 Hw2).
    destruct (CompareAndDelete name l r1), (CompareAndDelete name l r2). cbn in *.
    rewrite Ha in *. repeat split; cbn; congruence.
  - destruct s1 as [r1 h1], s2 as [r2 h2]. destruct Hrel as (Hw1 & Hw2 & Ha & Hh). cbn in *.
    split; [|done]. by rewrite !Len_abs, Ha.
Qed.

Lemma reg_run_rel cs s1 s2 :
  reg_rel s1 s2 -> (reg_run cs s1).1 = (reg_run cs s2).1.
Proof.
  revert s1 s2. induction cs as [|c cs IH]; intros s1 s2 Hrel; [done|].
  destruct (reg_step_rel c s1 s2 Hrel) as [Hx Hs]. cbn.
  destruct (reg_step c s1) as [x1 s1'], (reg_step c s2) as [x2 s2']. cbn in *.
  specialize (IH s1' s2' Hs).
  destruct (reg_run cs s1'), (reg_run cs s2'). cbn in *. congruence.
Qed.
End Agree.

(** C30. The sync.Map registry and the sharded one are interchangeable: any
    sequence of GetOrCreate, Lookup, Delete, CompareAndDelete and Len gives the
    same results on both, from their empty states. *)
Theorem registries_agree cs :
  (reg_run (R := SyncMap.t) cs (reg_new, heap_empty)).1
  = (reg_run (R := Sharded.t) cs (reg_new, heap_empty)).1.
Proof.
  apply reg_run_rel. split_and!; [apply reg_new_wf..| |done].
  apply (eq_trans reg_new_abs). symmetry. apply reg_new_abs.
Qed.
