(* ===== verification/Sweep.v ===== *)
(** * internal/registry/sweep.go: the channel collector

    [Sweep] as one uninterrupted pass over any registry that satisfies the
    interface's laws.  [SweepRace] interleaves it with subscribes. *)
From S2P Require Import Prelude GoStd Channel Registry.
From stdpp Require Import options.

(** Ticker-driven loops: what the [select] of one iteration receives. *)
Inductive loop_event : Type :=
  | Tick
  | Done.

(** Run [body] on every tick until the context is done. *)
Fixpoint ticker_loop {St} (body : St -> St) (evs : list loop_event) (s : St) : St :=
  match evs with
  | [] => s
  | Done :: _ => s
  | Tick :: evs' => ticker_loop body evs' (body s)
  end.

Section Sweep.
Context {R : Type} `{RegistryLaws R}.

(** The callback [Sweep] hands to [Range], on one channel. *)
Definition sweep_visit (c : loc) (s : R * Heap * nat) : bool * (R * Heap * nat) :=
  let '(r, h, removed) := s in
  if decide (size (Subscribers (chan_at c h)) = 0) then
    let '(ok, r') := CompareAndDelete (Name (chan_at c h)) c r in
    (true, (r', mark_deleted c h, if ok then S removed else removed))
  else (true, (r, h, removed)).

Definition sweep_reg (s : R * Heap * nat) : R := s.1.1.

Definition Sweep (r : R) (h : Heap) : R * Heap * nat :=
  Range sweep_reg sweep_visit (r, h, 0).

Definition DefaultSweepInterval : Z := 60 * second.
Definition sweep_interval (interval : Z) : Z :=
  if decide (interval <= 0)%Z then DefaultSweepInterval else interval.

Definition SweepLoop (evs : list loop_event) (r : R) (h : Heap) : R * Heap :=
  ticker_loop (fun s => (Sweep s.1 s.2).1) evs (r, h).

(** ** What a pass removes *)

Definition dead (h : Heap) (e : string * loc) : Prop := Subscribers (chan_at e.2 h) = ∅.
#[export] Instance dead_dec h e : Decision (dead h e).
Proof. unfold dead. apply _. Defined.

(** The channel at [l] is registered and has no subscriber. *)
Definition collectable (r : R) (h : Heap) (l : loc) : Prop :=
  reg_abs r !! Name (chan_at l h) = Some l /\ Subscribers (chan_at l h) = ∅.
#[export] Instance collectable_dec r h l : Decision (collectable r h l).
Proof. unfold collectable. apply _. Defined.

Lemma size_subs_0 l h :
  size (Subscribers (chan_at l h)) = 0 <-> Subscribers (chan_at l h) = ∅.
Proof. by rewrite size_empty_iff, leibniz_equiv_iff. Qed.

Lemma sweep_visit_step name l r h k :
  reg_wf r -> reg_abs r !! name = Some l -> Name (chan_at l h) = name ->
  exists r', reg_wf r' /\
    sweep_visit l (r, h, k) =
      (true, if decide (dead h (name, l)) then (r', mark_deleted l h, S k) else (r, h, k))
    /\ reg_abs r' = delete name (reg_abs r).
Proof.
  intros Hwf Hl Hn. exists (CompareAndDelete name l r).2.
  destruct (CompareAndDelete_abs name l r Hwf) as [Hb Ha].
  split; [by apply CompareAndDelete_wf|]. unfold sweep_visit, dead. cbn [snd].
  rewrite Hn. destruct (CompareAndDelete name l r) as [ok r']. cbn in *.
  rewrite Hl, bool_decide_eq_true_2 in Hb by done. rewrite decide_True in Ha by done.
  subst ok. split; [|done].
  destruct (decide (Subscribers (chan_at l h) = ∅)) as [He|He].
  - by rewrite decide_True by (by apply size_subs_0).
  - by rewrite decide_False by (by rewrite size_subs_0).
Qed.

Lemma dead_mark h l e : dead (mark_deleted l h) e <-> dead h e.
Proof. unfold dead. by rewrite mark_deleted_at. Qed.

Definition delete_all (es : list (string * loc)) (m : gmap string loc) : gmap string loc :=
  foldl (fun m e => delete e.1 m) m es.

Definition mark_all (es : list (string * loc)) (h : Heap) : Heap :=
  foldl (fun h e => mark_deleted e.2 h) h es.

Lemma sweep_fold es r h k :
  reg_wf r -> NoDup es.*1 ->
  (forall name l, (name, l) ∈ es -> reg_abs r !! name = Some l /\ Name (chan_at l h) = name) ->
  exists r', reg_wf r' /\ reg_abs r' = delete_all (filter (dead h) es) (reg_abs r) /\
    foldl (fun (s : R * Heap * nat) l => (sweep_visit l s).2) (r, h, k) es.*2
    = (r', mark_all (filter (dead h) es) h,
       k + length (filter (dead h) es)).
Proof.
  revert r h k. induction es as [|[n l] es IH]; intros r h k Hwf Hnd Hes.
  { exists r. cbn. by rewrite Nat.add_0_r. }
  apply NoDup_cons in Hnd as [Hn Hnd].
  destruct (Hes n l) as [Hl Hname]; [set_solver|].
  destruct (sweep_visit_step n l r h k Hwf Hl Hname) as (r1 & Hwf1 & Hv & Ha).
  rewrite fmap_cons. cbn [foldl]. change (n, l).2 with l. rewrite Hv, filter_cons. cbn beta iota.
  destruct (decide (dead h (n, l))) as [Hd|Hd].
  - destruct (IH r1 (mark_deleted l h) (S k)) as (r' & Hwf' & Ha' & Hf); [done..| |].
    { intros n' l' Hin. rewrite mark_deleted_at. cbn. rewrite Ha, lookup_delete_ne.
      - apply Hes. set_solver.
      - intros ->. apply Hn, list_elem_of_fmap. by exists (n', l'). }
    assert (filter (dead (mark_deleted l h)) es = filter (dead h) es) as Hfe.
    { apply list_filter_iff. intros e. apply dead_mark. }
    rewrite Hfe in *. exists r'. cbn. rewrite Hf, <- Ha. split_and!; [done..|].
    f_equal. lia.
  - apply IH; [done..|]. intros. apply Hes. set_solver.
Qed.

Lemma delete_all_lookup es m name :
  delete_all es m !! name = if decide (name ∈ es.*1) then None else m !! name.
Proof.
  unfold delete_all. revert m. induction es as [|[n l] es IH]; intros m; [done|].
  cbn [foldl fst]. rewrite IH, fmap_cons. cbn [fst].
  destruct (decide (name ∈ es.*1)) as [Hin|Hin].
  - rewrite decide_True by set_solver. done.
  - rewrite lookup_delete. repeat case_decide; set_solver.
Qed.

Lemma mark_all_at es h l :
  chan_at l (mark_all es h) =
  MkChannel (Name (chan_at l h)) (Subscribers (chan_at l h))
    (if decide (l ∈ es.*2) then true else Deleted (chan_at l h)).
Proof.
  unfold mark_all. revert h. induction es as [|[n l'] es IH]; intros h; cbn [foldl].
  { by destruct (chan_at l h). }
  rewrite IH, fmap_cons, mark_deleted_at. cbn.
  repeat case_decide; set_solver.
Qed.

(** A visit keeps the names of registered channels and touches one entry. *)
Lemma sweep_visit_local name l s :
  reg_wf (sweep_reg s) /\ reg_named (sweep_reg s) s.1.2 ->
  reg_abs (sweep_reg s) !! name = Some l ->
  (sweep_visit l s).1 = true
  /\ (reg_wf (sweep_reg (sweep_visit l s).2)
      /\ reg_named (sweep_reg (sweep_visit l s).2) (sweep_visit l s).2.1.2)
  /\ forall name', name' <> name ->
       reg_abs (sweep_reg (sweep_visit l s).2) !! name' = reg_abs (sweep_reg s) !! name'.
Proof.
  destruct s as [[r h] k]. unfold sweep_reg. cbn [fst snd]. intros [Hwf Hnamed] Hl.
  destruct (sweep_visit_step name l r h k Hwf Hl (Hnamed _ _ Hl)) as (r' & Hwf' & -> & Ha).
  split; [done|]. case_decide; cbn; [|done]. split_and!; [done| |].
  - intros n' l'. rewrite Ha, mark_deleted_at. intros [_ Hl']%lookup_delete_Some. cbn. eauto.
  - intros n' Hn'. by rewrite Ha, lookup_delete_ne.
Qed.

(** Deleting the dead entries of a map one by one is filtering it, and as many
    are deleted as the filter drops. *)
Lemma sweep_abs h es (m : gmap string loc) :
  es ≡ₚ map_to_list m ->
  delete_all (filter (dead h) es) m = filter (fun e => ~ dead h e) m.
Proof.
  intros Hes. apply map_eq. intros name. rewrite delete_all_lookup. apply option_eq.
  intros l. rewrite map_lookup_filter_Some. case_decide as Hd.
  - apply list_elem_of_fmap in Hd as ([n l'] & -> & [He Hl]%list_elem_of_filter).
    rewrite Hes, map_to_list_elem in Hl. cbn. split; [done|]. intros [Hl' Hn].
    by simplify_eq.
  - split; [|by intros []]. intros Hl. split; [done|]. intros He. apply Hd.
    apply list_elem_of_fmap. exists (name, l). split; [done|].
    apply list_elem_of_filter. split; [done|]. by rewrite Hes, map_to_list_elem.
Qed.

Lemma sweep_count h es (m : gmap string loc) :
  es ≡ₚ map_to_list m ->
  length (filter (dead h) es) = size (filter (dead h) m).
Proof.
  intros Hes. rewrite map_filter_alt, <- length_map_to_list.
  rewrite map_to_list_to_map; [by rewrite Hes|].
  apply NoDup_fmap_fst.
  - intros n l l' [_ Hl]%list_elem_of_filter [_ Hl']%list_elem_of_filter.
    apply map_to_list_elem in Hl, Hl'. by simplify_eq.
  - apply NoDup_filter, NoDup_map_to_list.
Qed.

Lemma mark_all_heap es h :
  heap_ok h -> Forall (fun e => e.2 < next h) es ->
  heap_ok (mark_all es h) /\ next (mark_all es h) = next h.
Proof.
  unfold mark_all. intros Hh Hes. revert h Hh Hes.
  induction es as [|[n l] es IH]; intros h Hh Hes; cbn [foldl]; [done|].
  apply Forall_cons in Hes as [Hl Hes]. cbn in Hl.
  destruct (IH (mark_deleted l h)) as [H1 H2]; [by apply heap_ok_set|done|]. done.
Qed.

Lemma Sweep_pass r h r' h' removed :
  reg_ok r h -> Sweep r h = (r', h', removed) ->
  reg_ok r' h'
  /\ reg_abs r' = filter (fun e => ~ dead h e) (reg_abs r)
  /\ removed = size (filter (dead h) (reg_abs r))
  /\ next h' = next h
  /\ forall l, chan_at l h' = MkChannel (Name (chan_at l h)) (Subscribers (chan_at l h))
                    (bool_decide (collectable r h l) || Deleted (chan_at l h)).
Proof.
  intros [Hwf Hh Hnamed Hb] Hs. unfold Sweep in Hs.
  destruct (Range_visits sweep_reg sweep_visit
    (fun s : R * Heap * nat => reg_wf (sweep_reg s) /\ reg_named (sweep_reg s) s.1.2)
    (r, h, 0))
    as (es & Hes & Hr); [done|by intros ? []|apply sweep_visit_local|].
  change (sweep_reg (r, h, 0)) with r in Hes.
  destruct (sweep_fold es r h 0 Hwf) as (r1 & Hwf1 & Ha1 & Hf).
  { rewrite Hes. apply NoDup_fst_map_to_list. }
  { intros name l Hin. rewrite Hes, map_to_list_elem in Hin. auto. }
  rewrite Hs, Hf in Hr. injection Hr as -> -> ->. cbn [Nat.add].
  assert (forall name l, (name, l) ∈ filter (dead h) es
    <-> Subscribers (chan_at l h) = ∅ /\ reg_abs r !! name = Some l) as Hin.
  { intros name l. by rewrite list_elem_of_filter, Hes, map_to_list_elem. }
  destruct (mark_all_heap (filter (dead h) es) h) as [Hh' Hn']; [done| |].
  { apply Forall_forall. intros [name l] [_ Hl]%Hin. eauto. }
  split_and!.
  - split; [done|done| |]; intros name l; rewrite Ha1, delete_all_lookup, ?mark_all_at, ?Hn';
      (case_decide; [done|]); intros Hl; cbn; eauto.
  - rewrite Ha1. by apply sweep_abs.
  - by apply sweep_count.
  - done.
  - intros l. rewrite mark_all_at. f_equal. case_decide as Hd.
    + apply list_elem_of_fmap in Hd as ([n l'] & -> & [He Hl]%Hin). cbn.
      rewrite bool_decide_eq_true_2; [done|]. split; [|done]. by rewrite (Hnamed _ _ Hl).
    + rewrite bool_decide_eq_false_2; [done|]. intros [Hl He]. apply Hd.
      apply list_elem_of_fmap. eexists (_, l). split; [done|]. by apply Hin.
Qed.

(** A sweep pass, exactly. On any registry that keeps the interface's laws,
    a pass removes the channels without subscribers and no others, reports how
    many, marks exactly those deleted, and leaves every name and subscriber set
    alone. *)
Theorem Sweep_correct r h r' h' removed :
  reg_ok r h -> Sweep r h = (r', h', removed) ->
  reg_ok r' h'
  /\ reg_abs r' = filter (fun e => ~ dead h e) (reg_abs r)
  /\ removed = size (filter (dead h) (reg_abs r))
  /\ (forall l, Deleted (chan_at l h') = bool_decide (collectable r h l) || Deleted (chan_at l h))
  /\ (forall l, Name (chan_at l h') = Name (chan_at l h)
                /\ Subscribers (chan_at l h') = Subscribers (chan_at l h)).
Proof.
  intros Hok Hs. destruct (Sweep_pass _ _ _ _ _ Hok Hs) as (? & ? & ? & _ & Hc).
  split_and!; [done..| |]; intros l; by rewrite Hc.
Qed.
End Sweep.

(** Two channels, the second without subscribers: one is collected. *)
Definition ex_a : loc * (Sharded.t * Heap) := GetOrCreate "a" (reg_new, heap_empty).
Definition ex_b : loc * (Sharded.t * Heap) := GetOrCreate "b" ex_a.2.
Definition ex_reg : Sharded.t := ex_b.2.1.
Definition ex_heap : Heap := (Subscribe ex_a.1 7 10 ex_b.2.2).2.

Lemma ex_ok : reg_ok ex_b.2.1 ex_b.2.2.
Proof.
  destruct (GetOrCreate "a" (@reg_new Sharded.t _, heap_empty)) as [la [ra ha]] eqn:Ha.
  pose proof (proj1 (GetOrCreate_spec _ _ _ _ _ _ reg_ok_new Ha)) as Hok.
  unfold ex_b, ex_a. rewrite Ha. cbn [snd].
  destruct (GetOrCreate "b" (ra, ha)) as [lb [rb hb]] eqn:Hb.
  exact (proj1 (GetOrCreate_spec _ _ _ _ _ _ Hok Hb)).
Qed.

Lemma ex_sub_ok : reg_ok ex_reg ex_heap.
Proof.
  destruct ex_ok as [Hwf Hh Hn Hb]. unfold ex_heap.
  destruct (Subscribe ex_a.1 7 10 ex_b.2.2) as [[[]|e] h'] eqn:E; cbn [snd].
  - apply Subscribe_Ok in E as (_ & _ & ->). split; [done| | |done].
    + apply heap_ok_set; [done|]. vm_decide.
    + intros name l Hl. rewrite chan_at_set. case_decide; subst; by eapply Hn.
  - apply Subscribe_Err in E as [-> _]. by split.
Qed.

Lemma Sweep_correct_witness :
  reg_abs (Sweep ex_reg ex_heap).1.1 = filter (fun e => ~ dead ex_heap e) (reg_abs ex_reg)
  /\ (Sweep ex_reg ex_heap).2 = 1 /\ Lookup "a" (Sweep ex_reg ex_heap).1.1 = Some 0
  /\ Lookup "b" (Sweep ex_reg ex_heap).1.1 = None.
Proof.
  split; [|split_and!; vm_decide].
  destruct (Sweep ex_reg ex_heap) as [[r' h'] removed] eqn:Hs.
  exact (proj1 (proj2 (Sweep_correct _ _ _ _ _ ex_sub_ok Hs))).
Defined.
