(* ===== verification/SweepRace.v ===== *)
(** * Sweep interleaved with subscribes

    [registry.Sweep], the [sync.Map] registry's [GetOrCreate] and the retry
    loop of [conn.handleSubscribe], one step per action another goroutine can
    observe.  A thread is a connection's read pump or a sweeper, and subscribes
    under its own identity.  [SubsMu] is held over a sweeper's critical section
    ([PSweepLocked], [PSweepRemoved]); the other users of the lock take it and
    release it within one step, which is enabled only while it is free. *)
From S2P Require Import Prelude Channel.
From stdpp Require Import options.

Definition maxSubscribeRetries : nat := 3.

Inductive pc : Type :=
  | PIdle
  (** [i] attempts of a subscribe have failed; [start] is how many channels of
      this name sweepers had removed when it began. *)
  | PLoad (name : string) (i start : nat)
  (** [Load] missed; [newChannel] made [l], not stored yet. *)
  | PStore (name : string) (i start : nat) (l : loc)
  (** [GetOrCreate] returned [l]. *)
  | PGot (name : string) (i start : nat) (l : loc)
  | PSubscribed (name : string) (l : loc)
  | PTooMany (name : string)
  | PFailed (name : string) (start : nat)
  (** A sweeper: [Range] produced [l]; then it holds [l.SubsMu] and has seen no
      subscriber; then [CompareAndDelete] has run. *)
  | PSweep (l : loc)
  | PSweepLocked (l : loc)
  | PSweepRemoved (l : loc).

Record rstate : Type := MkR {
  r_reg : gmap string loc;
  r_heap : Heap;
  r_pcs : gmap nat pc;
  (** How many channels of each name sweepers have removed. *)
  r_removed : gmap string nat;
}.

Definition removed (g : rstate) (name : string) : nat := default 0 (r_removed g !! name).

Definition holds (p : pc) (l : loc) : Prop := p = PSweepLocked l \/ p = PSweepRemoved l.

(** [SubsMu] of [l] is free. *)
Definition unlocked (g : rstate) (l : loc) : Prop :=
  forall t p, r_pcs g !! t = Some p -> ~ holds p l.

Definition set_pc (t : nat) (p : pc) (g : rstate) : rstate :=
  MkR (r_reg g) (r_heap g) (<[t := p]> (r_pcs g)) (r_removed g).
Definition set_heap (h : Heap) (g : rstate) : rstate :=
  MkR (r_reg g) h (r_pcs g) (r_removed g).

(** [CompareAndDelete(c.Name, c)], counting a removal. *)
Definition cad (l : loc) (g : rstate) : rstate :=
  let name := Name (chan_at l (r_heap g)) in
  if decide (r_reg g !! name = Some l)
  then MkR (delete name (r_reg g)) (r_heap g) (r_pcs g) (<[name := S (removed g name)]> (r_removed g))
  else g.

Section Step.
Context (max : nat).

Inductive race_step : rstate -> rstate -> Prop :=
  | StBegin g t name :
      r_pcs g !! t = Some PIdle ->
      race_step g (set_pc t (PLoad name 0 (removed g name)) g)
  | StLoadHit g t name i start l :
      r_pcs g !! t = Some (PLoad name i start) -> r_reg g !! name = Some l ->
      race_step g (set_pc t (PGot name i start l) g)
  | StLoadMiss g t name i start :
      r_pcs g !! t = Some (PLoad name i start) -> r_reg g !! name = None ->
      race_step g (set_pc t (PStore name i start (next (r_heap g)))
                     (set_heap (chan_alloc (newChannel name) (r_heap g)).2 g))
  | StStored g t name i start l :
      r_pcs g !! t = Some (PStore name i start l) -> r_reg g !! name = None ->
      race_step g (MkR (<[name := l]> (r_reg g)) (r_heap g)
                     (<[t := PGot name i start l]> (r_pcs g)) (r_removed g))
  | StLoaded g t name i start l l' :
      r_pcs g !! t = Some (PStore name i start l) -> r_reg g !! name = Some l' ->
      race_step g (set_pc t (PGot name i start l') g)
  | StSubscribe g t name i start l h' :
      r_pcs g !! t = Some (PGot name i start l) -> unlocked g l ->
      Subscribe l t max (r_heap g) = (Ok tt, h') ->
      race_step g (set_pc t (PSubscribed name l) (set_heap h' g))
  | StRetry g t name i start l h' :
      r_pcs g !! t = Some (PGot name i start l) -> unlocked g l ->
      Subscribe l t max (r_heap g) = (Err ErrChannelDeleted, h') ->
      race_step g (set_pc t (if decide (S i < maxSubscribeRetries)
                             then PLoad name (S i) start else PFailed name start) g)
  | StTooMany g t name i start l h' :
      r_pcs g !! t = Some (PGot name i start l) -> unlocked g l ->
      Subscribe l t max (r_heap g) = (Err ErrTooManySubs, h') ->
      race_step g (set_pc t (PTooMany name) g)
  | StReturn g t p :
      r_pcs g !! t = Some p ->
      match p with PSubscribed _ _ | PTooMany _ | PFailed _ _ => True | _ => False end ->
      race_step g (set_pc t PIdle g)
  | StUnsubscribe g t l :
      r_pcs g !! t = Some PIdle -> l < next (r_heap g) -> unlocked g l ->
      race_step g (set_heap (Unsubscribe l t (r_heap g)) g)
  | StVisit g t name l :
      r_pcs g !! t = Some PIdle -> r_reg g !! name = Some l ->
      race_step g (set_pc t (PSweep l) g)
  | StVisitLive g t l :
      r_pcs g !! t = Some (PSweep l) -> unlocked g l ->
      Subscribers (chan_at l (r_heap g)) <> ∅ ->
      race_step g (set_pc t PIdle g)
  | StVisitLock g t l :
      r_pcs g !! t = Some (PSweep l) -> unlocked g l ->
      Subscribers (chan_at l (r_heap g)) = ∅ ->
      race_step g (set_pc t (PSweepLocked l) g)
  | StRemove g t l :
      r_pcs g !! t = Some (PSweepLocked l) ->
      race_step g (set_pc t (PSweepRemoved l) (cad l g))
  | StMark g t l :
      r_pcs g !! t = Some (PSweepRemoved l) ->
      race_step g (set_pc t PIdle (set_heap (mark_deleted l (r_heap g)) g)).

(** Any number of idle threads and an empty registry. *)
Definition race_init (ts : gset nat) : rstate :=
  MkR ∅ heap_empty (gset_to_gmap PIdle ts) ∅.

End Step.

(** ** An executable scheduler

    [race_exec] runs the next action of a thread; an idle thread is told what
    to start. *)

Inductive action : Type :=
  | ANext
  | ABegin (name : string)
  | AUnsubscribe (l : loc)
  | AVisit (name : string).

#[export] Instance pc_eq_dec : EqDecision pc.
Proof. solve_decision. Defined.

#[export] Instance holds_dec p l : Decision (holds p l).
Proof. unfold holds. apply _. Defined.

Definition unlockedb (g : rstate) (l : loc) : bool :=
  bool_decide (map_Forall (fun _ p => ~ holds p l) (r_pcs g)).

Definition race_exec (max : nat) (g : rstate) (ta : nat * action) : option rstate :=
  let '(t, a) := ta in
  let h := r_heap g in
  match r_pcs g !! t, a with
  | Some PIdle, ABegin name => Some (set_pc t (PLoad name 0 (removed g name)) g)
  | Some PIdle, AUnsubscribe l =>
      if bool_decide (l < next h) && unlockedb g l then Some (set_heap (Unsubscribe l t h) g)
      else None
  | Some PIdle, AVisit name => l ← r_reg g !! name; Some (set_pc t (PSweep l) g)
  | Some (PLoad name i start), ANext =>
      match r_reg g !! name with
      | Some l => Some (set_pc t (PGot name i start l) g)
      | None => Some (set_pc t (PStore name i start (next h))
                        (set_heap (chan_alloc (newChannel name) h).2 g))
      end
  | Some (PStore name i start l), ANext =>
      match r_reg g !! name with
      | Some l' => Some (set_pc t (PGot name i start l') g)
      | None => Some (MkR (<[name := l]> (r_reg g)) h
                        (<[t := PGot name i start l]> (r_pcs g)) (r_removed g))
      end
  | Some (PGot name i start l), ANext =>
      if unlockedb g l then
        match Subscribe l t max h with
        | (Ok _, h') => Some (set_pc t (PSubscribed name l) (set_heap h' g))
        | (Err ErrChannelDeleted, _) =>
            Some (set_pc t (if decide (S i < maxSubscribeRetries)
                            then PLoad name (S i) start else PFailed name start) g)
        | (Err ErrTooManySubs, _) => Some (set_pc t (PTooMany name) g)
        end
      else None
  | Some (PSubscribed _ _), ANext | Some (PTooMany _), ANext | Some (PFailed _ _), ANext =>
      Some (set_pc t PIdle g)
  | Some (PSweep l), ANext =>
      if unlockedb g l then
        if decide (Subscribers (chan_at l h) = ∅) then Some (set_pc t (PSweepLocked l) g)
        else Some (set_pc t PIdle g)
      else None
  | Some (PSweepLocked l), ANext => Some (set_pc t (PSweepRemoved l) (cad l g))
  | Some (PSweepRemoved l), ANext => Some (set_pc t PIdle (set_heap (mark_deleted l h) g))
  | _, _ => None
  end.

Fixpoint race_run (max : nat) (g : rstate) (tas : list (nat * action)) : option rstate :=
  match tas with
  | [] => Some g
  | ta :: tas' => g' ← race_exec max g ta; race_run max g' tas'
  end.

(** ** The invariant *)

(** [l] was handed to the thread by the registry. *)
Definition handed (p : pc) (l : loc) : Prop :=
  match p with
  | PGot _ _ _ l' | PSubscribed _ l' | PSweep l' | PSweepLocked l' | PSweepRemoved l' => l' = l
  | _ => False
  end.

(** [l] is a channel its creator has not stored yet. *)
Definition unpublished (p : pc) (l : loc) : Prop :=
  match p with PStore _ _ _ l' => l' = l | _ => False end.

Definition registered (g : rstate) (l : loc) : Prop :=
  r_reg g !! Name (chan_at l (r_heap g)) = Some l.

(** What a thread's position says about the channel it works on and about how
    often sweepers got in its way. *)
Definition pc_ok (g : rstate) (t : nat) (p : pc) : Prop :=
  match p with
  | PLoad name i start => i + start <= removed g name
  | PStore name i start l =>
      i + start <= removed g name /\ Name (chan_at l (r_heap g)) = name
      /\ Deleted (chan_at l (r_heap g)) = false
  | PGot name i start l =>
      i + start <= removed g name /\ Name (chan_at l (r_heap g)) = name
      /\ (registered g l \/ S i + start <= removed g name)
  | PSubscribed name l => Name (chan_at l (r_heap g)) = name
                          /\ t ∈ Subscribers (chan_at l (r_heap g))
  | PFailed name start => maxSubscribeRetries + start <= removed g name
  | PSweepLocked l => Subscribers (chan_at l (r_heap g)) = ∅
  | PSweepRemoved l => Subscribers (chan_at l (r_heap g)) = ∅ /\ ~ registered g l
  | _ => True
  end.

Record race_inv (g : rstate) : Prop := {
  ri_heap : heap_ok (r_heap g);
  ri_reg : forall name l, r_reg g !! name = Some l ->
    l < next (r_heap g) /\ Name (chan_at l (r_heap g)) = name
    /\ Deleted (chan_at l (r_heap g)) = false
    /\ forall t p, r_pcs g !! t = Some p -> ~ unpublished p l;
  ri_subs : forall l, Subscribers (chan_at l (r_heap g)) <> ∅ -> registered g l;
  ri_pcs : forall t p, r_pcs g !! t = Some p -> pc_ok g t p;
  ri_alloc : forall t p l, r_pcs g !! t = Some p -> handed p l \/ unpublished p l ->
    l < next (r_heap g);
  ri_handed : forall t p l, r_pcs g !! t = Some p -> handed p l ->
    (Deleted (chan_at l (r_heap g)) = false ->
       registered g l \/ exists t', r_pcs g !! t' = Some (PSweepRemoved l))
    /\ forall t' p', r_pcs g !! t' = Some p' -> ~ unpublished p' l;
  ri_lock : forall t t' p p' l, r_pcs g !! t = Some p -> r_pcs g !! t' = Some p' ->
    holds p l -> holds p' l -> t = t';
  ri_private : forall t t' p p' l, r_pcs g !! t = Some p -> r_pcs g !! t' = Some p' ->
    unpublished p l -> unpublished p' l -> t = t';
}.

(** ** Preservation *)

Lemma lookup_set_pc t p g t' p' :
  r_pcs (set_pc t p g) !! t' = Some p' ->
  (t' = t /\ p' = p) \/ (t' <> t /\ r_pcs g !! t' = Some p').
Proof. cbn. rewrite lookup_insert_Some. naive_solver. Qed.

(** [pc_ok] looks at the registry, the heap and the removal counts only. *)
Lemma pc_ok_set_pc g t p t' p' : pc_ok (set_pc t p g) t' p' <-> pc_ok g t' p'.
Proof. done. Qed.

(** Who holds a lock and who owns a private channel, when one thread moves. *)
Lemma lock_set_pc g t p p' t1 t2 p1 p2 l :
  race_inv g -> r_pcs g !! t = Some p -> (forall l, holds p' l -> holds p l \/ unlocked g l) ->
  r_pcs (set_pc t p' g) !! t1 = Some p1 -> r_pcs (set_pc t p' g) !! t2 = Some p2 ->
  holds p1 l -> holds p2 l -> t1 = t2.
Proof.
  intros I Ht Hl.
  assert (forall t' p1, r_pcs g !! t' = Some p1 -> holds p1 l -> holds p' l -> t' = t) as Hone.
  { intros t' q Hq1 Hp1 [Hp|Hfree]%Hl; [by eapply (ri_lock g I)|]. by exfalso; eapply Hfree. }
  intros [[-> ->]|[_ Hq1]]%lookup_set_pc [[-> ->]|[_ Hq2]]%lookup_set_pc; eauto using eq_sym.
  by eapply (ri_lock g I).
Qed.

Lemma private_set_pc g t p p' t1 t2 p1 p2 l :
  race_inv g -> r_pcs g !! t = Some p ->
  (unpublished p' l -> unpublished p l \/
     forall t0 p0, r_pcs g !! t0 = Some p0 -> ~ handed p0 l /\ ~ unpublished p0 l) ->
  r_pcs (set_pc t p' g) !! t1 = Some p1 -> r_pcs (set_pc t p' g) !! t2 = Some p2 ->
  unpublished p1 l -> unpublished p2 l -> t1 = t2.
Proof.
  intros I Ht Hu.
  assert (forall t' p1, r_pcs g !! t' = Some p1 -> unpublished p1 l -> unpublished p' l -> t' = t) as Hone.
  { intros t' q Hq1 Hp1 [Hp|Hf]%Hu; [by eapply (ri_private g I)|]. by eapply Hf in Hq1 as [_ ?]. }
  intros [[-> ->]|[_ Hq1]]%lookup_set_pc [[-> ->]|[_ Hq2]]%lookup_set_pc; eauto using eq_sym.
  by eapply (ri_private g I).
Qed.

(** A step that only moves one thread. *)
Lemma inv_set_pc g t p p' :
  race_inv g -> r_pcs g !! t = Some p ->
  pc_ok g t p' ->
  (forall l, handed p' l -> handed p l \/ registered g l) ->
  (forall l, unpublished p' l -> unpublished p l \/
     (l < next (r_heap g) /\ (forall name, r_reg g !! name <> Some l) /\
      forall t0 p0, r_pcs g !! t0 = Some p0 -> ~ handed p0 l /\ ~ unpublished p0 l)) ->
  (forall l, holds p' l -> holds p l \/ unlocked g l) ->
  (forall l, p = PSweepRemoved l ->
     p' = PSweepRemoved l \/ Deleted (chan_at l (r_heap g)) = true) ->
  race_inv (set_pc t p' g).
Proof.
  intros I Ht Hok Hh Hu Hl Hr. split.
  - apply I.
  - intros name l Hreg. destruct (ri_reg g I name l Hreg) as (? & ? & ? & Hnu).
    split_and!; [done..|]. intros t0 p0 [[-> ->]|[_ Hq0]]%lookup_set_pc; [|by eapply Hnu].
    intros [Hp|(_ & Hn & _)]%Hu; [by eapply Hnu|by eapply Hn].
  - apply I.
  - intros t0 p0 [[-> ->]|[_ Hq0]]%lookup_set_pc; [done|]. by apply (ri_pcs g I).
  - intros t0 p0 l [[-> ->]|[_ Hq0]]%lookup_set_pc Hor; [|by eapply (ri_alloc g I)].
    destruct Hor as [[?|Hreg]%Hh|[?|[? _]]%Hu]; [by eapply (ri_alloc g I); eauto| |
      by eapply (ri_alloc g I); eauto|done].
    by eapply (ri_reg g I).
  - intros t0 p0 l Hp0 Hhand.
    assert ((Deleted (chan_at l (r_heap g)) = false ->
       registered g l \/ exists t', r_pcs g !! t' = Some (PSweepRemoved l))
      /\ forall t' p', r_pcs g !! t' = Some p' -> ~ unpublished p' l) as [Hd Hn].
    { apply lookup_set_pc in Hp0 as [[-> ->]|[_ Hq0]]; [|by eapply (ri_handed g I)].
      apply Hh in Hhand as [?|Hreg]; [by eapply (ri_handed g I)|].
      split; [by left|]. by apply (ri_reg g I) in Hreg as (_ & _ & _ & ?). }
    split.
    + intros HD. destruct (Hd HD) as [?|[t' Ht']]; [by left|].
      destruct (decide (t' = t)) as [->|Hne].
      * rewrite Ht in Ht'. injection Ht' as ->.
        destruct (Hr l eq_refl) as [->|HD']; [|cbn in HD; congruence].
        right. exists t. cbn. apply lookup_insert_eq.
      * right. exists t'. cbn. by rewrite lookup_insert_ne.
    + intros t' p1 [[-> ->]|[_ Hq1]]%lookup_set_pc; [|by eapply Hn].
      intros [Hp|(_ & Hnr & Hf)]%Hu; [by eapply Hn|].
      apply lookup_set_pc in Hp0 as [[-> ->]|[_ Hq0]]; [|by eapply Hf in Hq0 as [? _]].
      apply Hh in Hhand as [Hhand|Hreg]; [by eapply Hf in Ht as [? _]|].
      by eapply Hnr.
  - intros t1 t2 p1 p2 l. by apply (lock_set_pc _ _ p).
  - intros t1 t2 p1 p2 l. apply (private_set_pc _ _ p); [done..|].
    intros [?|(_ & _ & ?)]%Hu; [by left|by right].
Qed.

(** A step that only changes the heap, keeping the names. *)
Lemma inv_set_heap g h :
  race_inv g -> heap_ok h -> next (r_heap g) <= next h ->
  (forall l, l < next (r_heap g) -> Name (chan_at l h) = Name (chan_at l (r_heap g))) ->
  (forall name l, r_reg g !! name = Some l -> Deleted (chan_at l h) = false) ->
  (forall l, Subscribers (chan_at l h) <> ∅ -> registered g l) ->
  (forall l, l < next (r_heap g) -> Deleted (chan_at l h) = false ->
     Deleted (chan_at l (r_heap g)) = false) ->
  (forall t p l, r_pcs g !! t = Some p -> unpublished p l -> Deleted (chan_at l h) = false) ->
  (forall t name l, r_pcs g !! t = Some (PSubscribed name l) -> t ∈ Subscribers (chan_at l h)) ->
  (forall t p l, r_pcs g !! t = Some p -> holds p l -> Subscribers (chan_at l h) = ∅) ->
  race_inv (set_heap h g).
Proof.
  intros I Hok Hnext Hname Hdel Hsubs Hmono Hunp Hsub Hlock.
  assert (forall l, l < next (r_heap g) -> registered g l -> registered (set_heap h g) l)
    as Hreg.
  { intros l Hl. unfold registered. cbn. by rewrite Hname. }
  split; cbn.
  - done.
  - intros name l Hl. destruct (ri_reg g I name l Hl) as (? & ? & ? & ?).
    split_and!; [lia|by rewrite Hname|by eapply Hdel|done].
  - intros l Hl%Hsubs. apply Hreg; [|done]. by apply (ri_reg g I) in Hl as (? & _).
  - intros t p Hp. pose proof (ri_pcs g I t p Hp) as Hpc.
    assert (forall l, handed p l \/ unpublished p l -> l < next (r_heap g)) as Hl
      by (by intros; eapply (ri_alloc g I)).
    destruct p; cbn in *; try done.
    + rewrite Hname by eauto. destruct Hpc as (? & ? & ?). split_and!; [done..|].
      by eapply Hunp.
    + rewrite Hname by eauto. destruct Hpc as (? & ? & [?|?]); split_and!; eauto.
    + rewrite Hname by eauto. destruct Hpc. split; [done|]. by eapply Hsub.
    + eapply Hlock; [done|by left].
    + split; [eapply Hlock; [done|by right]|]. unfold registered. cbn.
      rewrite Hname by eauto. by destruct Hpc.
  - intros t p l Hp Hl. eapply (ri_alloc g I) in Hl; [lia|done].
  - intros t p l Hp Hl. destruct (ri_handed g I t p l Hp Hl) as [Hd Hu].
    assert (l < next (r_heap g)) by (by eapply (ri_alloc g I); eauto).
    split; [|done]. intros HD. destruct Hd as [?|?]; [by apply Hmono|left; by apply Hreg|by right].
  - apply (ri_lock g I).
  - apply (ri_private g I).
Qed.

Lemma inv_alloc g name :
  race_inv g -> race_inv (set_heap (chan_alloc (newChannel name) (r_heap g)).2 g).
Proof.
  intros I. assert (forall l, l < next (r_heap g) ->
    chan_at l (chan_alloc (newChannel name) (r_heap g)).2 = chan_at l (r_heap g)) as Hold.
  { intros l Hl. rewrite chan_at_alloc. rewrite decide_False; [done|lia]. }
  assert (forall t p l, r_pcs g !! t = Some p -> handed p l \/ unpublished p l ->
    l < next (r_heap g)) as Hal by apply (ri_alloc g I).
  apply inv_set_heap; [done|..].
  - apply heap_ok_alloc, I.
  - cbn. lia.
  - intros. by rewrite Hold.
  - intros n l Hl. apply (ri_reg g I) in Hl as (? & _ & ? & _). by rewrite Hold.
  - intros l. rewrite chan_at_alloc. case_decide; [done|]. apply (ri_subs g I).
  - intros l Hl. by rewrite Hold.
  - intros t p l Hp Hu. rewrite Hold by eauto.
    apply (ri_pcs g I) in Hp. destruct p; try done. cbn in *. subst. by destruct Hp as (_ & _ & ?).
  - intros t n l Hp. rewrite Hold by (eapply Hal; [done|by left]).
    by apply (ri_pcs g I) in Hp as [_ ?].
  - intros t p l Hp [-> | ->]; (rewrite Hold by (eapply Hal; [done|by left]));
      apply (ri_pcs g I) in Hp; [done|by destruct Hp].
Qed.

(** Changing the subscribers of one channel whose lock is free. *)
Lemma inv_set_subs g l subs :
  race_inv g -> l < next (r_heap g) -> unlocked g l ->
  (subs <> ∅ -> registered g l) ->
  (forall t name, r_pcs g !! t = Some (PSubscribed name l) -> t ∈ subs) ->
  race_inv (set_heap (chan_set l (MkChannel (Name (chan_at l (r_heap g))) subs
                                  (Deleted (chan_at l (r_heap g)))) (r_heap g)) g).
Proof.
  intros I Hl Hfree Hne Hsub. apply inv_set_heap; [done|..].
  - apply heap_ok_set; [apply I|done].
  - done.
  - intros l' _. rewrite chan_at_set. by case_decide; [subst|].
  - intros n l' Hl'. apply (ri_reg g I) in Hl' as (_ & _ & ? & _).
    rewrite chan_at_set. by case_decide; [subst|].
  - intros l'. rewrite chan_at_set. case_decide; [subst; exact Hne|apply (ri_subs g I)].
  - intros l' _. rewrite chan_at_set. by case_decide; [subst|].
  - intros t p l' Hp Hu.
    assert (Deleted (chan_at l' (r_heap g)) = false).
    { apply (ri_pcs g I) in Hp. destruct p; try done. cbn in *. subst. by destruct Hp as (_ & _ & ?). }
    rewrite chan_at_set. by case_decide; [subst|].
  - intros t n l' Hp. rewrite chan_at_set. case_decide; [subst; by eapply Hsub|].
    by apply (ri_pcs g I) in Hp as [_ ?].
  - intros t p l' Hp Hh. rewrite chan_at_set.
    case_decide; [subst; exfalso; by eapply Hfree|].
    apply (ri_pcs g I) in Hp. destruct Hh as [-> | ->]; [done|by destruct Hp].
Qed.

Lemma inv_mark g t l :
  race_inv g -> r_pcs g !! t = Some (PSweepRemoved l) ->
  race_inv (set_heap (mark_deleted l (r_heap g)) g).
Proof.
  intros I Ht. assert (l < next (r_heap g)) as Hl by (by eapply (ri_alloc g I); [|left]).
  destruct (ri_pcs g I _ _ Ht) as [Hemp Hnreg].
  destruct (ri_handed g I _ _ l Ht eq_refl) as [_ Hpriv].
  apply inv_set_heap; [done|..].
  - apply heap_ok_set; [apply I|done].
  - done.
  - intros l' _. by rewrite mark_deleted_at.
  - intros n l' Hl'. pose proof Hl' as (_ & Hn & ? & _)%(ri_reg g I).
    rewrite mark_deleted_at. cbn. case_decide; [|done]. subst l'.
    destruct Hnreg. unfold registered. by rewrite Hn.
  - intros l'. rewrite mark_deleted_at. apply (ri_subs g I).
  - intros l' _. rewrite mark_deleted_at. cbn. by case_decide.
  - intros t' p l' Hp Hu. rewrite mark_deleted_at. cbn. case_decide.
    + subst l'. by eapply Hpriv in Hp.
    + apply (ri_pcs g I) in Hp. destruct p; try done. cbn in *. subst. by destruct Hp as (_ & _ & ?).
  - intros t' n l' Hp. rewrite mark_deleted_at. by apply (ri_pcs g I) in Hp as [_ ?].
  - intros t' p l' Hp Hh. rewrite mark_deleted_at. cbn.
    apply (ri_pcs g I) in Hp. destruct Hh as [-> | ->]; [done|by destruct Hp].
Qed.

(** The store of [LoadOrStore]: the private channel becomes registered. *)
Lemma inv_store g t name i start l :
  race_inv g -> r_pcs g !! t = Some (PStore name i start l) -> r_reg g !! name = None ->
  race_inv (MkR (<[name := l]> (r_reg g)) (r_heap g)
              (<[t := PGot name i start l]> (r_pcs g)) (r_removed g)).
Proof.
  intros I Ht Hnone. set (g' := MkR _ _ _ _).
  destruct (ri_pcs g I _ _ Ht) as (Hcnt & Hname & Hdel).
  assert (l < next (r_heap g)) as Hl by (by eapply (ri_alloc g I); [|right]).
  assert (forall l', registered g l' -> registered g' l') as Hmono.
  { intros l'. unfold registered. cbn. intros Hr. rewrite lookup_insert_ne; [done|congruence]. }
  assert (registered g' l) as Hself.
  { unfold registered. cbn. rewrite Hname. apply lookup_insert_eq. }
  assert (forall t0 p0, r_pcs g' !! t0 = Some p0 ->
    (t0 = t /\ p0 = PGot name i start l) \/ (t0 <> t /\ r_pcs g !! t0 = Some p0)) as Hpcs.
  { intros t0 p0. cbn. rewrite lookup_insert_Some. naive_solver. }
  assert (forall t0 p0, r_pcs g' !! t0 = Some p0 -> ~ unpublished p0 l) as Hnu.
  { intros t0 p0 [[-> ->]|[Hne Hq0]]%Hpcs Hu; [done|].
    by apply Hne, (ri_private g I t0 t p0 _ l Hq0 Ht). }
  assert (forall t0 p0 l', r_pcs g' !! t0 = Some p0 -> unpublished p0 l' ->
    r_pcs g !! t0 = Some p0) as Hunp by (by intros t0 p0 l' [[-> ->]|[_ ?]]%Hpcs).
  split.
  - apply I.
  - intros n l' Hr. cbn in Hr. apply lookup_insert_Some in Hr as [[<- <-]|[Hne Hr]]; [done|].
    destruct (ri_reg g I n l' Hr) as (? & ? & ? & Hn). split_and!; [done..|].
    intros t0 p0 Hp0 Hu. by eapply Hn; [eapply Hunp|].
  - intros l' Hs. by apply Hmono, (ri_subs g I).
  - intros t0 p0 [[-> ->]|[_ Hq0]]%Hpcs; [cbn; by auto|].
    pose proof (ri_pcs g I _ _ Hq0) as Hok. destruct p0; try done; cbn in *.
    + destruct Hok as (? & ? & [?|?]); auto.
    + destruct Hok as [? Hnr]. split; [done|]. unfold registered. cbn.
      intros [[Hn <-]|[_ ?]]%lookup_insert_Some; [|done].
      by eapply (ri_handed g I t0); [exact Hq0|done|exact Ht|].
  - intros t0 p0 l' [[-> ->]|[_ Hq0]]%Hpcs Hor; [|by eapply (ri_alloc g I)].
    by destruct Hor as [<-|[]].
  - intros t0 p0 l' [[-> ->]|[_ Hq0]]%Hpcs Hh.
    + cbn in Hh. subst l'. by split; [left|].
    + destruct (ri_handed g I _ _ _ Hq0 Hh) as [Hd Hn]. split.
      * intros [?|[t' Ht']]%Hd; [left; by apply Hmono|right].
        exists t'. cbn. rewrite lookup_insert_ne; [done|]. intros <-. congruence.
      * intros t' p' Hp' Hu. by eapply Hn; [eapply Hunp|].
  - intros t1 t2 p1 p2 l' [[-> ->]|[_ Hq1]]%Hpcs [[-> ->]|[_ Hq2]]%Hpcs;
      try (by intros [|]); try (by intros _ [|]). by eapply (ri_lock g I).
  - intros t1 t2 p1 p2 l' Hp1 Hp2 Hu1 Hu2.
    eapply (ri_private g I); [by eapply Hunp|by eapply Hunp|done..].
Qed.

(** What a removal does to the registry and to the count of removals. *)
Lemma removal_facts g t l :
  registered g l ->
  let n := Name (chan_at l (r_heap g)) in
  let g' := set_pc t (PSweepRemoved l) (MkR (delete n (r_reg g)) (r_heap g) (r_pcs g) (<[n := S (removed g n)]> (r_removed g))) in
  (forall n', removed g n' <= removed g' n') /\ removed g' n = S (removed g n)
  /\ (forall l', registered g' l' -> registered g l')
  /\ (forall l', registered g l' -> l' <> l -> registered g' l') /\ ~ registered g' l.
Proof.
  intros Hreg n g'. split_and!.
  - intros n'. unfold removed, g'. cbn. rewrite lookup_insert. case_decide; [|done].
    subst n'. cbn. unfold removed. lia.
  - unfold removed, g'. cbn. by rewrite lookup_insert_eq.
  - intros l'. unfold registered. cbn. by intros [_ ?]%lookup_delete_Some.
  - intros l'. unfold registered. cbn. intros Hr Hne. rewrite lookup_delete_ne; [done|]. unfold n. unfold registered in Hreg. congruence.
  - unfold registered. cbn. fold n. by rewrite lookup_delete_eq.
Qed.

(** The removal of a sweep. *)
(** The removal of a sweep. *)
Lemma inv_remove g t l :
  race_inv g -> r_pcs g !! t = Some (PSweepLocked l) ->
  race_inv (set_pc t (PSweepRemoved l) (cad l g)).
Proof.
  intros I Ht. pose proof (ri_pcs g I _ _ Ht) as Hemp. cbn in Hemp.
  unfold cad. case_decide as Hreg; [|apply (inv_set_pc g t (PSweepLocked l));
    [done|done|done|by left|done|intros l' [|[= <-]]; [done|by left; left]|done]].
  destruct (removal_facts g t l Hreg) as (Hcnt & Hone & Hback & Hstay & Hgone).
  set (n := Name (chan_at l (r_heap g))) in *. set (g' := set_pc _ _ _) in *.
  split.
  - apply I.
  - intros n' l' Hr. cbn in Hr. apply lookup_delete_Some in Hr as [_ Hr].
    destruct (ri_reg g I n' l' Hr) as (? & ? & ? & Hn). split_and!; [done..|].
    intros t0 p0 [[-> ->]|[_ Hq0]]%lookup_set_pc; [by intros []|by eapply Hn].
  - intros l' Hs. apply Hstay; [by apply (ri_subs g I)|]. by intros ->.
  - intros t0 p0 [[-> ->]|[_ Hq0]]%lookup_set_pc; [done|].
    pose proof (ri_pcs g I _ _ Hq0) as Hok.
    destruct p0 as [|n' i s|n' i s l'|n' i s l'| | |n' s| | |l']; try done; cbn in *.
    + specialize (Hcnt n'). lia.
    + destruct Hok as (? & ? & ?). specialize (Hcnt n'). split_and!; [lia|done..].
    + destruct Hok as (? & Hn' & Hor). specialize (Hcnt n'). split_and!; [lia|done|].
      destruct Hor as [Hr|]; [|right; lia].
      destruct (decide (l' = l)) as [->|]; [right|by left; apply Hstay].
      change (n = n') in Hn'. destruct Hn'. lia.
    + specialize (Hcnt n'). lia.
    + destruct Hok as [? Hnr]. split; [done|]. by intros ?%Hback.
  - intros t0 p0 l' [[-> ->]|[_ Hq0]]%lookup_set_pc Hor; [|by eapply (ri_alloc g I)].
    destruct Hor as [<-|[]]. by eapply (ri_alloc g I); [|left].
  - intros t0 p0 l' Hp0 Hh.
    assert (exists p1, r_pcs g !! t0 = Some p1 /\ handed p1 l') as (p1 & Hq1 & Hh1).
    { apply lookup_set_pc in Hp0 as [[-> ->]|[_ Hq0]]; eauto. }
    destruct (ri_handed g I _ _ _ Hq1 Hh1) as [Hd Hn]. split.
    + intros [Hr|[t' Ht']]%Hd.
      * destruct (decide (l' = l)) as [->|]; [right|by left; apply Hstay].
        exists t. cbn. apply lookup_insert_eq.
      * right. exists t'. cbn. rewrite lookup_insert_ne; [done|]. intros <-. congruence.
    + intros t' p' [[-> ->]|[_ Hq0]]%lookup_set_pc; [by intros []|by eapply Hn].
  - intros t1 t2 p1 p2 l'. apply (lock_set_pc g t (PSweepLocked l) (PSweepRemoved l)); [done..|].
    intros l'' [|[= <-]]; [done|by left; left].
  - intros t1 t2 p1 p2 l'. by apply (private_set_pc g t (PSweepLocked l) (PSweepRemoved l)).
Qed.

(** ** The theorems *)

(** A miss: a fresh channel, private to the thread. *)
Lemma inv_load_miss g t name i st :
  race_inv g -> r_pcs g !! t = Some (PLoad name i st) ->
  race_inv (set_pc t (PStore name i st (next (r_heap g))) (set_heap (chan_alloc (newChannel name) (r_heap g)).2 g)).
Proof.
  intros I Ht. pose proof (ri_pcs g I _ _ Ht) as Hok. pose proof (inv_alloc g name I) as I'.
  eapply (inv_set_pc _ t _ _ I' Ht); [|done| |by intros l' [|]|done].
  - cbn [pc_ok set_heap r_heap]. by rewrite chan_at_alloc, decide_True.
  - intros l Hu. cbn in Hu. subst l. right. cbn. split; [lia|]. split.
    + intros n (Hlt & _)%(ri_reg g I). lia.
    + intros t0 p0 Hp0. split; intros Hx; (eapply (ri_alloc g I) in Hp0; [|eauto]); lia.
Qed.

(** A successful subscribe. *)
Lemma inv_subscribe max g t name i st l h' :
  race_inv g -> r_pcs g !! t = Some (PGot name i st l) -> unlocked g l ->
  Subscribe l t max (r_heap g) = (Ok tt, h') -> race_inv (set_pc t (PSubscribed name l) (set_heap h' g)).
Proof.
  intros I Ht Hf (HD & _ & ->)%Subscribe_Ok. pose proof (ri_pcs g I _ _ Ht) as Hok.
  assert (l < next (r_heap g)) as Hlt by (by eapply (ri_alloc g I); [|left]).
  pose proof (inv_set_subs g l ({[t]} ∪ Subscribers (chan_at l (r_heap g))) I Hlt Hf) as I'.
  rewrite HD in I'. destruct Hok as (_ & Hn & _).
  eapply (inv_set_pc _ t (PGot name i st l)); [apply I'|done| | |done| |done].
  - intros _. destruct (ri_handed g I _ _ l Ht eq_refl) as [[?|[t' Ht']] _]; [done..|].
    exfalso. eapply Hf; [done|by right].
  - intros t' n' [_ Hin]%(ri_pcs g I). set_solver.
  - cbn. rewrite chan_at_set_eq. cbn. split; [done|set_solver].
  - by left.
  - by intros ? [|].
Qed.

Lemma race_step_inv max g g' : race_inv g -> race_step max g g' -> race_inv g'.
Proof.
  intros I Hst. destruct Hst as [g t name Ht|g t name i st l Ht Hl|g t name i st Ht Hl
    |g t name i st l Ht Hl|g t name i st l l' Ht Hl|g t name i st l h' Ht Hf Hs
    |g t name i st l h' Ht Hf Hs|g t name i st l h' Ht Hf Hs|g t p Ht Hp|g t l Ht Hl Hf
    |g t name l Ht Hl|g t l Ht Hf Hs|g t l Ht Hf Hs|g t l Ht|g t l Ht];
    pose proof (ri_pcs g I _ _ Ht) as Hok.
  - apply (inv_set_pc g t _ _ I Ht); [cbn; lia|done|done|by intros ? [|]|done].
  - destruct (ri_reg g I _ _ Hl) as (_ & Hn & _). destruct Hn.
    apply (inv_set_pc g t _ _ I Ht); [|by intros ? <-; right|done|by intros ? [|]|done].
    split_and!; auto.
  - by apply inv_load_miss.
  - by apply inv_store.
  - destruct (ri_reg g I _ _ Hl) as (_ & Hn & _). destruct Hn.
    apply (inv_set_pc g t _ _ I Ht); [|by intros ? <-; right|done|by intros ? [|]|done].
    destruct Hok as (? & _). split_and!; auto.
  - by eapply inv_subscribe.
  - apply Subscribe_Err in Hs as [-> HD]. destruct Hok as (Hc & Hn & Hor).
    assert (S i + st <= removed g name) as Hc'.
    { destruct Hor as [Hr|]; [|done]. apply (ri_reg g I) in Hr as (_ & _ & ? & _). congruence. }
    case_decide; (apply (inv_set_pc g t _ _ I Ht); [|done..|by intros ? [|]|done]); [done|].
    cbn. unfold maxSubscribeRetries in *. lia.
  - by apply (inv_set_pc g t _ _ I Ht); [..|intros ? [|]|].
  - by apply (inv_set_pc g t _ _ I Ht); [..|intros ? [|]|intros ? ->].
  - apply inv_set_subs; [done..| |].
    + intros Hne. apply (ri_subs g I). set_solver.
    + intros t' n' Ht'. destruct (decide (t' = t)) as [->|]; [congruence|].
      apply (ri_pcs g I) in Ht' as [_ ?]. set_solver.
  - apply (inv_set_pc g t _ _ I Ht); [done| |done|by intros ? [|]|done].
    intros l' <-. right. destruct (ri_reg g I _ _ Hl) as (_ & Hn & _). unfold registered.
    by rewrite Hn.
  - by apply (inv_set_pc g t _ _ I Ht); [..|intros ? [|]|].
  - apply (inv_set_pc g t _ _ I Ht); [done|by left|done| |done].
    intros l' [[= <-]|]; [by right|done].
  - by apply inv_remove.
  - pose proof (inv_mark g t l I Ht) as I'.
    apply (inv_set_pc _ t _ _ I' Ht); [done..|by intros ? [|]|].
    intros l' [= <-]. right. cbn. rewrite mark_deleted_at. cbn. by rewrite decide_True.
Qed.

Lemma race_init_inv ts : race_inv (race_init ts).
Proof.
  assert (forall t p, r_pcs (race_init ts) !! t = Some p -> p = PIdle) as Hp.
  { intros t p. cbn. by intros [_ <-]%lookup_gset_to_gmap_Some. }
  split; cbn.
  - apply heap_ok_empty.
  - intros name l. by rewrite lookup_empty.
  - intros l. unfold chan_at, heap_empty. cbn [cells]. by rewrite lookup_empty.
  - by intros t p ->%Hp.
  - intros t p l ->%Hp. by intros [|].
  - by intros t p l ->%Hp.
  - intros t t' p p' l ->%Hp. by intros _ [|].
  - by intros t t' p p' l ->%Hp.
Qed.

Lemma race_reachable_inv max ts g : rtc (race_step max) (race_init ts) g -> race_inv g.
Proof.
  apply rtc_invariant; [apply race_init_inv|]. intros a b. apply race_step_inv.
Qed.

(** Every run of the scheduler is a run of the relation. *)
Lemma unlockedb_spec g l : unlockedb g l = true -> unlocked g l.
Proof. unfold unlockedb. intros H%bool_decide_eq_true_1 t p Hp. by apply (H t p). Qed.

Lemma race_exec_step max g ta g' : race_exec max g ta = Some g' -> race_step max g g'.
Proof.
  destruct ta as [t a]. unfold race_exec.
  destruct (r_pcs g !! t) as [p|] eqn:Ht; [|done].
  destruct p, a; try done; intros H.
  - simplify_eq. by constructor.
  - case_match eqn:E; [|done]. simplify_eq. bool_hyps.
    constructor; [done..|by apply unlockedb_spec].
  - destruct (r_reg g !! name) eqn:E; simplify_eq/=. by econstructor.
  - case_match; simplify_eq; by econstructor.
  - case_match; simplify_eq; by econstructor.
  - destruct (unlockedb g l) eqn:Hu; [|done]. apply unlockedb_spec in Hu.
    destruct (Subscribe l t max (r_heap g)) as [[[]|[]] h'] eqn:E; simplify_eq.
    + by eapply StSubscribe.
    + by eapply StTooMany.
    + by eapply StRetry.
  - simplify_eq. by eapply StReturn.
  - simplify_eq. by eapply StReturn.
  - simplify_eq. by eapply StReturn.
  - destruct (unlockedb g l) eqn:Hu; [|done]. apply unlockedb_spec in Hu.
    case_decide; simplify_eq; [by eapply StVisitLock|by eapply StVisitLive].
  - simplify_eq. by constructor.
  - simplify_eq. by constructor.
Qed.

Lemma race_run_rtc max g tas g' : race_run max g tas = Some g' -> rtc (race_step max) g g'.
Proof.
  revert g. induction tas as [|ta tas IH]; intros g H; cbn in H; [by simplify_eq|].
  destruct (race_exec max g ta) as [g1|] eqn:E; [|done].
  eapply rtc_l; [by eapply race_exec_step|by apply IH].
Qed.

(** C7. No orphaned subscriber. In every interleaving of subscribes,
    unsubscribes and sweeps at the granularity of single registry and lock
    operations, a channel that has a subscriber is the one registered under its
    name, so publishes find it, and is not marked deleted. *)
Theorem no_orphaned_subscriber max ts g t l :
  rtc (race_step max) (race_init ts) g ->
  t ∈ Subscribers (chan_at l (r_heap g)) ->
  r_reg g !! Name (chan_at l (r_heap g)) = Some l /\ Deleted (chan_at l (r_heap g)) = false.
Proof.
  intros I%race_reachable_inv Hin.
  assert (registered g l) as Hreg by (apply (ri_subs g I); set_solver).
  split; [done|]. by apply (ri_reg g I) in Hreg as (_ & _ & ? & _).
Qed.

(** An acknowledged subscribe is reachable by publishers: in every
    interleaving with sweeps, a thread whose subscribe succeeded is a subscriber
    of the very channel the registry maps the name to. *)
Theorem subscribed_is_registered max ts g t name l :
  rtc (race_step max) (race_init ts) g ->
  r_pcs g !! t = Some (PSubscribed name l) ->
  r_reg g !! name = Some l /\ t ∈ Subscribers (chan_at l (r_heap g)).
Proof.
  intros I%race_reachable_inv [Hn Hin]%(ri_pcs g I). split; [|done].
  assert (registered g l) as Hreg by (apply (ri_subs g I); set_solver).
  unfold registered in Hreg. by rewrite Hn in Hreg.
Qed.

(** A subscribe gives up only for cause: when its retries are exhausted,
    sweepers removed at least three channels of that name while it ran. *)
Theorem subscribe_fails_after_three_removals max ts g t name start :
  rtc (race_step max) (race_init ts) g ->
  r_pcs g !! t = Some (PFailed name start) ->
  start + maxSubscribeRetries <= removed g name.
Proof.
  intros I%race_reachable_inv Hp%(ri_pcs g I). unfold pc_ok, maxSubscribeRetries in *. lia.
Qed.

(** ** Concrete runs *)

(** Thread 1 subscribes to "a" while thread 2 sweeps: the sweeper removes the
    channel thread 1 has just looked up, [n] times over. *)
Definition sweep_under (n : nat) : list (nat * action) :=
  mjoin (replicate n
    [(1, ANext); (1, ANext); (2, AVisit "a"); (2, ANext); (2, ANext); (2, ANext); (1, ANext)]).

Definition run_from_start (tas : list (nat * action)) : rstate :=
  default (race_init ∅) (race_run 10 (race_init {[1; 2]}) tas).

(** One removal, then the retry succeeds; three removals, and it fails. *)
Definition retry_state : rstate :=
  run_from_start ((1, ABegin "a") :: sweep_under 1 ++ [(1, ANext); (1, ANext); (1, ANext)]).
Definition fail_state : rstate := run_from_start ((1, ABegin "a") :: sweep_under 3).

#[export] Instance rstate_eq_dec : EqDecision rstate.
Proof. solve_decision. Defined.

Lemma run_from_start_reach tas :
  is_Some (race_run 10 (race_init {[1; 2]}) tas) ->
  rtc (race_step 10) (race_init {[1; 2]}) (run_from_start tas).
Proof. intros [g Hg]. unfold run_from_start. rewrite Hg. by eapply race_run_rtc. Qed.

Lemma no_orphaned_subscriber_witness :
  r_reg retry_state !! "a" = Some 1 /\ Deleted (chan_at 1 (r_heap retry_state)) = false.
Proof.
  apply (no_orphaned_subscriber 10 {[1; 2]} retry_state 1 1).
  - apply run_from_start_reach. vm_decide.
  - vm_decide.
Defined.

Lemma subscribed_is_registered_witness :
  r_reg retry_state !! "a" = Some 1 /\ 1 ∈ Subscribers (chan_at 1 (r_heap retry_state)).
Proof.
  apply (subscribed_is_registered 10 {[1; 2]} retry_state 1 "a" 1).
  - apply run_from_start_reach. vm_decide.
  - vm_decide.
Defined.

Lemma subscribe_fails_after_three_removals_witness : 0 + 3 <= removed fail_state "a".
Proof.
  apply (subscribe_fails_after_three_removals 10 {[1; 2]} fail_state 1 "a" 0).
  - apply run_from_start_reach. vm_decide.
  - vm_decide.
Defined.
