(* ===== verification/Limiter.v ===== *)
(** * internal/ratelimit: a token bucket per key, with eviction

    The buckets are [rate.Limiter]s of golang.org/x/time, which is not part of
    the repository: [TokenBucket] is what the limiter calls, and the theorem
    assumes of it only the documented behaviour that a bucket left alone long
    enough is full again. *)
From S2P Require Import Prelude GoStd Sweep.
From stdpp Require Import options.
Local Open Scope Z_scope.

(** [rate.NewLimiter], and [rate.Limiter.Allow] at the time it reads. *)
Class TokenBucket (B : Type) : Type := {
  NewLimiter : Z -> Z -> B;
  bucket_allow : Z -> B -> bool * B;
}.

Section Limiter.
Context {B : Type} `{TokenBucket B}.

Record entry : Type := MkEntry { lim : B; lastSeen : Z }.

Record Limiter : Type := MkLimiter {
  entries : gmap string entry;
  rps : Z;
  burst : Z;
  ttl : Z;
}.

Definition New (rps burst ttl : Z) : Limiter := MkLimiter ∅ rps burst ttl.

Definition set_entries (es : gmap string entry) (l : Limiter) : Limiter :=
  MkLimiter es (rps l) (burst l) (ttl l).

(** [seen] is the clock reading stored in the entry, [now] the one the bucket
    makes after the mutex is released. *)
Definition Allow (seen now : Z) (key : string) (l : Limiter) : bool * Limiter :=
  let b := match entries l !! key with
           | Some e => lim e
           | None => NewLimiter (rps l) (burst l)
           end in
  let '(ok, b') := bucket_allow now b in
  (ok, set_entries (<[key := MkEntry b' seen]> (entries l)) l).

(** [peek], for tests. *)
Definition peek (key : string) (l : Limiter) : option entry := entries l !! key.

(** Keep an entry unless [lastSeen.Before(now.Add(-ttl))]. *)
Definition gcOnce (now : Z) (l : Limiter) : Limiter :=
  set_entries (filter (fun ke => ~ lastSeen ke.2 < now - ttl l) (entries l)) l.

(** [gcLoop]: a tick at [now] collects, [Close] ends the loop. *)
Fixpoint gcLoop (evs : list (loop_event * Z)) (l : Limiter) : Limiter :=
  match evs with
  | [] => l
  | (Done, _) :: _ => l
  | (Tick, now) :: evs' => gcLoop evs' (gcOnce now l)
  end.

(** ** Runs *)

Inductive lim_op : Type :=
  | LAllow (seen now : Z) (key : string)
  | LGc (now : Z).

Fixpoint lim_run (ops : list lim_op) (l : Limiter) : list (string * bool) :=
  match ops with
  | [] => []
  | LAllow seen now key :: ops' =>
      let '(ok, l') := Allow seen now key l in (key, ok) :: lim_run ops' l'
  | LGc now :: ops' => lim_run ops' (gcOnce now l)
  end.

(** The decisions for one key. *)
Fixpoint results_of (key : string) (rs : list (string * bool)) : list bool :=
  match rs with
  | [] => []
  | (k, ok) :: rs' => if decide (k = key) then ok :: results_of key rs' else results_of key rs'
  end.

(** The times at which one key's bucket is asked. *)
Fixpoint times_of (key : string) (ops : list lim_op) : list Z :=
  match ops with
  | [] => []
  | LAllow _ now k :: ops' =>
      if decide (k = key) then now :: times_of key ops' else times_of key ops'
  | LGc _ :: ops' => times_of key ops'
  end.

(** A private bucket asked at each of [ts]. *)
Fixpoint allows (ts : list Z) (b : B) : list bool :=
  match ts with
  | [] => []
  | t :: ts' => let '(ok, b') := bucket_allow t b in ok :: allows ts' b'
  end.

(** The operations happen in order from time [t] on, and a call reaches its
    bucket within [slack] of the reading it stored. *)
Fixpoint timed (slack t : Z) (ops : list lim_op) : Prop :=
  match ops with
  | [] => True
  | LAllow seen now _ :: ops' =>
      t <= seen <= now /\ now <= seen + slack /\ timed slack now ops'
  | LGc now :: ops' => t <= now /\ timed slack now ops'
  end.

(** ** What is assumed of a bucket *)

Fixpoint sorted_from (t : Z) (ts : list Z) : Prop :=
  match ts with
  | [] => True
  | t' :: ts' => t <= t' /\ sorted_from t' ts'
  end.

(** The two buckets answer alike from [t] on. *)
Definition alike (t : Z) (b b' : B) : Prop :=
  forall ts, sorted_from t ts -> allows ts b = allows ts b'.

(** [b] is a limiter's bucket last asked at [t]. *)
Inductive bucket_at (r n : Z) : Z -> B -> Prop :=
  | bucket_new t : bucket_at r n t (NewLimiter r n)
  | bucket_asked t t' b : bucket_at r n t b -> t <= t' ->
      bucket_at r n t' (bucket_allow t' b).2.

(** A bucket left alone for [refill] is as good as new. *)
Definition refills (r n refill : Z) : Prop :=
  forall t t' b, bucket_at r n t b -> t + refill <= t' -> alike t' b (NewLimiter r n).

(** ** Facts *)

Lemma alike_refl t b : alike t b b.
Proof using Type. done. Qed.

Lemma alike_later t t' b b' : t <= t' -> alike t b b' -> alike t' b b'.
Proof using Type.
  intros Ht Ha ts Hts. apply Ha. destruct ts as [|t0 ts]; [done|]. cbn in *. split; [lia|].
  by destruct Hts.
Qed.

Lemma alike_sym t b b' : alike t b b' -> alike t b' b.
Proof using Type. intros Ha ts Hts. symmetry. by apply Ha. Qed.

Lemma alike_trans t b b' b'' : alike t b b' -> alike t b' b'' -> alike t b b''.
Proof using Type. intros H1 H2 ts Hts. rewrite H1 by done. by apply H2. Qed.

(** Asking both buckets keeps them alike and gets the same answer. *)
Lemma alike_ask t t' b b' :
  t <= t' -> alike t b b' ->
  (bucket_allow t' b).1 = (bucket_allow t' b').1
  /\ alike t' (bucket_allow t' b).2 (bucket_allow t' b').2.
Proof using Type.
  intros Ht Ha. split.
  - specialize (Ha [t'] ltac:(cbn; lia)). cbn in Ha.
    destruct (bucket_allow t' b), (bucket_allow t' b'). by simplify_eq/=.
  - intros ts Hts. specialize (Ha (t' :: ts) ltac:(cbn; lia || done)). cbn in Ha.
    destruct (bucket_allow t' b), (bucket_allow t' b'). by simplify_eq/=.
Qed.

(** ** The limiter against one private bucket per key *)

(** The state for [key] answers like the private bucket [b] from [t] on. *)
Definition mirrors (r n slack t : Z) (key : string) (b : B) (l : Limiter) : Prop :=
  match entries l !! key with
  | Some e => alike t (lim e) b
              /\ exists t0, bucket_at r n t0 (lim e) /\ t0 <= t /\ t0 <= lastSeen e + slack
  | None => alike t (NewLimiter r n) b
  end.

Lemma mirrors_later r n slack t t' key b l :
  t <= t' -> mirrors r n slack t key b l -> mirrors r n slack t' key b l.
Proof using Type.
  intros Ht. unfold mirrors. destruct (entries l !! key); [|by apply alike_later].
  intros (Ha & t0 & ? & ? & ?). split; [by eapply alike_later|]. exists t0. split_and!; [done|lia..].
Qed.

Lemma mirrors_gc r n slack refill t now key b l :
  refills r n refill -> refill + slack <= ttl l -> t <= now ->
  mirrors r n slack t key b l -> mirrors r n slack now key b (gcOnce now l).
Proof using Type.
  intros Hrf Httl Ht Hm. apply (mirrors_later _ _ _ t now) in Hm; [|done].
  unfold mirrors, gcOnce in *. cbn. rewrite map_lookup_filter.
  destruct (entries l !! key) as [e|]; cbn; [|done].
  destruct Hm as (Ha & t0 & Hb & ? & ?). case_guard; cbn; [by eauto 6|].
  eapply alike_trans; [|done]. apply alike_sym, (Hrf t0); [done|cbn in *; lia].
Qed.

Lemma mirrors_other r n slack t t' seen now key k b l :
  k <> key -> t <= t' -> mirrors r n slack t key b l ->
  mirrors r n slack t' key b (Allow seen now k l).2.
Proof using Type.
  intros Hk Ht Hm. apply (mirrors_later _ _ _ t t') in Hm; [|done].
  unfold Allow. destruct (bucket_allow now _). unfold mirrors in *. cbn.
  by rewrite lookup_insert_ne.
Qed.

Lemma mirrors_ask r n slack t seen now key b l :
  rps l = r -> burst l = n -> t <= seen -> seen <= now <= seen + slack ->
  mirrors r n slack t key b l ->
  (Allow seen now key l).1 = (bucket_allow now b).1
  /\ mirrors r n slack now key (bucket_allow now b).2 (Allow seen now key l).2.
Proof using Type.
  intros <- <- Ht Hnow Hm. unfold Allow, mirrors in *.
  set (b0 := match entries l !! key with Some e => lim e | None => _ end).
  assert (alike t b0 b /\ exists t0, bucket_at (rps l) (burst l) t0 b0 /\ t0 <= now)
    as (Ha & t0 & Hb & Ht0).
  { subst b0. destruct (entries l !! key) as [e|].
    - destruct Hm as (? & t0 & ? & ? & ?). split; [done|]. exists t0. split; [done|lia].
    - split; [done|]. exists now. split; [constructor|lia]. }
  destruct (alike_ask t now b0 b) as [H1 H2]; [lia|done|].
  pose proof (bucket_asked _ _ t0 now b0 Hb Ht0) as Hb'.
  destruct (bucket_allow now b0) as [ok b1]. cbn in *. split; [done|].
  rewrite lookup_insert_eq. cbn. split; [done|]. exists now. split_and!; [done|lia..].
Qed.

Lemma mirrors_run r n slack refill key ops t b l :
  refills r n refill -> refill + slack <= ttl l -> rps l = r -> burst l = n ->
  timed slack t ops -> mirrors r n slack t key b l ->
  results_of key (lim_run ops l) = allows (times_of key ops) b.
Proof using Type.
  intros Hrf. revert t b l.
  induction ops as [|[seen now k|now] ops IH]; intros t b l Httl Hr Hn Hts Hm; [done|..].
  - destruct Hts as (? & ? & Hts). cbn.
    assert (rps (Allow seen now k l).2 = r /\ burst (Allow seen now k l).2 = n
            /\ ttl (Allow seen now k l).2 = ttl l) as (Hr' & Hn' & Httl').
    { unfold Allow. by destruct (bucket_allow now _). }
    destruct (decide (k = key)) as [->|Hk].
    + destruct (mirrors_ask r n slack t seen now key b l) as [Ho Hm']; [done..|lia|lia|done|].
      destruct (Allow seen now key l) as [ok l'], (bucket_allow now b) as [ok' b'] eqn:Hb.
      cbn in *. subst ok'. rewrite !decide_True by done. cbn. rewrite Hb. f_equal.
      apply (IH now); [lia|done..].
    + pose proof (mirrors_other r n slack t now seen now key k b l Hk ltac:(lia) Hm) as Hm'.
      destruct (Allow seen now k l) as [ok l']. cbn in *. rewrite !decide_False by done.
      apply (IH now); [lia|done..].
  - destruct Hts as (? & Hts). cbn.
    apply (IH now); [done..|]. eapply mirrors_gc; [done..| |done]. lia.
Qed.

(** C39. Rate-limit isolation and invisible eviction. Whatever the other keys do
    and whenever the collector runs, the decisions for a key are those of one
    private bucket asked at the key's own times, as long as the ttl leaves a
    bucket time to refill. *)
Theorem limiter_isolates_keys r n ttl slack refill t ops key :
  refills r n refill -> refill + slack <= ttl -> timed slack t ops ->
  results_of key (lim_run ops (New r n ttl)) = allows (times_of key ops) (NewLimiter r n).
Proof using Type.
  intros Hrf Httl Hts. apply (mirrors_run r n slack refill key ops t); [done..|].
  unfold mirrors. cbn. by rewrite lookup_empty.
Qed.
End Limiter.
Arguments entry B : clear implicits.
Arguments Limiter B : clear implicits.

(** ** A concrete bucket, in billionths of a token *)

Record tbucket : Type := MkTB {
  tb_rate : Z;
  tb_burst : Z;
  tb_state : option (Z * Z);
}.

Definition tb_tokens (now : Z) (b : tbucket) : Z :=
  match tb_state b with
  | None => tb_burst b * second
  | Some (tok, last) => Z.min (tb_burst b * second) (tok + (now - last) * tb_rate b)
  end.

#[export] Instance tbucket_TokenBucket : TokenBucket tbucket := {
  NewLimiter r n := MkTB r n None;
  bucket_allow now b :=
    let tok := tb_tokens now b in
    if decide (second <= tok) then (true, MkTB (tb_rate b) (tb_burst b) (Some (tok - second, now)))
    else (false, MkTB (tb_rate b) (tb_burst b) (Some (tok, now)));
}.

Definition tb_ok (r n t : Z) (b : tbucket) : Prop :=
  tb_rate b = r /\ tb_burst b = n
  /\ match tb_state b with None => True | Some (tok, last) => 0 <= tok /\ last <= t end.

Lemma tb_tokens_nonneg r n t t' b :
  0 <= r -> 0 <= n -> t <= t' -> tb_ok r n t b -> 0 <= tb_tokens t' b.
Proof.
  intros Hr Hn Ht (<- & <- & Hs). unfold tb_tokens, second, millisecond.
  revert Hs. destruct (tb_state b) as [[tok last]|]; intros Hs; [|lia].
  assert (0 <= (t' - last) * tb_rate b) by nia. lia.
Qed.

Lemma tb_ask r n t t' b :
  0 <= r -> 0 <= n -> t <= t' -> tb_ok r n t b -> tb_ok r n t' (bucket_allow t' b).2.
Proof.
  intros Hr Hn Ht Hb. pose proof (tb_tokens_nonneg r n t t' b Hr Hn Ht Hb).
  destruct Hb as (Hbr & Hbn & _). unfold tb_ok. cbn. case_decide; cbn; split_and!; done || lia.
Qed.

Lemma tb_bucket_at r n t b :
  0 <= r -> 0 <= n -> bucket_at r n t b -> tb_ok r n t b.
Proof. intros Hr Hn. induction 1 as [t|t t' b _ IH Ht]; [done|]. by eapply tb_ask. Qed.

Lemma tb_refills r n refill :
  0 <= r -> 0 <= n -> n * second <= refill * r -> refills (B := tbucket) r n refill.
Proof.
  intros Hr Hn Hrf t t' b Hb Ht ts Hts. destruct ts as [|t0 ts]; [done|]. cbn in Hts.
  assert (tb_tokens t0 b = n * second) as Htok.
  { destruct (tb_bucket_at r n t b Hr Hn Hb) as (<- & <- & Hs). unfold tb_tokens.
    revert Hs. destruct (tb_state b) as [[tok last]|]; intros Hs; [|done].
    assert (refill * tb_rate b <= (t0 - last) * tb_rate b) by nia. lia. }
  destruct (tb_bucket_at r n t b Hr Hn Hb) as (Hbr & Hbn & _).
  cbn. by rewrite Htok, Hbr, Hbn.
Qed.

(** One request a second, bursts of two: key "b" does not feel key "a"'s
    flood, and the collection at 100s drops both entries. *)
Lemma limiter_isolates_keys_witness :
  let ops := [LAllow 0 0 "a"; LAllow 0 1 "b"; LAllow 1 1 "a"; LAllow 2 2 "a"; LAllow 3 3 "b";
              LGc (100 * second); LAllow (101 * second) (101 * second) "b"] in
  results_of "b" (lim_run (B := tbucket) ops (New 1 2 (10 * second)))
  = allows (times_of "b" ops) (NewLimiter 1 2)
  /\ results_of "a" (lim_run (B := tbucket) ops (New 1 2 (10 * second))) = [true; true; false].
Proof.
  intros ops. split; [|vm_compute; reflexivity].
  apply (limiter_isolates_keys 1 2 (10 * second) 1 (2 * second) 0 ops "b").
  - apply tb_refills; unfold second; lia.
  - unfold second, millisecond. lia.
  - unfold ops, second, millisecond. cbn. lia.
Defined.
