(* ===== verification/Utf8.v ===== *)
(** * unicode/utf8

    A string is read as Go's decoder reads it, unit by unit: a unit is a rune
    with the bytes it came from, and a byte that starts no well-formed sequence
    is a unit of its own with the rune [RuneError]. *)
From S2P Require Import Prelude GoBytes.
From stdpp Require Import options.
Local Open Scope N_scope.

Abbreviation ord := N_of_ascii.

Definition RuneError : N := 65533.

Definition in_range (lo hi : N) (c : ascii) : bool := (lo <=? ord c) && (ord c <=? hi).

(** The accepted second bytes after a three- or four-byte lead. *)
Definition lo2 (b0 : N) : N := if b0 =? 224 then 160 else if b0 =? 240 then 144 else 128.
Definition hi2 (b0 : N) : N := if b0 =? 237 then 159 else if b0 =? 244 then 143 else 191.
Definition cont : ascii -> bool := in_range 128 191.

Definition rune2 (b0 b1 : ascii) : N := (ord b0 - 192) * 64 + (ord b1 - 128).
Definition rune3 (b0 b1 b2 : ascii) : N :=
  (ord b0 - 224) * 4096 + (ord b1 - 128) * 64 + (ord b2 - 128).
Definition rune4 (b0 b1 b2 b3 : ascii) : N :=
  (ord b0 - 240) * 262144 + (ord b1 - 128) * 4096 + (ord b2 - 128) * 64 + (ord b3 - 128).

(** [DecodeRune] repeated, as [for range] does over a string. *)
Fixpoint utf8_units (s : string) : list (N * string) :=
  match s with
  | EmptyString => []
  | String b0 s1 =>
      if ord b0 <? 128 then (ord b0, String b0 "") :: utf8_units s1
      else if in_range 194 223 b0 then
        match s1 with
        | String b1 s2 =>
            if cont b1 then (rune2 b0 b1, String b0 (String b1 "")) :: utf8_units s2
            else (RuneError, String b0 "") :: utf8_units s1
        | _ => (RuneError, String b0 "") :: utf8_units s1
        end
      else if in_range 224 239 b0 then
        match s1 with
        | String b1 (String b2 s3) =>
            if in_range (lo2 (ord b0)) (hi2 (ord b0)) b1 && cont b2 then
              (rune3 b0 b1 b2, String b0 (String b1 (String b2 ""))) :: utf8_units s3
            else (RuneError, String b0 "") :: utf8_units s1
        | _ => (RuneError, String b0 "") :: utf8_units s1
        end
      else if in_range 240 244 b0 then
        match s1 with
        | String b1 (String b2 (String b3 s4)) =>
            if in_range (lo2 (ord b0)) (hi2 (ord b0)) b1 && cont b2 && cont b3 then
              (rune4 b0 b1 b2 b3, String b0 (String b1 (String b2 (String b3 ""))))
                :: utf8_units s4
            else (RuneError, String b0 "") :: utf8_units s1
        | _ => (RuneError, String b0 "") :: utf8_units s1
        end
      else (RuneError, String b0 "") :: utf8_units s1
  end.

(** A unit of one byte whose rune is [RuneError] is an encoding error. *)
Definition unit_ok (u : N * string) : bool :=
  negb ((u.1 =? RuneError) && (String.length u.2 =? 1)%nat).

(** [utf8.Valid]. *)
Definition Valid (s : string) : bool := forallb unit_ok (utf8_units s).

(** [utf8.AppendRune]. *)
Definition encode_rune (r : N) : string :=
  if r <? 128 then String (ascii_of_N r) ""
  else if r <? 2048 then
    string_of_bytes [192 + r / 64; 128 + r mod 64]
  else
    let r := if (55296 <=? r) && (r <=? 57343) || (1114111 <? r) then RuneError else r in
    if r <? 65536 then
      string_of_bytes [224 + r / 4096; 128 + r / 64 mod 64; 128 + r mod 64]
    else
      string_of_bytes [240 + r / 262144; 128 + r / 4096 mod 64; 128 + r / 64 mod 64;
                       128 + r mod 64].

(** ** Facts *)

(** The shape of one decoding step. *)
Inductive unit_of : string -> N * string -> string -> Prop :=
  | unit_ascii b s : ord b < 128 -> unit_of (String b s) (ord b, String b "") s
  | unit_bad b s : 128 <= ord b -> unit_of (String b s) (RuneError, String b "") s
  | unit_2 b0 b1 s : in_range 194 223 b0 -> cont b1 ->
      unit_of (String b0 (String b1 s)) (rune2 b0 b1, String b0 (String b1 "")) s
  | unit_3 b0 b1 b2 s : in_range 224 239 b0 -> in_range (lo2 (ord b0)) (hi2 (ord b0)) b1 ->
      cont b2 ->
      unit_of (String b0 (String b1 (String b2 s)))
        (rune3 b0 b1 b2, String b0 (String b1 (String b2 ""))) s
  | unit_4 b0 b1 b2 b3 s : in_range 240 244 b0 -> in_range (lo2 (ord b0)) (hi2 (ord b0)) b1 ->
      cont b2 -> cont b3 ->
      unit_of (String b0 (String b1 (String b2 (String b3 s))))
        (rune4 b0 b1 b2 b3, String b0 (String b1 (String b2 (String b3 "")))) s.

Lemma utf8_units_step b s :
  exists u s', unit_of (String b s) u s' /\ utf8_units (String b s) = u :: utf8_units s'.
Proof.
  cbn [utf8_units].
  repeat case_match;
    bool_hyps;
    do 2 eexists; (split; [|reflexivity]);
    first [by constructor | constructor; by apply Is_true_true].
Qed.

(** Induction along the units of a string. *)
Lemma utf8_ind (P : string -> Prop) :
  P EmptyString ->
  (forall s u s', unit_of s u s' -> utf8_units s = u :: utf8_units s' -> P s' -> P s) ->
  forall s, P s.
Proof.
  intros H0 Hs s. remember (String.length s) as n eqn:Hn. revert s Hn.
  induction n as [n IH] using lt_wf_ind. intros [|b s] ->; [done|].
  destruct (utf8_units_step b s) as (u & s' & Hu & Heq).
  apply (Hs _ u s' Hu Heq). apply (IH (String.length s')); [|done].
  inversion Hu; subst; cbn; lia.
Qed.

Lemma unit_of_raw s u s' : unit_of s u s' -> s = u.2 +:+ s'.
Proof. by inversion 1; subst; str_simpl. Qed.

Lemma utf8_units_nil s : utf8_units s = [] -> s = EmptyString.
Proof.
  destruct s as [|b s]; [done|]. destruct (utf8_units_step b s) as (u & s' & _ & ->). done.
Qed.

(** The units cover the string. *)
Lemma utf8_units_concat s : foldr (fun u acc => u.2 +:+ acc) "" (utf8_units s) = s.
Proof.
  induction s as [|s u s' Hu Heq IH] using utf8_ind; [done|].
  rewrite Heq. cbn. by rewrite IH, <- (unit_of_raw s u s').
Qed.

Ltac range_hyps :=
  repeat match goal with
  | H : Is_true (cont _) |- _ => unfold cont in H
  | H : Is_true (in_range _ _ _) |- _ =>
      unfold in_range in H; apply Is_true_true, andb_true_iff in H as [?%N.leb_le ?%N.leb_le]
  end.

(** A unit's bytes are an ASCII byte, or all beyond ASCII. *)
Definition ascii_byte (c : ascii) : bool := ord c <? 128.

Lemma lo2_ge b : 128 <= lo2 b.
Proof. unfold lo2. repeat case_match; lia. Qed.

Lemma unit_of_bytes s u s' :
  unit_of s u s' ->
  (u.1 < 128 /\ u.2 = String (ascii_of_N u.1) "")
  \/ (128 <= u.1 /\ string_forall (fun c => negb (ascii_byte c)) u.2 = true).
Proof.
  inversion 1; subst; cbn [fst snd string_forall]; unfold ascii_byte.
  - left. by rewrite ascii_N_embedding.
  - right. split; [unfold RuneError; lia|]. by rewrite (proj2 (N.ltb_ge _ _)).
  - range_hyps. right. split; [unfold rune2; lia|].
    by rewrite !(proj2 (N.ltb_ge _ _)) by lia.
  - pose proof (lo2_ge (ord b0)). right. split.
    + unfold lo2 in *. range_hyps. unfold rune3. repeat case_match; bool_hyps; lia.
    + range_hyps. by rewrite !(proj2 (N.ltb_ge _ _)) by lia.
  - pose proof (lo2_ge (ord b0)). right. split.
    + unfold lo2 in *. range_hyps. unfold rune4. repeat case_match; bool_hyps; lia.
    + range_hyps. by rewrite !(proj2 (N.ltb_ge _ _)) by lia.
Qed.

(** ** strings.TrimSpace *)

(** [unicode.IsSpace]. *)
Definition IsSpace (r : N) : bool :=
  ((9 <=? r) && (r <=? 13) || (r =? 32) || (r =? 133) || (r =? 160) || (r =? 5760)
   || (8192 <=? r) && (r <=? 8202) || (r =? 8232) || (r =? 8233) || (r =? 8239)
   || (r =? 8287) || (r =? 12288))%N.

Fixpoint drop_space (us : list (N * string)) : list (N * string) :=
  match us with
  | u :: us' => if IsSpace u.1 then drop_space us' else us
  | [] => []
  end.

Definition units_string (us : list (N * string)) : string :=
  foldr (fun u acc => u.2 +:+ acc) "" us.

Definition TrimSpace (s : string) : string :=
  units_string (reverse (drop_space (reverse (drop_space (utf8_units s))))).
