(* ===== verification/GoJson.v ===== *)
(** * encoding/json, as far as the program uses it

    The encoder of strings, string maps and raw messages, and the decoder of
    one object into named string and raw fields.  Both are executable and
    follow Go's implementation byte for byte. *)
From S2P Require Import Prelude GoBytes Utf8.
From stdpp Require Import options.
Local Open Scope N_scope.

(** The punctuation, by its byte. *)
Definition chr (n : N) : ascii := ascii_of_N n.
Definition dq : ascii := chr 34.
Definition bslash : ascii := chr 92.

(** ** Encoding *)

(** [appendString] on one unit: quote and backslash are escaped, control bytes
    get their short or [\u00XX] form, and so do the three HTML bytes when
    [html]; an encoding error is written as the replacement character's escape,
    and the two line separators are always escaped. *)
Definition enc_ascii (html : bool) (b : N) : string :=
  let c := chr b in
  if (b =? 34) || (b =? 92) then String bslash (String c "")
  else if b =? 8 then String bslash "b"
  else if b =? 12 then String bslash "f"
  else if b =? 10 then String bslash "n"
  else if b =? 13 then String bslash "r"
  else if b =? 9 then String bslash "t"
  else if (b <? 32) || (html && ((b =? 60) || (b =? 62) || (b =? 38))) then
    String bslash (String (chr 117) ("00" +:+ hex_encode [b]))
  else String c "".

Definition enc_unit (html : bool) (u : N * string) : string :=
  if u.1 <? 128 then enc_ascii html u.1
  else if negb (unit_ok u) then String bslash "ufffd"
  else if u.1 =? 8232 then String bslash "u2028"
  else if u.1 =? 8233 then String bslash "u2029"
  else u.2.

Definition enc_units (html : bool) (us : list (N * string)) : string :=
  foldr (fun u acc => enc_unit html u +:+ acc) "" us.

(** [s] between double quotes. *)
Definition in_quotes (s : string) : string := String dq (s +:+ String dq "").

Definition quote (html : bool) (s : string) : string :=
  in_quotes (enc_units html (utf8_units s)).

(** Members of an object whose values are already encoded. *)
Fixpoint members (html : bool) (kvs : list (string * string)) : string :=
  match kvs with
  | [] => ""
  | [(k, v)] => quote html k +:+ String (chr 58) v
  | (k, v) :: kvs' => quote html k +:+ String (chr 58) (v +:+ String (chr 44) (members html kvs'))
  end.

Definition object (html : bool) (kvs : list (string * string)) : string :=
  String (chr 123) (members html kvs +:+ String (chr 125) "").

(** Maps are written with their keys sorted. *)
Fixpoint insert_sorted (kv : string * string) (kvs : list (string * string)) :=
  match kvs with
  | [] => [kv]
  | kv' :: kvs' => if String.leb kv.1 kv'.1 then kv :: kvs else kv' :: insert_sorted kv kvs'
  end.
Definition encode_map (html : bool) (kvs : list (string * string)) : string :=
  object html (foldr insert_sorted [] kvs).

(** The four whitespace bytes. *)
Definition is_ws (c : ascii) : bool :=
  let b := ord c in (b =? 32) || (b =? 9) || (b =? 10) || (b =? 13).

(** [compact] of a valid text, without HTML escaping: whitespace outside
    strings goes. [inq] is inside a string, [esc] after a backslash there. *)
Fixpoint compact (inq esc : bool) (s : string) : string :=
  match s with
  | EmptyString => EmptyString
  | String c s' =>
      if inq then
        String c (if esc then compact true false s'
                  else if ord c =? 92 then compact true true s'
                  else compact (negb (ord c =? 34)) false s')
      else if is_ws c then compact false false s'
      else String c (compact (ord c =? 34) false s')
  end.

(** [RawMessage.MarshalJSON] under the encoder: nil is [null]. *)
Definition encode_raw (m : option string) : string :=
  match m with
  | None => "null"
  | Some s => compact false false s
  end.

(** ** Decoding: string literals *)

(** The raw text between the quotes, and what follows the closing one. *)
Fixpoint scan_string (s : string) : option (string * string) :=
  match s with
  | EmptyString => None
  | String c s' =>
      if ord c =? 34 then Some ("", s')
      else if ord c <? 32 then None
      else if ord c =? 92 then
        match s' with
        | String e s2 =>
            if bool_decide (e ∈ [dq; bslash; chr 47; chr 98; chr 102; chr 110; chr 114; chr 116])
            then '(b, r) ← scan_string s2; Some (String c (String e b), r)
            else if ord e =? 117 then
              match s2 with
              | String h1 (String h2 (String h3 (String h4 s3))) =>
                  if forallb (fun h => is_hex_digit h || in_range 65 70 h) [h1; h2; h3; h4]
                  then '(b, r) ← scan_string s3;
                       Some (String c (String e (String h1 (String h2 (String h3 (String h4 b))))), r)
                  else None
              | _ => None
              end
            else None
        | _ => None
        end
      else '(b, r) ← scan_string s'; Some (String c b, r)
  end.

(** Hexadecimal digits, [getu4]. *)
Definition hex_val (b : N) : option N :=
  if (48 <=? b) && (b <=? 57) then Some (b - 48)
  else if (97 <=? b) && (b <=? 102) then Some (b - 87)
  else if (65 <=? b) && (b <=? 70) then Some (b - 55) else None.

Definition getu4 (us : list (N * string)) : option (N * list (N * string)) :=
  match us with
  | (a, _) :: (b, _) :: (c, _) :: (d, _) :: us' =>
      a ← hex_val a; b ← hex_val b; c ← hex_val c; d ← hex_val d;
      Some (((a * 16 + b) * 16 + c) * 16 + d, us')
  | _ => None
  end.

(** [utf16.DecodeRune], when the pair is one. *)
Definition utf16_pair (r1 r2 : N) : option N :=
  if (55296 <=? r1) && (r1 <? 56320) && (56320 <=? r2) && (r2 <? 57344)
  then Some (65536 + (r1 - 55296) * 1024 + (r2 - 56320)) else None.

Definition is_surrogate (r : N) : bool := (55296 <=? r) && (r <? 57344).

(** The rune a one-letter escape stands for. *)
Definition short_escape (e : N) : option N :=
  if (e =? 34) || (e =? 92) || (e =? 47) then Some e
  else if e =? 98 then Some 8 else if e =? 102 then Some 12
  else if e =? 110 then Some 10 else if e =? 114 then Some 13
  else if e =? 116 then Some 9 else None.

(** [unquote] of the text between the quotes, by units; every step consumes at
    least one, so [fuel] counts them. *)
Fixpoint unquote_units (fuel : nat) (us : list (N * string)) : option string :=
  match fuel, us with
  | _, [] => Some ""
  | O, _ => None
  | S fuel', (r, raw) :: us1 =>
      if r =? 92 then
        match us1 with
        | [] => None
        | (e, _) :: us2 =>
            if e =? 117 then
              '(rr, us3) ← getu4 us2;
              if is_surrogate rr then
                let pair :=
                  match us3 with
                  | (b, _) :: (u, _) :: us4 =>
                      if (b =? 92) && (u =? 117) then
                        '(rr1, us5) ← getu4 us4; dec ← utf16_pair rr rr1; Some (dec, us5)
                      else None
                  | _ => None
                  end in
                match pair with
                | Some (dec, us5) => t ← unquote_units fuel' us5; Some (encode_rune dec +:+ t)
                | None => t ← unquote_units fuel' us3; Some (encode_rune RuneError +:+ t)
                end
              else t ← unquote_units fuel' us3; Some (encode_rune rr +:+ t)
            else
              x ← short_escape e; t ← unquote_units fuel' us2; Some (encode_rune x +:+ t)
        end
      else if unit_ok (r, raw) then t ← unquote_units fuel' us1; Some (raw +:+ t)
      else t ← unquote_units fuel' us1; Some (encode_rune RuneError +:+ t)
  end.

Definition unquote (body : string) : option string :=
  let us := utf8_units body in unquote_units (length us) us.

(** ** Decoding: values *)

Inductive json : Type :=
  | JNull
  | JBool (b : bool)
  | JNum (text : string)
  | JStr (s : string)
  | JArr (vs : list json)
  | JObj (ms : list (string * json)).

Fixpoint skip_ws (s : string) : string :=
  match s with
  | String c s' => if is_ws c then skip_ws s' else s
  | EmptyString => EmptyString
  end.

Fixpoint span (f : ascii -> bool) (s : string) : string * string :=
  match s with
  | String c s' => if f c then let '(a, b) := span f s' in (String c a, b) else ("", s)
  | EmptyString => ("", "")
  end.

Definition is_digit (c : ascii) : bool := in_range 48 57 c.

(** The first byte of [s] if it is [b], and what follows. *)
Definition accept (b : N) (s : string) : option string :=
  match s with
  | String c s' => if ord c =? b then Some s' else None
  | EmptyString => None
  end.

(** At least one digit. *)
Definition digits1 (s : string) : option (string * string) :=
  let '(ds, r) := span is_digit s in if bool_decide (ds = "") then None else Some (ds, r).

Definition scan_int (s : string) : option (string * string) :=
  match accept 48 s with
  | Some s' => Some ("0", s')
  | None => digits1 s
  end.

Definition scan_frac (s : string) : option (string * string) :=
  match accept 46 s with
  | Some s' => '(ds, r) ← digits1 s'; Some (String (chr 46) ds, r)
  | None => Some ("", s)
  end.

Definition scan_sign (s : string) : string * string :=
  match s with
  | String c s' => if (ord c =? 43) || (ord c =? 45) then (String c "", s') else ("", s)
  | EmptyString => ("", "")
  end.

Definition scan_exp (s : string) : option (string * string) :=
  match s with
  | String c s' =>
      if (ord c =? 101) || (ord c =? 69) then
        let '(sg, s2) := scan_sign s' in
        '(ds, r) ← digits1 s2; Some (String c (sg +:+ ds), r)
      else Some ("", s)
  | EmptyString => Some ("", "")
  end.

Definition scan_number (s : string) : option (string * string) :=
  let '(sg, s0) := match accept 45 s with Some s' => (String (chr 45) "", s') | None => ("", s) end in
  '(i, s1) ← scan_int s0;
  '(f, s2) ← scan_frac s1;
  '(e, s3) ← scan_exp s2;
  Some (sg +:+ i +:+ f +:+ e, s3).

(** [s] without the word [w] in front. *)
Fixpoint strip (w s : string) : option string :=
  match w, s with
  | EmptyString, _ => Some s
  | String a w', String c s' => if decide (a = c) then strip w' s' else None
  | _, _ => None
  end.

Definition scan_word (s : string) : option (json * string) :=
  match strip "null" s with
  | Some r => Some (JNull, r)
  | None => match strip "true" s with
            | Some r => Some (JBool true, r)
            | None => match strip "false" s with
                      | Some r => Some (JBool false, r)
                      | None => None
                      end
            end
  end.

Fixpoint string_take (n : nat) (s : string) : string :=
  match n, s with
  | S n', String c s' => String c (string_take n' s')
  | _, _ => EmptyString
  end.

(** The text [s] had before [rest]. *)
Definition consumed (s rest : string) : string :=
  string_take (String.length s - String.length rest) s.

(** A key and the text of its value are kept for the outermost object. *)
Definition member : Type := string * (json * string).

Definition scan_key (s : string) : option (string * string) :=
  s1 ← accept 34 s;
  '(body, s2) ← scan_string s1;
  k ← unquote body;
  s3 ← accept 58 (skip_ws s2);
  Some (k, skip_ws s3).

(** A value at the front of [s] (no whitespace before it), and the rest.
    [depth] is the nesting still allowed. *)
Fixpoint parse_value (fuel : nat) (depth : N) (s : string) : option (json * string) :=
  match fuel with
  | O => None
  | S fuel' =>
      match s with
      | EmptyString => None
      | String c s' =>
          if ord c =? 123 then
            if depth =? 0 then None else
            match accept 125 (skip_ws s') with
            | Some r => Some (JObj [], r)
            | None => '(ms, r) ← parse_members fuel' (N.pred depth) (skip_ws s');
                      Some (JObj ((fun m : member => (m.1, m.2.1)) <$> ms), r)
            end
          else if ord c =? 91 then
            if depth =? 0 then None else
            match accept 93 (skip_ws s') with
            | Some r => Some (JArr [], r)
            | None => '(vs, r) ← parse_elems fuel' (N.pred depth) (skip_ws s'); Some (JArr vs, r)
            end
          else if ord c =? 34 then
            '(body, r) ← scan_string s'; t ← unquote body; Some (JStr t, r)
          else if (ord c =? 45) || is_digit c then
            '(t, r) ← scan_number s; Some (JNum t, r)
          else scan_word s
      end
  end
with parse_members (fuel : nat) (depth : N) (s : string) : option (list member * string) :=
  match fuel with
  | O => None
  | S fuel' =>
      '(k, s1) ← scan_key s;
      '(v, s2) ← parse_value fuel' depth s1;
      let m := (k, (v, consumed s1 s2)) in
      match accept 44 (skip_ws s2) with
      | Some s3 => '(ms, r) ← parse_members fuel' depth (skip_ws s3); Some (m :: ms, r)
      | None => r ← accept 125 (skip_ws s2); Some ([m], r)
      end
  end
with parse_elems (fuel : nat) (depth : N) (s : string) : option (list json * string) :=
  match fuel with
  | O => None
  | S fuel' =>
      '(v, s1) ← parse_value fuel' depth s;
      match accept 44 (skip_ws s1) with
      | Some s2 => '(vs, r) ← parse_elems fuel' depth (skip_ws s2); Some (v :: vs, r)
      | None => r ← accept 93 (skip_ws s1); Some ([v], r)
      end
  end.

(** [maxNestingDepth]. *)
Definition maxNestingDepth : N := 10000.

Definition fuel_for (s : string) : nat := S (2 * String.length s).

(** The first value of a text ([Decoder.Decode]), and a whole text: one value
    between whitespace ([Unmarshal]).  The members of an object come with the
    text of their values. *)
Inductive toplevel : Type :=
  | TObject (ms : list member)
  | TValue (v : json).

Definition parse_first (raw : string) : option (toplevel * string) :=
  let s := skip_ws raw in
  match accept 123 s with
  | Some s' =>
      match accept 125 (skip_ws s') with
      | Some r => Some (TObject [], r)
      | None => '(ms, r) ← parse_members (fuel_for s) (N.pred maxNestingDepth) (skip_ws s');
                Some (TObject ms, r)
      end
  | None => '(v, r) ← parse_value (fuel_for s) maxNestingDepth s; Some (TValue v, r)
  end.

Definition parse_top (raw : string) : option toplevel :=
  '(t, r) ← parse_first raw;
  if bool_decide (skip_ws r = "") then Some t else None.

(** [foldName]: runes with their case folded.  The two runes beyond ASCII that
    fold to an ASCII letter are the long s and the Kelvin sign. *)
Definition fold_rune (r : N) : N :=
  if (97 <=? r) && (r <=? 122) then r - 32
  else if r =? 383 then 83 else if r =? 8490 then 75 else r.

Definition fold_name (s : string) : list N := (fun u => fold_rune u.1) <$> utf8_units s.

(** Does the key [k] name the struct field tagged [name]? *)
Definition field_match (name k : string) : bool := bool_decide (fold_name k = fold_name name).
