(* ===== verification/Frame.v ===== *)
(** * Outbound frames (conn/handler.go, conn/conn.go, hub/stats.go)

    The exact bytes of every frame the server sends, and how long they are. *)
From S2P Require Import Prelude GoStd GoBytes Utf8 GoJson.
From stdpp Require Import options.

(** [marshalFrame]: no HTML escaping.  The encoder's newline is trimmed. *)
Definition text (s : string) : string := quote false s.

(** [sendAck]'s frame. *)
Definition ack_frame (typ channel : string) : string :=
  encode_map false [("type", text typ); ("channel", text channel)].

Record errorFrame : Type := MkErrorFrame {
  ef_Type : string;
  ef_Code : string;
  ef_Message : string;
  ef_Op : string;
  ef_Channel : string;
}.

#[export] Instance errorFrame_eq_dec : EqDecision errorFrame.
Proof. solve_decision. Defined.

Definition omitempty (key value : string) : list (string * string) :=
  if decide (value = "") then [] else [(key, text value)].

(** A struct is written in field order. *)
Definition error_frame (f : errorFrame) : string :=
  object false
    ([("type", text (ef_Type f)); ("code", text (ef_Code f)); ("message", text (ef_Message f))]
     ++ omitempty "op" (ef_Op f) ++ omitempty "channel" (ef_Channel f)).

Definition event_frame (channel : string) (data : option string) (id : string) : string :=
  encode_map false [("type", text "event"); ("channel", text channel);
                    ("data", encode_raw data); ("id", text id)].

Definition protocolVersion : string := "v1".

(** [json.Marshal] escapes HTML. *)
Definition hello_frame (socketID : string) : string :=
  encode_map true [("type", quote true "connected"); ("socket_id", quote true socketID);
                   ("version", quote true protocolVersion)].

(** The snapshot [PublishStatsLoop] broadcasts: a map of counters. *)
Definition stats_frame (snap : list (string * Z)) (id : string) : string :=
  encode_map true
    [("type", quote true "event"); ("channel", quote true "_wirefan-stats");
     ("data", encode_map true ((fun kv => (kv.1, FormatInt kv.2)) <$> snap));
     ("id", quote true id)].

(** ** Lengths *)

Local Open Scope nat_scope.

(** Escaping makes a unit at most six times longer. *)
Lemma enc_ascii_length html b : String.length (enc_ascii html b) <= 6.
Proof. unfold enc_ascii. repeat case_match; cbn [String.length]; rewrite ?string_length_app; cbn; lia. Qed.

Lemma enc_unit_length html s u s' :
  unit_of s u s' -> String.length (enc_unit html u) <= 6 * String.length u.2.
Proof.
  intros Hu. unfold enc_unit.
  assert (1 <= String.length u.2) by (inversion Hu; cbn; lia).
  pose proof (enc_ascii_length html u.1).
  repeat case_match; cbn [String.length]; lia.
Qed.

Lemma quote_length html s : String.length (quote html s) <= 2 + 6 * String.length s.
Proof.
  unfold quote, in_quotes. cbn [String.length]. rewrite string_length_app. cbn [String.length].
  enough (String.length (enc_units html (utf8_units s)) <= 6 * String.length s) by lia.
  induction s as [|s u s' Hu Heq IH] using utf8_ind; [done|].
  rewrite Heq. cbn [enc_units foldr]. fold (enc_units html (utf8_units s')).
  rewrite string_length_app. pose proof (enc_unit_length html _ _ _ Hu).
  rewrite (unit_of_raw _ _ _ Hu). rewrite string_length_app. lia.
Qed.

(** Printable ASCII without quote and backslash is written as it is. *)
Definition plain_char (c : ascii) : bool :=
  in_range 32 126 c && negb (N_of_ascii c =? 34)%N && negb (N_of_ascii c =? 92)%N.

Lemma quote_plain s : string_forall plain_char s = true -> text s = in_quotes s.
Proof.
  unfold text, quote. intros Hs. f_equal. induction s as [|c s IH]; [done|].
  cbn [string_forall] in Hs. apply andb_true_iff in Hs as [Hc Hs].
  unfold plain_char, in_range in Hc. bool_hyps.
  cbn [utf8_units]. rewrite (proj2 (N.ltb_lt _ _)) by lia.
  cbn [enc_units foldr]. fold (enc_units false (utf8_units s)). rewrite IH by done.
  unfold enc_unit. cbn [fst]. rewrite (proj2 (N.ltb_lt _ _)) by lia.
  unfold enc_ascii, chr. rewrite ascii_N_embedding.
  repeat (rewrite (proj2 (N.eqb_neq _ _)) by lia). rewrite (proj2 (N.ltb_ge _ _)) by lia. done.
Qed.

Lemma text_plain_length s :
  string_forall plain_char s = true -> String.length (text s) = 2 + String.length s.
Proof.
  intros Hs. rewrite quote_plain by done. unfold in_quotes. cbn.
  rewrite string_length_app. cbn. lia.
Qed.

Lemma omitempty_length key value bound :
  String.length (text value) <= bound ->
  list_sum ((fun kv => String.length kv.1 + String.length kv.2 + 4) <$> omitempty key value)
  <= String.length key + bound + 4.
Proof. unfold omitempty. case_decide; cbn; lia. Qed.

Lemma members_cons2 html k v kv kvs :
  members html ((k, v) :: kv :: kvs)
  = quote html k +:+ String (chr 58) (v +:+ String (chr 44) (members html (kv :: kvs))).
Proof. done. Qed.

(** An object is as long as its members, with four bytes of punctuation each. *)
Lemma members_length kvs :
  Forall (fun kv => string_forall plain_char kv.1 = true) kvs ->
  String.length (members false kvs)
  <= list_sum ((fun kv => String.length kv.1 + String.length kv.2 + 4) <$> kvs).
Proof.
  induction 1 as [|[k v] kvs Hk _ IH]; [done|]. cbn [fst] in Hk.
  destruct kvs as [|kv kvs]; [cbn [members]|rewrite members_cons2].
  - change (quote false k) with (text k). rewrite string_length_app. cbn [String.length].
    rewrite text_plain_length by done. cbn. lia.
  - change (quote false k) with (text k). rewrite string_length_app. cbn [String.length].
    rewrite string_length_app. cbn [String.length].
    rewrite text_plain_length by done. rewrite fmap_cons. cbn [list_sum foldr fst snd].
    unfold list_sum in *; lia.
Qed.

Lemma error_frame_length f :
  ef_Type f = "error" ->
  string_forall plain_char (ef_Code f) = true ->
  string_forall plain_char (ef_Message f) = true ->
  string_forall plain_char (ef_Op f) = true ->
  String.length (error_frame f)
  <= 64 + String.length (ef_Code f) + String.length (ef_Message f) + String.length (ef_Op f)
     + 6 * String.length (ef_Channel f).
Proof.
  intros Ht Hc Hm Ho. unfold error_frame, object. cbn [String.length].
  rewrite string_length_app. cbn [String.length].
  pose proof (omitempty_length "op" (ef_Op f) _ (Nat.eq_le_incl _ _ (text_plain_length _ Ho))).
  pose proof (omitempty_length "channel" (ef_Channel f) _ (quote_length _ _)).
  etrans; [apply le_n_S, Nat.add_le_mono_r, members_length|].
  { repeat (constructor; [done|]). apply Forall_app. unfold omitempty.
    split; case_decide; repeat constructor. }
  rewrite !fmap_app, !list_sum_app. cbn [fmap list_fmap list_sum foldr fst snd].
  rewrite Ht, !text_plain_length by done. cbn in *. lia.
Qed.
