(* ===== verification/Hub.v ===== *)
(** * internal/hub/hub.go: the set of open connections

    Each method is one critical section, except [Drain], which is a process of
    several: it sets the flag, snapshots the set and sends the closes, then
    polls until the set is empty or its context ends.  [hub_step] interleaves
    it with every other method. *)
From S2P Require Import Prelude Channel.
From stdpp Require Import options.

Record CloseError : Type := MkClose { Code : Z; Reason : string }.

#[export] Instance CloseError_eq_dec : EqDecision CloseError.
Proof. solve_decision. Defined.

Definition StatusGoingAway : Z := 1001.
Definition StatusPolicyViolation : Z := 1008.

(** A tracked conn is its identity with its (immutable) [APIKeyID]. *)
Record Hub : Type := MkHub {
  conns : gmap conn_id string;
  closedKeys : gmap string CloseError;
  draining : bool;
}.

Definition drainClose : CloseError := MkClose StatusGoingAway "shutdown".

Definition New : Hub := MkHub ∅ ∅ false.

(** A refusal carries the close the caller must send. *)
Definition Add (c : conn_id) (key : string) (h : Hub) : res CloseError unit * Hub :=
  if draining h then (Err drainClose, h) else
  match closedKeys h !! key with
  | Some ce => (Err ce, h)
  | None => (Ok tt, MkHub (<[c := key]> (conns h)) (closedKeys h) (draining h))
  end.

Definition Remove (c : conn_id) (h : Hub) : Hub :=
  MkHub (delete c (conns h)) (closedKeys h) (draining h).

Definition Len (h : Hub) : nat := size (conns h).

Definition snapshot (h : Hub) : list conn_id := (map_to_list (conns h)).*1.

(** The conns it returns are each sent [MkClose code reason], by a goroutine
    of its own. *)
Definition CloseKey (keyID : string) (code : Z) (reason : string) (h : Hub) : list conn_id * Hub :=
  let matched := (filter (fun ck => ck.2 = keyID) (map_to_list (conns h))).*1 in
  (matched, MkHub (conns h) (<[keyID := MkClose code reason]> (closedKeys h)) (draining h)).

Definition set_draining (h : Hub) : Hub := MkHub (conns h) (closedKeys h) true.

(** ** Drain as a process *)

Inductive drain_pc : Type :=
  | DrainIdle
  | DrainFlagged      (* [draining] set, lock released *)
  | DrainPoll         (* closes sent, about to read [Len] *)
  | DrainSelect       (* waiting for a tick or the context *)
  | DrainDone (forced : bool).

#[export] Instance drain_pc_eq_dec : EqDecision drain_pc.
Proof. solve_decision. Defined.

Record hub_sys : Type := MkSys {
  hub : Hub;
  drain : drain_pc;
  sent : list (conn_id * CloseError);    (* [CloseFrame] calls started *)
  killed : list conn_id;                 (* [CloseNow] calls made *)
}.

Definition hub_init : hub_sys := MkSys New DrainIdle [] [].

Definition closes (ce : CloseError) (cs : list conn_id) : list (conn_id * CloseError) :=
  (fun c => (c, ce)) <$> cs.

Inductive hub_step : hub_sys -> hub_sys -> Prop :=
  (** [Add] accepts, or the caller sends the close it was handed. *)
  | step_add c key h h' d s k :
      conns h !! c = None -> Add c key h = (Ok tt, h') ->
      hub_step (MkSys h d s k) (MkSys h' d s k)
  | step_refuse c key h h' ce d s k :
      Add c key h = (Err ce, h') ->
      hub_step (MkSys h d s k) (MkSys h' d ((c, ce) :: s) k)
  | step_remove c h d s k :
      hub_step (MkSys h d s k) (MkSys (Remove c h) d s k)
  | step_close_key key code reason h d s k :
      let '(matched, h') := CloseKey key code reason h in
      hub_step (MkSys h d s k) (MkSys h' d (closes (MkClose code reason) matched ++ s) k)
  | step_flag h s k :
      hub_step (MkSys h DrainIdle s k) (MkSys (set_draining h) DrainFlagged s k)
  | step_send h s k :
      hub_step (MkSys h DrainFlagged s k)
        (MkSys h DrainPoll (closes drainClose (snapshot h) ++ s) k)
  | step_empty h s k :
      Len h = 0 -> hub_step (MkSys h DrainPoll s k) (MkSys h (DrainDone false) s k)
  | step_nonempty h s k :
      Len h <> 0 -> hub_step (MkSys h DrainPoll s k) (MkSys h DrainSelect s k)
  | step_tick h s k :
      hub_step (MkSys h DrainSelect s k) (MkSys h DrainPoll s k)
  | step_ctx_done h s k :
      hub_step (MkSys h DrainSelect s k) (MkSys h (DrainDone true) s (snapshot h ++ k)).

(** ** Facts *)

Lemma elem_of_snapshot c h : c ∈ snapshot h <-> is_Some (conns h !! c).
Proof.
  unfold snapshot. rewrite list_elem_of_fmap. split.
  - intros ([c' k] & -> & Hin%elem_of_map_to_list). eauto.
  - intros [k Hk]. exists (c, k). by rewrite elem_of_map_to_list.
Qed.

Lemma elem_of_CloseKey c key code reason h :
  c ∈ (CloseKey key code reason h).1 <-> conns h !! c = Some key.
Proof.
  cbn. rewrite list_elem_of_fmap. split.
  - intros ([c' k] & -> & [<- Hin%elem_of_map_to_list]%list_elem_of_filter). done.
  - intros Hc. exists (c, key). by rewrite list_elem_of_filter, elem_of_map_to_list.
Qed.

Lemma elem_of_closes c ce ce' cs : (c, ce) ∈ closes ce' cs <-> ce = ce' /\ c ∈ cs.
Proof. unfold closes. rewrite list_elem_of_fmap. naive_solver. Qed.

Lemma Add_Ok c key h h' :
  Add c key h = (Ok tt, h') ->
  draining h = false /\ closedKeys h !! key = None
  /\ h' = MkHub (<[c := key]> (conns h)) (closedKeys h) false.
Proof. unfold Add. repeat case_match; naive_solver. Qed.

(** ** The invariant *)

Record hub_inv (s : hub_sys) : Prop := {
  (** A tracked conn of a closed key has been sent a close. *)
  inv_keys c key : conns (hub s) !! c = Some key -> is_Some (closedKeys (hub s) !! key) ->
    exists ce, (c, ce) ∈ sent s;
  inv_flag : draining (hub s) = false <-> drain s = DrainIdle;
  inv_sent c : drain s <> DrainIdle -> drain s <> DrainFlagged ->
    is_Some (conns (hub s) !! c) -> (c, drainClose) ∈ sent s;
  inv_done c : drain s = DrainDone false -> conns (hub s) !! c = None;
  inv_killed c : drain s = DrainDone true -> is_Some (conns (hub s) !! c) -> c ∈ killed s;
}.

Lemma hub_inv_init : hub_inv hub_init.
Proof. by split. Qed.

(** A step that only shrinks the set, and sends more, keeps the invariant. *)
Lemma hub_inv_shrink h h' d s s' k :
  hub_inv (MkSys h d s k) ->
  (forall c key, conns h' !! c = Some key -> conns h !! c = Some key) ->
  closedKeys h' = closedKeys h -> draining h' = draining h -> s ⊆ s' ->
  hub_inv (MkSys h' d s' k).
Proof.
  intros [Hk Hf Hs Hd Hx] Hsub Hck Hdr Hss. cbn in *.
  assert (forall c, is_Some (conns h' !! c) -> is_Some (conns h !! c)) as Hsub'.
  { intros c [key Hc]. eauto. }
  split; cbn; rewrite ?Hck, ?Hdr; [|done|..].
  - intros c key Hc Hck'. destruct (Hk c key) as [ce Hce]; [by auto..|]. exists ce. by apply Hss.
  - intros c H1 H2 Hc. apply Hss; auto.
  - intros c H1. apply eq_None_not_Some. intros Hc%Hsub'. by rewrite Hd in Hc; [destruct Hc|].
  - auto.
Qed.

Lemma hub_inv_step s s' : hub_inv s -> hub_step s s' -> hub_inv s'.
Proof.
  intros Hinv Hstep. destruct Hstep as
    [c key h h' d s k Hc Ha|c key h h' ce d s k Ha|c h d s k
    |key code reason h d s k|h s k|h s k|h s k He|h s k He|h s k|h s k]; cbn.
  - apply Add_Ok in Ha as (Hdr & Hck & ->). destruct Hinv as [Hk Hf Hs Hd Hx]. cbn in *.
    assert (d = DrainIdle) as -> by tauto. split; cbn; try done.
    intros c' key' [[<- <-]|[_ Hc']]%lookup_insert_Some Hck'; [|eauto].
    rewrite Hck in Hck'. by destruct Hck'.
  - apply (hub_inv_shrink h _ d s); [done|..|set_solver];
      unfold Add in Ha; repeat case_match; by simplify_eq.
  - apply (hub_inv_shrink h _ d s); [done| |done..]. cbn.
    intros c' key [_ Hc]%lookup_delete_Some. done.
  - destruct Hinv as [Hk Hf Hs Hd Hx]. cbn in *. split; cbn; try done.
    + intros c key' Hc Hck. destruct (decide (key' = key)) as [->|Hne].
      * exists (MkClose code reason). apply elem_of_app. left. apply elem_of_closes.
        split; [done|]. by apply (elem_of_CloseKey c key code reason h).
      * rewrite lookup_insert_ne in Hck by done. destruct (Hk c key' Hc Hck) as [ce Hce].
        exists ce. by apply elem_of_app; right.
    + intros c H1 H2 Hc. apply elem_of_app. right. auto.
  - destruct Hinv as [Hk Hf Hs Hd Hx]. by split; cbn.
  - destruct Hinv as [Hk Hf Hs Hd Hx]. cbn in *. split; cbn; try done.
    + intros c key Hc Hck. destruct (Hk c key Hc Hck) as [ce Hce].
      exists ce. by apply elem_of_app; right.
    + rewrite Hf. by split.
    + intros c _ _ Hc. apply elem_of_app. left. apply elem_of_closes.
      by rewrite elem_of_snapshot.
  - destruct Hinv as [Hk Hf Hs Hd Hx]. cbn in *. split; cbn; try done.
    + rewrite Hf. by split.
    + intros c _ _ Hc. by apply Hs.
    + intros c _. unfold Len in He. apply map_size_empty_inv in He. by rewrite He, lookup_empty.
  - destruct Hinv as [Hk Hf Hs Hd Hx]. cbn in *. split; cbn; try done.
    + rewrite Hf. by split.
    + intros c _ _ Hc. by apply Hs.
  - destruct Hinv as [Hk Hf Hs Hd Hx]. cbn in *. split; cbn; try done.
    + rewrite Hf. by split.
    + intros c _ _ Hc. by apply Hs.
  - destruct Hinv as [Hk Hf Hs Hd Hx]. cbn in *. split; cbn; try done.
    + rewrite Hf. by split.
    + intros c _ _ Hc. by apply Hs.
    + intros c _ Hc. apply elem_of_app. left. by apply elem_of_snapshot.
Qed.

Lemma hub_reach_inv s : rtc hub_step hub_init s -> hub_inv s.
Proof. apply (rtc_invariant _ hub_inv); [apply hub_inv_init|apply hub_inv_step]. Qed.

(** What a step can change: flags only rise, and a conn enters the set only
    with an open key and before the drain. *)
Lemma hub_step_mono s s' :
  hub_step s s' ->
  (forall key, is_Some (closedKeys (hub s) !! key) -> is_Some (closedKeys (hub s') !! key))
  /\ (draining (hub s) = true -> draining (hub s') = true)
  /\ forall c key, conns (hub s') !! c = Some key ->
       conns (hub s) !! c = Some key
       \/ closedKeys (hub s) !! key = None /\ draining (hub s) = false.
Proof.
  intros Hstep. destruct Hstep as
    [c key h h' d s k Hc Ha|c key h h' ce d s k Ha|c h d s k
    |key code reason h d s k|h s k|h s k|h s k He|h s k He|h s k|h s k]; cbn; try by auto.
  - apply Add_Ok in Ha as (Hdr & Hck & ->). cbn. split_and!; [done|by rewrite Hdr|].
    intros c' key' [[<- <-]|[_ Hc']]%lookup_insert_Some; auto.
  - unfold Add in Ha. repeat case_match; simplify_eq; naive_solver.
  - split_and!; [done..|]. intros c' key [_ Hc]%lookup_delete_Some. auto.
  - split_and!; [|done|by auto]. intros key' Hk. rewrite lookup_insert. case_decide; [by eexists|done].
Qed.

(** Once a key is closed, or the drain has begun, the conns concerned only leave. *)
Lemma hub_frozen s s' c key :
  rtc hub_step s s' ->
  is_Some (closedKeys (hub s) !! key) \/ draining (hub s) = true ->
  conns (hub s') !! c = Some key -> conns (hub s) !! c = Some key.
Proof.
  intros Hr Hfz.
  assert ((is_Some (closedKeys (hub s') !! key) \/ draining (hub s') = true)
    /\ (conns (hub s') !! c = Some key -> conns (hub s) !! c = Some key)) as [_ ?]; [|done].
  revert s' Hr. apply rtc_ind_r; [done|].
  intros s1 s2 _ Hstep [Hfz1 Hc1]. destruct (hub_step_mono _ _ Hstep) as (Hk & Hd & Hc).
  split; [naive_solver|]. intros [?|[Hk0 Hd0]]%Hc; [auto|].
  rewrite Hk0, Hd0 in Hfz1. destruct Hfz1 as [[]|]; done.
Qed.

(** Revocation is complete. Once CloseKey has run for a key, in any
    interleaving with upgrades, closes and a drain, every conn of the key that
    is still tracked has been sent a close, none is ever added again, and an
    upgrade that arrives late is refused. *)
Theorem close_key_complete s key :
  rtc hub_step hub_init s -> is_Some (closedKeys (hub s) !! key) ->
  (forall c, conns (hub s) !! c = Some key -> exists ce, (c, ce) ∈ sent s)
  /\ (forall s' c, rtc hub_step s s' -> conns (hub s') !! c = Some key ->
        conns (hub s) !! c = Some key)
  /\ forall c, is_ok (Add c key (hub s)).1 = false.
Proof.
  intros Hr Hk. split_and!.
  - intros c Hc. by apply (inv_keys _ (hub_reach_inv _ Hr) c key).
  - intros s' c Hr' Hc. by eapply hub_frozen; [..|done]; [|by left].
  - intros c. unfold Add. destruct Hk as [ce ->]. by case_match.
Qed.

(** C24. Shutdown is complete. When Drain returns, no conn is added any more,
    each one still tracked was sent the shutdown close, and there is one only if
    the wait was cut short, in which case it was closed by force. *)
Theorem drain_complete s forced :
  rtc hub_step hub_init s -> drain s = DrainDone forced ->
  forall s' c key, rtc hub_step s s' -> conns (hub s') !! c = Some key ->
    conns (hub s) !! c = Some key /\ (c, drainClose) ∈ sent s
    /\ forced = true /\ c ∈ killed s.
Proof.
  intros Hr Hd s' c key Hr' Hc. pose proof (hub_reach_inv _ Hr) as [_ Hf Hs Hdone Hx].
  assert (conns (hub s) !! c = Some key) as Hc0.
  { eapply hub_frozen; [done| |done]. right.
    apply not_false_is_true. rewrite Hf, Hd. done. }
  destruct forced.
  - split_and!; [done| |done|]; [apply Hs|apply Hx]; rewrite ?Hd; by eauto.
  - by rewrite Hdone in Hc0.
Qed.

(** A conn of a revoked key that ignores its close, then a drain that times out. *)
Definition hub_revoked : hub_sys :=
  MkSys (MkHub {[1 := "k"]} {["k" := MkClose StatusPolicyViolation "key revoked"]} false)
    DrainIdle [(1, MkClose StatusPolicyViolation "key revoked")] [].
Definition hub_forced : hub_sys :=
  MkSys (set_draining (hub hub_revoked)) (DrainDone true)
    [(1, drainClose); (1, MkClose StatusPolicyViolation "key revoked")] [1].

Lemma hub_revoked_reach : rtc hub_step hub_init hub_revoked.
Proof.
  eapply rtc_l; [by eapply (step_add 1 "k" New)|].
  eapply rtc_l; [|apply rtc_refl].
  exact (step_close_key "k" StatusPolicyViolation "key revoked"
    (MkHub {[1 := "k"]} ∅ false) DrainIdle [] []).
Qed.

Lemma hub_forced_reach : rtc hub_step hub_init hub_forced.
Proof.
  etrans; [apply hub_revoked_reach|].
  eapply rtc_l; [apply step_flag|].
  eapply rtc_l; [apply step_send|].
  eapply rtc_l; [by apply step_nonempty|].
  eapply rtc_l; [apply step_ctx_done|apply rtc_refl].
Qed.

Lemma close_key_complete_witness :
  exists ce, (1, ce) ∈ sent hub_revoked.
Proof.
  apply (close_key_complete hub_revoked "k" hub_revoked_reach); [by eexists|done].
Defined.

Lemma drain_complete_witness : 1 ∈ killed hub_forced /\ Len (hub hub_forced) = 1.
Proof.
  split; [|done].
  apply (drain_complete hub_forced true hub_forced_reach eq_refl hub_forced 1 "k"); [|done].
  apply rtc_refl.
Defined.
