(* ===== verification/Conn.v ===== *)
(** * internal/conn: the connection, its policy and what connections share

    [conn.go] and [policy.go]: the state of a conn, the send buffer and its
    backpressure policies, and [hub.Broadcast] over it.  A [World] is all the
    state a handler can reach. *)
From S2P Require Import Prelude GoStd Token Channel Registry Limiter Hub.
From stdpp Require Import options.

Definition sendChanSize : nat := 64.
Definition defaultMaxChannelsPerConn : nat := 64.
Definition defaultMaxSubsPerChannel : nat := 10000.
Definition defaultConnPublishRate : Z := 50.
Definition defaultConnPublishBurst : Z := 100.
Definition defaultConnControlRate : Z := 20.
Definition defaultConnControlBurst : Z := Z.of_nat defaultMaxChannelsPerConn.

(** ** policy.go *)

(** Non-blocking operations on the send channel, oldest message first. *)
Definition try_send (m : string) (q : list string) : option (list string) :=
  if decide (length q < sendChanSize) then Some (q ++ [m]) else None.

(** [select { case c.send <- m: default: }]. *)
Definition push (m : string) (q : list string) : list string := default q (try_send m q).

(** [select { case <-c.send: default: }]. *)
Definition evict (q : list string) : list string := tail q.

Inductive Policy : Type :=
  | PolicyDisconnect
  | PolicyDropOldest
  | PolicyDropNewest.

#[export] Instance Policy_eq_dec : EqDecision Policy.
Proof. solve_decision. Defined.

(** What other goroutines can do to the buffer between two steps of [Apply]:
    acks and errors are pushed, [writePump] takes the oldest message. *)
Inductive chan_op : Type :=
  | OpPush (m : string)
  | OpTake.

Definition chan_step (q : list string) (o : chan_op) : list string :=
  match o with OpPush m => push m q | OpTake => evict q end.

Definition chan_steps (os : list chan_op) (q : list string) : list string := foldl chan_step q os.

(** [Apply]; the boolean is [ErrSlowConsumer].  [mid1] and [mid2] happen around
    the eviction; with none the policy runs undisturbed. *)
Definition Apply (p : Policy) (mid1 mid2 : list chan_op) (m : string) (q : list string)
    : bool * list string :=
  match p with
  | PolicyDisconnect =>
      match try_send m q with
      | Some q' => (false, q')
      | None => (true, q)
      end
  | PolicyDropOldest =>
      match try_send m q with
      | Some q' => (false, q')
      | None => (false, push m (chan_steps mid2 (evict (chan_steps mid1 q))))
      end
  | PolicyDropNewest =>
      match try_send m q with
      | Some q' => (false, q')
      | None => (false, q)
      end
  end.

(** ** conn.go *)

Section Conn.
Context {R B F : Type} `{Registry R} `{TokenBucket B}.

(** [closeReq] is a channel of capacity one; [subs] is nil after teardown. *)
Record Conn : Type := MkConn {
  socketID : string;
  apiKeyID : string;
  send : list string;
  connRate : B;
  controlRate : B;
  closeReq : bool;
  subs : option (gmap string loc);
  closed : bool;
}.

Record Metrics : Type := MkMetrics {
  Connections : Z;
  Published : Z;
  Dropped : Z;
  AuthFails : Z;
}.

Record World : Type := MkWorld {
  w_reg : R;
  w_heap : Heap;
  w_conns : gmap conn_id Conn;
  w_limiter : Limiter B;
  w_cache : option ReplayCache;
  w_metrics : Metrics;
  w_fan : F;
  w_hub : Hub;
}.

(** The parts of [Deps] that never change. *)
Record Config : Type := MkConfig {
  signingSecret : string;
  policy : Policy;
}.

(** *** Field updates *)

Definition set_send (q : list string) (c : Conn) : Conn :=
  MkConn (socketID c) (apiKeyID c) q (connRate c) (controlRate c) (closeReq c) (subs c) (closed c).
Definition set_connRate (b : B) (c : Conn) : Conn :=
  MkConn (socketID c) (apiKeyID c) (send c) b (controlRate c) (closeReq c) (subs c) (closed c).
Definition set_controlRate (b : B) (c : Conn) : Conn :=
  MkConn (socketID c) (apiKeyID c) (send c) (connRate c) b (closeReq c) (subs c) (closed c).
Definition set_closeReq (c : Conn) : Conn :=
  MkConn (socketID c) (apiKeyID c) (send c) (connRate c) (controlRate c) true (subs c) (closed c).
Definition set_subs (s : option (gmap string loc)) (c : Conn) : Conn :=
  MkConn (socketID c) (apiKeyID c) (send c) (connRate c) (controlRate c) (closeReq c) s (closed c).
Definition set_closed (c : Conn) : Conn :=
  MkConn (socketID c) (apiKeyID c) (send c) (connRate c) (controlRate c) (closeReq c) (subs c) true.

Definition set_conns (cs : gmap conn_id Conn) (w : World) : World :=
  MkWorld (w_reg w) (w_heap w) cs (w_limiter w) (w_cache w) (w_metrics w) (w_fan w) (w_hub w).
Definition set_store (rh : R * Heap) (w : World) : World :=
  MkWorld rh.1 rh.2 (w_conns w) (w_limiter w) (w_cache w) (w_metrics w) (w_fan w) (w_hub w).
Definition set_limiter (l : Limiter B) (w : World) : World :=
  MkWorld (w_reg w) (w_heap w) (w_conns w) l (w_cache w) (w_metrics w) (w_fan w) (w_hub w).
Definition set_cache (c : option ReplayCache) (w : World) : World :=
  MkWorld (w_reg w) (w_heap w) (w_conns w) (w_limiter w) c (w_metrics w) (w_fan w) (w_hub w).
Definition set_metrics (m : Metrics) (w : World) : World :=
  MkWorld (w_reg w) (w_heap w) (w_conns w) (w_limiter w) (w_cache w) m (w_fan w) (w_hub w).
Definition set_fan (f : F) (w : World) : World :=
  MkWorld (w_reg w) (w_heap w) (w_conns w) (w_limiter w) (w_cache w) (w_metrics w) f (w_hub w).
Definition set_hub (h : Hub) (w : World) : World :=
  MkWorld (w_reg w) (w_heap w) (w_conns w) (w_limiter w) (w_cache w) (w_metrics w) (w_fan w) h.

Definition upd_conn (i : conn_id) (f : Conn -> Conn) (w : World) : World :=
  set_conns (alter f i (w_conns w)) w.

Definition inc_Connections (d : Z) (w : World) : World :=
  let m := w_metrics w in
  set_metrics (MkMetrics (Connections m + d) (Published m) (Dropped m) (AuthFails m)) w.
Definition inc_Published (w : World) : World :=
  let m := w_metrics w in
  set_metrics (MkMetrics (Connections m) (Published m + 1) (Dropped m) (AuthFails m)) w.
Definition inc_Dropped (w : World) : World :=
  let m := w_metrics w in
  set_metrics (MkMetrics (Connections m) (Published m) (Dropped m + 1) (AuthFails m)) w.
Definition inc_AuthFails (w : World) : World :=
  let m := w_metrics w in
  set_metrics (MkMetrics (Connections m) (Published m) (Dropped m) (AuthFails m + 1)) w.

(** The channels a conn holds. *)
Definition conn_subs (c : Conn) : gmap string loc := default ∅ (subs c).

(** *** Sending *)

(** [Conn.Send], undisturbed: [true] is [ErrSlowConsumer]. *)
Definition Send (cfg : Config) (i : conn_id) (b : string) (w : World) : bool * World :=
  match w_conns w !! i with
  | None => (true, w)
  | Some c =>
      if closed c then (true, w) else
      let '(slow, q) := Apply (policy cfg) [] [] b (send c) in
      let w' := upd_conn i (set_send q) w in
      if slow then (true, upd_conn i set_closeReq (inc_Dropped w')) else (false, w')
  end.

(** [hub.Broadcast]: snapshot the subscribers, then send to each. *)
Definition hub_Broadcast (cfg : Config) (l : loc) (msg : string) (w : World) : World :=
  foldl (fun w s => (Send cfg s msg w).2) w (subs_snapshot l (w_heap w)).

(** [sendAck] and [sendErrorFrame] push a frame if there is room. *)
Definition reply (i : conn_id) (b : string) (w : World) : World :=
  upd_conn i (fun c => set_send (push b (send c)) c) w.
End Conn.
Arguments Conn B : clear implicits.
Arguments World R B F : clear implicits.

(** ** fanout/fanout.go

    What a handler knows of a [Fanout]: [Broadcast] on the world it is part of. *)
Class Fanout (R B F : Type) `{Registry R} `{TokenBucket B} : Type := {
  Broadcast : Config -> loc -> string -> World R B F -> World R B F;
  Close : F -> F;
}.

(** perconn.go: the broadcast happens in the publisher's goroutine. *)
Record PerConn : Type := NewPerConn {}.

#[export] Instance PerConn_Fanout {R B} `{Registry R} `{TokenBucket B} : Fanout R B PerConn := {
  Broadcast := hub_Broadcast;
  Close p := p;
}.

(** ** Buffers *)

Lemma push_cap m q : length q <= sendChanSize -> length (push m q) <= sendChanSize.
Proof. unfold push, try_send. case_decide; cbn; rewrite ?length_app; cbn; lia. Qed.

Lemma chan_steps_cap os q : length q <= sendChanSize -> length (chan_steps os q) <= sendChanSize.
Proof.
  revert q. induction os as [|[m|] os IH]; intros q Hq; cbn; [done|..]; apply IH.
  - by apply push_cap.
  - destruct q; cbn in *; lia.
Qed.

Lemma Apply_cap p mid1 mid2 m q :
  length q <= sendChanSize -> length (Apply p mid1 mid2 m q).2 <= sendChanSize.
Proof.
  intros Hq. unfold Apply, try_send.
  destruct p; case_decide; cbn; rewrite ?length_app; cbn; try lia.
  apply push_cap, chan_steps_cap. pose proof (chan_steps_cap mid1 q Hq).
  destruct (chan_steps mid1 q); cbn in *; lia.
Qed.
