(* ===== verification/Handler.v ===== *)
(** * internal/conn/handler.go: what one client frame does

    [handle] from the raw bytes of a frame to the new [World].  A handler runs
    in one piece; the clock and randomness it reads are its [readings], and the
    only interference modelled inside it is the registry sweep that can slip
    between [GetOrCreate] and [Subscribe]. *)
From S2P Require Import Prelude GoStd GoBytes Utf8 GoJson Token Channel Registry Sweep Limiter Hub Frame Conn.
From stdpp Require Import options.

(** ** Channel names *)

Definition maxChannelNameLen : nat := 128.

(** [ValidateChannelName]: the error is its message. *)
Definition ValidateChannelName (name : string) : res string unit :=
  if decide (name = "") then Err "channel name is empty" else
  if decide (maxChannelNameLen < String.length name) then Err "channel name exceeds 128 bytes" else
  if forallb (fun u : N * string => negb ((u.1 <? 32)%N || (u.1 =? 127)%N)) (utf8_units name)
  then Ok tt else Err "channel name contains control character".

Definition reservedChannelPrefix : string := "_".
Definition statsChannel : string := "_wirefan-stats".
Definition reservedSubscribeAllowed (name : string) : bool := bool_decide (name = statsChannel).
Definition authRequiredPrefixes : list string := ["private-"; "presence-"].
Definition channelReserved (name : string) : bool := HasPrefix name reservedChannelPrefix.
Definition ChannelRequiresAuth (name : string) : bool :=
  existsb (HasPrefix name) authRequiredPrefixes.

(** ** Incoming frames *)

Record incoming : Type := MkIncoming {
  in_Type : string;
  in_Channel : string;
  in_Token : string;
  in_Data : option string;
}.

Definition incoming_zero : incoming := MkIncoming "" "" "" None.

(** One member of the object: fields match whatever their case, null leaves a
    string field alone, another kind is an error, unknown fields are skipped. *)
Definition set_field (m : incoming) (f : member) : option incoming :=
  let '(k, (v, raw)) := f in
  let str (upd : string -> incoming) :=
    match v with JStr s => Some (upd s) | JNull => Some m | _ => None end in
  if field_match "type" k then
    str (fun s => MkIncoming s (in_Channel m) (in_Token m) (in_Data m))
  else if field_match "channel" k then
    str (fun s => MkIncoming (in_Type m) s (in_Token m) (in_Data m))
  else if field_match "token" k then
    str (fun s => MkIncoming (in_Type m) (in_Channel m) s (in_Data m))
  else if field_match "data" k then
    Some (MkIncoming (in_Type m) (in_Channel m) (in_Token m) (Some raw))
  else Some m.

(** [json.Unmarshal] into an [incoming]. *)
Definition unmarshal (raw : string) : option incoming :=
  t ← parse_top raw;
  match t with
  | TObject ms => foldl (fun acc f => m ← acc; set_field m f) (Some incoming_zero) ms
  | TValue JNull => Some incoming_zero
  | TValue _ => None
  end.

(** ** The handlers *)

Definition maxSubscribeRetries : nat := 3.

(** What one run of [handle] reads from its environment: the per-conn bucket's
    clock, the limiter's two, the token check's, the event id, and for each
    subscribe attempt whether a sweep runs between its two steps. *)
Record readings : Type := MkReadings {
  rd_conn : Z;
  rd_seen : Z;
  rd_key : Z;
  rd_verify : Z;
  rd_ulid : string;
  rd_gc : list bool;
}.

Section Handler.
Context {R B F : Type} `{Registry R, TokenBucket B, !Fanout R B F}.
Context (cfg : Config) (rd : readings).
Implicit Types (w : World R B F) (i : conn_id) (msg : incoming).

Definition sendAck i (typ channel : string) w : World R B F := reply i (ack_frame typ channel) w.

Definition sendErrorFrame i (f : errorFrame) w : World R B F := reply i (error_frame f) w.

Definition sendError i (code message : string) w : World R B F :=
  sendErrorFrame i (MkErrorFrame "error" code message "" "") w.

Definition op_error msg (code message : string) : errorFrame :=
  MkErrorFrame "error" code message (in_Type msg)
    (if decide (String.length (in_Channel msg) <= maxChannelNameLen) then in_Channel msg else "").

Definition sendOpError i msg (code message : string) w : World R B F :=
  sendErrorFrame i (op_error msg code message) w.

Definition allowControl i msg w : bool * World R B F :=
  match w_conns w !! i with
  | None => (false, w)
  | Some c =>
      let '(ok, b) := bucket_allow (rd_conn rd) (controlRate c) in
      let w := upd_conn i (set_controlRate b) w in
      if negb ok then
        (false, sendOpError i msg "RATE_LIMITED_CONN" "too many control ops on this connection" w)
      else
        let '(ok, l) := Allow (rd_seen rd) (rd_key rd) (apiKeyID c) (w_limiter w) in
        let w := set_limiter l w in
        if negb ok then (false, sendOpError i msg "RATE_LIMITED" "too many control ops" w)
        else (true, w)
  end.

(** The retry loop.  A sweep may run between the two registry calls. *)
Fixpoint subscribe_retry (n : nat) (gc : list bool) (name : string) i (s : R * Heap)
    : res sub_err loc * (R * Heap) :=
  match n with
  | O => (Err ErrChannelDeleted, s)
  | S n' =>
      let '(ch, (r, h)) := GetOrCreate name s in
      let '(r, h) := if default false (head gc) then (Sweep r h).1 else (r, h) in
      match Subscribe ch i defaultMaxSubsPerChannel h with
      | (Ok _, h) => (Ok ch, (r, h))
      | (Err ErrChannelDeleted, h) => subscribe_retry n' (tail gc) name i (r, h)
      | (Err e, h) => (Err e, (r, h))
      end
  end.

Definition join i msg (held : gmap string loc) w : World R B F :=
  let '(r, s) := subscribe_retry maxSubscribeRetries (rd_gc rd) (in_Channel msg) i
                   (w_reg w, w_heap w) in
  let w := set_store s w in
  match r with
  | Err ErrTooManySubs => sendOpError i msg "LIMIT_SUBSCRIBERS" "max subscribers per channel" w
  | Err ErrChannelDeleted => sendOpError i msg "SUBSCRIBE_FAILED" "channel deleted" w
  | Ok ch =>
      sendAck i "subscribed" (in_Channel msg)
        (upd_conn i (set_subs (Some (<[in_Channel msg := ch]> held))) w)
  end.

(** The token check: [None] when the subscribe may go on. *)
Definition check_token (c : Conn B) msg w : option (string * string) * World R B F :=
  if ChannelRequiresAuth (in_Channel msg) then
    let '(r, cache) := VerifyTokenAgainst (rd_verify rd) (signingSecret cfg) (socketID c)
                         (in_Channel msg) (in_Token msg) (w_cache w) in
    let w := set_cache cache w in
    match r with
    | Ok _ => (None, w)
    | Err ErrTokenReplayed => (Some ("AUTH_REPLAYED", "token already used"), inc_AuthFails w)
    | Err _ => (Some ("AUTH_FAILED", "invalid token"), inc_AuthFails w)
    end
  else (None, w).

Definition handleSubscribe i msg w : World R B F :=
  if channelReserved (in_Channel msg) && negb (reservedSubscribeAllowed (in_Channel msg)) then
    sendOpError i msg "RESERVED_CHANNEL" "channel name reserved for server use" w
  else
    let '(ok, w) := allowControl i msg w in
    if negb ok then w else
    match w_conns w !! i with
    | None => w
    | Some c =>
        if decide (is_Some (conn_subs c !! in_Channel msg)) then
          sendAck i "subscribed" (in_Channel msg) w
        else
          match check_token c msg w with
          | (Some (code, message), w) => sendOpError i msg code message w
          | (None, w) =>
              if decide (defaultMaxChannelsPerConn <= size (conn_subs c)) then
                sendOpError i msg "LIMIT_CHANNELS" "max channels per conn" w
              else join i msg (conn_subs c) w
          end
    end.

Definition handlePublish i msg w : World R B F :=
  if channelReserved (in_Channel msg) then
    sendOpError i msg "RESERVED_CHANNEL" "channel name reserved for server use" w
  else
    match w_conns w !! i with
    | None => w
    | Some c =>
        match conn_subs c !! in_Channel msg with
        | None => sendOpError i msg "NOT_SUBSCRIBED" "must subscribe before publish" w
        | Some ch =>
            let '(ok, b) := bucket_allow (rd_conn rd) (connRate c) in
            let w := upd_conn i (set_connRate b) w in
            if negb ok then
              sendOpError i msg "RATE_LIMITED_CONN" "too many publishes on this connection" w
            else
              let '(ok, l) := Allow (rd_seen rd) (rd_key rd) (apiKeyID c) (w_limiter w) in
              let w := set_limiter l w in
              if negb ok then
                sendOpError i msg "RATE_LIMITED" "too many publishes for this API key" w
              else
                let out := event_frame (in_Channel msg) (in_Data msg) (rd_ulid rd) in
                Broadcast cfg ch out (inc_Published w)
        end
    end.

Definition handleUnsubscribe i msg w : World R B F :=
  let '(ok, w) := allowControl i msg w in
  if negb ok then w else
  match w_conns w !! i with
  | None => w
  | Some c =>
      match conn_subs c !! in_Channel msg with
      | None => sendAck i "unsubscribed" (in_Channel msg) w
      | Some ch =>
          let w := upd_conn i (set_subs (Some (delete (in_Channel msg) (conn_subs c)))) w in
          let w := set_store (w_reg w, Unsubscribe ch i (w_heap w)) w in
          sendAck i "unsubscribed" (in_Channel msg) w
      end
  end.

Definition dispatch i msg w : World R B F :=
  if decide (in_Type msg = "subscribe") then handleSubscribe i msg w
  else if decide (in_Type msg = "unsubscribe") then handleUnsubscribe i msg w
  else if decide (in_Type msg = "publish") then handlePublish i msg w
  else sendError i "BAD_TYPE" "unknown message type" w.

Definition is_op (typ : string) : bool :=
  bool_decide (typ ∈ ["subscribe"; "unsubscribe"; "publish"]).

Definition handle i (raw : string) w : World R B F :=
  if negb (Valid raw) then sendError i "BAD_JSON" "message is not valid UTF-8" w else
  match unmarshal raw with
  | None => sendError i "BAD_JSON" "malformed message" w
  | Some msg =>
      match (if is_op (in_Type msg) then ValidateChannelName (in_Channel msg) else Ok tt) with
      | Err e => sendOpError i msg "BAD_CHANNEL" e w
      | Ok _ => dispatch i msg w
      end
  end.
End Handler.
