(* ===== verification/World.v ===== *)
(** * What sends and broadcasts change

    A send touches the receiver's buffer and close request, and counters:
    [core_eq] says so once, and every reply, broadcast and fan-out worker is
    shown to satisfy it.  [hub_Broadcast_conns] is a broadcast's exact effect. *)
From S2P Require Import Prelude GoStd Token Channel Registry Limiter Hub Conn.
From stdpp Require Import options.

(** ** Policies *)

(** The last [n] elements. *)
Definition lastn {A} (n : nat) (l : list A) : list A := drop (length l - n) l.

(** Backpressure. Undisturbed, a policy appends the message when the buffer
    has room; when it is full, PolicyDisconnect reports a slow consumer and
    keeps the buffer, PolicyDropOldest keeps the newest 64 of the 65 messages,
    and PolicyDropNewest the oldest 64. *)
Theorem policy_semantics p m q :
  length q <= sendChanSize ->
  Apply p [] [] m q =
  match p with
  | PolicyDisconnect =>
      if decide (length q = sendChanSize) then (true, q) else (false, q ++ [m])
  | PolicyDropOldest => (false, lastn sendChanSize (q ++ [m]))
  | PolicyDropNewest => (false, take sendChanSize (q ++ [m]))
  end.
Proof.
  intros Hq. unfold Apply, try_send, push, try_send, lastn.
  destruct p; repeat case_decide; try lia; try done.
  - by replace (_ - _) with 0 by (rewrite length_app; cbn; lia).
  - destruct q as [|x q]; [unfold sendChanSize in *; cbn in *; lia|]. cbn in *.
    by replace (_ - _) with 1 by (rewrite length_app; unfold sendChanSize in *; cbn; lia).
  - destruct q; unfold sendChanSize in *; cbn in *; lia.
  - by rewrite firstn_all2 by (rewrite length_app; cbn; lia).
  - rewrite take_app_length'; [done|lia].
Qed.

Lemma policy_semantics_witness :
  Apply PolicyDropOldest [] [] "new" ("oldest" :: replicate 63 "m")
  = (false, replicate 63 "m" ++ ["new"]).
Proof. rewrite (policy_semantics PolicyDropOldest) by (cbn; unfold sendChanSize; lia). done. Defined.

Section World.
Context {R B F : Type} `{Registry R, TokenBucket B}.
Implicit Types (w : World R B F) (c : Conn B).

(** ** Effects confined to buffers, buckets and counters *)

Record conn_core c c' : Prop := {
  core_sid : socketID c' = socketID c;
  core_key : apiKeyID c' = apiKeyID c;
  core_subs : subs c' = subs c;
  core_closed : closed c' = closed c;
  core_cap : length (send c) <= sendChanSize -> length (send c') <= sendChanSize;
}.

Record core_eq w w' : Prop := {
  core_reg : w_reg w' = w_reg w;
  core_heap : w_heap w' = w_heap w;
  core_hub : w_hub w' = w_hub w;
  core_count : Connections (w_metrics w') = Connections (w_metrics w);
  core_conns i : option_Forall2 conn_core (w_conns w !! i) (w_conns w' !! i);
}.

#[export] Instance conn_core_preorder : PreOrder conn_core.
Proof using Type.
  split; [by split|]. intros c1 c2 c3 [] []. split; try congruence. auto.
Qed.

#[export] Instance core_eq_preorder : PreOrder core_eq.
Proof using Type.
  split.
  - intros w. split; [done..|]. intros i. destruct (w_conns w !! i); by constructor.
  - intros w1 w2 w3 [? ? ? ? H1] [? ? ? ? H2]. split; try congruence.
    intros i. specialize (H1 i). specialize (H2 i).
    inversion H1 as [? ? Hc1 E1 E2|E1 E2]; rewrite <- E2 in H2; inversion H2; constructor.
    by etrans.
Qed.

Lemma core_upd_conn i f w :
  (forall c, w_conns w !! i = Some c -> conn_core c (f c)) -> core_eq w (upd_conn i f w).
Proof using Type.
  intros Hf. split; [done..|]. intros j. cbn. rewrite lookup_alter.
  case_decide.
  - subst j. destruct (w_conns w !! i); cbn; constructor. by apply Hf.
  - destruct (w_conns w !! j); constructor. reflexivity.
Qed.

Lemma core_set_limiter l w : core_eq w (set_limiter l w).
Proof using Type. split; [done..|]. intros i. cbn. by destruct (w_conns w !! i); constructor. Qed.
Lemma core_set_cache l w : core_eq w (set_cache l w).
Proof using Type. split; [done..|]. intros i. cbn. by destruct (w_conns w !! i); constructor. Qed.
Lemma core_set_metrics m w :
  Connections m = Connections (w_metrics w) -> core_eq w (set_metrics m w).
Proof using Type. split; [done..|]. intros i. cbn. by destruct (w_conns w !! i); constructor. Qed.
Lemma core_set_fan f w : core_eq w (set_fan f w).
Proof using Type. split; [done..|]. intros i. cbn. by destruct (w_conns w !! i); constructor. Qed.

Lemma core_reply i b w : core_eq w (reply i b w).
Proof using Type. apply core_upd_conn. intros c _. split; [done..|]. apply push_cap. Qed.

Lemma core_set_controlRate i b w : core_eq w (upd_conn i (set_controlRate b) w).
Proof using Type. by apply core_upd_conn. Qed.
Lemma core_set_connRate i b w : core_eq w (upd_conn i (set_connRate b) w).
Proof using Type. by apply core_upd_conn. Qed.

Lemma core_Send cfg i b w : core_eq w (Send cfg i b w).2.
Proof using Type.
  unfold Send. destruct (w_conns w !! i) as [c|] eqn:Hc; [|reflexivity].
  destruct (closed c); [reflexivity|].
  destruct (Apply _ _ _ _ _) as [slow q] eqn:Ha.
  assert (core_eq w (upd_conn i (set_send q) w)) as Hq.
  { apply core_upd_conn. intros c' Hc'. simplify_eq. split; [done..|]. cbn. intros Hl.
    change q with (slow, q).2. rewrite <- Ha. by apply Apply_cap. }
  destruct slow; [|done]. cbn. etrans; [exact Hq|].
  transitivity (inc_Dropped (upd_conn i (set_send q) w)); [by apply core_set_metrics|].
  by apply core_upd_conn.
Qed.

Lemma core_Broadcast cfg l m w : core_eq w (hub_Broadcast cfg l m w).
Proof using Type.
  unfold hub_Broadcast. generalize (subs_snapshot l (w_heap w)) as ss. intros ss. revert w.
  induction ss as [|s ss IH]; intros w; cbn; [reflexivity|].
  etrans; [apply core_Send|apply IH].
Qed.

Lemma Send_limiter cfg i b w : w_limiter (Send cfg i b w).2 = w_limiter w.
Proof using Type.
  unfold Send. destruct (w_conns w !! i) as [c|]; [|done]. destruct (closed c); [done|].
  by destruct (Apply _ _ _ _ _) as [[] q].
Qed.

Lemma hub_Broadcast_limiter cfg l m w : w_limiter (hub_Broadcast cfg l m w) = w_limiter w.
Proof using Type.
  unfold hub_Broadcast. generalize (subs_snapshot l (w_heap w)) as ss. intros ss. revert w.
  induction ss as [|s ss IH]; intros w; cbn; [done|]. by rewrite IH, Send_limiter.
Qed.

(** A conn seen through [core_eq]. *)
Lemma core_lookup w w' i c :
  core_eq w w' -> w_conns w !! i = Some c ->
  exists c', w_conns w' !! i = Some c' /\ conn_core c c'.
Proof using Type.
  intros [_ _ _ _ Hc] Hi. specialize (Hc i). rewrite Hi in Hc. inversion Hc. eauto.
Qed.

Lemma core_lookup_inv w w' i c' :
  core_eq w w' -> w_conns w' !! i = Some c' ->
  exists c, w_conns w !! i = Some c /\ conn_core c c'.
Proof using Type.
  intros [_ _ _ _ Hc] Hi. specialize (Hc i). rewrite Hi in Hc. inversion Hc. eauto.
Qed.

(** ** A broadcast, exactly *)

(** What one message does to one open subscriber. *)
Definition deliver (cfg : Config) (m : string) (c : Conn B) : Conn B :=
  if closed c then c else
  let '(slow, q) := Apply (policy cfg) [] [] m (send c) in
  if slow then set_closeReq (set_send q c) else set_send q c.

Lemma Send_conns cfg s m w i :
  w_conns (Send cfg s m w).2 !! i
  = (if decide (i = s) then deliver cfg m <$> w_conns w !! i else w_conns w !! i).
Proof using Type.
  unfold Send, deliver. case_decide as Hi; [subst i|].
  - destruct (w_conns w !! s) as [c|] eqn:Hc; [|done]. cbn.
    destruct (closed c) eqn:Hcl; [done|].
    destruct (Apply _ _ _ _ _) as [[] q]; cbn; rewrite ?lookup_alter_eq, Hc; done.
  - destruct (w_conns w !! s) as [c|] eqn:Hc; [|done].
    destruct (closed c); [done|].
    destruct (Apply _ _ _ _ _) as [[] q]; cbn; by rewrite ?lookup_alter_ne by done.
Qed.

Lemma hub_Broadcast_conns cfg l m w i :
  w_conns (hub_Broadcast cfg l m w) !! i
  = (if decide (i ∈ Subscribers (chan_at l (w_heap w)))
     then deliver cfg m <$> w_conns w !! i else w_conns w !! i).
Proof using Type.
  unfold hub_Broadcast, subs_snapshot.
  pose proof (NoDup_elements (Subscribers (chan_at l (w_heap w)))) as Hnd.
  assert (i ∈ Subscribers (chan_at l (w_heap w))
    <-> i ∈ elements (Subscribers (chan_at l (w_heap w)))) as Hin by (by rewrite elem_of_elements).
  rewrite (decide_ext _ _ _ _ Hin). clear Hin. revert Hnd.
  generalize (elements (Subscribers (chan_at l (w_heap w)))) as ss. intros ss. revert w.
  induction ss as [|s ss IH]; intros w Hnd; cbn [foldl]; [by rewrite decide_False by set_solver|].
  apply NoDup_cons in Hnd as [Hs Hnd]. rewrite IH by done. rewrite Send_conns.
  repeat case_decide; subst; try done; set_solver.
Qed.
End World.

(** ** The fan-out interface

    What a handler relies on, whichever implementation runs: a broadcast, and
    any step of the implementation's own workers, only sends. *)
Class FanoutLaws (R B F : Type) `{Fanout R B F} : Type := {
  work : Config -> World R B F -> World R B F -> Prop;
  Broadcast_core cfg l m w : core_eq w (Broadcast cfg l m w);
  Broadcast_limiter cfg l m w : w_limiter (Broadcast cfg l m w) = w_limiter w;
  work_core cfg w w' : work cfg w w' -> core_eq w w';
}.

(** [PerConn] has no workers. *)
#[export] Instance PerConn_laws {R B} `{Registry R, TokenBucket B} : FanoutLaws R B PerConn.
Proof.
  refine {| work := fun _ _ _ => False |}.
  - intros. apply core_Broadcast.
  - intros. apply hub_Broadcast_limiter.
  - done.
Defined.
