(* ===== verification/Membership.v ===== *)
(** * Subscriptions and subscriber sets agree

    The registry, the heap of channels and the [subs] maps of all conns, kept
    consistent by subscribing, unsubscribing and sweeping.  [S i] is what conn
    [i] holds. *)
From S2P Require Import Prelude GoStd Token Channel Registry Sweep Limiter Hub Frame Conn Handler.
From stdpp Require Import options.

Section Membership.
Context {R : Type} `{RegistryLaws R}.
Implicit Types (S : conn_id -> gmap string loc).

Record store_ok (r : R) (h : Heap) S : Prop := {
  st_reg : reg_ok r h;
  (** A held channel is a real one, of the right name, that lists the conn. *)
  st_held i n l : S i !! n = Some l ->
    l < next h /\ Name (chan_at l h) = n /\ i ∈ Subscribers (chan_at l h);
  (** A listed subscriber holds the channel. *)
  st_subs l i : i ∈ Subscribers (chan_at l h) -> S i !! Name (chan_at l h) = Some l;
  st_max l : size (Subscribers (chan_at l h)) <= defaultMaxSubsPerChannel;
  (** A channel with subscribers is the registered one of its name. *)
  st_live l : Subscribers (chan_at l h) <> ∅ -> reg_abs r !! Name (chan_at l h) = Some l;
  st_deleted n l : reg_abs r !! n = Some l -> Deleted (chan_at l h) = false;
}.

(** [S] with conn [i] holding [m]. *)
Definition upd S (i : conn_id) (m : gmap string loc) : conn_id -> gmap string loc :=
  fun j => if decide (j = i) then m else S j.

Lemma store_ok_ext r h S S' : store_ok r h S -> (forall i, S' i = S i) -> store_ok r h S'.
Proof using Type.
  intros [] HS. split; try done; intros *; rewrite HS; auto.
Qed.

Lemma elem_nonempty (i : conn_id) (X : gset conn_id) : i ∈ X -> X <> ∅.
Proof using Type. set_solver. Qed.

Lemma chan_at_fresh h l : heap_ok h -> next h <= l -> chan_at l h = newChannel "".
Proof using Type.
  intros Hh Hl. unfold chan_at. destruct (cells h !! l) as [c|] eqn:E; [|done].
  assert (l < next h) by (apply Hh; by rewrite E). lia.
Qed.

Lemma store_bound r h S l i : store_ok r h S -> i ∈ Subscribers (chan_at l h) -> l < next h.
Proof using Type.
  intros Hok Hi. destruct (decide (l < next h)) as [|Hl]; [done|].
  rewrite chan_at_fresh in Hi; [set_solver|apply Hok|lia].
Qed.

Lemma store_ok_new S : (forall i, S i = ∅) -> store_ok reg_new heap_empty S.
Proof using Type.
  intros HS.
  assert (forall l, chan_at l heap_empty = newChannel "") as Hc.
  { intros l. apply chan_at_fresh; [apply heap_ok_empty|cbn; lia]. }
  split; [apply reg_ok_new|..].
  - intros i n l. by rewrite HS.
  - intros l i. rewrite Hc. cbn. set_solver.
  - intros l. rewrite Hc. cbn [Subscribers newChannel]. rewrite size_empty. lia.
  - intros l. by rewrite Hc.
  - intros n l. by rewrite reg_new_abs, lookup_empty.
Qed.

(** ** Registry calls *)

Lemma store_GetOrCreate name r h S l r' h' :
  store_ok r h S -> GetOrCreate name (r, h) = (l, (r', h')) ->
  store_ok r' h' S /\ reg_abs r' !! name = Some l.
Proof using Type.
  intros Hok Hg. pose proof Hok as [Hr Hheld Hsubs Hmax Hlive Hdel].
  destruct (GetOrCreate_spec _ _ _ _ _ _ Hr Hg) as (Hr' & Hl & Hother & Hold & Hcase).
  split; [|done]. destruct Hcase as [(_ & -> & ->)|(Hnone & -> & Hc & Hn)]; [done|].
  assert (forall l0, next h <= l0 -> Subscribers (chan_at l0 h') = ∅) as Hnew.
  { intros l0 Hl0. destruct (decide (l0 = next h)) as [->|Hne]; [by rewrite Hc|].
    rewrite chan_at_fresh; [done|apply Hr'|lia]. }
  assert (forall l0 i, i ∈ Subscribers (chan_at l0 h') -> l0 < next h) as Hlt.
  { intros l0 i Hi. destruct (decide (l0 < next h)); [done|].
    rewrite Hnew in Hi by lia. set_solver. }
  split; [done|..].
  - intros i n l0 Hs. destruct (Hheld _ _ _ Hs) as (? & ? & ?).
    rewrite Hold by done. split; [lia|done].
  - intros l0 i Hi. pose proof (Hlt _ _ Hi). rewrite Hold in Hi |- * by done. auto.
  - intros l0. destruct (decide (l0 < next h)); [by rewrite Hold|].
    rewrite Hnew, size_empty by lia. lia.
  - intros l0 Hne. destruct (decide (l0 < next h)) as [Hl0|]; [|by rewrite Hnew in Hne by lia].
    rewrite Hold in Hne |- * by done. rewrite Hother; [auto|].
    intros Heq. specialize (Hlive _ Hne). congruence.
  - intros n l0 Hn0. destruct (decide (n = name)) as [->|Hne].
    + rewrite Hl in Hn0. simplify_eq. by rewrite Hc.
    + rewrite Hother in Hn0 by done. rewrite Hold; [eauto|]. by eapply ok_bound.
Qed.

Lemma store_Sweep r h S r' h' removed :
  store_ok r h S -> Sweep r h = (r', h', removed) -> store_ok r' h' S.
Proof using Type.
  intros [Hr Hheld Hsubs Hmax Hlive Hdel] Hs.
  destruct (Sweep_pass _ _ _ _ _ Hr Hs) as (Hr' & Ha & _ & Hn & Hc).
  split; [done|..].
  - intros i n l Hi. rewrite Hn, Hc. cbn. eauto.
  - intros l i. rewrite Hc. cbn. auto.
  - intros l. rewrite Hc. apply Hmax.
  - intros l. rewrite Ha, Hc. cbn. intros Hne. apply map_lookup_filter_Some. auto.
  - intros n l. rewrite Ha, Hc. cbn. intros [Hl Hd]%map_lookup_filter_Some.
    rewrite (Hdel _ _ Hl), orb_false_r. apply bool_decide_eq_false_2. by intros [_ ?].
Qed.

(** ** Subscribing *)

Lemma store_Subscribe r h S l i h' :
  store_ok r h S -> Subscribe l i defaultMaxSubsPerChannel h = (Ok tt, h') ->
  reg_abs r !! Name (chan_at l h) = Some l -> l < next h ->
  store_ok r h' (upd S i (<[Name (chan_at l h) := l]> (S i))).
Proof using Type.
  intros [Hr Hheld Hsubs Hmax Hlive Hdel] Hs Hreg Hl.
  pose proof (Subscribe_cap _ _ _ _ _ Hs) as Hcap.
  apply Subscribe_Ok in Hs as (Hd & _ & ->). rewrite chan_at_set_eq in Hcap.
  set (c' := MkChannel _ _ _) in *.
  assert (forall l0, Name (chan_at l0 (chan_set l c' h)) = Name (chan_at l0 h)) as Hname.
  { intros l0. rewrite chan_at_set. case_decide; by subst. }
  assert (forall l0, Deleted (chan_at l0 (chan_set l c' h)) = Deleted (chan_at l0 h)) as Hdl.
  { intros l0. rewrite chan_at_set. case_decide; by subst. }
  split.
  - destruct Hr as [? ? Hnm Hb]. split; [done|by apply heap_ok_set| |done].
    intros n l0 Hl0. rewrite Hname. by apply Hnm.
  - intros j n l0 Hj. rewrite Hname, next_set, chan_at_set. unfold upd in Hj.
    assert (S j !! n = Some l0 \/ j = i /\ n = Name (chan_at l h) /\ l0 = l) as [Hs0|(-> & -> & ->)].
    { case_decide; [|by left]. subst j. apply lookup_insert_Some in Hj. naive_solver. }
    all: clear Hj.
    + destruct (Hheld _ _ _ Hs0) as (? & ? & ?). split_and!; [done..|].
      case_decide; [subst l0; apply elem_of_union; by right|done].
    + split_and!; [done..|]. rewrite decide_True by done. apply elem_of_union. left.
      by apply elem_of_singleton.
  - intros l0 j. rewrite Hname, chan_at_set. unfold upd.
    case_decide as Hl0; [subst l0; cbn|].
    + intros [->%elem_of_singleton|Hj%Hsubs]%elem_of_union.
      * rewrite decide_True by done. by rewrite lookup_insert_eq.
      * case_decide; [subst; by rewrite lookup_insert_eq|done].
    + intros Hj%Hsubs. case_decide; [subst j|done].
      destruct (decide (Name (chan_at l h) = Name (chan_at l0 h))) as [He|Hne].
      * destruct (Hheld _ _ _ Hj) as (_ & _ & Hin).
        assert (reg_abs r !! Name (chan_at l0 h) = Some l0) by (apply Hlive; by eapply elem_nonempty).
        congruence.
      * by rewrite lookup_insert_ne.
  - intros l0. rewrite chan_at_set. case_decide; [done|]. apply Hmax.
  - intros l0. rewrite Hname, chan_at_set. case_decide; [by subst|]. apply Hlive.
  - intros n l0. rewrite Hdl. apply Hdel.
Qed.

Lemma store_retry k gc name i r h S res r' h' :
  store_ok r h S -> subscribe_retry k gc name i (r, h) = (res, (r', h')) ->
  match res with
  | Ok l => store_ok r' h' (upd S i (<[name := l]> (S i)))
  | Err _ => store_ok r' h' S
  end.
Proof using Type.
  revert gc r h. induction k as [|k IH]; intros gc r h Hok Hs; cbn [subscribe_retry] in Hs.
  { by simplify_eq. }
  destruct (GetOrCreate name (r, h)) as [l [r1 h1]] eqn:Hg.
  destruct (store_GetOrCreate _ _ _ _ _ _ _ Hok Hg) as [Hok1 Hl].
  assert (Name (chan_at l h1) = name) as Hname by (by eapply ok_named; [apply Hok1|]).
  assert (l < next h1) as Hlt by (by eapply ok_bound; [apply Hok1|]).
  set (sw := if default false (head gc) then _ else _) in Hs.
  assert (store_ok sw.1 sw.2 S /\ Name (chan_at l sw.2) = name /\ l < next sw.2
    /\ (Deleted (chan_at l sw.2) = false -> reg_abs sw.1 !! name = Some l)) as (Hok2 & Hname2 & Hlt2 & Hreg2).
  { subst sw. destruct (default false (head gc)); [|done].
    destruct (Sweep r1 h1) as [[r2 h2] x] eqn:Hsw. cbn [fst snd].
    destruct (Sweep_pass _ _ _ _ _ (st_reg _ _ _ Hok1) Hsw) as (_ & Ha & _ & Hn & Hc).
    split; [by eapply store_Sweep|]. rewrite Hc, Hn. cbn. split_and!; [done..|].
    intros [Hcol _]%orb_false_iff. bool_hyps. rewrite Ha. apply map_lookup_filter_Some.
    split; [done|]. intros Hdead. apply Hcol. split; [by rewrite Hname|done]. }
  destruct sw as [r2 h2]. cbn [fst snd] in *.
  destruct (Subscribe l i defaultMaxSubsPerChannel h2) as [[[]|[]] h3] eqn:Hsub.
  - simplify_eq. pose proof Hsub as (Hd & _ & _)%Subscribe_Ok.
    rewrite <- Hname2. apply store_Subscribe; [done..|by rewrite Hname2; auto|done].
  - apply Subscribe_Err in Hsub as [-> _]. by simplify_eq.
  - apply Subscribe_Err in Hsub as [-> _]. by apply IH in Hs.
Qed.

(** ** Unsubscribing *)

Lemma store_Unsubscribe r h S l i name :
  store_ok r h S -> S i !! name = Some l ->
  store_ok r (Unsubscribe l i h) (upd S i (delete name (S i))).
Proof using Type.
  intros [Hr Hheld Hsubs Hmax Hlive Hdel] Hi.
  destruct (Hheld _ _ _ Hi) as (Hl & Hname & Hin).
  split.
  - destruct Hr as [? ? Hnm Hb]. split; [done|by apply heap_ok_set| |done].
    intros n l0 Hl0. rewrite Unsubscribe_at. cbn. by apply Hnm.
  - intros j n l0 Hj. rewrite Unsubscribe_at. cbn. unfold upd in Hj.
    assert (S j !! n = Some l0 /\ (j = i -> n <> name)) as [Hj0 Hne].
    { case_decide; [subst j|naive_solver]. apply lookup_delete_Some in Hj. naive_solver. }
    clear Hj.
    destruct (Hheld _ _ _ Hj0) as (? & ? & ?). split_and!; [done..|].
    case_decide; [subst l0|done]. apply elem_of_difference. split; [done|].
    intros ->%elem_of_singleton. naive_solver.
  - intros l0 j. rewrite Unsubscribe_at. cbn. unfold upd. intros Hj.
    assert (j ∈ Subscribers (chan_at l0 h) /\ (l0 = l -> j <> i)) as [Hj0 Hne].
    { case_decide; [subst l0; set_solver + Hj|naive_solver]. }
    clear Hj.
    apply Hsubs in Hj0. case_decide; [subst j|done].
    rewrite lookup_delete_ne; [done|]. intros Heq. rewrite <- Heq in Hj0. naive_solver.
  - intros l0. rewrite Unsubscribe_at. cbn. case_decide; [subst l0|apply Hmax].
    etrans; [apply subseteq_size; apply subseteq_difference_l; reflexivity|apply Hmax].
  - intros l0. rewrite Unsubscribe_at. cbn. intros Hne. apply Hlive.
    case_decide; [subst l0; set_solver + Hne|done].
  - intros n l0. rewrite Unsubscribe_at. cbn. apply Hdel.
Qed.

(** [Run]'s teardown: one [Unsubscribe] per held channel, in any order. *)
Lemma store_teardown r h S i es :
  store_ok r h S -> S i = list_to_map es -> NoDup es.*1 ->
  store_ok r (foldl (fun h l => Unsubscribe l i h) h es.*2) (upd S i ∅).
Proof using Type.
  revert h S. induction es as [|[n l] es IH]; intros h S Hok Hes Hnd; cbn.
  - eapply store_ok_ext; [done|]. intros j. unfold upd. case_decide; by subst.
  - apply NoDup_cons in Hnd as [Hn Hnd]. cbn in Hes, Hn.
    assert (S i !! n = Some l) as Hl by (by rewrite Hes, lookup_insert_eq).
    pose proof (store_Unsubscribe _ _ _ _ _ _ Hok Hl) as Hok'.
    eapply store_ok_ext; [eapply (IH _ _ Hok')|]; [|done|].
    + unfold upd. rewrite decide_True by done. rewrite Hes.
      apply delete_insert_id. by apply not_elem_of_list_to_map_1.
    + intros j. unfold upd. by repeat case_decide.
Qed.
End Membership.
