(* ===== verification/Run.v ===== *)
(** * internal/conn/conn.go and pumps.go: the life of a conn, and the server's steps

    [Run]'s start and teardown, what the pumps do to the state, and a step
    relation that interleaves them with everything else that touches the
    [World]: frames, sweeps, the fan-out's workers, revocations and shutdown. *)
From S2P Require Import Prelude GoStd Utf8 Token Channel Registry Sweep Limiter Hub Frame Conn World Handler Membership.
From stdpp Require Import options.

(** What ends [Run]'s wait: a pump returned, or [Send] asked for a close. *)
Inductive run_exit : Type :=
  | ExitPump
  | ExitSlow.

(** The close frame [Run] sends before cancelling. *)
Definition exit_close (e : run_exit) : option CloseError :=
  match e with
  | ExitPump => None
  | ExitSlow => Some (MkClose StatusPolicyViolation "slow consumer")
  end.

Section Run.
Context {R B F : Type} `{Registry R, TokenBucket B, !Fanout R B F}.
Implicit Types (w : World R B F) (i : conn_id).

Definition StatusInternalError : Z := 1011.

Definition new_conn (socketID apiKeyID : string) : Conn B :=
  MkConn socketID apiKeyID [] (NewLimiter defaultConnPublishRate defaultConnPublishBurst)
    (NewLimiter defaultConnControlRate defaultConnControlBurst) false (Some ∅) false.

(** [Run] up to the pumps; an error is the close sent instead of starting.
    The deferred [Hub.Remove] and [Connections.Dec] run on every return. *)
Definition run_start i (socketID apiKeyID : string) w : res CloseError unit * World R B F :=
  let w := inc_Connections 1 w in
  let '(r, h) := Add i apiKeyID (w_hub w) in
  match r with
  | Err ce => (Err ce, inc_Connections (-1) w)
  | Ok _ =>
      let w := set_hub h w in
      match try_send (hello_frame socketID) [] with
      | None =>
          (Err (MkClose StatusInternalError "send chan full at start"),
           inc_Connections (-1) (set_hub (Remove i (w_hub w)) w))
      | Some q =>
          (Ok tt, set_conns (<[i := set_send q (new_conn socketID apiKeyID)]> (w_conns w)) w)
      end
  end.

(** [Run] from the pumps' return: close, drop the subscriptions, unsubscribe
    from each, then the deferred calls. *)
Definition run_teardown i w : World R B F :=
  match w_conns w !! i with
  | None => w
  | Some c =>
      let w := upd_conn i set_closed w in
      let w := upd_conn i (set_subs None) w in
      let h := foldl (fun h ch => Unsubscribe ch i h) (w_heap w)
                 (map_to_list (conn_subs c)).*2 in
      let w := set_store (w_reg w, h) w in
      inc_Connections (-1) (set_hub (Remove i (w_hub w)) w)
  end.

(** [writePump] takes the oldest message; the write itself is I/O. *)
Definition write_pump i w : World R B F := upd_conn i (fun c => set_send (evict (send c)) c) w.

(** [registry.SweepLoop]'s tick. *)
Definition sweep_tick w : World R B F := set_store (Sweep (w_reg w) (w_heap w)).1 w.

(** The server's minute tick on the replay cache. *)
Definition cache_tick (now : Z) w : World R B F :=
  set_cache ((fun c => (Token.Sweep now c).2) <$> w_cache w) w.

(** One iteration of [PublishStatsLoop]. *)
Definition stats_tick (cfg : Config) (snap : list (string * Z)) (id : string) w : World R B F :=
  let '(ch, s) := GetOrCreate "_wirefan-stats" (w_reg w, w_heap w) in
  hub_Broadcast cfg ch (stats_frame snap id) (set_store s w).
End Run.

Section System.
Context {R B F : Type} `{RegistryLaws R, TokenBucket B, !Fanout R B F, !FanoutLaws R B F}.
Context (cfg : Config).
Implicit Types (w : World R B F) (i : conn_id).

Definition world_init (l : Limiter B) (cache : option ReplayCache) (f : F) : World R B F :=
  MkWorld reg_new heap_empty ∅ l cache (MkMetrics 0 0 0 0) f Hub.New.

(** A conn is named by a fresh identity; only open conns read frames. *)
Inductive world_step : World R B F -> World R B F -> Prop :=
  | ws_start i sid key w :
      w_conns w !! i = None -> world_step w (run_start i sid key w).2
  | ws_frame i raw rd c w :
      w_conns w !! i = Some c -> closed c = false -> world_step w (handle cfg rd i raw w)
  | ws_write i w : world_step w (write_pump i w)
  | ws_exit i e c w :
      w_conns w !! i = Some c -> closed c = false -> (e = ExitSlow -> closeReq c = true) ->
      world_step w (run_teardown i w)
  | ws_sweep w : world_step w (sweep_tick w)
  | ws_cache now w : world_step w (cache_tick now w)
  | ws_gc now w : world_step w (set_limiter (gcOnce now (w_limiter w)) w)
  | ws_stats snap id w : world_step w (stats_tick cfg snap id w)
  | ws_revoke key w :
      world_step w (set_hub (CloseKey key StatusPolicyViolation "key revoked" (w_hub w)).2 w)
  | ws_drain w : world_step w (set_hub (set_draining (w_hub w)) w)
  | ws_work w w' : work cfg w w' -> world_step w w'.

(** ** The invariant *)

(** What conn [i] holds. *)
Definition held w i : gmap string loc := default ∅ (conn_subs <$> w_conns w !! i).

(** A name a client may hold. *)
Definition holdable (n : string) : Prop :=
  ValidateChannelName n = Ok tt /\ (channelReserved n = true -> n = statsChannel).

Record conn_ok (c : Conn B) : Prop := {
  co_send : length (send c) <= sendChanSize;
  co_subs : size (conn_subs c) <= defaultMaxChannelsPerConn;
  co_closed : closed c = true <-> subs c = None;
  co_names n : is_Some (conn_subs c !! n) -> holdable n;
}.

Record world_ok w : Prop := {
  wo_store : store_ok (w_reg w) (w_heap w) (held w);
  wo_conns i c : w_conns w !! i = Some c -> conn_ok c;
  (** The hub tracks the open conns, under their keys. *)
  wo_hub i key : conns (w_hub w) !! i = Some key <->
    exists c, w_conns w !! i = Some c /\ closed c = false /\ apiKeyID c = key;
  (** [wirefan_connections] counts them. *)
  wo_count : Connections (w_metrics w) = Z.of_nat (Hub.Len (w_hub w));
}.

Lemma held_core w w' i : core_eq w w' -> held w' i = held w i.
Proof using Type.
  intros [_ _ _ _ Hc]. specialize (Hc i). unfold held.
  inversion Hc as [c c' [_ _ Hs _ _] E1 E2|E1 E2]; cbn; [|done]. unfold conn_subs. by rewrite Hs.
Qed.

Lemma conn_ok_core (c c' : Conn B) : conn_core c c' -> conn_ok c -> conn_ok c'.
Proof using Type.
  intros [_ _ Hs Hcl Hcap] [? ? ? ?]. unfold conn_subs in *.
  split; unfold conn_subs; rewrite ?Hs, ?Hcl; auto.
Qed.

Lemma world_ok_core w w' : core_eq w w' -> world_ok w -> world_ok w'.
Proof using Type.
  intros Heq [Hst Hc Hh Hn]. pose proof Heq as [Hr Hhp Hhub Hct _]. split.
  - rewrite Hr, Hhp. eapply store_ok_ext; [done|]. intros i. by apply held_core.
  - intros i c' Hi. destruct (core_lookup_inv _ _ _ _ Heq Hi) as (c & Hi' & Hcc).
    by eapply conn_ok_core, Hc.
  - intros i key. rewrite Hhub, Hh. split.
    + intros (c & Hi & Hcl & Hk). destruct (core_lookup _ _ _ _ Heq Hi) as (c' & ? & []).
      exists c'. split_and!; [done|congruence..].
    + intros (c' & Hi & Hcl & Hk). destruct (core_lookup_inv _ _ _ _ Heq Hi) as (c & ? & []).
      exists c. split_and!; [done|congruence..].
  - by rewrite Hct, Hhub.
Qed.

(** Replacing an open conn's channels together with the store. *)
Lemma world_ok_resub w i c m rh :
  world_ok w -> w_conns w !! i = Some c -> closed c = false ->
  size m <= defaultMaxChannelsPerConn -> (forall n, is_Some (m !! n) -> holdable n) ->
  store_ok rh.1 rh.2 (upd (held w) i m) ->
  world_ok (upd_conn i (set_subs (Some m)) (set_store rh w)).
Proof using Type.
  intros [Hst Hc Hh Hn] Hi Hcl Hm Hnm Hst'. split; cbn.
  - eapply store_ok_ext; [done|]. intros j. unfold held, upd. cbn. rewrite lookup_alter.
    repeat case_decide; subst; try done. by rewrite Hi.
  - intros j c'. rewrite lookup_alter. case_decide; [subst j|by apply Hc].
    rewrite Hi. intros [= <-]. destruct (Hc _ _ Hi) as [Hsend _ Hsub _].
    split; cbn; [done..| |done]. rewrite Hcl. done.
  - intros j key. rewrite Hh, lookup_alter. case_decide; [subst j|done]. rewrite Hi. cbn.
    split; intros (c' & [= <-] & ? & ?); eexists; (split; [done|]); done.
  - done.
Qed.

Lemma world_ok_store w rh :
  world_ok w -> store_ok rh.1 rh.2 (held w) -> world_ok (set_store rh w).
Proof using Type. intros [Hst Hc Hh Hn] Hst'. by split. Qed.

(** ** The handlers keep it *)

Lemma core_sendOpError i msg code m w : core_eq w (sendOpError i msg code m w).
Proof using Type. apply core_reply. Qed.
Lemma core_sendAck i t ch w : core_eq w (sendAck i t ch w).
Proof using Type. apply core_reply. Qed.
Lemma core_sendError i code m w : core_eq w (sendError i code m w).
Proof using Type. apply core_reply. Qed.

Lemma core_allowControl rd i msg w : core_eq w (allowControl rd i msg w).2.
Proof using Type.
  unfold allowControl. destruct (w_conns w !! i) as [c|]; [|reflexivity].
  destruct (bucket_allow _ _) as [ok b]. destruct ok; cbn.
  - destruct (Allow _ _ _ _) as [[] l]; cbn;
      (etrans; [apply core_set_controlRate|]); [apply core_set_limiter|].
    etrans; [apply core_set_limiter|]. apply core_sendOpError.
  - etrans; [apply core_set_controlRate|]. apply core_sendOpError.
Qed.

Lemma core_check_token rd c msg w : core_eq w (check_token cfg rd c msg w).2.
Proof using Type.
  unfold check_token. destruct (ChannelRequiresAuth _); [|reflexivity].
  destruct (VerifyTokenAgainst _ _ _ _ _ _) as [[[]|[]] cache]; cbn;
    (etrans; [apply core_set_cache|]); first [reflexivity | by apply core_set_metrics].
Qed.

Lemma core_handlePublish rd i msg w : core_eq w (handlePublish cfg rd i msg w).
Proof using All.
  unfold handlePublish. destruct (channelReserved _); [apply core_sendOpError|].
  destruct (w_conns w !! i) as [c|]; [|reflexivity].
  destruct (conn_subs c !! in_Channel msg) as [ch|]; [|apply core_sendOpError].
  destruct (bucket_allow _ _) as [[] b]; cbn.
  - destruct (Allow _ _ _ _) as [[] l]; cbn;
      (etrans; [apply core_set_connRate|]); (etrans; [apply core_set_limiter|]).
    + etrans; [|apply Broadcast_core]. by apply core_set_metrics.
    + apply core_sendOpError.
  - etrans; [apply core_set_connRate|]. apply core_sendOpError.
Qed.

Lemma world_ok_join rd i msg c w :
  world_ok w -> w_conns w !! i = Some c -> closed c = false ->
  conn_subs c !! in_Channel msg = None -> size (conn_subs c) < defaultMaxChannelsPerConn ->
  holdable (in_Channel msg) -> world_ok (join rd i msg (conn_subs c) w).
Proof using Type.
  intros Hok Hi Hcl Hnone Hsize Hname. unfold join.
  destruct (subscribe_retry _ _ _ _ _) as [r [r' h']] eqn:Hs.
  assert (held w i = conn_subs c) as Hheld by (unfold held; by rewrite Hi).
  pose proof (store_retry _ _ _ _ _ _ _ _ _ _ (wo_store _ Hok) Hs) as Hst.
  destruct r as [ch|[]].
  - eapply world_ok_core; [apply core_sendAck|].
    eapply (world_ok_resub _ _ c); [done..| | |].
    + rewrite map_size_insert_None by done. lia.
    + intros n. rewrite lookup_insert_is_Some'. intros [Hn|Hn]; [by subst n|].
      by eapply co_names; [eapply wo_conns|].
    + by rewrite Hheld in Hst.
  - eapply world_ok_core; [apply core_sendOpError|]. by apply world_ok_store.
  - eapply world_ok_core; [apply core_sendOpError|]. by apply world_ok_store.
Qed.

Lemma world_ok_handleSubscribe rd i msg c w :
  world_ok w -> w_conns w !! i = Some c -> closed c = false ->
  ValidateChannelName (in_Channel msg) = Ok tt ->
  world_ok (handleSubscribe cfg rd i msg w).
Proof using Type.
  intros Hok Hi Hcl Hv. unfold handleSubscribe.
  destruct (channelReserved _ && _) eqn:Hres; [by eapply world_ok_core; [apply core_sendOpError|]|].
  pose proof (core_allowControl rd i msg w) as Hcore1.
  destruct (allowControl rd i msg w) as [ok w1]. cbn in Hcore1.
  pose proof (world_ok_core _ _ Hcore1 Hok) as Hok1.
  destruct ok; cbn; [|done].
  destruct (core_lookup _ _ _ _ Hcore1 Hi) as (c1 & Hi1 & Hcc). rewrite Hi1.
  assert (closed c1 = false) as Hcl1 by (rewrite (core_closed _ _ Hcc); done).
  case_decide as Hheld; [by eapply world_ok_core; [apply core_sendAck|]|].
  pose proof (core_check_token rd c1 msg w1) as Hcore2.
  destruct (check_token cfg rd c1 msg w1) as [[[code m]|] w2]; cbn in Hcore2;
    pose proof (world_ok_core _ _ Hcore2 Hok1) as Hok2.
  { by eapply world_ok_core; [apply core_sendOpError|]. }
  case_decide; [by eapply world_ok_core; [apply core_sendOpError|]|].
  destruct (core_lookup _ _ _ _ Hcore2 Hi1) as (c2 & Hi2 & Hcc2).
  assert (conn_subs c1 = conn_subs c2) as Heq by (unfold conn_subs; by rewrite (core_subs _ _ Hcc2)).
  rewrite Heq in *. apply world_ok_join; try done.
  - by rewrite (core_closed _ _ Hcc2).
  - by apply eq_None_not_Some.
  - lia.
  - split; [done|]. intros Hr. rewrite Hr in Hres. cbn in Hres.
    unfold reservedSubscribeAllowed in Hres. by bool_hyps.
Qed.

Lemma world_ok_handleUnsubscribe rd i msg c w :
  world_ok w -> w_conns w !! i = Some c -> closed c = false ->
  world_ok (handleUnsubscribe rd i msg w).
Proof using Type.
  intros Hok Hi Hcl. unfold handleUnsubscribe.
  pose proof (core_allowControl rd i msg w) as Hcore1.
  destruct (allowControl rd i msg w) as [ok w1]. cbn in Hcore1.
  pose proof (world_ok_core _ _ Hcore1 Hok) as Hok1.
  destruct ok; cbn; [|done].
  destruct (core_lookup _ _ _ _ Hcore1 Hi) as (c1 & Hi1 & Hcc). rewrite Hi1.
  destruct (conn_subs c1 !! in_Channel msg) as [ch|] eqn:Hch;
    [|by eapply world_ok_core; [apply core_sendAck|]].
  eapply world_ok_core; [apply core_sendAck|].
  change (set_store _ (upd_conn i ?f w1))
    with (upd_conn i f (set_store (w_reg w1, Unsubscribe ch i (w_heap w1)) w1)).
  assert (held w1 i = conn_subs c1) as Hheld by (unfold held; by rewrite Hi1).
  destruct (wo_conns _ Hok1 _ _ Hi1) as [_ Hsz _ Hn].
  eapply world_ok_resub; [done..|by rewrite (core_closed _ _ Hcc)| | |].
  - rewrite map_size_delete, Hch. lia.
  - intros n [x [_ Hx]%lookup_delete_Some]. eauto.
  - cbn. rewrite <- Hheld. apply store_Unsubscribe; [apply Hok1|]. by rewrite Hheld.
Qed.

Lemma world_ok_handle rd i raw c w :
  world_ok w -> w_conns w !! i = Some c -> closed c = false ->
  world_ok (handle cfg rd i raw w).
Proof using All.
  intros Hok Hi Hcl. unfold handle.
  destruct (Valid raw); cbn; [|by eapply world_ok_core; [apply core_sendError|]].
  destruct (unmarshal raw) as [msg|]; [|by eapply world_ok_core; [apply core_sendError|]].
  destruct (if is_op _ then _ else _) as [[]|e] eqn:Hv;
    [|by eapply world_ok_core; [apply core_sendOpError|]].
  unfold dispatch. case_decide as Hsub.
  - eapply world_ok_handleSubscribe; [done..|]. by rewrite Hsub in Hv.
  - case_decide; [by eapply world_ok_handleUnsubscribe|].
    case_decide; [by eapply world_ok_core; [apply core_handlePublish|]|].
    by eapply world_ok_core; [apply core_sendError|].
Qed.

(** ** The other steps *)

Lemma try_send_nil m : try_send m [] = Some [m].
Proof using Type. done. Qed.

Lemma world_ok_run_start i sid key w :
  world_ok w -> w_conns w !! i = None -> world_ok (run_start i sid key w).2.
Proof using Type.
  intros [Hst Hc Hh Hn] Hi. unfold run_start.
  destruct (Add i key (w_hub w)) as [[[]|ce] h] eqn:Ha; cbn [fst snd w_hub inc_Connections set_metrics];
    rewrite Ha.
  - apply Add_Ok in Ha as (Hd & Hk & ->).
    assert (conns (w_hub w) !! i = None) as Hni.
    { apply eq_None_not_Some. intros [k Hk']. apply Hh in Hk' as (c & Hc' & _). congruence. }
    rewrite try_send_nil. split; cbn.
    + eapply store_ok_ext; [done|]. intros j. unfold held. cbn. rewrite lookup_insert.
      case_decide; [subst j; by rewrite Hi|done].
    + intros j c. rewrite lookup_insert. case_decide; [|by apply Hc]. intros [= <-].
      split; cbn; [unfold sendChanSize; lia|by rewrite map_size_empty; unfold defaultMaxChannelsPerConn; lia|done|].
      intros n. rewrite lookup_empty. by intros [].
    + intros j k. rewrite !lookup_insert. case_decide; [subst j|by apply Hh].
      split; [intros [= <-]; by eexists|]. by intros (c & [= <-] & _ & <-).
    + unfold Hub.Len. cbn. rewrite map_size_insert_None by done. rewrite Hn. unfold Hub.Len. lia.
  - cbn. split; cbn; [done..|]. rewrite Hn. lia.
Qed.

Lemma world_ok_teardown i c w :
  world_ok w -> w_conns w !! i = Some c -> closed c = false -> world_ok (run_teardown i w).
Proof using Type.
  intros [Hst Hc Hh Hn] Hi Hcl. unfold run_teardown. rewrite Hi.
  assert (held w i = conn_subs c) as Hheld by (unfold held; by rewrite Hi).
  assert (forall j, w_conns (run_teardown i w) !! j
    = if decide (i = j) then Some (set_subs None (set_closed c)) else w_conns w !! j) as Hj.
  { intros j. unfold run_teardown. rewrite Hi. cbn. rewrite !lookup_alter.
    repeat case_decide; try done. by rewrite Hi. }
  unfold run_teardown in Hj. rewrite Hi in Hj. cbn in Hj.
  split; cbn.
  - eapply store_ok_ext.
    + eapply (store_teardown _ _ _ i (map_to_list (conn_subs c))); [exact Hst| |].
      * by rewrite list_to_map_to_list.
      * apply NoDup_fst_map_to_list.
    + intros j. unfold held, upd. cbn. rewrite Hj. repeat case_decide; congruence || done.
  - intros j c'. rewrite Hj. case_decide; [subst j|by apply Hc].
    intros [= <-]. destruct (Hc _ _ Hi) as [Hsend _ _ _]. split; cbn; [done|rewrite map_size_empty; lia|done|].
    intros n. rewrite lookup_empty. by intros [].
  - intros j key. rewrite Hj, lookup_delete. case_decide; [subst j|by apply Hh].
    split; [done|]. by intros (c' & [= <-] & ? & _).
  - unfold Hub.Len. cbn. rewrite map_size_delete.
    destruct (conns (w_hub w) !! i) eqn:E; cbn.
    + rewrite Hn. unfold Hub.Len.
      assert (size (conns (w_hub w)) <> 0) by (by eapply map_size_ne_0_lookup_2; eexists). lia.
    + exfalso. assert (conns (w_hub w) !! i = Some (apiKeyID c)) by (apply Hh; eauto). congruence.
Qed.

Lemma world_ok_step w w' : world_ok w -> world_step w w' -> world_ok w'.
Proof using All.
  intros Hok Hstep. destruct Hstep as [i sid key w Hi|i raw rd c w Hi Hcl|i w|i e c w Hi Hcl He
    |w|now w|now w|snap id w|key w|w|w w' Hw].
  - by apply world_ok_run_start.
  - by eapply world_ok_handle.
  - eapply world_ok_core; [|done]. apply core_upd_conn. intros c _.
    split; try done. cbn. destruct (send c); cbn; lia.
  - by eapply world_ok_teardown.
  - destruct (Sweep (w_reg w) (w_heap w)) as [[r h] k] eqn:Hs.
    unfold sweep_tick. rewrite Hs. apply world_ok_store; [done|].
    eapply store_Sweep; [apply Hok|exact Hs].
  - eapply world_ok_core; [apply core_set_cache|done].
  - eapply world_ok_core; [apply core_set_limiter|done].
  - unfold stats_tick. destruct (GetOrCreate _ _) as [ch [r h]] eqn:Hg.
    eapply world_ok_core; [apply core_Broadcast|]. apply world_ok_store; [done|].
    by eapply store_GetOrCreate; [apply Hok|].
  - destruct Hok. by split.
  - destruct Hok. by split.
  - by eapply world_ok_core; [eapply work_core|].
Qed.

Lemma world_ok_init l cache f : world_ok (world_init l cache f).
Proof using Type.
  split; cbn.
  - apply store_ok_new. intros i. unfold held. cbn. by rewrite lookup_empty.
  - intros i c. by rewrite lookup_empty.
  - intros i key. rewrite !lookup_empty. split; [done|]. by intros (c & ? & _).
  - done.
Qed.

Lemma world_reach l cache f w : rtc world_step (world_init l cache f) w -> world_ok w.
Proof using All.
  apply (rtc_invariant _ world_ok); [apply world_ok_init|apply world_ok_step].
Qed.
End System.
