(* ===== verification/Protocol.v ===== *)
(** * The protocol's promises about one frame

    docs/PROTOCOL.md lists, per operation, the checks in the order they are
    made; [first_failure] of such a list is the specification, and the theorems
    show [handle] implements it: one reply, the right one, and the state change
    that goes with it. *)
From S2P Require Import Prelude GoStd Utf8 Token Channel Registry Sweep Limiter Hub Frame Conn World Handler Membership Run.
From stdpp Require Import options.

(** ** The specification *)

(** A refusal: a code and its message. *)
Definition refusal : Type := string * string.

(** The first refusal whose check does not pass. *)
Fixpoint first_failure (checks : list (refusal * bool)) : option refusal :=
  match checks with
  | [] => None
  | (e, ok) :: checks' => if ok then first_failure checks' else Some e
  end.

Section Protocol.
Context {R B F : Type} `{RegistryLaws R, TokenBucket B, !Fanout R B F}.
Context (cfg : Config) (rd : readings).
Implicit Types (w : World R B F) (i : conn_id) (msg : incoming) (c : Conn B).

Definition reserved_refusal : refusal :=
  ("RESERVED_CHANNEL", "channel name reserved for server use").

(** The two budgets an operation is charged to. *)
Definition control_granted c : bool := (bucket_allow (rd_conn rd) (controlRate c)).1.
Definition publish_granted c : bool := (bucket_allow (rd_conn rd) (connRate c)).1.
Definition key_granted c w : bool :=
  (Allow (rd_seen rd) (rd_key rd) (apiKeyID c) (w_limiter w)).1.

Definition control_checks c w : list (refusal * bool) :=
  [(("RATE_LIMITED_CONN", "too many control ops on this connection"), control_granted c);
   (("RATE_LIMITED", "too many control ops"), key_granted c w)].

(** The token of a private subscribe. *)
Definition token_result c msg w : res token_err unit :=
  (VerifyTokenAgainst (rd_verify rd) (signingSecret cfg) (socketID c)
     (in_Channel msg) (in_Token msg) (w_cache w)).1.

Definition token_checks c msg w : list (refusal * bool) :=
  let r := token_result c msg w in
  let public := negb (ChannelRequiresAuth (in_Channel msg)) in
  [(("AUTH_REPLAYED", "token already used"), public || bool_decide (r <> Err ErrTokenReplayed));
   (("AUTH_FAILED", "invalid token"), public || is_ok r)].

(** How many subscribers the registered channel of that name has. *)
Definition channel_size (name : string) w : nat :=
  match reg_abs (w_reg w) !! name with
  | Some l => size (Subscribers (chan_at l (w_heap w)))
  | None => 0
  end.

(** A sweep between the two steps of each of [k] attempts. *)
Fixpoint all_swept (k : nat) (gc : list bool) : bool :=
  match k with
  | O => true
  | S k' => default false (head gc) && all_swept k' (tail gc)
  end.

Definition join_checks msg w : list (refusal * bool) :=
  let n := channel_size (in_Channel msg) w in
  [(("LIMIT_SUBSCRIBERS", "max subscribers per channel"),
    bool_decide (n < defaultMaxSubsPerChannel));
   (("SUBSCRIBE_FAILED", "channel deleted"), 
    negb (all_swept maxSubscribeRetries (rd_gc rd) && bool_decide (n = 0)))].

Definition subscribe_refusal c msg w : option refusal :=
  let name := in_Channel msg in
  match first_failure ((reserved_refusal, negb (channelReserved name) || reservedSubscribeAllowed name)
                       :: control_checks c w) with
  | Some e => Some e
  | None =>
      if decide (is_Some (conn_subs c !! name)) then None else
      first_failure
        (token_checks c msg w
         ++ [(("LIMIT_CHANNELS", "max channels per conn"),
              bool_decide (size (conn_subs c) < defaultMaxChannelsPerConn))]
         ++ join_checks msg w)
  end.

Definition unsubscribe_refusal c w : option refusal := first_failure (control_checks c w).

Definition publish_refusal c msg w : option refusal :=
  first_failure
    [(reserved_refusal, negb (channelReserved (in_Channel msg)));
     (("NOT_SUBSCRIBED", "must subscribe before publish"),
      bool_decide (is_Some (conn_subs c !! in_Channel msg)));
     (("RATE_LIMITED_CONN", "too many publishes on this connection"), publish_granted c);
     (("RATE_LIMITED", "too many publishes for this API key"), key_granted c w)].

(** ** The retry loop, exactly *)

Lemma max_subs_pos : 0 < defaultMaxSubsPerChannel.
Proof using Type. apply Nat.ltb_lt. by vm_compute. Qed.

(** What the first attempt finds after a possible sweep. *)
Lemma attempt_spec (gc : bool) name r h (S : conn_id -> gmap string loc) l r1 h1 r2 h2 :
  store_ok r h S -> GetOrCreate name (r, h) = (l, (r1, h1)) ->
  (if gc then (Sweep r1 h1).1 else (r1, h1)) = (r2, h2) ->
  let X := match reg_abs r !! name with Some l => Subscribers (chan_at l h) | None => ∅ end in
  store_ok r2 h2 S
  /\ Subscribers (chan_at l h2) = X
  /\ Deleted (chan_at l h2) = gc && bool_decide (X = ∅)
  /\ (gc = true -> X = ∅ -> reg_abs r2 !! name = None).
Proof using Type.
  intros Hok Hg Hs X. destruct (store_GetOrCreate _ _ _ _ _ _ _ Hok Hg) as [Hok1 Hl].
  assert (Subscribers (chan_at l h1) = X) as HX.
  { destruct (GetOrCreate_spec _ _ _ _ _ _ (st_reg _ _ _ Hok) Hg) as (_ & _ & _ & _ & Hc).
    subst X. destruct Hc as [(E & -> & ->)|(E & -> & Hc & _)]; rewrite E; [done|by rewrite Hc]. }
  assert (Name (chan_at l h1) = name) as Hname by (by eapply ok_named; [apply Hok1|]).
  pose proof (st_deleted _ _ _ Hok1 _ _ Hl) as Hd.
  destruct gc; [|simplify_eq; by rewrite Hd].
  destruct (Sweep r1 h1) as [[r3 h3] k] eqn:Hsw. simplify_eq/=.
  destruct (Sweep_pass _ _ _ _ _ (st_reg _ _ _ Hok1) Hsw) as (_ & Ha & _ & _ & Hc).
  split; [by eapply store_Sweep|]. rewrite Hc. cbn. rewrite Hd, orb_false_r, HX.
  split_and!; [done| |].
  - apply bool_decide_ext. unfold collectable. rewrite HX. naive_solver.
  - intros _ He. rewrite Ha. apply map_lookup_filter_None. right. intros l' Hl' Hnd.
    simplify_eq. apply Hnd. unfold dead. cbn. congruence.
Qed.

Lemma retry_outcome k gc name i r h (S : conn_id -> gmap string loc) :
  store_ok r h S ->
  let n := match reg_abs r !! name with
           | Some l => size (Subscribers (chan_at l h)) | None => 0 end in
  let res := (subscribe_retry k gc name i (r, h)).1 in
  if decide (n = 0) then
    if all_swept k gc then res = Err ErrChannelDeleted else is_ok res = true
  else k <> 0 ->
    if decide (n < defaultMaxSubsPerChannel) then is_ok res = true else res = Err ErrTooManySubs.
Proof using Type.
  revert gc r h. induction k as [|k IH]; intros gc r h Hok n res.
  { case_decide; [|done]. done. }
  subst res. cbn [subscribe_retry all_swept].
  destruct (GetOrCreate name (r, h)) as [l [r1 h1]] eqn:Hg.
  destruct (if default false (head gc) then _ else _) as [r2 h2] eqn:Hs.
  destruct (attempt_spec _ _ _ _ _ _ _ _ _ _ Hok Hg Hs) as (Hok2 & HX & Hd & Hgone).
  set (X := match reg_abs r !! name with
            | Some l => Subscribers (chan_at l h) | None => ∅ end) in *.
  assert (n = size X) as -> by (subst n X; destruct (reg_abs r !! name); by rewrite ?size_empty).
  clearbody X. destruct (decide (size X = 0)) as [Hn|Hn].
  - apply size_empty_inv, leibniz_equiv in Hn as ->.
    destruct (default false (head gc)); cbn [andb] in *.
    + rewrite bool_decide_eq_true_2 in Hd by done. unfold Subscribe. rewrite Hd.
      specialize (IH (tail gc) r2 h2 Hok2). rewrite Hgone in IH by done.
      by rewrite decide_True in IH.
    + unfold Subscribe. rewrite Hd, HX, decide_False; [done|].
      rewrite size_empty. pose proof max_subs_pos. lia.
  - intros _. rewrite bool_decide_eq_false_2, andb_false_r in Hd by (intros ->; by rewrite size_empty in Hn).
    unfold Subscribe. rewrite Hd, HX. repeat case_decide; done || lia.
Qed.

(** ** Charging *)

Definition charge_control i c w : World R B F :=
  let w := upd_conn i (set_controlRate (bucket_allow (rd_conn rd) (controlRate c)).2) w in
  if control_granted c
  then set_limiter (Allow (rd_seen rd) (rd_key rd) (apiKeyID c) (w_limiter w)).2 w else w.

Definition charge_publish i c w : World R B F :=
  let w := upd_conn i (set_connRate (bucket_allow (rd_conn rd) (connRate c)).2) w in
  if publish_granted c
  then set_limiter (Allow (rd_seen rd) (rd_key rd) (apiKeyID c) (w_limiter w)).2 w else w.

Lemma allowControl_outcome i msg c w :
  w_conns w !! i = Some c ->
  allowControl rd i msg w =
    match first_failure (control_checks c w) with
    | Some (code, m) => (false, sendOpError i msg code m (charge_control i c w))
    | None => (true, charge_control i c w)
    end.
Proof using Type.
  intros Hi. unfold allowControl, charge_control, control_checks, control_granted, key_granted.
  rewrite Hi. destruct (bucket_allow _ _) as [[] b]; cbn; [|done].
  by destruct (Allow _ _ _ _) as [[] l].
Qed.

Lemma check_token_outcome c msg w :
  (check_token cfg rd c msg w).1 = first_failure (token_checks c msg w).
Proof using Type.
  unfold check_token, token_checks, token_result.
  destruct (ChannelRequiresAuth _); [|done].
  by destruct (VerifyTokenAgainst _ _ _ _ _ _) as [[[]|[]] cache].
Qed.

Lemma first_failure_app a b :
  first_failure (a ++ b) = match first_failure a with Some e => Some e | None => first_failure b end.
Proof using Type. induction a as [|[e []] a IH]; cbn; done. Qed.

(** ** One reply *)

(** [w'] differs from [w], for conn [i], in budgets and by [frame] in the
    buffer; other conns are as they were. *)
Record replied i c (frame : string) (subs' : gmap string loc) w w' : Prop := {
  rep_conn : exists c', w_conns w' !! i = Some c' /\ send c' = push frame (send c)
               /\ conn_subs c' = subs' /\ closed c' = closed c /\ closeReq c' = closeReq c
               /\ socketID c' = socketID c;
  rep_other j : j <> i -> w_conns w' !! j = w_conns w !! j;
}.

(** Conn [i] of [w'] is [c] with other budgets. *)
Definition same_conn i c w w' : Prop :=
  (exists c', w_conns w' !! i = Some c' /\ send c' = send c /\ subs c' = subs c
              /\ closed c' = closed c /\ closeReq c' = closeReq c /\ socketID c' = socketID c)
  /\ (forall j, j <> i -> w_conns w' !! j = w_conns w !! j)
  /\ w_reg w' = w_reg w /\ w_heap w' = w_heap w.

Lemma same_charge_control i c w : w_conns w !! i = Some c -> same_conn i c w (charge_control i c w).
Proof using Type.
  intros Hi. unfold charge_control. destruct (control_granted c); (split; [|split]; cbn; [|
    intros j Hj; by rewrite lookup_alter_ne|done]);
    rewrite lookup_alter_eq, Hi; cbn; eexists; split_and!; done.
Qed.

Lemma same_charge_publish i c w : w_conns w !! i = Some c -> same_conn i c w (charge_publish i c w).
Proof using Type.
  intros Hi. unfold charge_publish. destruct (publish_granted c); (split; [|split]; cbn; [|
    intros j Hj; by rewrite lookup_alter_ne|done]);
    rewrite lookup_alter_eq, Hi; cbn; eexists; split_and!; done.
Qed.

Lemma replied_reply i c w w' frame :
  same_conn i c w w' -> replied i c frame (conn_subs c) w (reply i frame w').
Proof using Type.
  intros ((c' & Hi & Hs & Hsub & Hcl & Hcr & Hsid) & Hj & _). split.
  - cbn. rewrite lookup_alter_eq, Hi. cbn. eexists. split; [reflexivity|].
    unfold conn_subs. cbn. by rewrite Hs, Hsub.
  - intros j Hne. cbn. rewrite lookup_alter_ne by done. by apply Hj.
Qed.

Lemma same_conn_refl i c w : w_conns w !! i = Some c -> same_conn i c w w.
Proof using Type. intros Hi. split; [eexists; by split_and!|done]. Qed.

(** What a refusal or an ack of [typ] puts in the buffer. *)
Definition answer msg (typ : string) (r : option refusal) : string :=
  match r with
  | Some (code, m) => error_frame (op_error msg code m)
  | None => ack_frame typ (in_Channel msg)
  end.

Lemma join_outcome i msg c w w0 (S : conn_id -> gmap string loc) :
  same_conn i c w0 w -> store_ok (w_reg w) (w_heap w) S ->
  exists subs',
    replied i c (answer msg "subscribed" (first_failure (join_checks msg w))) subs' w0
      (join rd i msg (conn_subs c) w)
    /\ match first_failure (join_checks msg w) with
       | Some _ => subs' = conn_subs c
       | None => exists l, subs' = <[in_Channel msg := l]> (conn_subs c)
       end.
Proof using Type.
  intros ((c' & Hi & Hs & Hsub & Hcl & Hcr & Hsid) & Hj & _) Hst.
  pose proof (retry_outcome maxSubscribeRetries (rd_gc rd) (in_Channel msg) i _ _ S Hst) as Hout.
  unfold join, join_checks, channel_size.
  destruct (subscribe_retry _ _ _ _ _) as [r s]. cbn [fst] in Hout.
  set (n := match reg_abs _ !! _ with Some l => size _ | None => 0 end) in *.
  assert (forall frame, replied i c frame (conn_subs c) w0 (reply i frame (set_store s w))) as Hrep.
  { intros frame. split; cbn.
    - rewrite lookup_alter_eq, Hi. cbn. eexists. split; [reflexivity|].
      unfold conn_subs. cbn. by rewrite Hs, Hsub.
    - intros j Hne. rewrite lookup_alter_ne by done. by apply Hj. }
  pose proof max_subs_pos. cbn [first_failure].
  destruct (decide (n = 0)) as [Hn|Hn].
  - rewrite (bool_decide_eq_true_2 (n < _)), (bool_decide_eq_true_2 (n = 0)) by lia.
    rewrite andb_true_r. destruct (all_swept _ _); cbn.
    + rewrite Hout. exists (conn_subs c). split; [apply Hrep|done].
    + destruct r as [ch|]; [|done]. eexists. split; [|by eexists]. split; cbn.
      * rewrite !lookup_alter_eq, Hi. cbn. eexists. split; [reflexivity|]. cbn. by rewrite Hs.
      * intros j Hne. rewrite !lookup_alter_ne by done. by apply Hj.
  - specialize (Hout ltac:(done)). rewrite (bool_decide_eq_false_2 (n = 0)), andb_false_r by done.
    case_decide.
    + rewrite bool_decide_eq_true_2 by done. cbn.
      destruct r as [ch|]; [|done]. eexists. split; [|by eexists]. split; cbn.
      * rewrite !lookup_alter_eq, Hi. cbn. eexists. split; [reflexivity|]. cbn. by rewrite Hs.
      * intros j Hne. rewrite !lookup_alter_ne by done. by apply Hj.
    + rewrite bool_decide_eq_false_2 by done. cbn. rewrite Hout.
      exists (conn_subs c). split; [apply Hrep|done].
Qed.
Lemma same_conn_trans i c c1 w w1 w2 :
  same_conn i c w w1 -> w_conns w1 !! i = Some c1 -> same_conn i c1 w1 w2 -> same_conn i c w w2.
Proof using Type.
  intros ((c' & Hi & ? & ? & ? & ? & ?) & Hj & Hr & Hh) Hi1
    ((c2 & Hi2 & ? & ? & ? & ? & ?) & Hj2 & Hr2 & Hh2). simplify_eq.
  split; [exists c2; split_and!; congruence|]. split; [|split_and!; congruence].
  intros j Hne. by rewrite Hj2, Hj.
Qed.

(** The token check changes neither conns nor store. *)
Lemma check_token_same c msg w :
  w_conns (check_token cfg rd c msg w).2 = w_conns w
  /\ w_reg (check_token cfg rd c msg w).2 = w_reg w
  /\ w_heap (check_token cfg rd c msg w).2 = w_heap w.
Proof using Type.
  unfold check_token. destruct (ChannelRequiresAuth _); [|done].
  by destruct (VerifyTokenAgainst _ _ _ _ _ _) as [[[]|[]] cache].
Qed.

Lemma subscribe_outcome i msg c w :
  world_ok w -> w_conns w !! i = Some c ->
  exists subs',
    replied i c (answer msg "subscribed" (subscribe_refusal c msg w)) subs' w
      (handleSubscribe cfg rd i msg w)
    /\ match subscribe_refusal c msg w with
       | Some _ => subs' = conn_subs c
       | None => is_Some (subs' !! in_Channel msg)
                 /\ (forall n, n <> in_Channel msg -> subs' !! n = conn_subs c !! n)
                 /\ (is_Some (conn_subs c !! in_Channel msg) -> subs' = conn_subs c)
       end.
Proof using Type.
  intros Hok Hi. unfold handleSubscribe, subscribe_refusal.
  cbn [first_failure].
  assert (channelReserved (in_Channel msg) && negb (reservedSubscribeAllowed (in_Channel msg))
    = negb (negb (channelReserved (in_Channel msg)) || reservedSubscribeAllowed (in_Channel msg)))
    as -> by (by rewrite negb_orb, negb_involutive).
  destruct (negb (channelReserved _) || reservedSubscribeAllowed _); cbn [negb];
    [|exists (conn_subs c); split; [by apply replied_reply, same_conn_refl|done]].
  rewrite (allowControl_outcome _ _ _ _ Hi).
  pose proof (same_charge_control i c w Hi) as Hsame.
  assert (w_cache (charge_control i c w) = w_cache w) as Hcache
    by (unfold charge_control; by destruct (control_granted c)).
  destruct (first_failure (control_checks c w)) as [[code m]|]; cbn [negb];
    [exists (conn_subs c); split; [by apply replied_reply|done]|].
  set (w1 := charge_control i c w) in *.
  pose proof Hsame as ((c1 & Hi1 & Hs1 & Hsub1 & Hcl1 & Hcr1 & Hsid1) & Hj1 & Hr1 & Hh1).
  rewrite Hi1. assert (conn_subs c1 = conn_subs c) as Hcs by (unfold conn_subs; by rewrite Hsub1).
  rewrite !Hcs. case_decide as Hheld;
    [exists (conn_subs c); split; [by apply replied_reply|done]|].
  rewrite first_failure_app.
  assert (first_failure (token_checks c msg w) = (check_token cfg rd c1 msg w1).1) as ->.
  { rewrite check_token_outcome. unfold token_checks, token_result. by rewrite Hsid1, Hcache. }
  destruct (check_token_same c1 msg w1) as (Hcc & Hcr & Hch).
  destruct (check_token cfg rd c1 msg w1) as [[[code m]|] w2]; cbn [fst snd] in *;
    (assert (same_conn i c w w2) as Hsame2;
     [split; [exists c1; split_and!; congruence|]; rewrite Hcc; split_and!; [done|congruence..]|]);
    [exists (conn_subs c); split; [by apply replied_reply|done]|].
  rewrite first_failure_app. cbn [first_failure app].
  case_decide as Hsz; [rewrite bool_decide_eq_false_2 by lia|rewrite bool_decide_eq_true_2 by lia].
  { exists (conn_subs c). split; [by apply replied_reply|done]. }
  assert (join_checks msg w = join_checks msg w2) as ->.
  { unfold join_checks, channel_size. rewrite Hcr, Hch, Hr1, Hh1. done. }
  destruct (join_outcome i msg c w2 w (held w)) as (subs' & Hrep & Hsubs); [done| |].
  { rewrite Hcr, Hch, Hr1, Hh1. apply Hok. }
  exists subs'. split; [exact Hrep|]. destruct (first_failure _); [done|].
  destruct Hsubs as [l ->]. split_and!; [rewrite lookup_insert_eq; by eexists| |done].
  intros n Hn. by rewrite lookup_insert_ne.
Qed.

Lemma unsubscribe_outcome i msg c w :
  w_conns w !! i = Some c ->
  replied i c (answer msg "unsubscribed" (unsubscribe_refusal c w))
    (match unsubscribe_refusal c w with
     | Some _ => conn_subs c
     | None => delete (in_Channel msg) (conn_subs c)
     end) w (handleUnsubscribe rd i msg w).
Proof using Type.
  intros Hi. unfold handleUnsubscribe, unsubscribe_refusal.
  rewrite (allowControl_outcome _ _ _ _ Hi).
  pose proof (same_charge_control i c w Hi) as Hsame.
  destruct (first_failure (control_checks c w)) as [[code m]|]; cbn [negb];
    [by apply replied_reply|].
  set (w1 := charge_control i c w) in *.
  pose proof Hsame as ((c1 & Hi1 & Hs1 & Hsub1 & Hcl1 & Hcr1 & Hsid1) & Hj1 & Hr1 & Hh1).
  rewrite Hi1. assert (conn_subs c1 = conn_subs c) as Hcs by (unfold conn_subs; by rewrite Hsub1).
  rewrite !Hcs. destruct (conn_subs c !! in_Channel msg) as [ch|] eqn:Hch.
  - split; cbn.
    + rewrite !lookup_alter_eq, Hi1. cbn. eexists. split; [reflexivity|]. cbn. by rewrite Hs1.
    + intros j Hne. rewrite !lookup_alter_ne by done. by apply Hj1.
  - rewrite delete_id by done. by apply replied_reply.
Qed.

(** An accepted publish hands the event to the fan-out and replies nothing. *)
Lemma publish_outcome i msg c w :
  w_conns w !! i = Some c ->
  match publish_refusal c msg w with
  | Some (code, m) =>
      replied i c (error_frame (op_error msg code m)) (conn_subs c) w (handlePublish cfg rd i msg w)
  | None => exists ch, conn_subs c !! in_Channel msg = Some ch
      /\ handlePublish cfg rd i msg w
         = Broadcast cfg ch (event_frame (in_Channel msg) (in_Data msg) (rd_ulid rd))
             (inc_Published (charge_publish i c w))
  end.
Proof using Type.
  intros Hi. unfold handlePublish, publish_refusal. rewrite Hi. cbn [first_failure].
  destruct (channelReserved _); cbn [negb]; [by apply replied_reply, same_conn_refl|].
  destruct (conn_subs c !! in_Channel msg) as [ch|]; cbn;
    [|by apply replied_reply, same_conn_refl].
  pose proof (same_charge_publish i c w Hi) as Hsame.
  unfold charge_publish, publish_granted, key_granted in *.
  destruct (bucket_allow _ _) as [[] b]; cbn in *; [|by apply replied_reply].
  destruct (Allow _ _ _ _) as [[] l]; cbn in *; [by exists ch|by apply replied_reply].
Qed.
(** ** A whole frame *)

Definition channel_refusal msg : option refusal :=
  match ValidateChannelName (in_Channel msg) with
  | Err e => Some ("BAD_CHANNEL", e)
  | Ok _ => None
  end.

Definition first (a b : option refusal) : option refusal :=
  match a with Some e => Some e | None => b end.

Definition plain_error (code message : string) : string :=
  error_frame (MkErrorFrame "error" code message "" "").

(** The reply a frame gets, and whether it is a refusal; an accepted publish
    gets none. *)
Definition expected_reply (raw : string) c w : option (string * bool) :=
  if negb (Valid raw) then Some (plain_error "BAD_JSON" "message is not valid UTF-8", true) else
  match unmarshal raw with
  | None => Some (plain_error "BAD_JSON" "malformed message", true)
  | Some msg =>
      if decide (in_Type msg = "subscribe") then
        let r := first (channel_refusal msg) (subscribe_refusal c msg w) in
        Some (answer msg "subscribed" r, bool_decide (is_Some r))
      else if decide (in_Type msg = "unsubscribe") then
        let r := first (channel_refusal msg) (unsubscribe_refusal c w) in
        Some (answer msg "unsubscribed" r, bool_decide (is_Some r))
      else if decide (in_Type msg = "publish") then
        '(code, m) ← first (channel_refusal msg) (publish_refusal c msg w);
        Some (error_frame (op_error msg code m), true)
      else Some (plain_error "BAD_TYPE" "unknown message type", true)
  end.

Lemma handle_op i raw msg w :
  Valid raw = true -> unmarshal raw = Some msg -> is_op (in_Type msg) = true ->
  handle cfg rd i raw w =
    match channel_refusal msg with
    | Some (code, e) => sendOpError i msg code e w
    | None => dispatch cfg rd i msg w
    end.
Proof using Type.
  intros Hv Hu Ho. unfold handle, channel_refusal. rewrite Hv, Hu, Ho. cbn.
  by destruct (ValidateChannelName _).
Qed.

(** What an ack says of the sender's subscriptions. *)
Definition acked msg (subs subs' : gmap string loc) : Prop :=
  if decide (in_Type msg = "subscribe") then
    is_Some (subs' !! in_Channel msg) /\ forall n, n <> in_Channel msg -> subs' !! n = subs !! n
  else in_Type msg = "unsubscribe" /\ subs' = delete (in_Channel msg) subs.

(** What a frame that gets no reply does. *)
Definition handed_over i (raw : string) c w w' : Prop :=
  exists msg ch, Valid raw = true /\ unmarshal raw = Some msg /\ in_Type msg = "publish"
    /\ first (channel_refusal msg) (publish_refusal c msg w) = None
    /\ conn_subs c !! in_Channel msg = Some ch
    /\ w' = Broadcast cfg ch (event_frame (in_Channel msg) (in_Data msg) (rd_ulid rd))
              (inc_Published (charge_publish i c w)).

Lemma refused_reply i c f w w' :
  replied i c f (conn_subs c) w w' ->
  exists subs', replied i c f subs' w w' /\ subs' = conn_subs c.
Proof using Type. by exists (conn_subs c). Qed.

(** C5. One frame, one outcome. In any consistent world a client frame that is
    not an accepted publish is answered by the first check of the protocol's
    ordered list that it fails, or by the ack: that one frame is queued for the
    sender, if there is room, and no other conn changes; a refusal changes no
    subscription of the sender, and an ack adds (subscribe) or removes
    (unsubscribe) just the channel named. A publish that passes every check gets
    no reply: it is charged and counted, and its event is handed to the fan-out,
    once, for the channel the sender holds under that name. *)
Theorem handle_answers i raw c w :
  world_ok w -> w_conns w !! i = Some c ->
  match expected_reply raw c w with
  | Some (frame, refused) => exists subs', replied i c frame subs' w (handle cfg rd i raw w)
      /\ if refused : bool then subs' = conn_subs c
         else exists msg, unmarshal raw = Some msg /\ acked msg (conn_subs c) subs'
  | None => handed_over i raw c w (handle cfg rd i raw w)
  end.
Proof using Type.
  intros Hok Hi. unfold expected_reply.
  destruct (Valid raw) eqn:Hv; cbn [negb].
  2: { apply refused_reply. unfold handle. rewrite Hv. by apply replied_reply, same_conn_refl. }
  destruct (unmarshal raw) as [msg|] eqn:Hu.
  2: { apply refused_reply. unfold handle. rewrite Hv, Hu. by apply replied_reply, same_conn_refl. }
  destruct (is_op (in_Type msg)) eqn:Ho.
  2: { unfold is_op in Ho. bool_hyps. rewrite !decide_False by set_solver. apply refused_reply.
       unfold handle. rewrite Hv, Hu. unfold is_op. rewrite bool_decide_eq_false_2 by done. cbn [negb].
       unfold dispatch. rewrite !decide_False by set_solver. by apply replied_reply, same_conn_refl. }
  rewrite (handle_op _ _ msg) by done. destruct (channel_refusal msg) as [[code e]|] eqn:Hcr; cbn [first].
  { assert (replied i c (error_frame (op_error msg code e)) (conn_subs c) w (sendOpError i msg code e w))
      as Hrep by (by apply replied_reply, same_conn_refl).
    repeat case_decide; try by apply refused_reply.
    exfalso. unfold is_op in Ho. bool_hyps. set_solver. }
  unfold dispatch. case_decide as Ht1; [|case_decide as Ht2; [|case_decide as Ht3]].
  - destruct (subscribe_outcome i msg c w Hok Hi) as (subs' & Hrep & Hs). exists subs'. split; [done|].
    destruct (subscribe_refusal c msg w); [by rewrite bool_decide_eq_true_2 by by eexists|].
    rewrite bool_decide_eq_false_2 by (by intros []). exists msg. split; [done|]. unfold acked. rewrite decide_True by done.
    naive_solver.
  - eexists. split; [by apply unsubscribe_outcome|]. destruct (unsubscribe_refusal c w);
      [by rewrite bool_decide_eq_true_2 by by eexists|].
    rewrite bool_decide_eq_false_2 by (by intros []). exists msg. split; [done|]. unfold acked. by rewrite decide_False.
  - pose proof (publish_outcome i msg c w Hi) as Hp.
    destruct (publish_refusal c msg w) as [[code e]|] eqn:Hr; cbn; [by apply refused_reply|].
    destruct Hp as (ch & Hch & Hh). exists msg, ch. by rewrite Hcr, Hr.
  - exfalso. unfold is_op in Ho. bool_hyps. set_solver.
Qed.
End Protocol.
