(* ===== verification/Service.v ===== *)
(** * What the service guarantees

    Authorization, budgets, bounds and delivery, over any registry, bucket and
    fan-out that keep their laws; and a concrete run that exercises them. *)
From S2P Require Import Prelude GoStd GoBytes Utf8 GoJson Token Channel Registry Sweep Limiter Hub Frame Conn World Handler Membership Run Protocol.
From stdpp Require Import options.

(** ** Channel names *)

Definition control_byte (c : ascii) : bool := (ord c <? 32)%N || (ord c =? 127)%N.

Lemma units_no_control s :
  forallb (fun u : N * string => negb ((u.1 <? 32)%N || (u.1 =? 127)%N)) (utf8_units s)
  = string_forall (fun c => negb (control_byte c)) s.
Proof.
  induction s as [|s u s' Hu Heq IH] using utf8_ind; [done|].
  rewrite Heq. cbn [forallb]. rewrite IH, (unit_of_raw _ _ _ Hu).
  assert (string_forall (fun c => negb (control_byte c)) (u.2 +:+ s')
    = string_forall (fun c => negb (control_byte c)) u.2
      && string_forall (fun c => negb (control_byte c)) s') as ->.
  { generalize u.2. intros a. induction a as [|c a IHa]; [done|]. str_simpl. cbn.
    by rewrite IHa, andb_assoc. }
  f_equal. unfold control_byte.
  destruct (unit_of_bytes _ _ _ Hu) as [[Hlt Hraw]|[Hge Hraw]].
  - rewrite Hraw. cbn. rewrite N_ascii_embedding, andb_true_r by lia. done.
  - transitivity true.
    + rewrite (proj2 (N.ltb_ge _ _)), (proj2 (N.eqb_neq _ _)) by lia. done.
    + symmetry. revert Hraw. generalize u.2. intros a. induction a as [|c a IHa]; [done|]. cbn.
      unfold ascii_byte. intros [Hc Ha]%andb_true_iff. bool_hyps. rewrite IHa by done.
      by rewrite (proj2 (N.ltb_ge _ _)), (proj2 (N.eqb_neq _ _)) by lia.
Qed.

(** Channel names. The validation loop over runes, on any bytes whatever,
    accepts exactly the non-empty names of at most 128 bytes with no C0 control
    or DEL byte. *)
Theorem channel_names name :
  ValidateChannelName name = Ok tt <->
  name <> "" /\ String.length name <= 128
  /\ string_forall (fun c => negb (control_byte c)) name = true.
Proof.
  unfold ValidateChannelName, maxChannelNameLen. rewrite units_no_control.
  repeat case_decide; [naive_solver|naive_solver lia|].
  destruct (string_forall _ _); naive_solver lia.
Qed.

Section Service.
Context {R B F : Type} `{RegistryLaws R, TokenBucket B, !Fanout R B F, !FanoutLaws R B F}.
Context (cfg : Config).
Implicit Types (w : World R B F) (i : conn_id) (msg : incoming) (c : Conn B).

(** ** Error frames *)

(** Codes and messages are short and need no escaping. *)
Definition small (e : refusal) : Prop :=
  string_forall plain_char e.1 = true /\ string_forall plain_char e.2 = true
  /\ String.length e.1 + String.length e.2 <= 64.

Lemma first_failure_small checks e :
  Forall (fun x => small x.1) checks -> first_failure checks = Some e -> small e.
Proof using Type.
  induction 1 as [|[e' ok] checks Hs _ IH]; cbn; [done|]. destruct ok; [done|].
  by intros [= <-].
Qed.

Lemma op_error_small msg code m :
  small (code, m) -> is_op (in_Type msg) = true ->
  String.length (error_frame (op_error msg code m)) < 1024.
Proof using Type.
  intros (Hc & Hm & Hlen) Ho. cbn [fst snd] in *.
  assert (string_forall plain_char (in_Type msg) = true /\ String.length (in_Type msg) <= 11)
    as [Hp Hl].
  { unfold is_op in Ho. bool_hyps. set_unfold in Ho.
    destruct Ho as [->|[->|[->|[]]]]; (split; [reflexivity|cbn; lia]). }
  pose proof (error_frame_length (op_error msg code m) eq_refl Hc Hm Hp) as Hlen'.
  revert Hlen'. generalize (String.length (error_frame (op_error msg code m))) as n.
  unfold op_error, maxChannelNameLen. cbn [ef_Code ef_Message ef_Op ef_Channel].
  case_decide; cbn [String.length]; lia.
Qed.

Lemma channel_refusal_small msg e : channel_refusal msg = Some e -> small e.
Proof using Type.
  unfold channel_refusal, ValidateChannelName. repeat case_match; try done;
    intros [= <-]; simplify_eq; unfold small; cbn; (split_and!; [reflexivity..|lia]).
Qed.

Lemma control_checks_small rd c w : Forall (fun x => small x.1) (control_checks rd c w).
Proof using Type. repeat constructor; cbn; lia. Qed.

Lemma subscribe_refusal_small rd c msg w e : subscribe_refusal cfg rd c msg w = Some e -> small e.
Proof using Type.
  unfold subscribe_refusal. destruct (first_failure _) as [e'|] eqn:Hf.
  - intros [= <-]. eapply first_failure_small; [|exact Hf].
    constructor; [repeat constructor; cbn; lia|apply control_checks_small].
  - case_decide; [done|]. apply first_failure_small.
    repeat constructor; cbn; lia.
Qed.

Lemma publish_refusal_small rd c msg w e : publish_refusal rd c msg w = Some e -> small e.
Proof using Type. apply first_failure_small. repeat constructor; cbn; lia. Qed.

(** Error frames are small. Whatever a client sends, and however long a
    channel name it puts in, the error frame it gets back is under 1 KiB. *)
Theorem error_frames_small rd raw c w frame :
  expected_reply cfg rd raw c w = Some (frame, true) -> String.length frame < 1024.
Proof using Type.
  unfold expected_reply.
  assert (forall code m, small (code, m) -> String.length (plain_error code m) < 1024) as Hplain.
  { intros code m (Hc & Hm & Hl). cbn [fst snd] in *.
    pose proof (error_frame_length (MkErrorFrame "error" code m "" "") eq_refl Hc Hm eq_refl).
    unfold plain_error. cbn [ef_Code ef_Message ef_Op ef_Channel String.length] in *. lia. }
  destruct (Valid raw); cbn [negb]; [|intros [= <-]; apply Hplain; split_and!; [done..|cbn; lia]].
  destruct (unmarshal raw) as [msg|];
    [|intros [= <-]; apply Hplain; split_and!; [done..|cbn; lia]].
  repeat case_decide.
  - intros [= <- Hr]. bool_hyps. destruct (first _ _) as [[code m]|] eqn:Hf; [|by destruct Hr].
    cbn. apply op_error_small; [|unfold is_op; apply bool_decide_eq_true_2; set_solver].
    destruct (channel_refusal msg) eqn:Hcr; cbn [first] in Hf; simplify_eq;
      [by eapply channel_refusal_small|by eapply subscribe_refusal_small].
  - intros [= <- Hr]. bool_hyps. destruct (first _ _) as [[code m]|] eqn:Hf; [|by destruct Hr].
    cbn. apply op_error_small; [|unfold is_op; apply bool_decide_eq_true_2; set_solver].
    destruct (channel_refusal msg) eqn:Hcr; cbn [first] in Hf; simplify_eq;
      [by eapply channel_refusal_small|].
    eapply first_failure_small; [apply (control_checks_small rd c w)|exact Hf].
  - destruct (first _ _) as [[code m]|] eqn:Hf; cbn; [|done]. intros [= <-].
    apply op_error_small; [|unfold is_op; apply bool_decide_eq_true_2; set_solver].
    destruct (channel_refusal msg) eqn:Hcr; cbn [first] in Hf; simplify_eq;
      [by eapply channel_refusal_small|by eapply publish_refusal_small].
  - intros [= <-]. apply Hplain. split_and!; [done..|cbn; lia].
Qed.
(** ** Budgets *)

(** Is the frame charged to the API key's shared budget? *)
Definition charges_key rd (raw : string) c : bool :=
  Valid raw &&
  match unmarshal raw with
  | None => false
  | Some msg =>
      let name := in_Channel msg in
      is_ok (ValidateChannelName name) &&
      if decide (in_Type msg = "subscribe") then
        (negb (channelReserved name) || reservedSubscribeAllowed name) && control_granted rd c
      else if decide (in_Type msg = "unsubscribe") then control_granted rd c
      else if decide (in_Type msg = "publish") then
        negb (channelReserved name) && bool_decide (is_Some (conn_subs c !! name))
        && publish_granted rd c
      else false
  end.

(** The limiter after one charge to conn [c]'s key. *)
Definition charged rd c w : Limiter B :=
  (Allow (rd_seen rd) (rd_key rd) (apiKeyID c) (w_limiter w)).2.

Lemma allowControl_limiter rd i msg c w :
  w_conns w !! i = Some c ->
  w_limiter (allowControl rd i msg w).2
  = if control_granted rd c then charged rd c w else w_limiter w.
Proof using Type.
  intros Hi. unfold allowControl, control_granted, charged. rewrite Hi.
  destruct (bucket_allow _ _) as [[] b]; cbn; [|done].
  by destruct (Allow _ _ _ _) as [[] l].
Qed.

Lemma join_limiter rd i msg m w : w_limiter (join rd i msg m w) = w_limiter w.
Proof using Type.
  unfold join. destruct (subscribe_retry _ _ _ _ _) as [r s]. by destruct r as [|[]].
Qed.

Lemma check_token_limiter rd c msg w : w_limiter (check_token cfg rd c msg w).2 = w_limiter w.
Proof using Type.
  unfold check_token. destruct (ChannelRequiresAuth _); [|done].
  by destruct (VerifyTokenAgainst _ _ _ _ _ _) as [[[]|[]] cache].
Qed.

Lemma handleSubscribe_limiter rd i msg c w :
  w_conns w !! i = Some c ->
  w_limiter (handleSubscribe cfg rd i msg w)
  = if (negb (channelReserved (in_Channel msg)) || reservedSubscribeAllowed (in_Channel msg))
       && control_granted rd c then charged rd c w else w_limiter w.
Proof using Type.
  intros Hi. unfold handleSubscribe.
  pose proof (allowControl_limiter rd i msg c w Hi) as Hl.
  destruct (channelReserved _), (reservedSubscribeAllowed _); cbn; try done;
    destruct (allowControl rd i msg w) as [[] w1]; cbn in *; rewrite <- Hl; try done;
    (destruct (w_conns w1 !! i) as [c1|]; [|done]);
    (case_decide; [done|]);
    pose proof (check_token_limiter rd c1 msg w1) as Ht;
    destruct (check_token cfg rd c1 msg w1) as [[[code m]|] w2]; cbn in *; try done;
    (case_decide; [done|]); by rewrite join_limiter.
Qed.

Lemma handleUnsubscribe_limiter rd i msg c w :
  w_conns w !! i = Some c ->
  w_limiter (handleUnsubscribe rd i msg w)
  = if control_granted rd c then charged rd c w else w_limiter w.
Proof using Type.
  intros Hi. unfold handleUnsubscribe. rewrite <- (allowControl_limiter rd i msg c w Hi).
  destruct (allowControl rd i msg w) as [[] w1]; cbn; [|done].
  destruct (w_conns w1 !! i) as [c1|]; [|done]. by destruct (conn_subs c1 !! _).
Qed.

Lemma handlePublish_limiter rd i msg c w :
  w_conns w !! i = Some c ->
  w_limiter (handlePublish cfg rd i msg w)
  = if negb (channelReserved (in_Channel msg))
       && bool_decide (is_Some (conn_subs c !! in_Channel msg)) && publish_granted rd c
    then charged rd c w else w_limiter w.
Proof using All.
  intros Hi. unfold handlePublish, publish_granted, charged. rewrite Hi.
  destruct (channelReserved _); cbn; [done|].
  destruct (conn_subs c !! _) as [ch|]; cbn; [|done].
  destruct (bucket_allow _ _) as [[] b]; cbn; [|done].
  destruct (Allow _ _ _ _) as [[] l]; cbn; [|done]. by rewrite Broadcast_limiter.
Qed.

(** C26. The shared budget is protected. A frame costs its API key exactly one
    token when it passed the checks that come before the key's own, the conn's
    private budget included, and nothing otherwise. *)
Theorem key_budget_protected rd i raw c w :
  w_conns w !! i = Some c ->
  w_limiter (handle cfg rd i raw w)
  = if charges_key rd raw c then charged rd c w else w_limiter w.
Proof using All.
  intros Hi. unfold handle, charges_key.
  destruct (Valid raw); cbn [negb andb]; [|done].
  destruct (unmarshal raw) as [msg|]; [|done].
  unfold dispatch, is_op.
  destruct (ValidateChannelName (in_Channel msg)) as [[]|e]; cbn [is_ok andb].
  - replace (if bool_decide _ then _ else _) with (@Ok string _ tt) by (by case_match).
    repeat case_decide; [by apply handleSubscribe_limiter|by apply handleUnsubscribe_limiter
      |by apply handlePublish_limiter|done].
  - case_match eqn:E; [|done]. case_bool_decide; [done|].
    rewrite !decide_False by set_solver. done.
Qed.

(** ** Authorization *)

Lemma join_cache rd i msg m w : w_cache (join rd i msg m w) = w_cache w.
Proof using Type.
  unfold join. destruct (subscribe_retry _ _ _ _ _) as [r s]. by destruct r as [|[]].
Qed.

(** A subscribe that gets through to a private channel not yet held. *)
Lemma subscribe_cache rd i msg c w :
  w_conns w !! i = Some c -> subscribe_refusal cfg rd c msg w = None ->
  conn_subs c !! in_Channel msg = None -> ChannelRequiresAuth (in_Channel msg) = true ->
  VerifyTokenAgainst (rd_verify rd) (signingSecret cfg) (socketID c) (in_Channel msg)
    (in_Token msg) (w_cache w) = (Ok tt, w_cache (handleSubscribe cfg rd i msg w)).
Proof using Type.
  intros Hi Href Hnone Hauth. unfold subscribe_refusal in Href. cbn [first_failure] in Href.
  unfold handleSubscribe.
  assert (channelReserved (in_Channel msg) && negb (reservedSubscribeAllowed (in_Channel msg))
    = false) as ->.
  { destruct (channelReserved _), (reservedSubscribeAllowed _); cbn in *; done. }
  rewrite (allowControl_outcome _ _ _ _ _ Hi).
  pose proof (same_charge_control rd i c w Hi) as ((c1 & Hi1 & _ & Hsub & _ & _ & Hsid) & _).
  assert (w_cache (charge_control rd i c w) = w_cache w) as Hcache
    by (unfold charge_control; by destruct (control_granted rd c)).
  destruct (negb (channelReserved _) || _); [|done].
  destruct (first_failure (control_checks rd c w)); [done|]. cbn beta iota in Href |- *.
  cbn [negb].
  rewrite Hi1. assert (conn_subs c1 = conn_subs c) as -> by (unfold conn_subs; by rewrite Hsub).
  assert (~ is_Some (conn_subs c !! in_Channel msg)) as Hns by (rewrite Hnone; by intros []).
  rewrite decide_False in Href by done. rewrite decide_False by done.
  rewrite !first_failure_app in Href.
  unfold check_token, token_checks, token_result in *. rewrite Hauth, Hsid, Hcache in *.
  destruct (VerifyTokenAgainst _ _ _ _ _ _) as [[[]|[]] cache]; cbn in *; try done.
  destruct (decide (defaultMaxChannelsPerConn <= size (conn_subs c))) as [Hsz|Hsz];
    [by rewrite (bool_decide_eq_false_2 (size (conn_subs c) < _)) in Href by lia|].
  by rewrite join_cache.
Qed.

(** The same for a whole frame: only an accepted subscribe adds a channel. *)
Lemma handle_auth rd i raw c w n :
  world_ok w -> w_conns w !! i = Some c -> ChannelRequiresAuth n = true ->
  conn_subs c !! n = None -> is_Some (held (handle cfg rd i raw w) i !! n) ->
  exists tok, VerifyTokenAgainst (rd_verify rd) (signingSecret cfg) (socketID c) n tok (w_cache w)
    = (Ok tt, w_cache (handle cfg rd i raw w)).
Proof using All.
  intros Hok Hi Hauth Hnone Hsome.
  assert (forall w', core_eq w w' -> is_Some (held w' i !! n) -> False) as Hcore.
  { intros w' Heq Hs. rewrite (held_core _ _ _ Heq) in Hs. unfold held in Hs.
    rewrite Hi in Hs. cbn in Hs. rewrite Hnone in Hs. by destruct Hs. }
  unfold handle in *.
  destruct (Valid raw); cbn [negb] in *; [|by destruct (Hcore _ (core_sendError _ _ _ _) Hsome)].
  destruct (unmarshal raw) as [msg|]; [|by destruct (Hcore _ (core_sendError _ _ _ _) Hsome)].
  destruct (if is_op _ then _ else _) as [[]|e];
    [|by destruct (Hcore _ (core_sendOpError _ _ _ _ _) Hsome)].
  unfold dispatch in *. case_decide as Hsub.
  - destruct (subscribe_outcome cfg rd i msg c w Hok Hi)
      as (subs' & [(c' & Hi' & _ & Hs' & _) _] & Hout).
    unfold held in Hsome. rewrite Hi' in Hsome. cbn in Hsome. rewrite Hs' in Hsome.
    destruct (subscribe_refusal cfg rd c msg w) eqn:Href.
    { rewrite Hout, Hnone in Hsome. by destruct Hsome. }
    destruct Hout as (_ & Hother & _).
    destruct (decide (n = in_Channel msg)) as [->|Hne].
    + exists (in_Token msg). by apply subscribe_cache.
    + rewrite Hother, Hnone in Hsome by done. by destruct Hsome.
  - case_decide; [|case_decide].
    + destruct (unsubscribe_outcome rd i msg c w Hi) as [(c' & Hi' & _ & Hs' & _) _].
      unfold held in Hsome. rewrite Hi' in Hsome. cbn in Hsome. rewrite Hs' in Hsome.
      destruct (unsubscribe_refusal rd c w); [rewrite Hnone in Hsome; by destruct Hsome|].
      destruct Hsome as [x [_ Hx]%lookup_delete_Some]. congruence.
    + by destruct (Hcore _ (core_handlePublish cfg rd i msg w) Hsome).
    + by destruct (Hcore _ (core_sendError _ _ _ _) Hsome).
Qed.

(** A frame leaves what other conns hold alone. *)
Lemma handle_held_other rd j raw c w i :
  world_ok w -> w_conns w !! j = Some c -> i <> j ->
  held (handle cfg rd j raw w) i = held w i.
Proof using All.
  intros Hok Hj Hne. unfold handle.
  destruct (Valid raw); cbn [negb]; [|by apply held_core, core_sendError].
  destruct (unmarshal raw) as [msg|]; [|by apply held_core, core_sendError].
  destruct (if is_op _ then _ else _) as [[]|e]; [|by apply held_core, core_sendOpError].
  unfold dispatch. repeat case_decide.
  - destruct (subscribe_outcome cfg rd j msg c w Hok Hj) as (subs' & [_ Ho] & _).
    unfold held. by rewrite Ho.
  - destruct (unsubscribe_outcome rd j msg c w Hj) as [_ Ho]. unfold held. by rewrite Ho.
  - by apply held_core, core_handlePublish.
  - by apply held_core, core_sendError.
Qed.

(** C1. Private channels need a token. Whatever the server does next (any frame,
    sweep, stats tick, worker step, revocation, teardown), if it makes a conn
    hold a private- or presence- channel it did not hold, then in that step a
    token for this very socket id and channel was verified, and the replay cache
    is the one the verification left. *)
Theorem private_needs_token i n w w' :
  world_ok w -> world_step cfg w w' -> ChannelRequiresAuth n = true ->
  held w i !! n = None -> is_Some (held w' i !! n) ->
  exists rd tok c, w_conns w !! i = Some c /\
    VerifyTokenAgainst (rd_verify rd) (signingSecret cfg) (socketID c) n tok (w_cache w)
    = (Ok tt, w_cache w').
Proof using All.
  intros Hok Hstep Hauth Hnone Hsome.
  assert (core_eq w w' -> False) as Hcore.
  { intros Heq. rewrite (held_core _ _ _ Heq), Hnone in Hsome. by destruct Hsome. }
  assert ((forall j, j = i -> w_conns w' !! j = w_conns w !! j) -> False) as Hsame.
  { intros Heq. unfold held in *. rewrite Heq, Hnone in Hsome by done. by destruct Hsome. }
  destruct Hstep as [j sid key w Hj|j raw rd c w Hj Hcl|j w|j e c w Hj Hcl He
    |w|now w|now w|snap id w|key w|w|w w' Hw]; try (exfalso; apply Hsame; by intros ? ->).
  - exfalso. destruct (decide (j = i)) as [->|Hne].
    + unfold held, run_start in Hsome.
      destruct (Add i key _) as [[[]|ce] h]; cbn -[try_send] in Hsome;
        [rewrite try_send_nil in Hsome|]; cbn in Hsome.
      * rewrite lookup_insert_eq in Hsome. cbn in Hsome. by destruct Hsome.
      * rewrite Hj in Hsome. by destruct Hsome.
    + apply Hsame. intros ? ->. unfold run_start.
      destruct (Add j key _) as [[[]|ce] h]; cbn -[try_send]; [rewrite try_send_nil|]; cbn;
        by rewrite ?lookup_insert_ne.
  - destruct (decide (j = i)) as [->|Hne].
    + assert (conn_subs c !! n = None) as Hc
        by (unfold held in Hnone; by rewrite Hj in Hnone).
      destruct (handle_auth rd i raw c w n) as [tok Htok]; [done..|].
      by exists rd, tok, c.
    + exfalso. rewrite (handle_held_other rd j raw c w i) in Hsome by done.
      rewrite Hnone in Hsome. by destruct Hsome.
  - exfalso. apply Hcore. apply core_upd_conn. intros c _. split; try done. cbn.
    destruct (send c); cbn; lia.
  - exfalso. destruct (decide (j = i)) as [->|Hne].
    + unfold held, run_teardown in Hsome. rewrite Hj in Hsome. cbn in Hsome.
      rewrite !lookup_alter_eq, Hj in Hsome. cbn in Hsome. by destruct Hsome.
    + apply Hsame. intros ? ->. unfold run_teardown. rewrite Hj. cbn.
      by rewrite !lookup_alter_ne.
  - exfalso. unfold stats_tick in Hsome. destruct (GetOrCreate _ _) as [ch s].
    pose proof (core_Broadcast cfg ch (stats_frame snap id) (set_store s w)) as Hb.
    rewrite (held_core _ _ _ Hb) in Hsome. unfold held in *. cbn in Hsome.
    rewrite Hnone in Hsome. by destruct Hsome.
  - exfalso. apply Hcore. by eapply work_core.
Qed.
(** ** Reachable worlds *)

(** C2. Subscriptions are consistent in every reachable state: a conn that holds
    a channel is listed by it; the channel is the live one registered under the
    name it is held by; a listed subscriber is an open conn that holds the
    channel, so teardown leaves no trace; the hub tracks exactly the open conns;
    and the connections gauge counts them. *)
Theorem subscriptions_consistent l cache f w :
  rtc (world_step cfg) (world_init l cache f) w ->
  (forall i c n ch, w_conns w !! i = Some c -> conn_subs c !! n = Some ch ->
     Name (chan_at ch (w_heap w)) = n /\ i ∈ Subscribers (chan_at ch (w_heap w))
     /\ reg_abs (w_reg w) !! n = Some ch /\ Deleted (chan_at ch (w_heap w)) = false)
  /\ (forall i ch, i ∈ Subscribers (chan_at ch (w_heap w)) ->
       exists c, w_conns w !! i = Some c /\ closed c = false
         /\ conn_subs c !! Name (chan_at ch (w_heap w)) = Some ch)
  /\ (forall i key, conns (w_hub w) !! i = Some key <->
       exists c, w_conns w !! i = Some c /\ closed c = false /\ apiKeyID c = key)
  /\ Connections (w_metrics w) = Z.of_nat (Hub.Len (w_hub w)).
Proof using All.
  intros [Hst Hc Hh Hn]%world_reach. split_and!; [| |done..].
  - intros i c n ch Hi Hs. assert (held w i !! n = Some ch) as Hheld
      by (unfold held; by rewrite Hi).
    destruct (st_held _ _ _ Hst _ _ _ Hheld) as (_ & Hname & Hin). split_and!; [done..| |].
    + rewrite <- Hname. eapply st_live; [done|]. by eapply elem_nonempty.
    + eapply st_deleted; [done|]. eapply st_live; [done|]. by eapply elem_nonempty.
  - intros i ch Hin. pose proof (st_subs _ _ _ Hst _ _ Hin) as Hs. unfold held in Hs.
    destruct (w_conns w !! i) as [c|] eqn:Hi; [|done].
    exists c. split_and!; [done| |done]. destruct (closed c) eqn:Hcl; [|done].
    cbn in Hs. unfold conn_subs in Hs. apply Hc in Hi. apply Hi in Hcl. rewrite Hcl in Hs.
    done.
Qed.

(** C29. Every resource is bounded in every reachable state: send buffers,
    channels per conn and subscribers per channel; and only well-formed names
    are held, of the reserved ones just the stats channel. *)
Theorem resources_bounded l cache f w :
  rtc (world_step cfg) (world_init l cache f) w ->
  (forall i c, w_conns w !! i = Some c ->
     length (send c) <= 64 /\ size (conn_subs c) <= 64
     /\ forall n, is_Some (conn_subs c !! n) ->
          ValidateChannelName n = Ok tt /\ (channelReserved n = true -> n = statsChannel))
  /\ forall ch, size (Subscribers (chan_at ch (w_heap w))) <= defaultMaxSubsPerChannel.
Proof using All.
  intros [Hst Hc Hh Hn]%world_reach. split; [|apply Hst].
  intros i c [H1' H2' _ H4']%Hc. done.
Qed.
End Service.

(** ** Delivery *)

Section Delivery.
Context {R B : Type} `{RegistryLaws R, TokenBucket B}.
Implicit Types (w : World R B PerConn).

Lemma publish_refusal_handle cfg rd i raw msg c w :
  w_conns w !! i = Some c -> Valid raw = true -> unmarshal raw = Some msg ->
  in_Type msg = "publish" -> ValidateChannelName (in_Channel msg) = Ok tt ->
  publish_refusal rd c msg w = None ->
  exists ch, conn_subs c !! in_Channel msg = Some ch
    /\ handle cfg rd i raw w
       = hub_Broadcast cfg ch (event_frame (in_Channel msg) (in_Data msg) (rd_ulid rd))
           (inc_Published (charge_publish rd i c w)).
Proof.
  intros Hi Hv Hu Ht Hn Hr. pose proof (publish_outcome cfg rd i msg c w Hi) as Hp.
  rewrite Hr in Hp. rewrite (handle_op _ _ _ _ msg) by (done || by rewrite Ht).
  unfold channel_refusal. rewrite Hn. unfold dispatch.
  rewrite Ht, decide_False, decide_False, decide_True by done. exact Hp.
Qed.

Lemma hub_Broadcast_published cfg l m w :
  Published (w_metrics (hub_Broadcast cfg l m w)) = Published (w_metrics w).
Proof.
  unfold hub_Broadcast. generalize (subs_snapshot l (w_heap w)) as ss. intros ss. revert w.
  induction ss as [|s ss IH]; intros w; cbn; [done|]. rewrite IH. unfold Send.
  destruct (w_conns w !! s) as [c|]; [|done]. destruct (closed c); [done|].
  by destruct (Apply _ _ _ _ _) as [[] q].
Qed.

(** An accepted publish reaches every subscriber. With the default fan-out
    the event is put through the backpressure policy of every subscriber of the
    channel, the publisher among them, before the handler returns; nobody else's
    buffer changes, and the publish is counted once. *)
Theorem publish_delivers cfg rd i raw msg c w :
  world_ok w -> w_conns w !! i = Some c -> Valid raw = true -> unmarshal raw = Some msg ->
  in_Type msg = "publish" -> ValidateChannelName (in_Channel msg) = Ok tt ->
  publish_refusal rd c msg w = None ->
  let w' := handle cfg rd i raw w in
  let event := event_frame (in_Channel msg) (in_Data msg) (rd_ulid rd) in
  exists ch, conn_subs c !! in_Channel msg = Some ch
    /\ i ∈ Subscribers (chan_at ch (w_heap w))
    /\ Published (w_metrics w') = (Published (w_metrics w) + 1)%Z
    /\ forall j cj, w_conns w !! j = Some cj ->
         exists cj', w_conns w' !! j = Some cj' /\
           let want := if decide (j ∈ Subscribers (chan_at ch (w_heap w)))
                       then deliver cfg event cj else cj in
           send cj' = send want /\ closeReq cj' = closeReq want.
Proof.
  intros Hok Hi Hv Hu Ht Hn Hr w' event. subst w'.
  destruct (publish_refusal_handle cfg rd i raw msg c w) as (ch & Hch & ->); [done..|].
  pose proof (same_charge_publish rd i c w Hi)
    as ((c1 & Hi1 & Hs1 & _ & Hcl1 & Hcr1 & _) & Hj1 & _ & Hh1).
  exists ch. split_and!; [done| | |].
  - assert (held w i !! in_Channel msg = Some ch) as Hheld by (unfold held; by rewrite Hi).
    by apply (st_held _ _ _ (wo_store _ Hok)) in Hheld as (_ & _ & ?).
  - rewrite hub_Broadcast_published. unfold charge_publish. by destruct (publish_granted rd c).
  - intros j cj Hj. rewrite hub_Broadcast_conns. cbn [w_heap w_conns inc_Published set_metrics].
    rewrite Hh1.
    assert (exists cj', w_conns (charge_publish rd i c w) !! j = Some cj'
      /\ send cj' = send cj /\ closeReq cj' = closeReq cj /\ closed cj' = closed cj)
      as (cj' & -> & Hs & Hcr & Hcl).
    { destruct (decide (j = i)) as [->|Hne]; [|rewrite Hj1 by done; by exists cj].
      simplify_eq. by exists c1. }
    case_decide; [|by exists cj']. eexists. split; [reflexivity|]. cbn zeta.
    unfold deliver. rewrite Hs, Hcl. destruct (closed cj); [done|].
    by destruct (Apply _ _ _ _ _) as [[] q].
Qed.
End Delivery.

(** ** A concrete run

    One conn subscribes to a public channel and publishes to it, then subscribes
    to a private one with a token. *)

Abbreviation demo_world := (World SyncMap.t tbucket PerConn).

Definition demo_cfg : Config := MkConfig "secret" PolicyDropOldest.
Definition demo_rd : readings := MkReadings 0 0 0 0 "01HKQ8M9F7XPQVJZ4YCZ7G3W2A" [].
Definition demo_limiter : Limiter tbucket := Limiter.New 100 200 (600 * second).

Definition op_text (typ channel more : string) : string :=
  "{" +:+ in_quotes "type" +:+ ":" +:+ in_quotes typ +:+ ","
  +:+ in_quotes "channel" +:+ ":" +:+ in_quotes channel +:+ more +:+ "}".

Definition demo_token : string :=
  default "" (SignToken (Some (replicate 16 7%N)) "secret" "SID" "private-x" (300 * second)%Z).

Definition demo0 : demo_world := world_init demo_limiter (Some ∅) NewPerConn.
Definition demo1 : demo_world := (run_start 1 "SID" "key" demo0).2.
Definition sub_text : string := op_text "subscribe" "room" "".
Definition demo2 : demo_world := handle demo_cfg demo_rd 1 sub_text demo1.
Definition pub_text : string :=
  op_text "publish" "room" ("," +:+ in_quotes "data" +:+ ": [1, 2]").
Definition demo3 : demo_world := handle demo_cfg demo_rd 1 pub_text demo2.
Definition private_text : string :=
  op_text "subscribe" "private-x" ("," +:+ in_quotes "token" +:+ ":" +:+ in_quotes demo_token).
Definition demo4 : demo_world := handle demo_cfg demo_rd 1 private_text demo3.

Definition conn_at (i : conn_id) (w : demo_world) : Conn tbucket :=
  default (new_conn "" "") (w_conns w !! i).

Definition is_open (i : conn_id) (w : demo_world) : bool :=
  match w_conns w !! i with Some c => negb (closed c) | None => false end.

Lemma is_open_conn i w :
  is_open i w = true -> w_conns w !! i = Some (conn_at i w) /\ closed (conn_at i w) = false.
Proof.
  unfold is_open, conn_at. destruct (w_conns w !! i) as [c|]; [|done]. cbn. by destruct (closed c).
Qed.

Lemma frame_step cfg i raw rd w :
  is_open i w = true -> world_step cfg w (handle cfg rd i raw w).
Proof. intros [Hi Hcl]%is_open_conn. by eapply ws_frame. Qed.

Lemma demo1_open : is_open 1 demo1 = true.
Proof. by vm_compute. Qed.
Lemma demo2_open : is_open 1 demo2 = true.
Proof. by vm_compute. Qed.
Lemma demo3_open : is_open 1 demo3 = true.
Proof. by vm_compute. Qed.

Lemma demo2_reach : rtc (world_step demo_cfg) demo0 demo2.
Proof.
  eapply rtc_l; [by apply (ws_start demo_cfg 1 "SID" "key" demo0)|].
  eapply rtc_l; [apply (frame_step demo_cfg 1 sub_text demo_rd _ demo1_open)|apply rtc_refl].
Qed.

Lemma demo1_ok : world_ok demo1.
Proof. apply (world_ok_step demo_cfg demo0); [apply world_ok_init|by apply ws_start]. Qed.

Lemma demo2_ok : world_ok demo2.
Proof. apply (world_reach demo_cfg _ _ _ _ demo2_reach). Qed.

Lemma demo3_ok : world_ok demo3.
Proof. apply (world_ok_step demo_cfg _ _ demo2_ok). apply frame_step, demo2_open. Qed.

(** The demo's subscribe is acked, and its publish handed to the fan-out. *)
Lemma handle_answers_witness :
  (exists subs', replied 1 (conn_at 1 demo1) (ack_frame "subscribed" "room") subs' demo1 demo2
     /\ is_Some (subs' !! "room"))
  /\ handed_over demo_cfg demo_rd 1 pub_text (conn_at 1 demo2) demo2 demo3.
Proof.
  split.
  - pose proof (handle_answers demo_cfg demo_rd 1 sub_text (conn_at 1 demo1) demo1 demo1_ok
      (proj1 (is_open_conn _ _ demo1_open))) as Hr.
    assert (expected_reply demo_cfg demo_rd sub_text (conn_at 1 demo1) demo1
      = Some (ack_frame "subscribed" "room", false)) as He by vm_decide.
    rewrite He in Hr. destruct Hr as (subs' & Hr & msg & Hm & Hs). exists subs'. split; [exact Hr|].
    assert (unmarshal sub_text = Some (MkIncoming "subscribe" "room" "" None)) as Hu by (vm_compute; reflexivity).
    rewrite Hu in Hm. injection Hm as <-. exact (proj1 Hs).
  - pose proof (handle_answers demo_cfg demo_rd 1 pub_text (conn_at 1 demo2) demo2 demo2_ok
      (proj1 (is_open_conn _ _ demo2_open))) as Hr.
    assert (expected_reply demo_cfg demo_rd pub_text (conn_at 1 demo2) demo2 = None) as He by vm_decide.
    rewrite He in Hr. exact Hr.
Defined.

Lemma error_frames_small_witness :
  String.length (plain_error "BAD_JSON" "malformed message") < 1024.
Proof.
  apply (error_frames_small demo_cfg demo_rd "{" (conn_at 1 demo2) demo2). vm_decide.
Defined.

Lemma key_budget_protected_witness :
  w_limiter (handle demo_cfg demo_rd 1 "{}" demo2) = w_limiter demo2.
Proof.
  rewrite (key_budget_protected demo_cfg demo_rd 1 "{}" (conn_at 1 demo2) demo2)
    by (apply is_open_conn, demo2_open). reflexivity.
Defined.

Lemma private_needs_token_witness :
  exists rd tok c, w_conns demo3 !! 1 = Some c /\
    VerifyTokenAgainst (rd_verify rd) "secret" (socketID c) "private-x" tok (w_cache demo3)
    = (Ok tt, w_cache demo4).
Proof.
  apply (private_needs_token demo_cfg 1 "private-x" demo3 demo4 demo3_ok).
  - apply frame_step, demo3_open.
  - reflexivity.
  - vm_decide.
  - vm_decide.
Defined.

Lemma subscriptions_consistent_witness :
  exists c, w_conns demo2 !! 1 = Some c /\ is_Some (conn_subs c !! "room")
    /\ Connections (w_metrics demo2) = Z.of_nat (Hub.Len (w_hub demo2)).
Proof.
  exists (conn_at 1 demo2). split_and!; [apply is_open_conn, demo2_open|vm_decide|].
  apply (subscriptions_consistent demo_cfg _ _ _ _ demo2_reach).
Defined.

Lemma resources_bounded_witness :
  exists c, w_conns demo2 !! 1 = Some c /\ length (send c) <= 64.
Proof.
  exists (conn_at 1 demo2). pose proof (proj1 (is_open_conn _ _ demo2_open)) as Hc.
  split; [exact Hc|]. exact (proj1 (proj1 (resources_bounded demo_cfg _ _ _ _ demo2_reach) 1 _ Hc)).
Defined.

Lemma publish_delivers_witness :
  exists c', w_conns demo3 !! 1 = Some c' /\ length (send c') = 3
    /\ Published (w_metrics demo3) = 1%Z.
Proof.
  exists (conn_at 1 demo3). split_and!; [apply is_open_conn, demo3_open|vm_decide|].
  destruct (publish_delivers demo_cfg demo_rd 1 pub_text
    (MkIncoming "publish" "room" "" (Some "[1, 2]")) (conn_at 1 demo2) demo2 demo2_ok)
    as (ch & _ & _ & Hp & _).
  - apply is_open_conn, demo2_open.
  - reflexivity.
  - vm_compute. reflexivity.
  - reflexivity.
  - reflexivity.
  - vm_decide.
  - unfold demo3. rewrite Hp. reflexivity.
Defined.
