(* ===== verification/Spec.v ===== *)
(** * The service, as a specification, and the server that implements it

    What wirefan promises, without registry, channel cells, hub, budgets or
    goroutines: members with a set of joined names and an inbox, and a handful of
    atomic operations.  [abs] forgets the rest of the [World], and every step of
    the server with the default fan-out is one operation of the specification, or
    none. *)
From S2P Require Import Prelude GoStd Utf8 Token Channel Registry Sweep Limiter Hub Frame Conn Handler World Membership Run Protocol Service.
From stdpp Require Import options.

(** ** The specification *)

(** A conn as its peer knows it: [inbox] waits to be written, [slow] has been
    asked to go, [gone] is past its teardown. *)
Record member : Type := MkMember {
  sid : string;
  joined : gset string;
  inbox : list string;
  slow : bool;
  gone : bool;
}.

Abbreviation service := (gmap conn_id member).

Inductive sop : Type :=
  | Connect (i : conn_id) (sid : string)
  | Answer (i : conn_id) (frame : string)
  | Join (i : conn_id) (n : string)
  | Leave (i : conn_id) (n : string)
  | Publish (i : conn_id) (n : string) (data : option string) (id : string)
  | Stats (snap : list (string * Z)) (id : string)
  | Take (i : conn_id)
  | Disconnect (i : conn_id).

Definition set_joined (f : gset string -> gset string) (m : member) : member :=
  MkMember (sid m) (f (joined m)) (inbox m) (slow m) (gone m).
Definition set_inbox (q : list string) (m : member) : member :=
  MkMember (sid m) (joined m) q (slow m) (gone m).

(** A reply, and an event under the backpressure policy. *)
Definition hand (frame : string) (m : member) : member := set_inbox (push frame (inbox m)) m.
Definition offer (cfg : Config) (frame : string) (m : member) : member :=
  if gone m then m else
  let '(late, q) := Apply (policy cfg) [] [] frame (inbox m) in
  MkMember (sid m) (joined m) q (late || slow m) (gone m).

(** Everybody in [n] gets the frame. *)
Definition to_all (cfg : Config) (n frame : string) (s : service) : service :=
  (fun m => if decide (n ∈ joined m) then offer cfg frame m else m) <$> s.

Definition effect (cfg : Config) (o : sop) (s : service) : service :=
  match o with
  | Connect i id => <[i := MkMember id ∅ [hello_frame id] false false]> s
  | Answer i frame => alter (hand frame) i s
  | Join i n => alter (fun m => hand (ack_frame "subscribed" n) (set_joined ({[n]} ∪.) m)) i s
  | Leave i n => alter (fun m => hand (ack_frame "unsubscribed" n) (set_joined (.∖ {[n]}) m)) i s
  | Publish _ n data id => to_all cfg n (event_frame n data id) s
  | Stats snap id => to_all cfg statsChannel (stats_frame snap id) s
  | Take i => alter (fun m => set_inbox (evict (inbox m)) m) i s
  | Disconnect i => alter (fun m => MkMember (sid m) ∅ (inbox m) (slow m) true) i s
  end.

Definition members (s : service) (n : string) : gset conn_id :=
  dom (filter (fun p => n ∈ joined p.2) s).

(** When an operation may happen. *)
Definition may_join (cfg : Config) (s : service) (n : string) (m : member) : Prop :=
  size (joined m) < defaultMaxChannelsPerConn
  /\ size (members s n) < defaultMaxSubsPerChannel
  /\ (ChannelRequiresAuth n = true -> exists now tok cache cache',
        VerifyTokenAgainst now (signingSecret cfg) (sid m) n tok cache = (Ok tt, cache')).

Definition open (s : service) (i : conn_id) (m : member) : Prop := s !! i = Some m /\ gone m = false.

Definition allowed (cfg : Config) (s : service) (o : sop) : Prop :=
  match o with
  | Connect i _ => s !! i = None
  | Answer i frame => exists m e, open s i m /\ frame = error_frame e
  | Join i n => exists m, open s i m /\ holdable n /\ (n ∉ joined m -> may_join cfg s n m)
  | Leave i n => exists m, open s i m
  | Publish i n _ _ => exists m, open s i m /\ n ∈ joined m /\ channelReserved n = false
  | Stats _ _ => True
  | Take i => exists m, s !! i = Some m /\ inbox m <> []
  | Disconnect i => exists m, open s i m
  end.

Definition spec_step (cfg : Config) (s s' : service) : Prop :=
  exists o, allowed cfg s o /\ s' = effect cfg o s.

(** ** What the server's state says of the service *)

Section Abstraction.
Context {R B F : Type} `{RegistryLaws R, TokenBucket B, !Fanout R B F, !FanoutLaws R B F}.
Context (cfg : Config).
Implicit Types (w : World R B F) (c : Conn B) (i : conn_id) (n : string).

Definition member_of c : member :=
  MkMember (socketID c) (dom (conn_subs c)) (send c) (closeReq c) (closed c).
Definition abs w : service := member_of <$> w_conns w.

Lemma abs_member w i : abs w !! i = member_of <$> w_conns w !! i.
Proof using Type. apply lookup_fmap. Qed.

Lemma abs_conns w w' : w_conns w' = w_conns w -> abs w' = abs w.
Proof using Type. unfold abs. by intros ->. Qed.

Lemma abs_open w i c : w_conns w !! i = Some c -> closed c = false -> open (abs w) i (member_of c).
Proof using Type. intros Hi Hcl. split; [by rewrite abs_member, Hi|done]. Qed.

(** An update of one conn is one of its member. *)
Lemma abs_upd_conn i f (g : member -> member) w :
  (forall c, w_conns w !! i = Some c -> member_of (f c) = g (member_of c)) ->
  abs (upd_conn i f w) = alter g i (abs w).
Proof using Type.
  intros Hf. apply map_eq. intros j. rewrite lookup_alter, !abs_member. cbn. rewrite lookup_alter.
  case_decide as Hj; [subst j|done]. destruct (w_conns w !! i) as [c|]; [|done]. cbn. by rewrite Hf.
Qed.

Lemma abs_same_conn i c w w' : w_conns w !! i = Some c -> same_conn i c w w' -> abs w' = abs w.
Proof using Type.
  intros Hi ((c' & Hi' & Hs & Hsub & Hcl & Hcr & Hsid) & Hj & _). apply map_eq. intros j. rewrite !abs_member.
  destruct (decide (j = i)) as [->|Hne]; [|by rewrite Hj]. rewrite Hi, Hi'. cbn. unfold member_of, conn_subs.
  by rewrite Hs, Hsub, Hcl, Hcr, Hsid.
Qed.

Lemma abs_replied i c frame subs' w w' X :
  w_conns w !! i = Some c -> replied i c frame subs' w w' -> dom subs' = X ->
  abs w' = alter (fun m => hand frame (set_joined (fun _ => X) m)) i (abs w).
Proof using Type.
  intros Hi [(c' & Hi' & Hs & Hsub & Hcl & Hcr & Hsid) Hj] HX. apply map_eq. intros j.
  rewrite lookup_alter, !abs_member. case_decide as Hji; [subst j|by rewrite Hj].
  rewrite Hi, Hi'. cbn. unfold member_of. cbn. by rewrite Hs, Hsub, Hcl, Hcr, Hsid, HX.
Qed.

(** A refusal. *)
Lemma abs_refused i c frame w w' :
  w_conns w !! i = Some c -> replied i c frame (conn_subs c) w w' -> abs w' = effect cfg (Answer i frame) (abs w).
Proof using Type.
  intros Hi Hr. rewrite (abs_replied i c frame _ w w' _ Hi Hr eq_refl). apply map_eq. intros j. cbn.
  rewrite !lookup_alter. case_decide as Hj; [subst j|done]. by rewrite abs_member, Hi.
Qed.

(** ** Names and channels *)

Lemma held_joined w i n : n ∈ dom (held w i) <-> exists m, abs w !! i = Some m /\ n ∈ joined m.
Proof using Type.
  unfold held. rewrite abs_member. destruct (w_conns w !! i) as [c|]; cbn; [|set_solver].
  split; [by eexists|]. by intros (m & [= <-] & ?).
Qed.

Lemma members_elem s n i : i ∈ members s n <-> exists m, s !! i = Some m /\ n ∈ joined m.
Proof using Type.
  unfold members. rewrite elem_of_dom. unfold is_Some. setoid_rewrite map_lookup_filter_Some. done.
Qed.

(** The subscribers of the channel a name is registered under are the members
    that joined the name. *)
Lemma registered_members r h S n l :
  store_ok r h S -> reg_abs r !! n = Some l ->
  forall j, j ∈ Subscribers (chan_at l h) <-> n ∈ dom (S j).
Proof using Type.
  intros Hok Hl j. assert (Name (chan_at l h) = n) as Hname by (by eapply ok_named; [apply Hok|]).
  rewrite elem_of_dom. split.
  - intros Hj. apply (st_subs _ _ _ Hok) in Hj. rewrite Hname in Hj. by eexists.
  - intros [l' Hl']. destruct (st_held _ _ _ Hok _ _ _ Hl') as (_ & Hn' & Hin).
    assert (reg_abs r !! n = Some l') as He; [|congruence].
    rewrite <- Hn'. eapply st_live; [done|]. by eapply elem_nonempty.
Qed.

Lemma subscribers_members w r h n l :
  store_ok r h (held w) -> reg_abs r !! n = Some l ->
  forall j, j ∈ Subscribers (chan_at l h) <-> j ∈ members (abs w) n.
Proof using Type. intros Hok Hl j. rewrite members_elem, <- held_joined. by eapply registered_members. Qed.

(** A held channel is the registered one of its name. *)
Lemma held_registered r h S i n l : store_ok r h S -> S i !! n = Some l -> reg_abs r !! n = Some l.
Proof using Type.
  intros Hok Hi. destruct (st_held _ _ _ Hok _ _ _ Hi) as (_ & <- & Hin).
  eapply st_live; [done|]. by eapply elem_nonempty.
Qed.

Lemma channel_members w n : world_ok w -> channel_size n w = size (members (abs w) n).
Proof using Type.
  intros Hok. unfold channel_size. destruct (reg_abs (w_reg w) !! n) as [l|] eqn:Hl.
  - f_equal. apply set_eq. intros j. apply subscribers_members with (w_reg w); [apply Hok|done].
  - symmetry. apply size_empty_iff. apply set_equiv. intros j. rewrite members_elem, <- held_joined, elem_of_dom.
    split; [|set_solver]. intros [l Hj%(held_registered _ _ _ _ _ _ (wo_store _ Hok))]. congruence.
Qed.

Lemma member_deliver m c : member_of (deliver cfg m c) = offer cfg m (member_of c).
Proof using Type.
  unfold deliver, offer. cbn. destruct (closed c) eqn:Hcl; [done|].
  destruct (Apply _ _ _ _ _) as [[] q]; unfold member_of; cbn; by rewrite Hcl.
Qed.

(** A broadcast on a channel is one to its name. *)
Lemma abs_Broadcast l n m w :
  (forall j, j ∈ Subscribers (chan_at l (w_heap w)) <-> j ∈ members (abs w) n) ->
  abs (hub_Broadcast cfg l m w) = to_all cfg n m (abs w).
Proof using Type.
  intros Hl. apply map_eq. intros j. unfold to_all. rewrite lookup_fmap, !abs_member, hub_Broadcast_conns.
  specialize (Hl j). rewrite members_elem, abs_member in Hl.
  destruct (w_conns w !! j) as [c|]; cbn in *; [|by case_decide].
  repeat case_decide; cbn; rewrite ?member_deliver; naive_solver.
Qed.

(** ** One operation per step *)

Definition implements w w' (o : sop) : Prop := allowed cfg (abs w) o /\ abs w' = effect cfg o (abs w).

Lemma implements_refusal i c e w w' :
  w_conns w !! i = Some c -> closed c = false -> replied i c (error_frame e) (conn_subs c) w w' ->
  implements w w' (Answer i (error_frame e)).
Proof using Type.
  intros Hi Hcl Hr. split; [|by apply (abs_refused i c)]. exists (member_of c), e. split; [by apply abs_open|done].
Qed.

(** An ack, with new names. *)
Lemma abs_acked i c frame subs' f w w' :
  w_conns w !! i = Some c -> replied i c frame subs' w w' -> dom subs' = f (dom (conn_subs c)) ->
  abs w' = alter (fun m => hand frame (set_joined f m)) i (abs w).
Proof using Type.
  intros Hi Hr Hd. rewrite (abs_replied i c frame subs' w w' _ Hi Hr Hd). apply alter_ext.
  intros m. rewrite abs_member, Hi. intros [= <-]. done.
Qed.

(** What an accepted subscribe has been checked for. *)
Lemma accepted_checks rd msg c w :
  subscribe_refusal cfg rd c msg w = None ->
  (channelReserved (in_Channel msg) = true -> in_Channel msg = statsChannel)
  /\ (conn_subs c !! in_Channel msg = None ->
       size (conn_subs c) < defaultMaxChannelsPerConn
       /\ channel_size (in_Channel msg) w < defaultMaxSubsPerChannel).
Proof using Type.
  unfold subscribe_refusal. cbn [first_failure]. intros Hr. split.
  - intros Hres. rewrite Hres in Hr. cbn in Hr. unfold reservedSubscribeAllowed in Hr.
    by destruct (bool_decide_reflect (in_Channel msg = statsChannel)).
  - intros Hn. destruct (negb _ || _); [|done]. destruct (first_failure (control_checks rd c w)); [done|].
    rewrite decide_False in Hr by (rewrite Hn; by intros []). rewrite !first_failure_app in Hr.
    destruct (first_failure (token_checks _ _ _ _ _)); [done|]. cbn [first_failure join_checks app] in Hr.
    repeat case_bool_decide; done.
Qed.

Lemma subscribe_implements rd i msg c w :
  world_ok w -> w_conns w !! i = Some c -> closed c = false -> ValidateChannelName (in_Channel msg) = Ok tt ->
  implements w (handleSubscribe cfg rd i msg w)
    match subscribe_refusal cfg rd c msg w with
    | Some (code, m) => Answer i (error_frame (op_error msg code m))
    | None => Join i (in_Channel msg)
    end.
Proof using Type.
  intros Hok Hi Hcl Hv. destruct (subscribe_outcome cfg rd i msg c w Hok Hi) as (subs' & Hr & Hs).
  destruct (subscribe_refusal cfg rd c msg w) as [[code m]|] eqn:Href.
  { subst subs'. by apply (implements_refusal i c). }
  destruct Hs as ([l Hl] & Hother & _). destruct (accepted_checks rd msg c w Href) as [Hres Hroom]. split.
  - exists (member_of c). split; [by apply abs_open|]. split; [done|]. cbn. intros Hnone%not_elem_of_dom.
    destruct (Hroom Hnone) as [Hsize Hmem]. unfold may_join. cbn.
    rewrite size_dom, <- channel_members by done. split_and!; [done..|]. intros Hauth.
    eexists (rd_verify rd), (in_Token msg), (w_cache w), _. by apply (subscribe_cache cfg rd i).
  - apply (abs_acked i c _ subs'); [done..|]. apply set_eq. intros n. cbn.
    rewrite elem_of_union, elem_of_singleton, !elem_of_dom.
    destruct (decide (n = in_Channel msg)) as [->|Hne]; [rewrite Hl; naive_solver|].
    rewrite Hother by done. naive_solver.
Qed.

Lemma unsubscribe_implements rd i msg c w :
  w_conns w !! i = Some c -> closed c = false ->
  implements w (handleUnsubscribe rd i msg w)
    match unsubscribe_refusal rd c w with
    | Some (code, m) => Answer i (error_frame (op_error msg code m))
    | None => Leave i (in_Channel msg)
    end.
Proof using Type.
  intros Hi Hcl. pose proof (unsubscribe_outcome rd i msg c w Hi) as Hr.
  destruct (unsubscribe_refusal rd c w) as [[code m]|]; [by apply (implements_refusal i c)|]. split.
  - exists (member_of c). by apply abs_open.
  - apply (abs_acked i c _ _ _ _ _ Hi Hr). by rewrite dom_delete_L.
Qed.

(** What hands an accepted publish to the fan-out. *)
Record published rd i msg c w w' : Prop := {
  pu_channel : exists ch, conn_subs c !! in_Channel msg = Some ch
    /\ w' = Broadcast cfg ch (event_frame (in_Channel msg) (in_Data msg) (rd_ulid rd))
              (inc_Published (charge_publish rd i c w));
  pu_allowed : allowed cfg (abs w) (Publish i (in_Channel msg) (in_Data msg) (rd_ulid rd));
}.

Lemma publish_cases rd i msg c w :
  w_conns w !! i = Some c -> closed c = false ->
  match publish_refusal rd c msg w with
  | Some (code, m) => implements w (handlePublish cfg rd i msg w) (Answer i (error_frame (op_error msg code m)))
  | None => published rd i msg c w (handlePublish cfg rd i msg w)
  end.
Proof using Type.
  intros Hi Hcl. pose proof (publish_outcome cfg rd i msg c w Hi) as Hp.
  destruct (publish_refusal rd c msg w) as [[code m]|] eqn:Href; [by apply (implements_refusal i c)|].
  split; [done|]. destruct Hp as (ch & Hch & _). exists (member_of c). split; [by apply abs_open|].
  split; [cbn; by apply elem_of_dom_2 in Hch|].
  unfold publish_refusal in Href. cbn [first_failure] in Href. by destruct (channelReserved _).
Qed.

Lemma abs_charged rd i c w : w_conns w !! i = Some c -> abs (inc_Published (charge_publish rd i c w)) = abs w.
Proof using Type.
  intros Hi. rewrite <- (abs_same_conn i c w _ Hi (same_charge_publish rd i c w Hi)). by apply abs_conns.
Qed.

(** What a frame asks for, and what it is: that, or a refusal. *)
Definition asked (rd : readings) i (raw : string) : option sop :=
  if negb (Valid raw) then None else
  msg ← unmarshal raw;
  if decide (in_Type msg = "subscribe") then Some (Join i (in_Channel msg))
  else if decide (in_Type msg = "unsubscribe") then Some (Leave i (in_Channel msg))
  else if decide (in_Type msg = "publish") then Some (Publish i (in_Channel msg) (in_Data msg) (rd_ulid rd))
  else None.

Definition frame_op (rd : readings) i (raw : string) c w : sop :=
  match expected_reply cfg rd raw c w with
  | Some (frame, true) => Answer i frame
  | _ => default (Answer i "") (asked rd i raw)
  end.

Lemma implements_error i c w f :
  w_conns w !! i = Some c -> closed c = false -> implements w (sendErrorFrame i f w) (Answer i (error_frame f)).
Proof using Type. intros Hi Hcl. apply (implements_refusal i c); [done..|]. by apply replied_reply, same_conn_refl. Qed.

Definition is_publish (o : sop) : bool := match o with Publish _ _ _ _ => true | _ => false end.

Lemma handle_cases rd i raw c w :
  world_ok w -> w_conns w !! i = Some c -> closed c = false ->
  is_publish (frame_op rd i raw c w) = false /\ implements w (handle cfg rd i raw w) (frame_op rd i raw c w)
  \/ exists msg, frame_op rd i raw c w = Publish i (in_Channel msg) (in_Data msg) (rd_ulid rd)
       /\ published rd i msg c w (handle cfg rd i raw w).
Proof using Type.
  intros Hok Hi Hcl. unfold frame_op, expected_reply, asked.
  destruct (Valid raw) eqn:Hv; cbn [negb].
  2: { left. split; [done|]. unfold handle. rewrite Hv. by apply (implements_error i c). }
  destruct (unmarshal raw) as [msg|] eqn:Hu; cbn [mbind option_bind].
  2: { left. split; [done|]. unfold handle. rewrite Hv, Hu. by apply (implements_error i c). }
  destruct (is_op (in_Type msg)) eqn:Ho.
  - rewrite (handle_op _ _ _ _ msg) by done. unfold channel_refusal, dispatch.
    destruct (ValidateChannelName (in_Channel msg)) as [[]|e] eqn:Hname; cbn [first].
    + repeat case_decide.
      * left. pose proof (subscribe_implements rd i msg c w Hok Hi Hcl Hname) as Hs.
        by destruct (subscribe_refusal cfg rd c msg w) as [[code m]|].
      * left. pose proof (unsubscribe_implements rd i msg c w Hi Hcl) as Hs.
        by destruct (unsubscribe_refusal rd c w) as [[code m]|].
      * pose proof (publish_cases rd i msg c w Hi Hcl) as Hs.
        destruct (publish_refusal rd c msg w) as [[code m]|]; [by left|right; by exists msg].
      * exfalso. unfold is_op in Ho. bool_hyps. set_solver.
    + left. pose proof (implements_error i c w (op_error msg "BAD_CHANNEL" e) Hi Hcl).
      repeat case_decide; try done. exfalso. unfold is_op in Ho. bool_hyps. set_solver.
  - left. unfold handle. rewrite Hv, Hu, Ho. cbn [negb]. unfold is_op in Ho. bool_hyps. unfold dispatch.
    rewrite !decide_False by set_solver. split; [done|]. by apply (implements_error i c).
Qed.

(** The other steps. *)
Lemma run_start_implements i id key w :
  w_conns w !! i = None -> abs (run_start i id key w).2 = abs w \/ implements w (run_start i id key w).2 (Connect i id).
Proof using Type.
  intros Hi. unfold run_start. destruct (Add i key _) as [[[]|ce] h]; [|left; by apply abs_conns].
  rewrite try_send_nil. right. split; [cbn; by rewrite abs_member, Hi|]. unfold abs. cbn.
  by rewrite fmap_insert.
Qed.

Lemma teardown_implements i c w :
  w_conns w !! i = Some c -> closed c = false -> implements w (run_teardown i w) (Disconnect i).
Proof using Type.
  intros Hi Hcl. split; [exists (member_of c); by apply abs_open|]. unfold run_teardown. rewrite Hi.
  apply map_eq. intros j. cbn. rewrite lookup_alter, !abs_member, lookup_fmap, !lookup_alter.
  case_decide as Hj; [subst j|done]. rewrite Hi, decide_True by done. cbn. by do 2 f_equal.
Qed.

Lemma write_implements i w : abs (write_pump i w) = abs w \/ implements w (write_pump i w) (Take i).
Proof using Type.
  assert (abs (write_pump i w) = effect cfg (Take i) (abs w)) as He by (by apply abs_upd_conn).
  destruct (abs w !! i) as [m|] eqn:Hm; [|left; rewrite He; by apply alter_id'].
  destruct (inbox m) as [|x q] eqn:Hq; [left|right; split; [exists m; by rewrite Hq|done]].
  rewrite He. apply alter_id. intros m' Hm'. simplify_eq. destruct m. cbn in Hq. by subst.
Qed.

Lemma stats_implements snap id w :
  world_ok w -> implements w (stats_tick cfg snap id w) (Stats snap id).
Proof using Type.
  intros Hok. split; [done|]. unfold stats_tick. destruct (GetOrCreate _ _) as [ch [r h]] eqn:Hg.
  change "_wirefan-stats" with statsChannel in Hg.
  destruct (store_GetOrCreate _ _ _ _ _ _ _ (wo_store _ Hok) Hg) as [Hst Hl].
  rewrite (abs_Broadcast _ statsChannel); [cbn [effect]; f_equal; by apply abs_conns|].
  by apply subscribers_members with r.
Qed.

(** A step: none or one of the operations other than publishing, or an accepted
    publish, or a turn of the fan-out's workers. *)
Definition publishes w w' : Prop :=
  exists rd i raw c, w_conns w !! i = Some c /\ closed c = false
    /\ is_publish (frame_op rd i raw c w) = true /\ w' = handle cfg rd i raw w.

Lemma step_cases w w' :
  world_ok w -> world_step cfg w w' ->
  (abs w' = abs w \/ exists o, is_publish o = false /\ implements w w' o) \/ publishes w w' \/ work cfg w w'.
Proof using Type.
  intros Hok Hstep. destruct Hstep as [i id key w Hi|i raw rd c w Hi Hcl|i w|i e c w Hi Hcl He
    |w|now w|now w|snap id w|key w|w|w w' Hw]; try (left; left; by apply abs_conns).
  - left. destruct (run_start_implements i id key w Hi); [by left|right; by exists (Connect i id)].
  - destruct (is_publish (frame_op rd i raw c w)) eqn:Hp; [right; left; by exists rd, i, raw, c|left; right].
    destruct (handle_cases rd i raw c w Hok Hi Hcl) as [[_ ?]|(msg & He & _)]; [by eexists|by rewrite He in Hp].
  - left. destruct (write_implements i w); [by left|right; by exists (Take i)].
  - left. right. exists (Disconnect i). split; [done|]. by eapply teardown_implements.
  - left. right. exists (Stats snap id). split; [done|]. by apply stats_implements.
  - by right; right.
Qed.
End Abstraction.

(** ** The default fan-out *)

Section PerConn.
Context {R B : Type} `{RegistryLaws R, TokenBucket B}.
Context (cfg : Config).
Implicit Types (w : World R B PerConn) (c : Conn B) (i : conn_id).

Lemma publish_implements rd i msg c w w' :
  world_ok w -> w_conns w !! i = Some c -> published cfg rd i msg c w w' ->
  implements cfg w w' (Publish i (in_Channel msg) (in_Data msg) (rd_ulid rd)).
Proof using Type.
  intros Hok Hi [(ch & Hch & ->) Ha]. split; [done|].
  assert (held w i !! in_Channel msg = Some ch) as Hheld by (unfold held; by rewrite Hi).
  cbn [effect]. rewrite <- (abs_charged rd i c w Hi). apply abs_Broadcast. rewrite abs_charged by done.
  cbn [w_heap inc_Published set_metrics]. destruct (same_charge_publish rd i c w Hi) as (_ & _ & _ & ->).
  eapply subscribers_members; [apply Hok|]. by eapply held_registered; [apply Hok|].
Qed.

Lemma handle_implements rd i raw c w :
  world_ok w -> w_conns w !! i = Some c -> closed c = false ->
  implements cfg w (handle cfg rd i raw w) (frame_op cfg rd i raw c w).
Proof using Type.
  intros Hok Hi Hcl. destruct (handle_cases cfg rd i raw c w Hok Hi Hcl) as [[_ ?]|(msg & -> & Hp)]; [done|].
  by eapply publish_implements.
Qed.

Lemma step_implements w w' :
  world_ok w -> world_step cfg w w' -> abs w' = abs w \/ exists o, implements cfg w w' o.
Proof using Type.
  intros Hok Hstep. destruct (step_cases cfg w w' Hok Hstep) as [[?|(o & _ & ?)]|[(rd & i & raw & c & Hi & Hcl & _ & ->)|[]]];
    [by left|right; by exists o|]. right. eexists. by apply handle_implements.
Qed.

(** C3. The server refines the service. With the default fan-out, what any
    reachable state says of the service (members with their joined names and
    inboxes, and nothing of the registry, channel cells, hub and budgets) is a
    state the specification reaches; every step of the server is one atomic
    operation the specification allows there, or none that it sees; and a client
    frame is the operation it asks for, on the names and with the data it
    carries, or else the refusal of the first check it fails. *)
Theorem server_refines_spec l cache w :
  rtc (world_step cfg) (world_init l cache NewPerConn) w ->
  rtc (spec_step cfg) ∅ (abs w)
  /\ (forall w', world_step cfg w w' -> abs w' = abs w \/ spec_step cfg (abs w) (abs w'))
  /\ forall rd i raw c, w_conns w !! i = Some c -> closed c = false ->
       implements cfg w (handle cfg rd i raw w) (frame_op cfg rd i raw c w).
Proof using Type.
  assert (forall w1 w2, world_ok w1 -> world_step cfg w1 w2 -> abs w2 = abs w1 \/ spec_step cfg (abs w1) (abs w2)) as Hsim.
  { intros w1 w2 Hok [?|(o & ? & ?)]%step_implements; [by left|right; by exists o|done]. }
  intros Hr. pose proof (world_reach cfg _ _ _ _ Hr) as Hok. split_and!; [|by intros; apply Hsim|].
  - assert (abs (world_init l cache NewPerConn : World R B PerConn) = ∅) as <- by (unfold abs; apply fmap_empty).
    pose proof (world_ok_init l cache NewPerConn) as Hinit. revert Hinit.
    induction Hr as [w|w w1 w' Hs _ IH]; intros Hok0; [done|].
    specialize (IH Hok (world_ok_step _ _ _ Hok0 Hs)).
    destruct (Hsim _ _ Hok0 Hs) as [<-|Hs1]; [done|by eapply rtc_l].
  - intros. by apply handle_implements.
Qed.

End PerConn.

(** ** A run *)

Lemma demo2_is : abs demo2 = {[1 := MkMember "SID" {["room"]} [hello_frame "SID"; ack_frame "subscribed" "room"] false false]}.
Proof. vm_compute. reflexivity. Qed.

(** The demo's publish is the operation of that name, and reaches its publisher. *)
Lemma server_refines_spec_witness :
  rtc (spec_step demo_cfg) ∅ (abs demo2)
  /\ abs demo3 = effect demo_cfg (Publish 1 "room" (Some "[1, 2]") (rd_ulid demo_rd)) (abs demo2)
  /\ (inbox <$> abs demo3 !! 1)
     = Some [hello_frame "SID"; ack_frame "subscribed" "room"; event_frame "room" (Some "[1, 2]") (rd_ulid demo_rd)].
Proof.
  destruct (server_refines_spec demo_cfg _ _ demo2 demo2_reach) as (Hr & _ & Hh). split; [exact Hr|].
  destruct (is_open_conn _ _ demo2_open) as [Hi Hcl].
  split; [|by vm_compute]. exact (proj2 (Hh demo_rd 1 pub_text _ Hi Hcl)).
Defined.
