(* ===== verification/Fanout.v ===== *)
(** * internal/fanout/sharded.go: the sharded pool

    Publishers, workers and closers interleaved at the points where they touch
    the lock or a queue.  A publisher holds [mu] for reading from its check of
    [closed] until its send completes; the closer's critical section runs with
    no reader.  [ShardedPool_Fanout] then gives the pool to the handlers. *)
From S2P Require Import Prelude GoStd Token Channel Registry Limiter Hub Conn World.
From stdpp Require Import options.

Definition queueCap : nat := 1024.

Record job : Type := MkJob { ch : loc; msg : string }.

#[export] Instance job_eq_dec : EqDecision job.
Proof. solve_decision. Defined.

(** A worker of [run]: receiving, broadcasting, or returned. *)
Inductive worker : Type :=
  | WIdle
  | WBusy (j : job)
  | WExit.

#[export] Instance worker_eq_dec : EqDecision worker.
Proof. solve_decision. Defined.

Record shard : Type := MkShard { queue : list job; wk : worker }.

(** A goroutine inside [Broadcast] or [Close]. *)
Inductive caller : Type :=
  | Sending (j : job)        (* holds [mu.RLock], [closed] was false *)
  | Panicked                 (* sent on a closed queue *)
  | Closing                  (* set [closed], waits for the workers *)
  | Closed (waited : bool).  (* [Close] returned *)

Record pool : Type := MkPool {
  shards : list shard;
  closed : bool;             (* the flag, and the queues: set together *)
  callers : gmap nat caller;
  enqueued : list job;       (* history, oldest first *)
  delivered : list job;
}.

Definition NewShardedPool (workers : nat) : pool :=
  MkPool (replicate workers (MkShard [] WIdle)) false ∅ [] [].

Section Pool.
(** [c.Name] never changes. *)
Context (name_of : loc -> string).

Definition shardFor (workers : nat) (name : string) : nat :=
  Z.to_nat (Sum32a name mod Z.of_nat workers).

Definition shard_of (p : pool) (j : job) : nat := shardFor (length (shards p)) (name_of (ch j)).

Definition no_sender (p : pool) : Prop := forall t j, callers p !! t <> Some (Sending j).

Definition set_caller (t : nat) (c : caller) (p : pool) : pool :=
  MkPool (shards p) (closed p) (<[t := c]> (callers p)) (enqueued p) (delivered p).
Definition end_caller (t : nat) (p : pool) : pool :=
  MkPool (shards p) (closed p) (delete t (callers p)) (enqueued p) (delivered p).
Definition set_shard (i : nat) (s : shard) (p : pool) : pool :=
  MkPool (<[i := s]> (shards p)) (closed p) (callers p) (enqueued p) (delivered p).

Definition log_enqueued (j : job) (p : pool) : pool :=
  MkPool (shards p) (closed p) (callers p) (enqueued p ++ [j]) (delivered p).
Definition log_delivered (j : job) (p : pool) : pool :=
  MkPool (shards p) (closed p) (callers p) (enqueued p) (delivered p ++ [j]).

Inductive pool_step : pool -> pool -> Prop :=
  (** [Broadcast]: after [Close] a no-op, else on to the send. *)
  | PsDropped p t :
      callers p !! t = None -> closed p = true -> pool_step p p
  | PsBroadcast p t j :
      callers p !! t = None -> closed p = false -> pool_step p (set_caller t (Sending j) p)
  (** The send: blocked while the queue is full, a panic on a closed one. *)
  | PsSend p t j s :
      callers p !! t = Some (Sending j) -> closed p = false ->
      shards p !! shard_of p j = Some s -> length (queue s) < queueCap ->
      pool_step p (log_enqueued j (end_caller t
                     (set_shard (shard_of p j) (MkShard (queue s ++ [j]) (wk s)) p)))
  | PsPanic p t j :
      callers p !! t = Some (Sending j) -> closed p = true -> pool_step p (set_caller t Panicked p)
  (** [run]: receive, broadcast, and return once the queue is closed and empty. *)
  | PsTake p i j q :
      shards p !! i = Some (MkShard (j :: q) WIdle) ->
      pool_step p (set_shard i (MkShard q (WBusy j)) p)
  | PsDeliver p i j q :
      shards p !! i = Some (MkShard q (WBusy j)) ->
      pool_step p (log_delivered j (set_shard i (MkShard q WIdle) p))
  | PsExit p i :
      shards p !! i = Some (MkShard [] WIdle) -> closed p = true ->
      pool_step p (set_shard i (MkShard [] WExit) p)
  (** [Close]: the write lock waits for the senders. *)
  | PsClose p t :
      callers p !! t = None -> no_sender p -> closed p = false ->
      pool_step p (MkPool (shards p) true (<[t := Closing]> (callers p)) (enqueued p) (delivered p))
  | PsCloseAgain p t :
      callers p !! t = None -> no_sender p -> closed p = true ->
      pool_step p (set_caller t (Closed false) p)
  | PsWaited p t :
      callers p !! t = Some Closing -> Forall (fun s => wk s = WExit) (shards p) ->
      pool_step p (set_caller t (Closed true) p).

(** ** The invariant *)

Definition in_hand (s : shard) : list job :=
  match wk s with WBusy j => [j] | _ => [] end.

(** The jobs of one shard, in order. *)
Definition of_shard (p : pool) (i : nat) (js : list job) : list job :=
  filter (fun j => shard_of p j = i) js.

Record pool_inv (n : nat) (p : pool) : Prop := {
  pi_len : length (shards p) = n;
  (** What was enqueued on a shard is what was delivered, what its worker has
      in hand, and what is queued, in this order. *)
  pi_fifo i s : shards p !! i = Some s ->
    of_shard p i (enqueued p) = of_shard p i (delivered p) ++ in_hand s ++ queue s;
  pi_shard i s j : shards p !! i = Some s -> j ∈ in_hand s ++ queue s -> shard_of p j = i;
  pi_cap i s : shards p !! i = Some s -> length (queue s) <= queueCap;
  pi_exit i s : shards p !! i = Some s -> wk s = WExit -> queue s = [] /\ closed p = true;
  pi_closed : closed p = true -> no_sender p;
  pi_panic t : callers p !! t <> Some Panicked;
  pi_closing t : callers p !! t = Some Closing -> closed p = true;
  pi_waited t : callers p !! t = Some (Closed true) ->
    closed p = true /\ Forall (fun s => wk s = WExit) (shards p);
}.

Lemma pool_inv_new n : pool_inv n (NewShardedPool n).
Proof using Type.
  unfold NewShardedPool. split; cbn; try done.
  - apply length_replicate.
  - by intros i s [-> _]%lookup_replicate.
  - intros i s j [-> _]%lookup_replicate. cbn. set_solver.
  - intros i s [-> _]%lookup_replicate. cbn. lia.
  - by intros i s [-> _]%lookup_replicate.
Qed.

Lemma of_shard_snoc p i js j :
  of_shard p i (js ++ [j]) = of_shard p i js ++ (if decide (shard_of p j = i) then [j] else []).
Proof using Type. unfold of_shard. rewrite filter_app. by rewrite filter_cons, filter_nil. Qed.

(** Callers change, shards and logs do not. *)
Lemma pool_inv_callers n p cs b :
  pool_inv n p ->
  (closed p = true -> b = true) ->
  (b = true -> forall t j, cs !! t <> Some (Sending j)) ->
  (forall t, cs !! t <> Some Panicked) ->
  (forall t, cs !! t = Some Closing -> b = true) ->
  (forall t, cs !! t = Some (Closed true) -> b = true /\ Forall (fun s => wk s = WExit) (shards p)) ->
  pool_inv n (MkPool (shards p) b cs (enqueued p) (delivered p)).
Proof using Type.
  intros [] Hb H1 H2 H3 H4. split; cbn; try done.
  intros i s Hi Hw. destruct (pi_exit0 _ _ Hi Hw). auto.
Qed.

(** One shard and the logs change, consistently. *)
Lemma pool_inv_shard n p i s s' cs en de :
  pool_inv n p -> shards p !! i = Some s ->
  (forall k, k <> i -> of_shard p k en = of_shard p k (enqueued p)
                       /\ of_shard p k de = of_shard p k (delivered p)) ->
  of_shard p i en = of_shard p i de ++ in_hand s' ++ queue s' ->
  (forall j, j ∈ in_hand s' ++ queue s' -> shard_of p j = i) ->
  length (queue s') <= queueCap ->
  (wk s = WExit -> wk s' = WExit) ->
  (wk s' = WExit -> queue s' = [] /\ closed p = true) ->
  (forall t c, cs !! t = Some c -> callers p !! t = Some c) ->
  pool_inv n (MkPool (<[i := s']> (shards p)) (closed p) cs en de).
Proof using Type.
  intros [Hlen Hfifo Hsh Hcap Hex Hcl Hpa Hcg Hwt] Hi Hother Hen Hs' Hc' Hmono Hx Hcs.
  assert (i < length (shards p)) as Hlt by (by eapply lookup_lt_Some).
  assert (forall k x, <[i := s']> (shards p) !! k = Some x ->
    k = i /\ x = s' \/ k <> i /\ shards p !! k = Some x) as Hl.
  { intros k x. rewrite list_lookup_insert. case_decide as Hk.
    - destruct Hk as [-> _]. intros [= <-]. by left.
    - destruct (decide (i = k)) as [->|]; [by destruct Hk|]. by right. }
  assert (forall j, shard_of (MkPool (<[i := s']> (shards p)) (closed p) cs en de) j = shard_of p j)
    as Hso by (intros j; unfold shard_of; cbn; by rewrite length_insert).
  assert (forall k js, of_shard (MkPool (<[i := s']> (shards p)) (closed p) cs en de) k js
    = of_shard p k js) as Hof.
  { intros k js. unfold of_shard. apply list_filter_iff. intros j. by rewrite Hso. }
  split; cbn -[of_shard shard_of].
  - by rewrite length_insert.
  - intros k x Hk. rewrite !Hof. destruct (Hl _ _ Hk) as [[-> ->]|[Hne Hx']]; [done|].
    destruct (Hother k Hne) as [-> ->]. by apply Hfifo.
  - intros k x j Hk. rewrite Hso. destruct (Hl _ _ Hk) as [[-> ->]|[Hne Hx']]; [apply Hs'|by apply Hsh].
  - intros k x Hk. destruct (Hl _ _ Hk) as [[-> ->]|[Hne Hx']]; [done|by eapply Hcap].
  - intros k x Hk. destruct (Hl _ _ Hk) as [[-> ->]|[Hne Hx']]; [done|by eapply Hex].
  - intros Hb t j Ht. by apply (Hcl Hb t j), Hcs.
  - intros t Ht. by apply (Hpa t), Hcs.
  - intros t Ht. by eapply Hcg, Hcs.
  - intros t Ht. destruct (Hwt t) as [Hb Hf]; [by apply Hcs|]. split; [done|].
    apply Forall_insert; [done|]. apply Hmono. by eapply Forall_lookup_1 in Hf.
Qed.

(** One caller moves, possibly closing the pool. *)
Lemma pool_inv_move n p t c b :
  pool_inv n p -> (closed p = true -> b = true) ->
  (b = true -> no_sender p /\ forall j, c <> Sending j) -> c <> Panicked -> (c = Closing -> b = true) ->
  (c = Closed true -> b = true /\ Forall (fun s => wk s = WExit) (shards p)) ->
  pool_inv n (MkPool (shards p) b (<[t := c]> (callers p)) (enqueued p) (delivered p)).
Proof using Type.
  intros Hinv Hb Hs Hp Hc Hw. pose proof Hinv as [_ _ _ _ _ _ Hpa Hcg Hwt]. apply pool_inv_callers; [done|done| | | |].
  - intros Hb' t' j [[_ E]|[_ Ht]]%lookup_insert_Some; [by apply (Hs Hb') in E|by eapply (proj1 (Hs Hb') t')].
  - intros t' [[_ E]|[_ Ht]]%lookup_insert_Some; [done|by eapply Hpa].
  - intros t' [[_ E]|[_ Ht]]%lookup_insert_Some; [by apply Hc|]. apply Hb. by eapply Hcg.
  - intros t' [[_ E]|[_ Ht]]%lookup_insert_Some; [by apply Hw|]. apply Hwt in Ht as [Hcl Hx]. split; [by apply Hb|done].
Qed.

Lemma pool_inv_step n p p' : pool_inv n p -> pool_step p p' -> pool_inv n p'.
Proof using Type.
  intros Hinv Hstep. pose proof Hinv as [Hlen Hfifo Hsh Hcap Hex Hcl Hpa Hcg Hwt].
  destruct Hstep as [p t Ht Hb|p t j Ht Hb|p t j s Ht Hb Hs Hroom|p t j Ht Hb|p i j q Hi
    |p i j q Hi|p i Hi Hb|p t Ht Hns Hb|p t Ht Hns Hb|p t Ht Hf].
  - done.
  - apply pool_inv_move; by rewrite ?Hb.
  - apply (pool_inv_shard n p _ s); try done.
    + intros k Hk. rewrite of_shard_snoc, decide_False by done. by rewrite app_nil_r.
    + rewrite of_shard_snoc, decide_True by done.
      cbn [enqueued delivered end_caller set_shard]. rewrite (Hfifo _ _ Hs).
      unfold in_hand. cbn [wk queue]. by rewrite !app_assoc.
    + intros j' Hj'. cbn in Hj'. unfold in_hand in Hj'. cbn in Hj'. rewrite app_assoc in Hj'.
      apply elem_of_app in Hj' as [Hj'|Hj']; [by eapply Hsh|by apply list_elem_of_singleton in Hj' as ->].
    + cbn. rewrite length_app. cbn. lia.
    + cbn. intros Hw. destruct (Hex _ _ Hs Hw) as [_ Hb']. congruence.
    + cbn. by intros t' c [_ Hc]%lookup_delete_Some.
  - exfalso. by eapply Hcl.
  - apply (pool_inv_shard n p i (MkShard (j :: q) WIdle)); try done.
    + cbn [enqueued delivered set_shard]. by rewrite (Hfifo _ _ Hi).
    + intros j' Hj'. by eapply Hsh.
    + specialize (Hcap _ _ Hi). cbn in *. lia.
  - pose proof (Hsh _ _ j Hi ltac:(cbn; set_solver)) as Hj.
    apply (pool_inv_shard n p i (MkShard q (WBusy j))); try done.
    + intros k Hk. rewrite of_shard_snoc, decide_False by congruence. by rewrite app_nil_r.
    + rewrite of_shard_snoc, decide_True by done.
      cbn [enqueued delivered end_caller set_shard]. rewrite (Hfifo _ _ Hi). unfold in_hand. cbn [wk queue].
      by rewrite <- app_assoc.
    + intros j' Hj'. eapply Hsh; [done|]. cbn in *. set_solver.
    + by specialize (Hcap _ _ Hi).
  - apply (pool_inv_shard n p i (MkShard [] WIdle)); try done.
    + cbn [enqueued delivered set_shard]. by rewrite (Hfifo _ _ Hi).
    + intros j'. cbn. set_solver.
    + cbn. lia.
  - by apply pool_inv_move.
  - apply pool_inv_move; by rewrite ?Hb.
  - pose proof (Hcg _ Ht) as Hb. apply pool_inv_move; try done. intros _. split; [by apply Hcl|done].
Qed.

Lemma pool_reach_inv n p : rtc pool_step (NewShardedPool n) p -> pool_inv n p.
Proof using Type. apply (rtc_invariant _ (pool_inv n)); [apply pool_inv_new|apply pool_inv_step]. Qed.
(** ** Order and barrier *)

(** The jobs of one channel, in order. *)
Definition of_channel (name : string) (js : list job) : list job :=
  filter (fun j => name_of (ch j) = name) js.

Lemma worker_lt n name : 0 < n -> shardFor n name < n.
Proof using Type.
  intros Hn. unfold shardFor. pose proof (Z.mod_pos_bound (Sum32a name) (Z.of_nat n)). lia.
Qed.

Lemma of_channel_shard n p name js :
  length (shards p) = n ->
  of_channel name (of_shard p (shardFor n name) js) = of_channel name js.
Proof using Type.
  intros Hn. unfold of_channel, of_shard. rewrite list_filter_filter.
  apply list_filter_iff. intros j. unfold shard_of. rewrite Hn. naive_solver.
Qed.

(** C15. The sharded pool is a queue per channel. In every interleaving of
    publishers, workers and closers, what has been broadcast on a channel is, in
    order and without loss or duplication, a prefix of what was enqueued on it,
    and nothing is ever sent on a closed queue; once a Close has returned after
    waiting, everything enqueued was broadcast. *)
Theorem pool_delivers_in_order n p name :
  0 < n -> rtc pool_step (NewShardedPool n) p ->
  (exists rest, of_channel name (enqueued p) = of_channel name (delivered p) ++ rest
     /\ forall t, callers p !! t = Some (Closed true) -> rest = [])
  /\ (forall t, callers p !! t <> Some Panicked)
  /\ Forall (fun s => length (queue s) <= queueCap) (shards p).
Proof using Type.
  intros Hn Hr%pool_reach_inv. destruct Hr as [Hlen Hfifo Hsh Hcap Hex Hcl Hpa Hcg Hwt].
  split_and!; [|done|by apply Forall_lookup].
  pose proof (worker_lt n name Hn) as Hlt. rewrite <- Hlen in Hlt at 2.
  destruct (lookup_lt_is_Some_2 _ _ Hlt) as [s Hs].
  exists (of_channel name (in_hand s ++ queue s)). split.
  - rewrite <- (of_channel_shard n p name (enqueued p)), <- (of_channel_shard n p name (delivered p)) by done.
    rewrite (Hfifo _ _ Hs). unfold of_channel. by rewrite filter_app.
  - intros t [Hb Hf]%Hwt. pose proof (Forall_lookup_1 _ _ _ _ Hf Hs) as Hw. cbn in Hw.
    destruct (Hex _ _ Hs Hw) as [Hq _]. by rewrite Hq, app_nil_r; unfold in_hand; rewrite Hw.
Qed.

(** ** Termination *)

Definition shard_work (s : shard) : nat :=
  2 * length (queue s) + match wk s with WIdle => 1 | WBusy _ => 2 | WExit => 0 end.

Fixpoint total (f : shard -> nat) (l : list shard) : nat :=
  match l with [] => 0 | s :: l' => f s + total f l' end.

Lemma total_insert f l i s s' :
  l !! i = Some s -> total f (<[i := s']> l) + f s = total f l + f s'.
Proof using Type.
  revert i. induction l as [|x l IH]; intros [|i] Hi; simplify_eq/=; [lia|].
  specialize (IH i Hi). lia.
Qed.

Definition returned (c : caller) : Prop := match c with Closed _ => True | _ => False end.
#[export] Instance returned_dec c : Decision (returned c).
Proof using Type. destruct c; unfold returned; apply _. Defined.

(** Calls still running, weighed: a send puts one job into a queue. *)
Definition call_work (c : caller) : nat :=
  match c with Sending _ => 3 | Closing => 1 | _ => 0 end.

Definition calls (m : gmap nat caller) : nat := map_fold (fun _ c n => call_work c + n) 0 m.

Lemma calls_insert m t c :
  m !! t = None -> calls (<[t := c]> m) = call_work c + calls m.
Proof using Type.
  intros Ht. unfold calls. rewrite map_fold_insert_L; [done| |done]. intros. lia.
Qed.

Lemma calls_delete m t c : m !! t = Some c -> calls m = call_work c + calls (delete t m).
Proof using Type.
  intros Ht. rewrite <- (calls_insert (delete t m) t c) by apply lookup_delete_eq.
  by rewrite insert_delete_id.
Qed.

Lemma calls_replace m t c c' :
  m !! t = Some c -> calls (<[t := c']> m) + call_work c = calls m + call_work c'.
Proof using Type.
  intros Ht. rewrite (calls_delete _ _ _ Ht), <- (insert_delete_eq m t c').
  rewrite calls_insert by apply lookup_delete_eq. lia.
Qed.

Definition pool_work (p : pool) : nat := total shard_work (shards p) + calls (callers p).

(** No call is left running. *)
Definition settled (p : pool) : Prop :=
  forall t c, callers p !! t = Some c -> returned c.

(** A step of what has started: no call begins, and something happens. *)
Definition started_step (p p' : pool) : Prop :=
  pool_step p p' /\ p' <> p /\ forall t, callers p !! t = None -> callers p' !! t = None.

Lemma started_less n p p' : pool_inv n p -> started_step p p' -> pool_work p' < pool_work p.
Proof using Type.
  intros Hinv (Hstep & Hne & Hold). unfold pool_work.
  destruct Hstep as [p t Ht Hb|p t j Ht Hb|p t j s Ht Hb Hs Hroom|p t j Ht Hb|p i j q Hi
    |p i j q Hi|p i Hi Hb|p t Ht Hns Hb|p t Ht Hns Hb|p t Ht Hf];
    cbn [shards callers set_shard set_caller end_caller log_enqueued log_delivered] in *.
  - done.
  - specialize (Hold t Ht). by rewrite lookup_insert_eq in Hold.
  - pose proof (total_insert shard_work _ _ _ (MkShard (queue s ++ [j]) (wk s)) Hs) as Hw.
    assert (shard_work (MkShard (queue s ++ [j]) (wk s)) = 2 + shard_work s) as Hj
      by (unfold shard_work; cbn [queue wk]; rewrite length_app; cbn; lia).
    pose proof (calls_delete _ _ _ Ht) as Hcd. cbn [call_work] in Hcd. lia.
  - by destruct (pi_closed _ _ Hinv Hb t j).
  - pose proof (total_insert shard_work _ _ _ (MkShard q (WBusy j)) Hi) as Hw. cbn in *. lia.
  - pose proof (total_insert shard_work _ _ _ (MkShard q WIdle) Hi) as Hw. cbn in *. lia.
  - pose proof (total_insert shard_work _ _ _ (MkShard [] WExit) Hi) as Hw. cbn in *. lia.
  - specialize (Hold t Ht). by rewrite lookup_insert_eq in Hold.
  - specialize (Hold t Ht). by rewrite lookup_insert_eq in Hold.
  - pose proof (calls_replace _ _ _ (Closed true) Ht) as Hr. cbn in Hr. lia.
Qed.

Lemma shard_progress p :
  (exists p', started_step p p')
  \/ Forall (fun s => queue s = [] /\ wk s = WIdle \/ wk s = WExit) (shards p).
Proof using Type.
  destruct (decide (Forall (fun s => queue s = [] /\ wk s = WIdle \/ wk s = WExit) (shards p)))
    as [Hf|Hf]; [by right|left].
  apply not_Forall_Exists in Hf; [|apply _].
  apply Exists_exists in Hf as (s & [i Hi]%list_elem_of_lookup & Hs).
  destruct s as [q [|j|]]; cbn in Hs; [| |naive_solver].
  - destruct q as [|j q]; [naive_solver|]. eexists. split; [by eapply PsTake|]. split; [|done].
    intros He%(f_equal (fun p => shards p !! i)). cbn in He.
    rewrite list_lookup_insert_eq, Hi in He by (by eapply lookup_lt_Some). by simplify_eq.
  - eexists. split; [by eapply PsDeliver|]. split; [|done].
    intros He%(f_equal (fun p => shards p !! i)). cbn in He.
    rewrite list_lookup_insert_eq, Hi in He by (by eapply lookup_lt_Some). by simplify_eq.
Qed.

(** Once the shards are idle: a call that has not returned can go on. *)
Lemma call_progress n p t c :
  0 < n -> pool_inv n p -> Forall (fun s => queue s = [] /\ wk s = WIdle \/ wk s = WExit) (shards p) ->
  callers p !! t = Some c -> ~ returned c -> exists p', started_step p p'.
Proof using Type.
  intros Hn Hinv Hq Hc Hnc. pose proof Hinv as [Hlen Hfifo Hsh Hcap Hex Hcl Hpa Hcg Hwt].
  destruct c as [j| | |w]; [|by destruct (Hpa t)| |by destruct Hnc].
  - assert (closed p = false) as Hb.
    { apply not_true_is_false. intros Hb. by apply (Hcl Hb t j). }
    pose proof (worker_lt n (name_of (ch j)) Hn) as Hlt. rewrite <- Hlen in Hlt.
    destruct (lookup_lt_is_Some_2 _ _ Hlt) as [[q w] Hs].
    assert (q = []) as ->.
    { pose proof (Forall_lookup_1 _ _ _ _ Hq Hs) as [[? _]|Hw]; [done|]. cbn in Hw.
      by destruct (Hex _ _ Hs Hw). }
    eexists. split; [eapply PsSend; [exact Hc|done|exact Hs|unfold queueCap; cbn; lia]|]. split.
    + intros He%(f_equal (fun p => callers p !! t)). cbn in He. rewrite lookup_delete_eq in He. congruence.
    + intros t' Ht'. cbn. rewrite lookup_delete. by case_decide.
  - destruct (decide (Forall (fun s => wk s = WExit) (shards p))) as [Hf|Hf].
    + eexists. split; [by eapply PsWaited|]. split.
      * intros He%(f_equal (fun p => callers p !! t)). cbn in He. rewrite lookup_insert_eq, Hc in He. done.
      * intros t' Ht'. cbn. rewrite lookup_insert_ne; [done|congruence].
    + apply not_Forall_Exists in Hf; [|apply _].
      apply Exists_exists in Hf as (s & [i Hi]%list_elem_of_lookup & Hw).
      pose proof (Forall_lookup_1 _ _ _ _ Hq Hi) as [[Hqs Hws]|Hws]; [|by cbn in Hws].
      destruct s as [q w]. cbn in Hqs, Hws. subst q w.
      eexists. split; [eapply PsExit; [done|by eapply Hcg]|]. split; [|done].
      intros He%(f_equal (fun p => shards p !! i)). cbn in He.
      rewrite list_lookup_insert_eq, Hi in He by (by eapply lookup_lt_Some). by simplify_eq.
Qed.

(** Nothing is queued or in hand, so all that was enqueued was broadcast. *)
Lemma idle_delivered n p name :
  0 < n -> pool_inv n p -> Forall (fun s => queue s = [] /\ wk s = WIdle \/ wk s = WExit) (shards p) ->
  of_channel name (delivered p) = of_channel name (enqueued p).
Proof using Type.
  intros Hn [Hlen Hfifo _ _ Hex _ _ _ _] Hq.
  pose proof (worker_lt n name Hn) as Hlt. rewrite <- Hlen in Hlt at 2.
  destruct (lookup_lt_is_Some_2 _ _ Hlt) as [s Hs].
  rewrite <- (of_channel_shard n p name (enqueued p)), <- (of_channel_shard n p name (delivered p)) by done.
  rewrite (Hfifo _ _ Hs). assert (in_hand s ++ queue s = []) as ->; [|by rewrite app_nil_r].
  unfold in_hand. pose proof (Forall_lookup_1 _ _ _ _ Hq Hs) as [[-> ->]|Hw]; [done|]. cbn in Hw.
  destruct (Hex _ _ Hs Hw) as [-> _]. by rewrite Hw.
Qed.

Lemma pool_progress n p :
  0 < n -> pool_inv n p ->
  (exists p', started_step p p')
  \/ settled p /\ forall name, of_channel name (delivered p) = of_channel name (enqueued p).
Proof using Type.
  intros Hn Hinv. destruct (shard_progress p) as [?|Hq]; [by left|].
  destruct (decide (map_Forall (fun _ c => returned c) (callers p))) as [Hall|Hnot].
  - right. split; [intros t c Hc; by apply (Hall t c)|]. intros name. by eapply idle_delivered.
  - left. apply map_not_Forall in Hnot; [|apply _]. destruct Hnot as (t & c & Hc & Hnc). by eapply call_progress.
Qed.

Lemma started_bound n k p p' : pool_inv n p -> nsteps started_step k p p' -> k + pool_work p' <= pool_work p.
Proof using Type.
  intros Hinv Hk. induction Hk as [p|k p p1 p' Hs _ IH]; [done|].
  pose proof (started_less _ _ _ Hinv Hs). specialize (IH (pool_inv_step _ _ _ Hinv (proj1 Hs))). lia.
Qed.

(** C16. The sharded pool always comes to rest. From every reachable state,
    running in any order only what has started already (no call begins), there
    are at most pool_work steps; and when nothing more can happen, no publisher
    is blocked, every Close has returned, and on every channel what was enqueued
    has been broadcast, in order. *)
Theorem pool_terminates n p :
  0 < n -> rtc pool_step (NewShardedPool n) p ->
  (forall k p', nsteps started_step k p p' -> k <= pool_work p)
  /\ forall p', rtc started_step p p' ->
       (exists p'', started_step p' p'')
       \/ settled p' /\ forall name, of_channel name (delivered p') = of_channel name (enqueued p').
Proof using Type.
  intros Hn Hr%pool_reach_inv. split.
  - intros k p' Hk. pose proof (started_bound _ _ _ _ Hr Hk). lia.
  - intros p' Hs. apply (pool_progress n); [done|]. revert Hr.
    induction Hs as [|p p1 p' [Hs _] _ IH]; [done|]. intros Hr. apply IH. by eapply pool_inv_step.
Qed.
End Pool.

(** ** Concrete runs *)

(** One worker; a publisher's job is queued, then [Close] begins. *)
Definition demo_job : job := MkJob 0 "hi".
Definition demo_queued : pool :=
  MkPool [MkShard [demo_job] WIdle] false ∅ [demo_job] [].
Definition demo_closing : pool :=
  MkPool [MkShard [demo_job] WIdle] true {[1 := Closing]} [demo_job] [].

Lemma demo_queued_reach : rtc (pool_step (fun _ => "room")) (NewShardedPool 1) demo_queued.
Proof.
  eapply rtc_l; [by apply (PsBroadcast _ _ 1 demo_job)|].
  eapply rtc_l; [|apply rtc_refl].
  refine (eq_rect _ (pool_step _ _) (PsSend (fun _ => "room")
    (set_caller 1 (Sending demo_job) (NewShardedPool 1)) 1 demo_job (MkShard [] WIdle) _ _ _ _) _ _);
    [done..| |done].
  unfold queueCap. cbn. lia.
Qed.

Lemma demo_closing_reach : rtc (pool_step (fun _ => "room")) (NewShardedPool 1) demo_closing.
Proof.
  eapply rtc_r; [exact demo_queued_reach|]. by apply (PsClose _ demo_queued 1).
Qed.

Lemma pool_delivers_in_order_witness :
  exists rest, [demo_job] = [] ++ rest.
Proof.
  destruct (pool_delivers_in_order (fun _ => "room") 1 demo_queued "room") as [[rest [Hr _]] _].
  - lia.
  - exact demo_queued_reach.
  - exists rest. exact Hr.
Defined.

(** The worker takes the job, delivers it and returns, and the Close returns. *)
Lemma pool_terminates_witness :
  let step := started_step (fun _ => "room") in
  (forall k p', nsteps step k demo_closing p' -> k <= 4)
  /\ exists p', rtc step demo_closing p'
       /\ ((exists p'', step p' p'') \/ settled p' /\ forall name,
             of_channel (fun _ => "room") name (delivered p') = of_channel (fun _ => "room") name (enqueued p')).
Proof.
  destruct (pool_terminates (fun _ => "room") 1 demo_closing) as [Hb Hs]; [lia|exact demo_closing_reach|].
  split; [exact Hb|]. exists demo_closing. split; [apply rtc_refl|apply Hs, rtc_refl].
Defined.

(** ** The pool behind the handlers *)

(** What the handlers see of the pool: its queues.  A broadcast whose queue is
    full waits until the worker has taken a job; here the worker also finishes
    that job before the publisher goes on. *)
Record ShardedPool : Type := MkShardedPool {
  sp_queues : list (list job);
  sp_closed : bool;
}.

Section Handlers.
Context {R B : Type} `{Registry R, TokenBucket B}.
Implicit Types (w : World R B ShardedPool).

Definition set_queue (i : nat) (q : list job) w : World R B ShardedPool :=
  set_fan (MkShardedPool (<[i := q]> (sp_queues (w_fan w))) (sp_closed (w_fan w))) w.

(** One iteration of worker [i]'s [run]. *)
Definition run_worker (cfg : Config) (i : nat) w : World R B ShardedPool :=
  match sp_queues (w_fan w) !! i with
  | Some (j :: q) => hub_Broadcast cfg (ch j) (msg j) (set_queue i q w)
  | _ => w
  end.

Definition pool_Broadcast (cfg : Config) (c : loc) (m : string) w : World R B ShardedPool :=
  if sp_closed (w_fan w) then w else
  let i := shardFor (length (sp_queues (w_fan w))) (Name (chan_at c (w_heap w))) in
  let w := match sp_queues (w_fan w) !! i with
           | Some q => if decide (length q < queueCap) then w else run_worker cfg i w
           | None => w
           end in
  match sp_queues (w_fan w) !! i with
  | Some q => set_queue i (q ++ [MkJob c m]) w
  | None => w
  end.

(** [Close] drops no job: the queues stay for the workers to drain. *)
Definition pool_Close (p : ShardedPool) : ShardedPool := MkShardedPool (sp_queues p) true.

#[export] Instance ShardedPool_Fanout : Fanout R B ShardedPool := {
  Broadcast := pool_Broadcast;
  Conn.Close := pool_Close;
}.

Lemma run_worker_core cfg i w : core_eq w (run_worker cfg i w).
Proof using Type.
  unfold run_worker. destruct (sp_queues (w_fan w) !! i) as [[|j q]|]; [reflexivity| |reflexivity].
  etrans; [apply core_set_fan|apply core_Broadcast].
Qed.

Lemma run_worker_limiter cfg i w : w_limiter (run_worker cfg i w) = w_limiter w.
Proof using Type.
  unfold run_worker. destruct (sp_queues (w_fan w) !! i) as [[|j q]|]; [done| |done].
  by rewrite hub_Broadcast_limiter.
Qed.

#[export] Instance ShardedPool_laws : FanoutLaws R B ShardedPool.
Proof using Type.
  refine {| work := fun cfg w w' => exists i, w' = run_worker cfg i w |}.
  - intros cfg l m w. cbn. unfold pool_Broadcast. destruct (sp_closed _); [reflexivity|].
    set (i := shardFor _ _). set (w1 := match _ with Some q => _ | None => w end).
    assert (core_eq w w1) as Hw1.
    { subst w1. destruct (sp_queues (w_fan w) !! i); [|reflexivity].
      case_decide; [reflexivity|apply run_worker_core]. }
    destruct (sp_queues (w_fan w1) !! i); [|done]. etrans; [exact Hw1|apply core_set_fan].
  - intros cfg l m w. cbn. unfold pool_Broadcast. destruct (sp_closed _); [done|].
    set (i := shardFor _ _). set (w1 := match _ with Some q => _ | None => w end).
    assert (w_limiter w1 = w_limiter w) as Hw1.
    { subst w1. destruct (sp_queues (w_fan w) !! i); [|done].
      case_decide; [done|apply run_worker_limiter]. }
    by destruct (sp_queues (w_fan w1) !! i).
  - intros cfg w w' [i ->]. apply run_worker_core.
Defined.
End Handlers.
