(* ===== verification/Lines.v ===== *)
(** * The sharded fan-out, as a specification

    With the pool a publish is not one operation: its event waits in the line of
    its channel's shard, and reaches whoever is a member when a worker gets to
    it.  The specification of [Spec] with such lines; and the server with the
    sharded pool, each of whose steps is a run of at most two operations of
    it. *)
From S2P Require Import Prelude GoStd Utf8 Token Channel Registry Sweep Limiter Hub Frame Conn Handler World Membership Run Protocol Service Fanout Spec.
From stdpp Require Import options.

(** ** The specification *)

(** A waiting event; one whose channel was collected meanwhile is for nobody. *)
Record event : Type := MkEvent {
  ev_name : string;
  ev_frame : string;
  ev_live : bool;
}.

Record lines_service : Type := MkLines {
  now : service;
  lines : list (list event);
}.

Inductive lop : Type :=
  | Now (o : sop)
  | Queue (i : conn_id) (n : string) (data : option string) (id : string)
  | Serve (k : nat)
  | Forget (X : gset string).

Definition line_of (s : lines_service) (n : string) : nat := shardFor (length (lines s)) n.

Definition forget (X : gset string) (e : event) : event :=
  MkEvent (ev_name e) (ev_frame e) (ev_live e && negb (bool_decide (ev_name e ∈ X))).

Definition serve (cfg : Config) (e : event) (s : service) : service :=
  if ev_live e then to_all cfg (ev_name e) (ev_frame e) s else s.

Definition leffect (cfg : Config) (o : lop) (s : lines_service) : lines_service :=
  match o with
  | Now o => MkLines (effect cfg o (now s)) (lines s)
  | Queue _ n data id =>
      MkLines (now s) (alter (.++ [MkEvent n (event_frame n data id) true]) (line_of s n) (lines s))
  | Serve k =>
      match lines s !! k with
      | Some (e :: q) => MkLines (serve cfg e (now s)) (<[k := q]> (lines s))
      | _ => s
      end
  | Forget X => MkLines (now s) (map (forget X) <$> lines s)
  end.

Definition lallowed (cfg : Config) (s : lines_service) (o : lop) : Prop :=
  match o with
  | Now o => is_publish o = false /\ allowed cfg (now s) o
  | Queue i n data id =>
      allowed cfg (now s) (Publish i n data id)
      /\ exists q, lines s !! line_of s n = Some q /\ length q < queueCap
  | Serve k => exists e q, lines s !! k = Some (e :: q)
  | Forget X => forall n, n ∈ X -> members (now s) n = ∅
  end.

(** A run of operations, and the runs of any. *)
Fixpoint lruns (cfg : Config) (os : list lop) (s s' : lines_service) : Prop :=
  match os with
  | [] => s' = s
  | o :: os => lallowed cfg s o /\ lruns cfg os (leffect cfg o s) s'
  end.

Definition lines_reach (cfg : Config) (s s' : lines_service) : Prop := exists os, lruns cfg os s s'.

Lemma lruns_app cfg os1 os2 s s1 s2 : lruns cfg os1 s s1 -> lruns cfg os2 s1 s2 -> lruns cfg (os1 ++ os2) s s2.
Proof. revert s. induction os1 as [|o os1 IH]; intros s; cbn; [by intros ->|]. intros [? ?] ?. eauto. Qed.

#[export] Instance lines_reach_preorder cfg : PreOrder (lines_reach cfg).
Proof.
  split; [intros s; by exists []|]. intros s s1 s2 [os1 H1] [os2 H2]. exists (os1 ++ os2). by eapply lruns_app.
Qed.

(** What serves the lines, and what a client's operation is here. *)
Definition internal (o : lop) : bool := match o with Serve _ | Forget _ => true | _ => false end.
Definition lines_op (o : sop) : lop :=
  match o with Publish i n data id => Queue i n data id | o => Now o end.

(** ** How registry and channels evolve under everything but subscribing *)

Section Evolution.
Context {R : Type} `{RegistryLaws R}.

(** Names stay, names are only given to new channels, and only channels that
    were empty in [h0] lose theirs. *)
Record evolves (h0 : Heap) (r : R) (h : Heap) (r' : R) (h' : Heap) : Prop := {
  el_next : next h <= next h';
  el_name l : l < next h -> Name (chan_at l h') = Name (chan_at l h);
  el_new n l : l < next h -> reg_abs r' !! n = Some l -> reg_abs r !! n = Some l;
  el_gone n l : reg_abs r !! n = Some l -> reg_abs r' !! n = Some l \/ Subscribers (chan_at l h0) = ∅;
}.

Lemma evolves_names h0 r h h' :
  next h' = next h -> (forall l, Name (chan_at l h') = Name (chan_at l h)) -> evolves h0 r h r h'.
Proof using Type. intros Hn Hname. split; [lia|by intros..|by left]. Qed.

Lemma evolves_trans h0 r h r1 h1 r2 h2 :
  evolves h0 r h r1 h1 -> evolves h0 r1 h1 r2 h2 -> evolves h0 r h r2 h2.
Proof using Type.
  intros [A1 A2 A3 A4] [B1 B2 B3 B4]. split.
  - lia.
  - intros l Hl. rewrite B2 by lia. by apply A2.
  - intros n l Hl Hr. apply A3; [done|]. apply B3; [lia|done].
  - intros n l Hr. destruct (A4 n l Hr) as [Hr1|]; [|by right]. by apply B4.
Qed.

(** The same subscribers are empty in both heaps. *)
Lemma evolves_base h0 h1 r h r' h' :
  (forall l, Subscribers (chan_at l h1) = Subscribers (chan_at l h0)) ->
  evolves h1 r h r' h' -> evolves h0 r h r' h'.
Proof using Type. intros Hs [A1 A2 A3 A4]. split; try done. intros n l. rewrite <- Hs. apply A4. Qed.

Lemma GetOrCreate_evolves name r h l r' h' :
  reg_ok r h -> GetOrCreate name (r, h) = (l, (r', h')) ->
  evolves h r h r' h' /\ forall l', Subscribers (chan_at l' h') = Subscribers (chan_at l' h).
Proof using Type.
  intros Hok Hg. destruct (GetOrCreate_spec _ _ _ _ _ _ Hok Hg) as (Hok' & Hl & Hother & Hold & Hcase).
  destruct Hcase as [(_ & -> & ->)|(Hnone & -> & Hc & Hn)]; [split; [by apply evolves_names|done]|]. split.
  - split; [lia|intros l' Hl'; by rewrite Hold|..]; intros n l'; (destruct (decide (n = name)) as [->|Hne];
      [|rewrite Hother by done]); [rewrite Hl; intros ? [= <-]; lia|done|by rewrite Hnone|by left].
  - intros l'. destruct (decide (l' < next h)); [by rewrite Hold|].
    rewrite (chan_at_fresh h) by (apply Hok || lia). destruct (decide (l' = next h)) as [->|]; [by rewrite Hc|].
    rewrite chan_at_fresh; [done|apply Hok'|lia].
Qed.

Lemma Sweep_evolves r h r' h' k :
  reg_ok r h -> Sweep r h = (r', h', k) ->
  evolves h r h r' h' /\ forall l', Subscribers (chan_at l' h') = Subscribers (chan_at l' h).
Proof using Type.
  intros Hok Hs. destruct (Sweep_pass _ _ _ _ _ Hok Hs) as (_ & Ha & _ & Hn & Hc).
  split; [|intros l'; by rewrite Hc]. split; [lia|intros l _; by rewrite Hc|..]; intros n l; rewrite Ha.
  - by intros _ [? _]%map_lookup_filter_Some.
  - intros Hl. destruct (decide (dead h (n, l))) as [Hd|Hd]; [by right|left]. by apply map_lookup_filter_Some.
Qed.

(** The retry loop only subscribes at its end. *)
Lemma retry_evolves k gc name i r h res r' h' :
  reg_ok r h -> subscribe_retry k gc name i (r, h) = (res, (r', h')) -> evolves h r h r' h'.
Proof using Type.
  revert gc r h. induction k as [|k IH]; intros gc r h Hok Hs; cbn [subscribe_retry] in Hs.
  { simplify_eq. by apply evolves_names. }
  destruct (GetOrCreate name (r, h)) as [l [r1 h1]] eqn:Hg.
  destruct (GetOrCreate_spec _ _ _ _ _ _ Hok Hg) as (Hok1 & _). destruct (GetOrCreate_evolves _ _ _ _ _ _ Hok Hg) as [He1 Hs1].
  set (sw := if default false (head gc) then _ else _) in Hs.
  assert (reg_ok sw.1 sw.2 /\ evolves h r h sw.1 sw.2 /\ forall l, Subscribers (chan_at l sw.2) = Subscribers (chan_at l h))
    as (Hok2 & He2 & Hs2).
  { subst sw. destruct (default false (head gc)); [|done]. destruct (Sweep r1 h1) as [[r2 h2] x] eqn:Hsw. cbn [fst snd].
    destruct (Sweep_pass _ _ _ _ _ Hok1 Hsw) as (Hok2 & _). destruct (Sweep_evolves _ _ _ _ _ Hok1 Hsw) as [He2 Hs2].
    split; [done|]. split; [|intros l'; by rewrite Hs2]. eapply evolves_trans; [exact He1|]. by eapply evolves_base. }
  destruct sw as [r2 h2]. cbn [fst snd] in *. clear Hg.
  destruct (Subscribe l i defaultMaxSubsPerChannel h2) as [[[]|[]] h3] eqn:Hsub.
  - simplify_eq. apply Subscribe_Ok in Hsub as (_ & _ & ->). eapply evolves_trans; [exact He2|].
    apply evolves_names; [done|]. intros l'. rewrite chan_at_set. by case_decide; subst.
  - apply Subscribe_Err in Hsub as [-> _]. by simplify_eq.
  - apply Subscribe_Err in Hsub as [-> _]. eapply evolves_trans; [exact He2|]. eapply evolves_base; [exact Hs2|].
    by eapply IH.
Qed.

Lemma Unsubscribe_names ls i h l : next (foldl (fun h l => Unsubscribe l i h) h ls) = next h
  /\ Name (chan_at l (foldl (fun h l => Unsubscribe l i h) h ls)) = Name (chan_at l h).
Proof using Type.
  revert h. induction ls as [|l0 ls IH]; intros h; cbn [foldl]; [done|].
  destruct (IH (Unsubscribe l0 i h)) as [-> ->]. split; [done|]. by rewrite Unsubscribe_at.
Qed.
End Evolution.

(** ** Steps that leave the fan-out alone *)

Section Stays.
Context {R B F : Type} `{RegistryLaws R, TokenBucket B, !Fanout R B F, !FanoutLaws R B F}.
Context (cfg : Config).
Implicit Types (w : World R B F) (c : Conn B) (i : conn_id) (msg : incoming).

(** Neither the store nor the fan-out changes. *)
Definition quiet w w' : Prop := w_reg w' = w_reg w /\ w_heap w' = w_heap w /\ w_fan w' = w_fan w.

Record stays w w' : Prop := {
  sy_evolves : evolves (w_heap w) (w_reg w) (w_heap w) (w_reg w') (w_heap w');
  sy_fan : w_fan w' = w_fan w;
}.

Lemma quiet_stays w w1 w' : quiet w w1 -> stays w1 w' -> stays w w'.
Proof using Type. intros (Hr & Hh & Hf) [He Hf']. split; [by rewrite <- Hr, <- Hh|congruence]. Qed.

Lemma stays_quiet w w' : quiet w w' -> stays w w'.
Proof using Type. intros (Hr & Hh & Hf). split; [|done]. rewrite Hr. apply evolves_names; by rewrite Hh. Qed.

Lemma quiet_allowControl rd i msg w : quiet w (allowControl rd i msg w).2.
Proof using Type. unfold allowControl. by repeat case_match. Qed.

Lemma quiet_check_token rd c msg w : quiet w (check_token cfg rd c msg w).2.
Proof using Type. unfold check_token. by repeat case_match. Qed.

Lemma stays_join rd i msg m w : world_ok w -> stays w (join rd i msg m w).
Proof using Type.
  intros Hok. unfold join. destruct (subscribe_retry _ _ _ _ _) as [r [r' h']] eqn:Hs.
  apply retry_evolves in Hs; [|apply Hok]. by repeat case_match.
Qed.

Lemma stays_subscribe rd i msg w : world_ok w -> stays w (handleSubscribe cfg rd i msg w).
Proof using Type.
  intros Hok. unfold handleSubscribe. destruct (_ && _); [by apply stays_quiet|].
  pose proof (quiet_allowControl rd i msg w) as Hq. pose proof (core_allowControl rd i msg w) as Hc.
  destruct (allowControl rd i msg w) as [ok w1]. cbn in Hq, Hc. destruct ok; cbn; [|by apply stays_quiet].
  apply (quiet_stays w w1); [done|]. destruct (w_conns w1 !! i) as [c|]; [|by apply stays_quiet].
  case_decide; [by apply stays_quiet|].
  pose proof (quiet_check_token rd c msg w1) as Hq2. pose proof (core_check_token cfg rd c msg w1) as Hc2.
  destruct (check_token cfg rd c msg w1) as [[[code m]|] w2]; cbn in Hq2, Hc2; apply (quiet_stays w1 w2); try done;
    [by apply stays_quiet|]. case_decide; [by apply stays_quiet|]. apply stays_join.
  eapply world_ok_core; [exact Hc2|]. by eapply world_ok_core.
Qed.

Lemma stays_unsubscribe rd i msg w : stays w (handleUnsubscribe rd i msg w).
Proof using Type.
  unfold handleUnsubscribe. pose proof (quiet_allowControl rd i msg w) as Hq.
  destruct (allowControl rd i msg w) as [ok w1]. cbn in Hq. destruct ok; cbn; [|by apply stays_quiet].
  apply (quiet_stays w w1); [done|]. destruct (w_conns w1 !! i) as [c|]; [|by apply stays_quiet].
  destruct (conn_subs c !! in_Channel msg) as [ch|]; [|by apply stays_quiet]. split; [|done].
  apply evolves_names; [done|]. intros l. cbn. by rewrite Unsubscribe_at.
Qed.

Lemma quiet_refused rd i msg c w :
  w_conns w !! i = Some c -> is_Some (publish_refusal rd c msg w) -> quiet w (handlePublish cfg rd i msg w).
Proof using Type.
  intros Hi. unfold handlePublish, publish_refusal, publish_granted, key_granted. rewrite Hi. cbn [first_failure].
  destruct (channelReserved _); [done|]. cbn [negb]. destruct (conn_subs c !! _) as [ch|]; [|done]. cbn.
  destruct (bucket_allow _ _) as [[] b]; cbn; [|done]. destruct (Allow _ _ _ _) as [[] l]; cbn; [|done]. by intros [].
Qed.

Lemma hub_Broadcast_fan l m w : w_fan (hub_Broadcast cfg l m w) = w_fan w.
Proof using Type.
  unfold hub_Broadcast. generalize (subs_snapshot l (w_heap w)) as ss. intros ss. revert w.
  induction ss as [|s ss IH]; intros w; cbn; [done|]. rewrite IH. unfold Send. by repeat case_match.
Qed.

Lemma quiet_Broadcast l m w : quiet w (hub_Broadcast cfg l m w).
Proof using Type. pose proof (core_Broadcast cfg l m w) as []. split_and!; [done..|apply hub_Broadcast_fan]. Qed.

(** A frame other than an accepted publish. *)
Lemma stays_handle rd i raw c w :
  world_ok w -> w_conns w !! i = Some c -> is_publish (frame_op cfg rd i raw c w) = false ->
  stays w (handle cfg rd i raw w).
Proof using Type.
  intros Hok Hi. unfold frame_op, expected_reply, asked, handle, dispatch.
  destruct (Valid raw); cbn [negb]; [|by intros; apply stays_quiet].
  destruct (unmarshal raw) as [msg|]; cbn [mbind option_bind]; [|by intros; apply stays_quiet].
  destruct (if is_op _ then _ else _) as [[]|e] eqn:Hv; [|by intros; apply stays_quiet].
  case_decide as T1; [|case_decide as T2; [|case_decide as Ht]]; intros Hp.
  - by apply stays_subscribe.
  - apply stays_unsubscribe.
  - apply stays_quiet. eapply quiet_refused; [done|]. unfold channel_refusal in Hp. rewrite Ht in Hv.
    change (ValidateChannelName (in_Channel msg) = Ok tt) in Hv. rewrite Hv in Hp. destruct (publish_refusal rd c msg w) as [[code m]|]; [by eexists|by cbn in Hp].
  - by apply stays_quiet.
Qed.

(** The other steps. *)
Lemma stays_step w w' :
  world_ok w -> world_step cfg w w' ->
  stays w w' \/ publishes cfg w w' \/ work cfg w w'.
Proof using Type.
  intros Hok Hstep. destruct Hstep as [i id key w Hi|i raw rd c w Hi Hcl|i w|i e c w Hi Hcl He
    |w|cn w|cn w|snap id w|key w|w|w w' Hw]; try (left; by apply stays_quiet).
  - left. apply stays_quiet. unfold run_start. by destruct (Add i key _) as [[[]|ce] h].
  - destruct (is_publish (frame_op cfg rd i raw c w)) eqn:Hp; [right; left; by exists rd, i, raw, c|left; by eapply stays_handle].
  - left. unfold run_teardown. rewrite Hi. split; [|done]. cbn. apply evolves_names.
    + by destruct (Unsubscribe_names (map_to_list (conn_subs c)).*2 i (w_heap w) 0).
    + intros l. apply Unsubscribe_names.
  - left. unfold sweep_tick. destruct (Sweep (w_reg w) (w_heap w)) as [[r h] k] eqn:Hs. split; [|done].
    eapply Sweep_evolves; [apply Hok|exact Hs].
  - left. unfold stats_tick. destruct (GetOrCreate _ _) as [ch [r h]] eqn:Hg.
    destruct (quiet_Broadcast ch (stats_frame snap id) (set_store (r, h) w)) as (Hr & Hh & Hf).
    split; [rewrite Hr, Hh|by rewrite Hf]. cbn. eapply GetOrCreate_evolves; [apply Hok|exact Hg].
  - by right; right.
Qed.
End Stays.

(** ** The server with the pool *)

Section Pooled.
Context {R B : Type} `{RegistryLaws R, TokenBucket B}.
Context (cfg : Config).
Implicit Types (w : World R B ShardedPool) (c : Conn B) (i : conn_id).

Definition event_of w (j : job) : event :=
  let n := Name (chan_at (ch j) (w_heap w)) in
  MkEvent n (msg j) (bool_decide (reg_abs (w_reg w) !! n = Some (ch j))).

Definition abs_lines w : lines_service := MkLines (abs w) (map (event_of w) <$> sp_queues (w_fan w)).

(** Queues are bounded, and their jobs are for channels that exist. *)
Definition queue_ok (h : Heap) (q : list job) : Prop :=
  length q <= queueCap /\ forall j, j ∈ q -> ch j < next h.
Record jobs_ok w : Prop := {
  jo_open : sp_closed (w_fan w) = false;
  jo_shards : 0 < length (sp_queues (w_fan w));
  jo_queues k q : sp_queues (w_fan w) !! k = Some q -> queue_ok (w_heap w) q;
}.

(** The names whose channel a step collects. *)
Definition died w w' : gset string :=
  dom (filter (fun p => reg_abs (w_reg w') !! p.1 <> Some p.2) (reg_abs (w_reg w))).

Lemma died_elem w w' n :
  n ∈ died w w' <-> exists l, reg_abs (w_reg w) !! n = Some l /\ reg_abs (w_reg w') !! n <> Some l.
Proof using Type.
  unfold died. rewrite elem_of_dom. unfold is_Some. setoid_rewrite map_lookup_filter_Some. done.
Qed.

Lemma event_evolves w w' j :
  stays w w' -> ch j < next (w_heap w) -> event_of w' j = forget (died w w') (event_of w j).
Proof using Type.
  intros [[_ Hname Hnew _] _] Hj. unfold event_of, forget. cbn. rewrite (Hname _ Hj). f_equal.
  set (n := Name (chan_at (ch j) (w_heap w))). specialize (Hnew n _ Hj).
  destruct (decide (reg_abs (w_reg w') !! n = Some (ch j))) as [Hl|Hl].
  - rewrite !bool_decide_eq_true_2 by auto. rewrite bool_decide_eq_false_2; [done|].
    intros (l & Hl1 & Hl2)%died_elem. rewrite (Hnew Hl) in Hl1. congruence.
  - rewrite bool_decide_eq_false_2 by done.
    destruct (decide (reg_abs (w_reg w) !! n = Some (ch j))) as [Hr|Hr];
      [|by rewrite bool_decide_eq_false_2].
    rewrite bool_decide_eq_true_2, bool_decide_eq_true_2; [done| |done]. apply died_elem. by exists (ch j).
Qed.

Lemma lines_evolve w w' :
  jobs_ok w -> stays w w' ->
  jobs_ok w' /\ abs_lines w' = MkLines (abs w') (map (forget (died w w')) <$> lines (abs_lines w)).
Proof using Type.
  intros [Ho Hn Hj] Hs. pose proof (sy_fan _ _ Hs) as Hf. destruct (sy_evolves _ _ Hs) as [Hnext _ _ _]. split.
  - split; rewrite Hf; try done. intros k q [Hc Hq]%Hj. split; [done|]. intros j Hin%Hq. lia.
  - unfold abs_lines. f_equal. cbn. rewrite Hf, <- list_fmap_compose. apply list_fmap_ext. intros k q Hk. cbn.
    rewrite map_map. apply map_ext_in. intros j Hin%list_elem_of_In. apply event_evolves; [done|]. by apply (Hj k q Hk).
Qed.

Lemma died_empty w w' : world_ok w -> stays w w' -> forall n, n ∈ died w w' -> members (abs w) n = ∅.
Proof using Type.
  intros Hok Hs n (l & Hl & Hl')%died_elem. destruct (el_gone _ _ _ _ _ (sy_evolves _ _ Hs) n l Hl) as [?|He]; [done|].
  apply set_eq. intros j. rewrite <- (subscribers_members w (w_reg w) (w_heap w) n l) by (apply Hok || done).
  rewrite He. set_solver.
Qed.

(** An operation of the service, or none, after what the step collects is
    forgotten. *)
Lemma steps_now w w' os :
  world_ok w -> jobs_ok w -> stays w w' ->
  os = [] /\ abs w' = abs w \/ (exists o, os = [Now o] /\ is_publish o = false /\ implements cfg w w' o) ->
  lruns cfg (Forget (died w w') :: os) (abs_lines w) (abs_lines w').
Proof using Type.
  intros Hok Hj Hs Ho. destruct (lines_evolve w w' Hj Hs) as [_ Hl].
  split; [exact (died_empty w w' Hok Hs)|]. rewrite Hl. by destruct Ho as [[-> ->]|(o & -> & Hp & Ha & ->)].
Qed.

(** ** Workers and publishers *)

Lemma abs_nobody l m w : Subscribers (chan_at l (w_heap w)) = ∅ -> abs (hub_Broadcast cfg l m w) = abs w.
Proof using Type.
  intros Hl. apply abs_conns, map_eq. intros j. rewrite hub_Broadcast_conns, Hl. rewrite decide_False; [done|set_solver].
Qed.

Lemma same_events w w' j : w_reg w' = w_reg w -> w_heap w' = w_heap w -> event_of w' j = event_of w j.
Proof using Type. unfold event_of. by intros -> ->. Qed.

Lemma serve_worker k j q w :
  world_ok w -> sp_queues (w_fan w) !! k = Some (j :: q) ->
  abs_lines (run_worker cfg k w) = leffect cfg (Serve k) (abs_lines w).
Proof using Type.
  intros Hok Hk. unfold run_worker. rewrite Hk. cbn [leffect lines abs_lines]. rewrite list_lookup_fmap, Hk. cbn.
  destruct (quiet_Broadcast cfg (ch j) (msg j) (set_queue k q w)) as (Hr & Hh & Hf). unfold abs_lines. f_equal.
  - assert (abs (set_queue k q w) = abs w) as Ha by (by apply abs_conns). unfold serve, event_of. cbn.
    case_bool_decide as Hl.
    + rewrite <- Ha. apply abs_Broadcast. rewrite Ha. cbn. eapply subscribers_members; [apply Hok|done].
    + rewrite abs_nobody; [done|]. cbn. apply dec_stable. intros Hne. destruct Hl. by eapply st_live; [apply Hok|].
  - rewrite Hf. cbn. rewrite list_fmap_insert. f_equal; [|apply list_fmap_ext; intros k' q' _];
      apply map_ext; intros j'; by apply same_events.
Qed.

Lemma queue_event k q l n m w :
  sp_queues (w_fan w) !! k = Some q -> Name (chan_at l (w_heap w)) = n -> reg_abs (w_reg w) !! n = Some l ->
  abs_lines (set_queue k (q ++ [MkJob l m]) w)
  = MkLines (now (abs_lines w)) (alter (.++ [MkEvent n m true]) k (lines (abs_lines w))).
Proof using Type.
  intros Hk Hn Hc. unfold abs_lines. f_equal. cbn [set_queue set_fan w_fan sp_queues lines now].
  rewrite list_fmap_insert. apply list_eq. intros k'. destruct (decide (k' = k)) as [->|Hne].
  - rewrite list_lookup_insert_eq, list_lookup_alter_eq by (rewrite length_fmap; by eapply lookup_lt_Some).
    rewrite list_lookup_fmap, Hk. cbn. rewrite map_app. do 2 f_equal. unfold event_of. cbn.
    by rewrite Hn, bool_decide_eq_true_2.
  - by rewrite list_lookup_insert_ne, list_lookup_alter_ne.
Qed.

Lemma jobs_queue k q w : jobs_ok w -> queue_ok (w_heap w) q -> jobs_ok (set_queue k q w).
Proof using Type.
  intros [Ho Hn Hj] Hq. split; cbn; rewrite ?length_insert; try done.
  intros k' q'. intros [(_ & <- & _)|[_ Hk]]%list_lookup_insert_Some; [done|by eapply Hj].
Qed.

(** The tail of a queue, and a job more. *)
Lemma queue_ok_tail h j q : queue_ok h (j :: q) -> queue_ok h q.
Proof using Type. intros [Hc Hq]. split; [cbn in Hc; lia|]. intros j' Hin. apply Hq. by right. Qed.

Lemma queue_ok_snoc h j q : queue_ok h q -> length q < queueCap -> ch j < next h -> queue_ok h (q ++ [j]).
Proof using Type.
  intros [_ Hq] Hc Hj. split; [rewrite length_app; cbn; lia|].
  intros j' [Hin| ->%list_elem_of_singleton]%elem_of_app; [by apply Hq|done].
Qed.

Lemma jobs_quiet w w' : quiet w w' -> jobs_ok w -> jobs_ok w'.
Proof using Type. intros (_ & Hh & Hf) [Ho Hn Hj]. split; rewrite Hf; [done..|]. by rewrite Hh. Qed.

Lemma jobs_worker k w : jobs_ok w -> jobs_ok (run_worker cfg k w).
Proof using Type.
  intros Hj. unfold run_worker. destruct (sp_queues (w_fan w) !! k) as [[|j q]|] eqn:Hk; [done| |done].
  eapply jobs_quiet; [apply quiet_Broadcast|]. apply jobs_queue; [done|]. eapply queue_ok_tail. by eapply jo_queues.
Qed.

(** One turn of a worker, if it has a job. *)
Lemma worker_step k j q w :
  world_ok w -> sp_queues (w_fan w) !! k = Some (j :: q) ->
  lruns cfg [Serve k] (abs_lines w) (abs_lines (run_worker cfg k w)).
Proof using Type.
  intros Hok Hk. split; [|by apply (serve_worker k j q)].
  cbn [lallowed abs_lines lines]. exists (event_of w j), (map (event_of w) q). by rewrite list_lookup_fmap, Hk.
Qed.

(** A publisher whose line has room. *)
Lemma queue_step i c l n data id q w :
  world_ok w -> w_conns w !! i = Some c -> Conn.closed c = false -> conn_subs c !! n = Some l ->
  channelReserved n = false ->
  let k := shardFor (length (sp_queues (w_fan w))) n in
  sp_queues (w_fan w) !! k = Some q -> length q < queueCap ->
  lruns cfg [Queue i n data id] (abs_lines w) (abs_lines (set_queue k (q ++ [MkJob l (event_frame n data id)]) w)).
Proof using Type.
  intros Hok Hi Hcl Hn Hres k Hk Hcap.
  assert (held w i !! n = Some l) as Hheld by (unfold held; by rewrite Hi).
  destruct (st_held _ _ _ (wo_store _ Hok) _ _ _ Hheld) as (_ & Hname & _).
  assert (line_of (abs_lines w) n = k) as Hline by (unfold line_of; cbn; by rewrite length_fmap).
  split.
  - split.
    + exists (member_of c). split; [by apply abs_open|]. split; [cbn; by apply elem_of_dom_2 in Hn|done].
    + rewrite Hline. exists (map (event_of w) q). cbn. rewrite list_lookup_fmap, Hk. split; [done|]. by rewrite length_map.
  - cbn [leffect lruns]. rewrite Hline. apply queue_event; [done..|]. by eapply held_registered; [apply Hok|].
Qed.

Lemma pool_publish_steps i c l n data id w :
  world_ok w -> jobs_ok w -> w_conns w !! i = Some c -> Conn.closed c = false -> conn_subs c !! n = Some l ->
  channelReserved n = false ->
  let w' := pool_Broadcast cfg l (event_frame n data id) w in
  jobs_ok w' /\ exists pre, length pre <= 1 /\ Forall (fun o => internal o = true) pre
    /\ lruns cfg (pre ++ [Queue i n data id]) (abs_lines w) (abs_lines w').
Proof using Type.
  intros Hok Hj Hi Hcl Hn Hres. cbn zeta. unfold pool_Broadcast. rewrite (jo_open _ Hj).
  assert (held w i !! n = Some l) as Hheld by (unfold held; by rewrite Hi).
  destruct (st_held _ _ _ (wo_store _ Hok) _ _ _ Hheld) as (Hl & Hname & _). rewrite Hname.
  set (k := shardFor _ n). destruct (lookup_lt_is_Some_2 (sp_queues (w_fan w)) k) as [q Hk];
    [apply worker_lt, Hj|]. rewrite Hk. pose proof (jo_queues _ Hj k q Hk) as Hq. case_decide as Hcap.
  - rewrite Hk. split; [by apply jobs_queue; [|apply queue_ok_snoc]|].
    exists []. split; [cbn; lia|]. split; [done|]. by eapply queue_step.
  - destruct q as [|j q]; [cbn in Hcap; unfold queueCap in Hcap; lia|].
    set (w1 := run_worker cfg k w). assert (core_eq w w1) as Hcore by apply run_worker_core.
    assert (w_fan w1 = w_fan (set_queue k q w)) as Hf1 by (unfold w1, run_worker; rewrite Hk; apply hub_Broadcast_fan).
    assert (sp_queues (w_fan w1) !! k = Some q) as Hk1
      by (rewrite Hf1; cbn; apply list_lookup_insert_eq; by eapply lookup_lt_Some).
    rewrite Hk1. destruct (core_lookup _ _ _ _ Hcore Hi) as (c1 & Hi1 & Hcc).
    assert (k = shardFor (length (sp_queues (w_fan w1))) n) as Hkk by (rewrite Hf1; cbn; by rewrite length_insert).
    assert (length q < queueCap) as Hroom by (destruct Hq as [Hc _]; cbn in Hc; lia). split.
    + assert (jobs_ok w1) as Hj1 by (by apply jobs_worker).
      apply jobs_queue; [done|]. apply queue_ok_snoc; [by eapply jo_queues|done|]. cbn. by rewrite (core_heap _ _ Hcore).
    + exists [Serve k]. split; [done|]. split; [by repeat constructor|].
      apply (lruns_app _ _ _ _ (abs_lines w1)); [by eapply worker_step|]. rewrite Hkk. eapply (queue_step i c1); try done.
      * by eapply world_ok_core.
      * by rewrite (core_closed _ _ Hcc).
      * unfold conn_subs in *. by rewrite (core_subs _ _ Hcc).
      * by rewrite <- Hkk.
Qed.

(** ** The refinement *)

Lemma quiet_charged rd i c w : quiet w (inc_Published (charge_publish rd i c w)).
Proof using Type. unfold charge_publish. by destruct (publish_granted rd c). Qed.

Lemma core_charged rd i c w : core_eq w (inc_Published (charge_publish rd i c w)).
Proof using Type.
  etrans; [|by apply core_set_metrics]. unfold charge_publish.
  destruct (publish_granted rd c); [etrans; [|apply core_set_limiter]|]; apply core_set_connRate.
Qed.

(** A frame: one operation, after at most one turn of a worker or a collection. *)
Lemma handle_lines rd i raw c w :
  world_ok w -> jobs_ok w -> w_conns w !! i = Some c -> Conn.closed c = false ->
  let w' := handle cfg rd i raw w in
  jobs_ok w' /\ exists pre, length pre <= 1 /\ Forall (fun o => internal o = true) pre
    /\ lruns cfg (pre ++ [lines_op (frame_op cfg rd i raw c w)]) (abs_lines w) (abs_lines w').
Proof using Type.
  intros Hok Hj Hi Hcl. cbn zeta.
  destruct (handle_cases cfg rd i raw c w Hok Hi Hcl) as [[Hp Himp]|(msg & -> & [(l & Hl & ->) (m & _ & _ & Hres)])].
  - set (w' := handle cfg rd i raw w) in *. pose proof (stays_handle cfg rd i raw c w Hok Hi Hp) as Hs. split; [by eapply lines_evolve|].
    exists [Forget (died w w')]. split; [done|]. split; [by repeat constructor|].
    assert (lines_op (frame_op cfg rd i raw c w) = Now (frame_op cfg rd i raw c w)) as -> by (by destruct (frame_op _ _ _ _ _ _)).
    apply steps_now; [done..|]. right. by eexists.
  - set (w1 := inc_Published (charge_publish rd i c w)). pose proof (quiet_charged rd i c w : quiet w w1) as Hq.
    destruct (core_lookup _ _ _ _ (core_charged rd i c w) Hi) as (c1 & Hi1 & Hcc).
    assert (abs_lines w = abs_lines w1) as ->.
    { unfold abs_lines. destruct Hq as (Hr & Hh & ->). f_equal; [symmetry; by apply abs_charged|].
      apply list_fmap_ext. intros k q _. apply map_ext. intros j. symmetry. by apply same_events. }
    apply (pool_publish_steps i c1); [by eapply world_ok_core; [apply core_charged|]|by eapply jobs_quiet|done| | |done].
    + by rewrite (core_closed _ _ Hcc).
    + unfold conn_subs in *. by rewrite (core_subs _ _ Hcc).
Qed.

Lemma pool_step_lines w w' :
  world_ok w -> jobs_ok w -> world_step cfg w w' ->
  jobs_ok w' /\ exists os, length os <= 2 /\ lruns cfg os (abs_lines w) (abs_lines w').
Proof using Type.
  intros Hok Hj Hstep.
  assert (publishes cfg w w' \/ work cfg w w' ->
    jobs_ok w' /\ exists os, length os <= 2 /\ lruns cfg os (abs_lines w) (abs_lines w')) as Hmore.
  { intros [(rd & i & raw & c & Hi & Hcl & _ & ->)|[k ->]].
    - destruct (handle_lines rd i raw c w Hok Hj Hi Hcl) as [? (pre & Hlen & _ & Hr)]. split; [done|].
      eexists. split; [|exact Hr]. rewrite length_app. cbn. lia.
    - split; [by apply jobs_worker|]. destruct (sp_queues (w_fan w) !! k) as [[|j q]|] eqn:Hk;
        [exists []; split; [cbn; lia|]; unfold run_worker; by rewrite Hk| |exists []; split; [cbn; lia|]; unfold run_worker; by rewrite Hk].
      exists [Serve k]. split; [cbn; lia|]. by eapply worker_step. }
  destruct (stays_step cfg w w' Hok Hstep) as [Hs|?]; [|by apply Hmore].
  destruct (step_cases cfg w w' Hok Hstep) as [Ho|?]; [|by apply Hmore]. split; [by eapply lines_evolve|].
  destruct Ho as [He|(o & Hp & Himp)].
  - exists [Forget (died w w')]. split; [cbn; lia|]. apply steps_now; [done..|by left].
  - exists [Forget (died w w'); Now o]. split; [cbn; lia|]. apply steps_now; [done..|right; by exists o].
Qed.

(** C4. The sharded server refines the service with lines. With the sharded
    pool, what any reachable state says of the service and of the lines of
    waiting events is a state the specification reaches; every step of the
    server is at most two of its operations; and a client frame is the operation
    it asks for (a publish: to queue its event in its channel's line), or the
    refusal of the first check it fails, after at most one event served or the
    names of collected channels forgotten. *)
Theorem sharded_refines_lines n l cache w :
  0 < n -> rtc (world_step cfg) (world_init l cache (MkShardedPool (replicate n []) false)) w ->
  lines_reach cfg (MkLines ∅ (replicate n [])) (abs_lines w)
  /\ (forall w', world_step cfg w w' -> exists os, length os <= 2 /\ lruns cfg os (abs_lines w) (abs_lines w'))
  /\ forall rd i raw c, w_conns w !! i = Some c -> Conn.closed c = false ->
       exists pre, length pre <= 1 /\ Forall (fun o => internal o = true) pre
         /\ lruns cfg (pre ++ [lines_op (frame_op cfg rd i raw c w)]) (abs_lines w) (abs_lines (handle cfg rd i raw w)).
Proof using Type.
  set (w0 := world_init l cache _ : World R B ShardedPool). intros Hn Hr.
  assert (abs_lines w0 = MkLines ∅ (replicate n [])) as Hinit.
  { unfold abs_lines. cbn. by rewrite fmap_replicate. }
  assert (world_ok w /\ jobs_ok w /\ lines_reach cfg (abs_lines w0) (abs_lines w)) as (Hok & Hj & Hrun).
  { eapply (rtc_invariant _ (fun w => world_ok w /\ jobs_ok w /\ lines_reach cfg (abs_lines w0) (abs_lines w)));
      [| |exact Hr].
    - split; [apply world_ok_init|]. split; [|done]. split; cbn; rewrite ?length_replicate; [done..|].
      intros k q [-> _]%lookup_replicate. split; [cbn; unfold queueCap; lia|]. by intros j ?%elem_of_nil.
    - intros w1 w2 (Hok & Hj & Hrun) Hs. destruct (pool_step_lines w1 w2 Hok Hj Hs) as [Hj2 (os & _ & Hs2)].
      split; [by eapply world_ok_step|]. split; [done|]. etrans; [exact Hrun|by exists os]. }
  rewrite <- Hinit. split; [done|]. split; [intros w' Hs; by apply pool_step_lines|].
  intros rd i raw c Hi Hcl. by apply handle_lines.
Qed.
End Pooled.

(** ** A run

    The demo of [Service] with a pool of two workers: the conn's event waits in
    its channel's line, and reaches it when the worker serves the line. *)

Abbreviation pool_world := (World SyncMap.t tbucket ShardedPool).

Definition pool0 : pool_world := world_init demo_limiter (Some ∅) (MkShardedPool (replicate 2 []) false).
Definition pool1 : pool_world := (run_start 1 "SID" "key" pool0).2.
Definition pool2 : pool_world := handle demo_cfg demo_rd 1 sub_text pool1.
Definition pool3 : pool_world := handle demo_cfg demo_rd 1 pub_text pool2.
Definition pool4 : pool_world := run_worker demo_cfg (Fanout.shardFor 2 "room") pool3.

Definition pool_conn (w : pool_world) : Conn tbucket := default (new_conn "" "") (w_conns w !! 1).

Lemma pool_reach : rtc (world_step demo_cfg) pool0 pool3.
Proof.
  eapply rtc_l; [by apply (ws_start demo_cfg 1 "SID" "key" pool0)|].
  eapply rtc_l; [by apply (ws_frame demo_cfg 1 sub_text demo_rd (pool_conn pool1) pool1); vm_compute|].
  eapply rtc_l; [by apply (ws_frame demo_cfg 1 pub_text demo_rd (pool_conn pool2) pool2); vm_compute|]. apply rtc_refl.
Qed.

Lemma sharded_refines_lines_witness :
  let e := event_frame "room" (Some "[1, 2]") (rd_ulid demo_rd) in
  lines_reach demo_cfg (MkLines ∅ [[]; []]) (abs_lines pool3)
  /\ (exists os, length os <= 2 /\ lruns demo_cfg os (abs_lines pool3) (abs_lines pool4))
  /\ lines (abs_lines pool3) !! Fanout.shardFor 2 "room" = Some [MkEvent "room" e true]
  /\ (inbox <$> abs pool3 !! 1) = Some [hello_frame "SID"; ack_frame "subscribed" "room"]
  /\ (inbox <$> abs pool4 !! 1) = Some [hello_frame "SID"; ack_frame "subscribed" "room"; e].
Proof.
  destruct (sharded_refines_lines demo_cfg 2 _ _ pool3 ltac:(lia) pool_reach) as (Hr & Hs & _).
  split; [exact Hr|]. split; [apply Hs, ws_work; by exists (Fanout.shardFor 2 "room")|]. split_and!; by vm_compute.
Defined.
