(* ===== verification/Ordering.v ===== *)
(** * Per-subscriber order

    Only a conn's own write pump takes from its buffer, from the front, and
    everything else appends at the end: what is queued is written first in,
    first out, with either fan-out. *)
From S2P Require Import Prelude GoStd Token Channel Registry Sweep Limiter Hub Frame Conn Handler World Membership Run Fanout Service.
From stdpp Require Import options.

(** ** Steps that only append *)

Section Grows.
Context {R B F : Type} `{Registry R, TokenBucket B}.
Implicit Types (w : World R B F) (i : conn_id) (c : Conn B).

(** Every conn is still there, its buffer extended. *)
Definition grows w w' : Prop := forall i c,
  w_conns w !! i = Some c -> exists c', w_conns w' !! i = Some c' /\ send c `prefix_of` send c'.

#[export] Instance grows_preorder : PreOrder grows.
Proof using Type.
  split; [intros w i c Hc; by exists c|]. intros w1 w2 w3 H1 H2 i c Hc.
  destruct (H1 _ _ Hc) as (c2 & Hc2 & Hp). destruct (H2 _ _ Hc2) as (c3 & Hc3 & Hp').
  exists c3. split; [done|by etrans].
Qed.

Lemma grows_conns w w' : w_conns w' = w_conns w -> grows w w'.
Proof using Type. intros He i c Hc. exists c. by rewrite He. Qed.

Lemma grows_upd_conn i f w :
  (forall c, w_conns w !! i = Some c -> send c `prefix_of` send (f c)) -> grows w (upd_conn i f w).
Proof using Type.
  intros Hf j c Hc. cbn. rewrite lookup_alter. case_decide as Hj; [|by exists c].
  subst j. rewrite Hc. exists (f c). split; [done|]. by apply Hf.
Qed.

Lemma push_prefix m q : q `prefix_of` push m q.
Proof using Type. unfold push, try_send. case_decide; [by exists [m]|done]. Qed.

Lemma grows_reply i b w : grows w (reply i b w).
Proof using Type. apply grows_upd_conn. intros c _. apply push_prefix. Qed.

(** A policy that never takes a message out again. *)
Definition keeps_queue (p : Policy) : Prop := p <> PolicyDropOldest.

Lemma Apply_prefix p m q : keeps_queue p -> q `prefix_of` (Apply p [] [] m q).2.
Proof using Type.
  intros Hp. unfold Apply, try_send. destruct p; [|done|]; case_decide; cbn; try done; by exists [m].
Qed.

Lemma grows_Send cfg i b w : keeps_queue (policy cfg) -> grows w (Send cfg i b w).2.
Proof using Type.
  intros Hp. unfold Send. destruct (w_conns w !! i) as [c|] eqn:Hc; [|reflexivity].
  destruct (Conn.closed c); [reflexivity|]. pose proof (Apply_prefix (policy cfg) b (send c) Hp) as Hq.
  destruct (Apply _ _ _ _ _) as [slow q]. cbn in Hq.
  assert (grows w (upd_conn i (set_send q) w)) as Hg.
  { apply grows_upd_conn. intros c' Hc'. by simplify_eq. }
  destruct slow; [|done]. etrans; [exact Hg|].
  transitivity (inc_Dropped (upd_conn i (set_send q) w)); [by apply grows_conns|].
  by apply grows_upd_conn.
Qed.

Lemma grows_hub_Broadcast cfg l m w : keeps_queue (policy cfg) -> grows w (hub_Broadcast cfg l m w).
Proof using Type.
  intros Hp. unfold hub_Broadcast. generalize (subs_snapshot l (w_heap w)) as ss. intros ss. revert w.
  induction ss as [|s ss IH]; intros w; cbn; [reflexivity|]. etrans; [by apply grows_Send|apply IH].
Qed.
End Grows.

(** ** The interface's part

    What the order needs of a fan-out, whichever implementation runs. *)
Class FanoutOrder (R B F : Type) `{FanoutLaws R B F} : Type := {
  Broadcast_grows cfg l m (w : World R B F) : keeps_queue (policy cfg) -> grows w (Broadcast cfg l m w);
  work_grows cfg (w w' : World R B F) : keeps_queue (policy cfg) -> work cfg w w' -> grows w w';
}.

#[export] Instance PerConn_order {R B} `{Registry R, TokenBucket B} : FanoutOrder R B PerConn.
Proof. split; [intros; by apply grows_hub_Broadcast|done]. Qed.

Lemma run_worker_grows {R B} `{Registry R, TokenBucket B} cfg k (w : World R B ShardedPool) :
  keeps_queue (policy cfg) -> grows w (run_worker cfg k w).
Proof.
  intros Hp. unfold run_worker. destruct (sp_queues (w_fan w) !! k) as [[|j q]|]; [done| |done].
  etrans; [|by apply grows_hub_Broadcast]. by apply grows_conns.
Qed.

#[export] Instance ShardedPool_order {R B} `{Registry R, TokenBucket B} : FanoutOrder R B ShardedPool.
Proof.
  split.
  - intros cfg l m w Hp. cbn. unfold pool_Broadcast. destruct (sp_closed _); [done|].
    set (k := shardFor _ _). set (w1 := match _ with Some q => _ | None => w end).
    assert (grows w w1) as Hw1.
    { subst w1. destruct (sp_queues (w_fan w) !! k); [|done]. case_decide; [done|by apply run_worker_grows]. }
    destruct (sp_queues (w_fan w1) !! k); [|done]. etrans; [exact Hw1|]. by apply grows_conns.
  - intros cfg w w' Hp [k ->]. by apply run_worker_grows.
Qed.

(** ** The whole system *)

Section Order.
Context {R B F : Type} `{RegistryLaws R, TokenBucket B, !Fanout R B F, !FanoutLaws R B F, !FanoutOrder R B F}.
Context (cfg : Config) (Hpolicy : keeps_queue (policy cfg)).
Implicit Types (w : World R B F) (i : conn_id) (c : Conn B).

Lemma grows_allowControl rd i msg w : grows w (allowControl rd i msg w).2.
Proof using Type.
  unfold allowControl. destruct (w_conns w !! i) as [c|]; [|done].
  destruct (bucket_allow _ _) as [ok b].
  assert (grows w (upd_conn i (set_controlRate b) w)) as Hb by (by apply grows_upd_conn).
  destruct ok; cbn; [|etrans; [exact Hb|apply grows_reply]].
  destruct (Allow _ _ _ _) as [[] l]; cbn; (etrans; [exact Hb|]); [by apply grows_conns|].
  etrans; [|apply grows_reply]. by apply grows_conns.
Qed.

Lemma grows_check_token rd c msg w : grows w (check_token cfg rd c msg w).2.
Proof using Type.
  unfold check_token. destruct (ChannelRequiresAuth _); [|done].
  destruct (VerifyTokenAgainst _ _ _ _ _ _) as [[[]|[]] cache]; by apply grows_conns.
Qed.

Lemma grows_handlePublish rd i msg w : grows w (handlePublish cfg rd i msg w).
Proof using All.
  unfold handlePublish. destruct (channelReserved _); [apply grows_reply|].
  destruct (w_conns w !! i) as [c|]; [|done].
  destruct (conn_subs c !! in_Channel msg) as [ch|]; [|apply grows_reply].
  destruct (bucket_allow _ _) as [ok b].
  assert (grows w (upd_conn i (set_connRate b) w)) as Hb by (by apply grows_upd_conn).
  destruct ok; cbn; [|etrans; [exact Hb|apply grows_reply]].
  destruct (Allow _ _ _ _) as [[] l]; cbn; (etrans; [exact Hb|]).
  - etrans; [|by apply Broadcast_grows]. by apply grows_conns.
  - etrans; [|apply grows_reply]. by apply grows_conns.
Qed.

Lemma grows_join rd i msg held w : grows w (join rd i msg held w).
Proof using Type.
  unfold join. destruct (subscribe_retry _ _ _ _ _) as [[ch|[]] s];
    (transitivity (set_store s w); [by apply grows_conns|]); try apply grows_reply.
  etrans; [|apply grows_reply]. by apply grows_upd_conn.
Qed.

Lemma grows_handleSubscribe rd i msg w : grows w (handleSubscribe cfg rd i msg w).
Proof using Type.
  unfold handleSubscribe. destruct (_ && _); [apply grows_reply|].
  pose proof (grows_allowControl rd i msg w) as Hg. destruct (allowControl rd i msg w) as [ok w1].
  cbn in Hg. destruct ok; cbn; [|done]. etrans; [exact Hg|].
  destruct (w_conns w1 !! i) as [c|]; [|done]. case_decide; [apply grows_reply|].
  pose proof (grows_check_token rd c msg w1) as Hc.
  destruct (check_token cfg rd c msg w1) as [[[code m]|] w2]; (etrans; [exact Hc|]); [apply grows_reply|].
  case_decide; [apply grows_reply|apply grows_join].
Qed.

Lemma grows_handleUnsubscribe rd i msg w : grows w (handleUnsubscribe rd i msg w).
Proof using Type.
  unfold handleUnsubscribe. pose proof (grows_allowControl rd i msg w) as Hg.
  destruct (allowControl rd i msg w) as [ok w1]. cbn in Hg. destruct ok; cbn; [|done].
  etrans; [exact Hg|]. destruct (w_conns w1 !! i) as [c|]; [|done].
  destruct (conn_subs c !! in_Channel msg); [|apply grows_reply].
  etrans; [|apply grows_reply]. etrans; [|by apply grows_conns]. by apply grows_upd_conn.
Qed.

Lemma grows_handle rd i raw w : grows w (handle cfg rd i raw w).
Proof using All.
  unfold handle. destruct (negb _); [apply grows_reply|]. destruct (unmarshal raw) as [msg|]; [|apply grows_reply].
  destruct (if is_op _ then _ else _); [|apply grows_reply]. unfold dispatch.
  repeat case_decide; [apply grows_handleSubscribe|apply grows_handleUnsubscribe|apply grows_handlePublish|
    apply grows_reply].
Qed.

(** *** Every step but the conn's own write *)

Inductive other_step i : World R B F -> World R B F -> Prop :=
  | os_start j sid key w : w_conns w !! j = None -> other_step i w (run_start j sid key w).2
  | os_frame j raw rd w : other_step i w (handle cfg rd j raw w)
  | os_write j w : j <> i -> other_step i w (write_pump j w)
  | os_exit j w : other_step i w (run_teardown j w)
  | os_sweep w : other_step i w (sweep_tick w)
  | os_cache now w : other_step i w (cache_tick now w)
  | os_gc now w : other_step i w (set_limiter (gcOnce now (w_limiter w)) w)
  | os_stats snap id w : other_step i w (stats_tick cfg snap id w)
  | os_hub h w : other_step i w (set_hub h w)
  | os_work w w' : work cfg w w' -> other_step i w w'.

(** What conn [i] has queued. *)
Definition buffer i w : list string := default [] (send <$> w_conns w !! i).

(** A step of the system is one of those, or the write. *)
Lemma world_step_split i w w' :
  world_step cfg w w' -> other_step i w w' \/ w' = write_pump i w.
Proof using Type.
  destruct 1; try (by left; econstructor).
  destruct (decide (i0 = i)) as [->|Hi]; [by right|left; by apply os_write].
Qed.

Lemma grows_start j sid key w : w_conns w !! j = None -> grows w (run_start j sid key w).2.
Proof using Type.
  intros Hj. unfold run_start. cbn [w_hub inc_Connections set_metrics].
  destruct (Add j key (w_hub w)) as [[[]|ce] h]; [|by apply grows_conns].
  rewrite try_send_nil. intros k c Hk. exists c. split; [|done]. cbn.
  rewrite lookup_insert_ne; [done|]. intros ->. by rewrite Hj in Hk.
Qed.

Lemma grows_teardown j w : grows w (run_teardown j w).
Proof using Type.
  unfold run_teardown. destruct (w_conns w !! j) as [c|]; [|done].
  etrans; [|by apply grows_conns]. transitivity (upd_conn j set_closed w); [by apply grows_upd_conn|].
  transitivity (upd_conn j (set_subs None) (upd_conn j set_closed w)); [by apply grows_upd_conn|].
  by apply grows_conns.
Qed.

Lemma other_step_extends i w w' :
  other_step i w w' -> is_Some (w_conns w !! i) ->
  is_Some (w_conns w' !! i) /\ buffer i w `prefix_of` buffer i w'.
Proof using All.
  intros Hs [c Hc]. unfold buffer.
  assert (grows w w' \/ w_conns w' !! i = w_conns w !! i) as [Hg|He].
  { destruct Hs; try (left; by apply grows_conns).
    - left. by apply grows_start.
    - left. apply grows_handle.
    - right. cbn. by rewrite lookup_alter_ne.
    - left. apply grows_teardown.
    - left. unfold stats_tick. destruct (GetOrCreate _ _) as [ch s].
      etrans; [|by apply grows_hub_Broadcast]. by apply grows_conns.
    - left. by apply work_grows with cfg. }
  - destruct (Hg _ _ Hc) as (c' & Hc' & Hp). by rewrite Hc, Hc'.
  - by rewrite He, Hc.
Qed.

(** A run, with what conn [i]'s write pump took, in order. *)
Inductive traced i : World R B F -> list string -> World R B F -> Prop :=
  | tr_nil w : traced i w [] w
  | tr_other w w1 out w' : other_step i w w1 -> traced i w1 out w' -> traced i w out w'
  | tr_write w out w' : traced i (write_pump i w) out w' -> traced i w (take 1 (buffer i w) ++ out) w'.

Lemma traced_run i w w' : rtc (world_step cfg) w w' -> exists out, traced i w out w'.
Proof using Type.
  induction 1 as [w|w w1 w' Hs _ [out IH]]; [exists []; constructor|].
  apply (world_step_split i) in Hs as [Ho| ->]; [|eexists; by apply tr_write].
  exists out. by eapply tr_other.
Qed.

(** C11. First in, first out, per subscriber. Under any policy that never takes
    a message back, in every run of the system, whatever frames, broadcasts,
    pool workers, sweeps, revocations and teardowns interleave, what a
    connection has queued at one time is what its write pump takes next, in that
    order, each once, before anything queued later; with either fan-out. *)
Theorem written_in_order i w w' :
  is_Some (w_conns w !! i) ->
  (rtc (world_step cfg) w w' -> exists out, traced i w out w')
  /\ forall out, traced i w out w' -> buffer i w `prefix_of` out ++ buffer i w'.
Proof using All.
  intros Hi. split; [apply traced_run|]. intros out Ht. revert Hi.
  induction Ht as [w|w w1 out w' Hs Ht IH|w out w' Ht IH]; intros Hi; [done|..].
  - destruct (other_step_extends _ _ _ Hs Hi) as [Hi1 Hp]. etrans; [exact Hp|by apply IH].
  - rewrite <- app_assoc. destruct Hi as [c Hc].
    assert (w_conns (write_pump i w) !! i = Some (set_send (evict (send c)) c)) as Hw.
    { cbn. by rewrite lookup_alter_eq, Hc. }
    unfold buffer in IH |- *. rewrite Hw in IH. rewrite Hc. cbn in *.
    specialize (IH ltac:(by eexists)). destruct (send c) as [|m q]; [apply prefix_nil|]. cbn in *.
    by apply prefix_cons.
Qed.
End Order.

(** The conn of the demo run writes its oldest frame; the rest stays in front. *)
Lemma written_in_order_witness :
  buffer 1 demo3 `prefix_of` take 1 (buffer 1 demo3) ++ buffer 1 (write_pump 1 demo3).
Proof.
  refine (proj2 (written_in_order (MkConfig "secret" PolicyDisconnect) _ 1 demo3 (write_pump 1 demo3) _) _ _).
  - done.
  - eexists. by vm_compute.
  - rewrite <- (app_nil_r (take 1 _)). apply tr_write, tr_nil.
Defined.
