(* ===== verification/Broadcasts.v ===== *)
(** * Concurrent broadcasts on the default fan-out

    [handle] runs a publish in one piece; here [hub.Broadcast] (channel.go) is
    taken apart: a publisher's goroutine snapshots the subscribers under the
    lock, then sends to them one by one, in the order the map gave, while other
    publishers do the same on any channel, conns come, go, subscribe,
    unsubscribe, are answered and write.  docs/PROTOCOL.md section 10 says what
    order is left; the invariant below keeps it. *)
From S2P Require Import Prelude GoStd Token Channel Registry Limiter Hub Frame Conn World Ordering.
From stdpp Require Import sorting options.

(** ** State and steps *)

(** What a subscriber's buffer was given: the event of the [k]-th publish, or
    another frame. *)
Inductive tag : Type :=
  | Event (k : nat)
  | Other (m : string).

#[export] Instance tag_eq_dec : EqDecision tag.
Proof. solve_decision. Defined.

(** A publish: who, what, and the snapshot. *)
Record pub : Type := MkPub {
  pb_who : nat;
  pb_msg : string;
  pb_subs : gset conn_id;
}.

Section Broadcasts.
Context {B : Type} `{TokenBucket B}.

(** [b_pcs] has each publisher's last publish and whom it has still to send to;
    [b_log], [b_got] and [b_out] record the publishes, what each buffer was
    given, and what each write pump took. *)
Record bstate : Type := MkB {
  b_heap : Heap;
  b_conns : gmap conn_id (Conn B);
  b_pcs : gmap nat (nat * list conn_id);
  b_log : list pub;
  b_got : gmap conn_id (list tag);
  b_out : gmap conn_id (list string);
}.

Definition got (g : bstate) (s : conn_id) : list tag := default [] (b_got g !! s).
Definition out (g : bstate) (s : conn_id) : list string := default [] (b_out g !! s).

Inductive blabel : Type :=
  | LAlloc (name : string)
  | LOpen (s : conn_id) (c : Conn B)
  | LSub (l : loc) (s : conn_id) (max : nat)
  | LUnsub (l : loc) (s : conn_id)
  | LSnap (p : nat) (l : loc) (m : string) (order : list conn_id)
  | LSend (p : nat)
  | LReply (s : conn_id) (m : string)
  | LWrite (s : conn_id)
  | LClose (s : conn_id).

(** Does the policy put the message in? *)
Definition accepts (cfg : Config) (c : Conn B) : bool :=
  negb (closed c) && bool_decide (length (send c) < sendChanSize).

Definition give {A} (s : conn_id) (t : A) (g : gmap conn_id (list A)) : gmap conn_id (list A) :=
  <[s := default [] (g !! s) ++ [t]]> g.

(** One step; the counters are left aside ([World.deliver] is [Send] on a
    conn). *)
Definition b_step (cfg : Config) (l : blabel) (g : bstate) : option bstate :=
  let 'MkB h cs ps lg gt ot := g in
  match l with
  | LAlloc name => Some (MkB (chan_alloc (newChannel name) h).2 cs ps lg gt ot)
  | LOpen s c =>
      match cs !! s with
      | Some _ => None
      | None => Some (MkB h (<[s := c]> cs) ps lg (<[s := Other <$> send c]> gt) ot)
      end
  | LSub ch s max =>
      _ ← cs !! s;
      match Subscribe ch s max h with (Ok _, h') => Some (MkB h' cs ps lg gt ot) | _ => None end
  | LUnsub ch s => Some (MkB (Unsubscribe ch s h) cs ps lg gt ot)
  | LSnap p ch m order =>
      if decide (order ≡ₚ subs_snapshot ch h) then
        match ps !! p with
        | Some (_, _ :: _) => None
        | _ => Some (MkB h cs (<[p := (length lg, order)]> ps)
                       (lg ++ [MkPub p m (Subscribers (chan_at ch h))]) gt ot)
        end
      else None
  | LSend p =>
      match ps !! p with
      | Some (k, s :: rest) =>
          e ← lg !! k; c ← cs !! s;
          Some (MkB h (<[s := deliver cfg (pb_msg e) c]> cs) (<[p := (k, rest)]> ps) lg
                  (if accepts cfg c then give s (Event k) gt else gt) ot)
      | _ => None
      end
  | LReply s m =>
      c ← cs !! s;
      if decide (length (send c) < sendChanSize)
      then Some (MkB h (<[s := set_send (push m (send c)) c]> cs) ps lg (give s (Other m) gt) ot)
      else Some g
  | LWrite s =>
      c ← cs !! s;
      match send c with
      | m :: q => Some (MkB h (<[s := set_send q c]> cs) ps lg gt (give s m ot))
      | [] => None
      end
  | LClose s => c ← cs !! s; Some (MkB h (<[s := set_closed c]> cs) ps lg gt ot)
  end.

Definition b_init : bstate := MkB heap_empty ∅ ∅ [] ∅ ∅.

(** A run: from [g], the steps [tr], if none is refused. *)
Fixpoint b_from (cfg : Config) (g : bstate) (tr : list blabel) : option bstate :=
  match tr with [] => Some g | l :: tr => g' ← b_step cfg l g; b_from cfg g' tr end.

(** ** What is kept *)

Definition event_of (t : tag) : option nat := match t with Event k => Some k | Other _ => None end.

(** The events of one publisher, as indices of the log. *)
Definition of_publisher (lg : list pub) (p : nat) (ts : list tag) : list nat :=
  filter (fun k => pb_who <$> lg !! k = Some p) (omap event_of ts).

(** The frame a tag stands for. *)
Definition frame_of (lg : list pub) (t : tag) : string :=
  match t with Event k => default "" (pb_msg <$> lg !! k) | Other m => m end.

(** The [k]-th publish is still to be sent to [s]. *)
Definition pending (g : bstate) (k : nat) (s : conn_id) : Prop :=
  exists p rest, b_pcs g !! p = Some (k, rest) /\ s ∈ rest.

Definition lost (c : Conn B) : Prop := closed c = true \/ closeReq c = true.

Record b_inv (g : bstate) : Prop := {
  bi_pcs p k rest : b_pcs g !! p = Some (k, rest) ->
    exists e, b_log g !! k = Some e /\ pb_who e = p /\ NoDup rest
      /\ (forall s, s ∈ rest -> s ∈ pb_subs e /\ Event k ∉ got g s)
      /\ (forall j, pb_who <$> b_log g !! j = Some p -> j <= k);
  bi_got s k : Event k ∈ got g s -> exists e, b_log g !! k = Some e /\ s ∈ pb_subs e;
  bi_order s p : StronglySorted lt (of_publisher (b_log g) p (got g s));
  bi_buffer s c : b_conns g !! s = Some c -> out g s ++ send c = frame_of (b_log g) <$> got g s;
  bi_fresh s : b_conns g !! s = None -> got g s = [] /\ out g s = [];
  bi_subs ch s : s ∈ Subscribers (chan_at ch (b_heap g)) -> is_Some (b_conns g !! s);
  bi_all k e s : b_log g !! k = Some e -> s ∈ pb_subs e ->
    exists c, b_conns g !! s = Some c /\ (Event k ∈ got g s \/ lost c \/ pending g k s);
}.

(** ** Tags, logs and buffers *)

Lemma give_lookup {A} s (t : A) gt s' :
  default [] (give s t gt !! s') = default [] (gt !! s') ++ (if decide (s' = s) then [t] else []).
Proof using Type.
  unfold give. case_decide as Hs; [subst; by rewrite lookup_insert_eq|].
  by rewrite lookup_insert_ne, app_nil_r.
Qed.

Lemma ext_nil {A} (o : gmap conn_id (list A)) s s' :
  default [] (o !! s') = default [] (o !! s') ++ (if decide (s' = s) then [] else []).
Proof using Type. case_decide; by rewrite app_nil_r. Qed.

(** What a send may add to the buffers. *)
Lemma give_if {A} (b : bool) s (t : A) gt s' :
  default [] ((if b then give s t gt else gt) !! s')
  = default [] (gt !! s') ++ (if decide (s' = s) then if b then [t] else [] else []).
Proof using Type. destruct b; [apply give_lookup|apply ext_nil]. Qed.

Lemma give_if_event (b : bool) s k gt s' k' :
  Event k' ∈ default [] ((if b then give s (Event k) gt else gt) !! s')
  <-> Event k' ∈ default [] (gt !! s') \/ s' = s /\ k' = k /\ b = true.
Proof using Type. rewrite give_if, elem_of_app. case_decide; destruct b; set_solver. Qed.

(** A send settles one subscriber only. *)
Lemma pending_send g g' p k s rest k' s' :
  b_pcs g !! p = Some (k, s :: rest) -> b_pcs g' = <[p := (k, rest)]> (b_pcs g) -> pending g k' s' ->
  k' = k /\ s' = s \/ pending g' k' s'.
Proof using Type.
  intros Hp Hg (q & r & Hq & Hr). unfold pending. rewrite Hg. destruct (decide (q = p)) as [->|Hne].
  - rewrite Hp in Hq. injection Hq as <- <-. apply elem_of_cons in Hr as [->|Hr]; [by left|].
    right. exists p, rest. by rewrite lookup_insert_eq.
  - right. exists q, r. by rewrite lookup_insert_ne.
Qed.

Lemma elem_of_publisher lg p ts k :
  k ∈ of_publisher lg p ts <-> Event k ∈ ts /\ pb_who <$> lg !! k = Some p.
Proof using Type.
  unfold of_publisher. rewrite list_elem_of_filter, list_elem_of_omap. split.
  - intros [Hp ([k'|m] & Hin & [= ->])]. done.
  - intros [Hin Hp]. split; [done|]. by exists (Event k).
Qed.

Lemma of_publisher_snoc lg p ts t :
  of_publisher lg p (ts ++ [t])
  = of_publisher lg p ts ++ match t with
                            | Event k => if decide (pb_who <$> lg !! k = Some p) then [k] else []
                            | Other _ => []
                            end.
Proof using Type.
  unfold of_publisher. rewrite omap_app, filter_app. f_equal. by destruct t.
Qed.

(** A longer log changes nothing for the tags of the shorter. *)
Definition tags_ok (lg : list pub) (ts : list tag) : Prop := forall k, Event k ∈ ts -> k < length lg.

Lemma of_publisher_log lg e p ts : tags_ok lg ts -> of_publisher (lg ++ [e]) p ts = of_publisher lg p ts.
Proof using Type.
  intros Hok. unfold of_publisher. induction ts as [|[k|m] ts IH]; [done|..].
  - change (omap event_of (Event k :: ts)) with (k :: omap event_of ts).
    rewrite !filter_cons, lookup_app_l by (apply Hok; left). rewrite IH; [done|]. intros j Hj. apply Hok. by right.
  - change (omap event_of (Other m :: ts)) with (omap event_of ts). apply IH. intros j Hj. apply Hok. by right.
Qed.

Lemma frames_log lg e ts : tags_ok lg ts -> frame_of (lg ++ [e]) <$> ts = frame_of lg <$> ts.
Proof using Type.
  intros Hok. apply list_fmap_ext. intros i t Ht. destruct t as [k|m]; [|done]. cbn.
  rewrite lookup_app_l; [done|]. apply Hok. by eapply list_elem_of_lookup_2.
Qed.

Lemma StronglySorted_snoc (l : list nat) x :
  StronglySorted lt l -> (forall y, y ∈ l -> y < x) -> StronglySorted lt (l ++ [x]).
Proof using Type.
  intros Hl Hx. apply StronglySorted_app_2; [|done|by repeat constructor].
  intros y z Hy ->%list_elem_of_singleton. by apply Hx.
Qed.

(** What a send does to the buffer under the policy the server runs with. *)
Section Disconnect.
Context (cfg : Config) (Hpolicy : policy cfg = PolicyDisconnect).
Implicit Types (c : Conn B) (g : bstate).

Lemma deliver_send m c :
  send (deliver cfg m c) = if accepts cfg c then send c ++ [m] else send c.
Proof using All.
  unfold deliver, accepts. destruct (closed c); [done|]. rewrite Hpolicy. cbn. unfold try_send.
  case_decide as Hl; [by rewrite bool_decide_eq_true_2|by rewrite bool_decide_eq_false_2].
Qed.

Lemma deliver_lost m c : lost c \/ accepts cfg c = false -> lost (deliver cfg m c).
Proof using All.
  unfold lost, deliver, accepts. destruct (closed c) eqn:Hc; [by left|]. rewrite Hpolicy. cbn. unfold try_send.
  case_decide as Hl; cbn; rewrite Hc.
  - rewrite bool_decide_eq_true_2 by done. naive_solver.
  - by right.
Qed.

(** ** Preservation *)

(** Only the heap changes. *)
Lemma inv_heap h h' cs ps lg gt ot :
  b_inv (MkB h cs ps lg gt ot) ->
  (forall ch s, s ∈ Subscribers (chan_at ch h') -> s ∈ Subscribers (chan_at ch h) \/ is_Some (cs !! s)) ->
  b_inv (MkB h' cs ps lg gt ot).
Proof using Type.
  intros I Hh. split; try apply I. intros ch s [Hs|?]%Hh; [by apply (bi_subs _ I ch)|done].
Qed.

(** One conn changes without an event: [ts] frames are given, [os] are taken. *)
Lemma inv_conn h cs ps lg gt gt' ot ot' s c c' ts os :
  b_inv (MkB h cs ps lg gt ot) -> cs !! s = Some c ->
  (forall s', default [] (gt' !! s') = default [] (gt !! s') ++ (if decide (s' = s) then ts else [])) ->
  (forall s', default [] (ot' !! s') = default [] (ot !! s') ++ (if decide (s' = s) then os else [])) ->
  omap event_of ts = [] -> (lost c -> lost c') ->
  os ++ send c' = send c ++ (frame_of lg <$> ts) ->
  b_inv (MkB h (<[s := c']> cs) ps lg gt' ot').
Proof using Type.
  intros I Hs Hgot Hout Hts Hlost Hbuf. set (g' := MkB _ _ _ _ _ _).
  assert (forall s' k, Event k ∈ got g' s' <-> Event k ∈ default [] (gt !! s')) as Hev.
  { intros s' k. unfold got. cbn. rewrite Hgot, elem_of_app. split; [|by left]. intros [?|Hk]; [done|]. exfalso.
    case_decide; [|by apply elem_of_nil in Hk]. assert (k ∈ omap event_of ts) as Hin.
    { apply list_elem_of_omap. by exists (Event k). }
    rewrite Hts in Hin. by apply elem_of_nil in Hin. }
  split; cbn.
  - intros p k rest Hp. destruct (bi_pcs _ I p k rest Hp) as (e & He & Hw & Hnd & Hr & Hm). exists e.
    split_and!; [done..| |done]. intros s' Hin. rewrite Hev. by apply Hr.
  - intros s' k Hk. rewrite Hev in Hk. by apply (bi_got _ I s' k).
  - intros s' p. unfold got. cbn. rewrite Hgot. unfold of_publisher. rewrite omap_app.
    case_decide; [rewrite Hts|]; rewrite app_nil_r; apply (bi_order _ I s' p).
  - intros s' c1. unfold out, got. cbn. rewrite lookup_insert_Some, Hgot, Hout. intros [[<- <-]|[Hne Hc1]].
    + rewrite !decide_True by done. rewrite fmap_app, <- app_assoc, Hbuf, app_assoc. f_equal.
      apply (bi_buffer _ I s c Hs).
    + rewrite !decide_False, !app_nil_r by congruence. by apply (bi_buffer _ I s').
  - intros s'. unfold got, out. cbn. rewrite lookup_insert_None, Hgot, Hout. intros [Hn Hne].
    rewrite !decide_False, !app_nil_r by congruence. by apply (bi_fresh _ I).
  - intros ch s' Hin. apply lookup_insert_is_Some'. right. by apply (bi_subs _ I ch).
  - intros k e s' He Hin. destruct (bi_all _ I k e s' He Hin) as (c1 & Hc1 & Hor). cbn in Hc1.
    setoid_rewrite Hev. destruct (decide (s' = s)) as [->|Hne].
    + exists c'. rewrite lookup_insert_eq. simplify_eq. naive_solver.
    + exists c1. by rewrite lookup_insert_ne.
Qed.

Lemma inv_open_empty h cs ps lg gt ot s c :
  b_inv (MkB h cs ps lg gt ot) -> cs !! s = None -> send c = [] -> b_inv (MkB h (<[s := c]> cs) ps lg gt ot).
Proof using Type.
  intros I Hs Hc. split; try apply I; cbn.
  - intros s' c1. rewrite lookup_insert_Some. intros [[<- <-]|[Hne Hc1]]; [|by apply (bi_buffer _ I)].
    destruct (bi_fresh _ I s Hs) as [E1 E2]. unfold got, out in *. cbn in *. by rewrite E1, E2, Hc.
  - intros s'. rewrite lookup_insert_None. intros [Hn _]. by apply (bi_fresh _ I).
  - intros ch s' Hin. apply lookup_insert_is_Some'. right. by apply (bi_subs _ I ch).
  - intros k e s' He Hin. destruct (bi_all _ I k e s' He Hin) as (c1 & Hc1 & Hor). cbn in Hc1. exists c1.
    rewrite lookup_insert_ne by congruence. done.
Qed.

(** A conn enters with its greeting queued. *)
Lemma inv_open h cs ps lg gt ot s c :
  b_inv (MkB h cs ps lg gt ot) -> cs !! s = None ->
  b_inv (MkB h (<[s := c]> cs) ps lg (<[s := Other <$> send c]> gt) ot).
Proof using Type.
  intros I Hs. destruct (bi_fresh _ I s Hs) as [Hg _]. unfold got in Hg. cbn in Hg.
  rewrite <- (insert_insert_eq cs s c (set_send [] c)).
  eapply (inv_conn _ _ _ _ _ _ _ _ s _ _ (Other <$> send c) []
    (inv_open_empty _ _ _ _ _ _ s (set_send [] c) I Hs eq_refl)).
  - apply lookup_insert_eq.
  - intros s'. case_decide as Hss; [subst; by rewrite lookup_insert_eq, Hg|by rewrite lookup_insert_ne, app_nil_r].
  - apply ext_nil.
  - by induction (send c).
  - by intros ?.
  - cbn. rewrite <- list_fmap_compose. symmetry. by apply list_fmap_id.
Qed.

(** The snapshot. *)
Lemma inv_snap h cs ps lg gt ot p ch m order :
  b_inv (MkB h cs ps lg gt ot) -> order ≡ₚ subs_snapshot ch h ->
  (forall k s rest, ps !! p <> Some (k, s :: rest)) ->
  b_inv (MkB h cs (<[p := (length lg, order)]> ps) (lg ++ [MkPub p m (Subscribers (chan_at ch h))]) gt ot).
Proof using Type.
  intros I Ho Hidle. set (e := MkPub _ _ _).
  assert (forall s, tags_ok lg (default [] (gt !! s))) as Hok.
  { intros s k Hk. destruct (bi_got _ I s k Hk) as (e' & He & _). by eapply lookup_lt_Some. }
  assert (forall s, s ∈ order <-> s ∈ pb_subs e) as Hin.
  { intros s. rewrite Ho. unfold subs_snapshot. by rewrite elem_of_elements. }
  assert (forall s, Event (length lg) ∉ default [] (gt !! s)) as Hnew.
  { intros s Hk%Hok. lia. }
  split; cbn.
  - intros q k rest. rewrite lookup_insert_Some. intros [[<- [= <- <-]]|[Hne Hq]].
    + exists e. rewrite lookup_app_r, Nat.sub_diag by done. split_and!; [done..| | |].
      * rewrite Ho. apply NoDup_elements.
      * intros s Hs. split; [by apply Hin|apply Hnew].
      * intros j Hj. apply fmap_Some in Hj as (e' & Hj & _). apply lookup_lt_Some in Hj.
        rewrite length_app in Hj. cbn in Hj. lia.
    + destruct (bi_pcs _ I q k rest Hq) as (e' & He & Hw & Hnd & Hr & Hm). exists e'. cbn in He.
      rewrite lookup_app_l by (by eapply lookup_lt_Some). split_and!; [done..|].
      intros j. destruct (decide (j < length lg)) as [Hlt|Hge].
      * rewrite lookup_app_l by done. apply Hm.
      * rewrite lookup_app_r by lia. destruct (j - length lg) as [|]; cbn; [intros [= Hqp]; by destruct Hne|done].
  - intros s k Hk. destruct (bi_got _ I s k Hk) as (e' & He & Hs). exists e'. cbn in He.
    by rewrite lookup_app_l by (by eapply lookup_lt_Some).
  - intros s q. rewrite of_publisher_log by apply Hok. apply (bi_order _ I s q).
  - intros s c Hc. rewrite frames_log by apply Hok. apply (bi_buffer _ I s c Hc).
  - apply (bi_fresh _ I).
  - apply (bi_subs _ I).
  - intros k e' s He Hs. unfold pending. cbn. destruct (decide (k < length lg)) as [Hlt|Hge].
    + rewrite lookup_app_l in He by done. destruct (bi_all _ I k e' s He Hs) as (c & Hc & Hor).
      exists c. split; [done|]. destruct Hor as [?|[?|(q & rest & Hq & Hr)]]; [by left|by right; left|]. right. right.
      exists q, rest. split; [|done]. cbn in Hq. rewrite lookup_insert_ne; [done|]. intros <-.
      destruct rest; [by apply elem_of_nil in Hr|by apply Hidle in Hq].
    + rewrite lookup_app_r in He by lia. destruct (k - length lg) as [|] eqn:Hk; [|done].
      cbn in He. simplify_eq. destruct (bi_subs _ I ch s Hs) as [c Hc]. exists c. split; [done|]. right. right.
      exists p, order. replace k with (length lg) by lia. rewrite lookup_insert_eq. split; [done|]. by apply Hin.
Qed.

(** One send of a broadcast. *)
Lemma inv_send h cs ps lg gt ot p k s rest e c :
  b_inv (MkB h cs ps lg gt ot) -> ps !! p = Some (k, s :: rest) -> lg !! k = Some e -> cs !! s = Some c ->
  b_inv (MkB h (<[s := deliver cfg (pb_msg e) c]> cs) (<[p := (k, rest)]> ps) lg
           (if accepts cfg c then give s (Event k) gt else gt) ot).
Proof using All.
  intros I Hp He Hs.
  destruct (bi_pcs _ I p k (s :: rest) Hp) as (e0 & He0 & Hwho & [Hnin Hnd]%NoDup_cons & Hr & Hmax).
  cbn in He0. assert (e0 = e) as -> by congruence. destruct (Hr s ltac:(left)) as [Hsub Hnew].
  set (g' := MkB _ _ _ _ _ _).
  assert (forall s', got g' s' = _) as Hgot by (intros; apply give_if).
  assert (forall s' k', Event k' ∈ got g' s' <-> _) as Hev by (intros; apply give_if_event).
  split; cbn [b_pcs b_log b_conns b_heap g'].
  - intros q k' rest'. rewrite lookup_insert_Some. intros [[<- [= <- <-]]|[Hne Hq]].
    + exists e. split_and!; [done..| |done]. intros s' Hin. destruct (Hr s' ltac:(by right)) as [? Hn].
      split; [done|]. rewrite Hev. intros [?|(-> & _)]; [by apply Hn|by apply Hnin].
    + destruct (bi_pcs _ I q k' rest' Hq) as (e' & He' & Hw' & Hnd' & Hr' & Hm').
      exists e'. split_and!; [done..| |done]. intros s' Hin. destruct (Hr' s' Hin) as [? Hn]. split; [done|]. rewrite Hev.
      intros [?|(_ & -> & _)]; [by apply Hn|]. cbn in He'. congruence.
  - intros s' k' [Hk|(-> & -> & _)]%Hev; [by apply (bi_got _ I s' k')|by exists e].
  - intros s' q. rewrite Hgot. pose proof (bi_order _ I s' q) as Hsort. unfold got in Hsort. cbn in Hsort.
    case_decide as Hss; [subst s'|by rewrite app_nil_r].
    destruct (accepts cfg c); [|by rewrite app_nil_r]. rewrite of_publisher_snoc.
    case_decide as Hq; [|by rewrite app_nil_r]. apply StronglySorted_snoc; [done|].
    intros j [Hj Hjq]%elem_of_publisher. rewrite He in Hq. cbn in Hq. simplify_eq.
    apply Nat.le_neq. split; [apply Hmax; etrans; [exact Hjq|by f_equal]|]. by intros ->.
  - intros s' c1. rewrite Hgot. unfold out. cbn [b_out g']. rewrite lookup_insert_Some. intros [[<- <-]|[Hne Hc1]].
    + rewrite decide_True, deliver_send by done.
      pose proof (bi_buffer _ I s c Hs) as Hb. unfold out, got in Hb. cbn in Hb.
      destruct (accepts cfg c); [|by rewrite app_nil_r].
      rewrite fmap_app, app_assoc, Hb. cbn. by rewrite He.
    + rewrite decide_False, app_nil_r by congruence. by apply (bi_buffer _ I s').
  - intros s'. rewrite lookup_insert_None. intros [Hn Hne]. rewrite Hgot, decide_False, app_nil_r by congruence.
    by apply (bi_fresh _ I).
  - intros ch s' Hin. apply lookup_insert_is_Some'. right. by apply (bi_subs _ I ch).
  - intros k' e' s' He' Hin. destruct (bi_all _ I k' e' s' He' Hin) as (c1 & Hc1 & Hor). cbn in Hc1.
    assert (Event k' ∈ got g' s' \/ lost c1 \/ pending g' k' s' \/ s' = s /\ k' = k /\ accepts cfg c = false)
      as Hor'.
    { setoid_rewrite Hev. destruct Hor as [?|[?|[[-> ->]|?]%(pending_send (MkB h cs ps lg gt ot) g' p k s rest _ _ Hp eq_refl)]];
        [naive_solver..| |by do 2 right; left]. destruct (accepts cfg c); naive_solver. }
    destruct (decide (s' = s)) as [->|Hne].
    + exists (deliver cfg (pb_msg e) c). rewrite lookup_insert_eq. split; [done|]. simplify_eq.
      pose proof (deliver_lost (pb_msg e) c). naive_solver.
    + exists c1. rewrite lookup_insert_ne by done. naive_solver.
Qed.

Lemma b_inv_step l g g' : b_inv g -> b_step cfg l g = Some g' -> b_inv g'.
Proof using All.
  intros I. destruct g as [h cs ps lg gt ot].
  destruct l as [name|s c|ch s max|ch s|p ch m order|p|s m|s|s]; unfold b_step.
  - intros <-%(inj Some). apply (inv_heap _ _ _ _ _ _ _ I). intros l s. rewrite chan_at_alloc.
    case_decide; [|by left]. cbn. by intros ?%elem_of_empty.
  - destruct (cs !! s) as [|] eqn:Hs; [done|]. intros <-%(inj Some). by apply inv_open.
  - destruct (cs !! s) as [c|] eqn:Hs; [|done]. cbn. destruct (Subscribe _ _ _ _) as [[[]|] h'] eqn:Hsub; [|done].
    intros <-%(inj Some). apply (inv_heap _ _ _ _ _ _ _ I). apply Subscribe_Ok in Hsub as (_ & _ & ->). intros l s'.
    rewrite chan_at_set. case_decide as Hl; [subst|by left]. cbn. rewrite elem_of_union, elem_of_singleton.
    intros [->|?]; [right; by eexists|by left].
  - intros <-%(inj Some). apply (inv_heap _ _ _ _ _ _ _ I). intros l s'. rewrite Unsubscribe_at. cbn.
    case_decide as Hl; [subst; intros [? _]%elem_of_difference; by left|by left].
  - case_decide as Ho; [|done]. destruct (ps !! p) as [[k [|s rest]]|] eqn:Hp; try done; intros <-%(inj Some);
      apply inv_snap; try done; intros; congruence.
  - destruct (ps !! p) as [[k [|s rest]]|] eqn:Hp; try done. destruct (lg !! k) as [e|] eqn:He; [|done]. cbn.
    destruct (cs !! s) as [c|] eqn:Hs; [|done]. cbn. intros <-%(inj Some). by apply inv_send.
  - destruct (cs !! s) as [c|] eqn:Hs; [|done]. cbn.
    case_decide as Hl; [|by intros <-%(inj Some)]. intros <-%(inj Some).
    eapply (inv_conn _ _ _ _ _ _ _ _ s c _ [Other m] [] I Hs); [apply give_lookup|apply ext_nil|done..|].
    cbn. unfold push, try_send. by rewrite decide_True.
  - destruct (cs !! s) as [c|] eqn:Hs; [|done]. cbn.
    destruct (send c) as [|m q] eqn:Hq; [done|]. intros <-%(inj Some).
    eapply (inv_conn _ _ _ _ _ _ _ _ s c _ [] [m] I Hs); [apply ext_nil|apply give_lookup|done..|].
    cbn. by rewrite Hq, app_nil_r.
  - destruct (cs !! s) as [c|] eqn:Hs; [|done]. cbn. intros <-%(inj Some).
    eapply (inv_conn _ _ _ _ _ _ _ _ s c _ [] [] I Hs); [apply ext_nil|apply ext_nil|done|by left|].
    cbn. by rewrite app_nil_r.
Qed.

Lemma b_inv_init : b_inv b_init.
Proof using Type.
  split; cbn.
  - intros p k rest. by rewrite lookup_empty.
  - intros s k. unfold got. cbn. rewrite lookup_empty. by intros ?%elem_of_nil.
  - intros s p. unfold got. cbn. rewrite lookup_empty. constructor.
  - intros s c. by rewrite lookup_empty.
  - intros s _. unfold got, out. cbn. by rewrite lookup_empty.
  - intros ch s. unfold chan_at. cbn. rewrite lookup_empty. by intros ?%elem_of_empty.
  - intros k e s. by rewrite lookup_nil.
Qed.

Lemma b_from_inv tr g g' : b_inv g -> b_from cfg g tr = Some g' -> b_inv g'.
Proof using All.
  revert g. induction tr as [|l tr IH]; intros g I; cbn; [by intros <-%(inj Some)|].
  destruct (b_step cfg l g) as [g1|] eqn:Hs; cbn; [|done]. apply IH. by eapply b_inv_step.
Qed.

(** C12. Broadcasts in any interleaving. Under the policy the server runs with,
    however many publishers are between their snapshot of the subscribers and
    their last send, and whatever conns open, join, leave, are answered, write
    and close meanwhile: what a subscriber's pump wrote, followed by what is
    still queued, is exactly what its buffer was given, in that order; each
    publisher's events are among it in the order it published them, none twice,
    and only those whose snapshot had the subscriber; and an event whose
    snapshot had it is among it, or is still to be sent, or the subscriber is
    closed or about to be disconnected. *)
Theorem broadcasts_interleave tr g s c :
  b_from cfg b_init tr = Some g -> b_conns g !! s = Some c ->
  out g s ++ send c = frame_of (b_log g) <$> got g s
  /\ (forall p, StronglySorted lt (of_publisher (b_log g) p (got g s)))
  /\ forall k e, b_log g !! k = Some e ->
       (Event k ∈ got g s -> s ∈ pb_subs e)
       /\ (s ∈ pb_subs e -> Event k ∈ got g s \/ lost c \/ pending g k s).
Proof using All.
  intros I%b_from_inv Hc; [|apply b_inv_init]. split_and!; [by apply bi_buffer|by apply bi_order|].
  intros k e He. split.
  - intros (e' & He' & Hs)%(bi_got _ I). by simplify_eq.
  - intros Hs. destruct (bi_all _ I k e s He Hs) as (c' & Hc' & Hor). by simplify_eq.
Qed.
End Disconnect.

(** ** The one-piece broadcast of the handlers is the run without interleaving *)

Lemma sends_alone cfg p k e ss : forall g,
  b_pcs g !! p = Some (k, ss) -> b_log g !! k = Some e -> (forall s, s ∈ ss -> is_Some (b_conns g !! s)) ->
  exists g', b_from cfg g (repeat (LSend p) (length ss)) = Some g'
    /\ b_heap g' = b_heap g
    /\ forall i, NoDup ss ->
         b_conns g' !! i = (if decide (i ∈ ss) then deliver cfg (pb_msg e) <$> b_conns g !! i else b_conns g !! i).
Proof using Type.
  induction ss as [|s ss IH]; intros [h cs ps lg gt ot] Hp He Hcs; cbn [length repeat b_from].
  - eexists. split_and!; [done..|]. intros i _. rewrite decide_False; [done|]. apply not_elem_of_nil.
  - cbn in Hp, He, Hcs. destruct (Hcs s) as [c Hc]; [left|]. cbn. rewrite Hp, He. cbn. rewrite Hc. cbn.
    match goal with |- context [b_from cfg ?g1 _] => destruct (IH g1) as (g' & Hr & Hh & Hi) end; cbn.
    + by rewrite lookup_insert_eq.
    + done.
    + intros s' Hs'. apply lookup_insert_is_Some'. right. apply Hcs. by right.
    + exists g'. split_and!; [exact Hr|exact Hh|]. intros i [Hnin Hnd]%NoDup_cons. rewrite Hi by done. cbn.
      destruct (decide (i = s)) as [->|Hne].
      * rewrite lookup_insert_eq, decide_False, decide_True by (done || left). by rewrite Hc.
      * rewrite lookup_insert_ne by done. repeat case_decide; set_solver.
Qed.

Lemma b_from_cons cfg l tr g : b_from cfg g (l :: tr) = g' ← b_step cfg l g; b_from cfg g' tr.
Proof using Type. done. Qed.

(** A broadcast whose sends nobody comes between is [hub_Broadcast]. *)
Lemma uninterleaved {R F} `{Registry R} cfg p l m g (w : World R B F) :
  (forall k s rest, b_pcs g !! p <> Some (k, s :: rest)) ->
  (forall s, s ∈ Subscribers (chan_at l (b_heap g)) -> is_Some (b_conns g !! s)) ->
  w_heap w = b_heap g -> w_conns w = b_conns g ->
  let order := subs_snapshot l (w_heap w) in
  exists g', b_from cfg g (LSnap p l m order :: repeat (LSend p) (length order)) = Some g'
    /\ b_heap g' = w_heap (hub_Broadcast cfg l m w) /\ b_conns g' = w_conns (hub_Broadcast cfg l m w).
Proof using Type.
  intros Hp Hcs Hh Hc order. destruct g as [h cs ps lg gt ot]. cbn in Hp, Hcs, Hh, Hc. subst h cs.
  set (e := MkPub p m (Subscribers (chan_at l (w_heap w)))).
  set (g1 := MkB (w_heap w) (w_conns w) (<[p := (length lg, order)]> ps) (lg ++ [e]) gt ot).
  assert (b_step cfg (LSnap p l m order) (MkB (w_heap w) (w_conns w) ps lg gt ot) = Some g1) as Hsnap.
  { cbn. rewrite decide_True by done. destruct (ps !! p) as [[k [|s rest]]|] eqn:Hq; [done| |done].
    by destruct (Hp k s rest). }
  assert (forall s, s ∈ order <-> s ∈ Subscribers (chan_at l (w_heap w))) as Hin by apply elem_of_elements.
  destruct (sends_alone cfg p (length lg) e order g1) as (g' & Hr & Hheap & Hi).
  - by cbn; rewrite lookup_insert_eq.
  - cbn. by rewrite lookup_app_r, Nat.sub_diag.
  - intros s Hs. by apply Hcs, Hin.
  - exists g'. split; [by rewrite b_from_cons, Hsnap|split].
    + rewrite Hheap. symmetry. apply core_Broadcast.
    + apply map_eq. intros i. rewrite Hi by apply NoDup_elements. rewrite hub_Broadcast_conns. cbn.
      by rewrite (decide_ext _ _ _ _ (Hin i)).
Qed.

End Broadcasts.

(** ** A run *)

(** Two conns on one channel, two publishers, each halfway through its sends
    when the other starts; then conn 1 writes a frame and conn 2 goes. *)
Definition demo_cfg : Config := MkConfig "secret" PolicyDisconnect.
Definition demo_conn (sid : string) : Conn tbucket :=
  MkConn sid "key" [hello_frame sid] (NewLimiter 1 1) (NewLimiter 1 1) false (Some ∅) false.
Definition demo_trace : list blabel :=
  [LAlloc "room"; LOpen 1 (demo_conn "1.1"); LOpen 2 (demo_conn "2.2"); LSub 0 1 10; LSub 0 2 10;
   LSnap 7 0 "A" [1; 2]; LSnap 8 0 "B" [2; 1]; LSend 7; LSend 8; LReply 1 "ack"; LSend 7; LSend 8;
   LWrite 1; LWrite 1; LSnap 7 0 "C" [2; 1]; LClose 2; LSend 7].

(** PROTOCOL.md section 10: two subscribers can see two publishers' events in
    different orders. *)
Example orders_differ :
  ((fun g => (got g 1, got g 2)) <$> b_from demo_cfg b_init demo_trace)
  = Some ([Other (hello_frame "1.1"); Event 0; Other "ack"; Event 1], [Other (hello_frame "2.2"); Event 1; Event 0]).
Proof. vm_compute. reflexivity. Qed.


Definition demo_end : bstate := default b_init (b_from demo_cfg b_init demo_trace).

(** Conn 1 wrote its greeting and the first event. *)
Lemma broadcasts_interleave_witness :
  exists c, b_conns demo_end !! 1 = Some c /\ out demo_end 1 = [hello_frame "1.1"; "A"]
    /\ out demo_end 1 ++ send c = frame_of (b_log demo_end) <$> got demo_end 1
    /\ pending demo_end 2 1 /\ of_publisher (b_log demo_end) 7 (got demo_end 1) = [0].
Proof.
  eexists. split_and!; [by vm_compute|by vm_compute| | |by vm_compute].
  - eapply (broadcasts_interleave demo_cfg eq_refl demo_trace); by vm_compute.
  - exists 7, [1]. split; [by vm_compute|by left].
Defined.
