(* ===== verification/JsonFacts.v ===== *)
(** * Facts about the JSON model

    String literals round-trip, and the fuel of the parser is enough. *)
From S2P Require Import Prelude GoBytes Utf8 GoJson.
From stdpp Require Import options.
Local Open Scope N_scope.

(** ** Units *)

(** An ASCII text, unit by unit. *)
Fixpoint ascii_units (s : string) : list (N * string) :=
  match s with
  | EmptyString => []
  | String c s' => (ord c, String c "") :: ascii_units s'
  end.

Lemma utf8_units_ascii a t :
  string_forall ascii_byte a = true -> utf8_units (a +:+ t) = ascii_units a ++ utf8_units t.
Proof.
  induction a as [|c a IH]; intros Ha; str_simpl; [done|].
  cbn in Ha. apply andb_true_iff in Ha as [Hc Ha]. unfold ascii_byte in Hc.
  cbn [utf8_units ascii_units]. rewrite Hc. cbn. by rewrite IH.
Qed.

(** A well-formed unit decodes the same in front of anything. *)
Lemma utf8_units_ok s u s' t :
  unit_of s u s' -> unit_ok u = true -> utf8_units (u.2 +:+ t) = u :: utf8_units t.
Proof.
  inversion 1; subst; intros Hok; cbn [fst snd] in *; str_simpl; cbn [utf8_units].
  - by rewrite (proj2 (N.ltb_lt _ _)).
  - done.
  - range_hyps. unfold in_range, cont, in_range.
    rewrite (proj2 (N.ltb_ge _ _)) by lia.
    repeat (rewrite (proj2 (N.leb_le _ _)) by lia). done.
  - pose proof (lo2_ge (ord b0)). range_hyps. unfold in_range, cont, in_range.
    rewrite (proj2 (N.ltb_ge _ _)) by lia.
    rewrite (proj2 (N.leb_gt (ord b0) 223)) by lia. rewrite andb_false_r.
    repeat (rewrite (proj2 (N.leb_le _ _)) by lia). done.
  - pose proof (lo2_ge (ord b0)). range_hyps. unfold in_range, cont, in_range.
    rewrite (proj2 (N.ltb_ge _ _)) by lia.
    rewrite (proj2 (N.leb_gt (ord b0) 223)) by lia. rewrite andb_false_r.
    rewrite (proj2 (N.leb_gt (ord b0) 239)) by lia. rewrite andb_false_r.
    repeat (rewrite (proj2 (N.leb_le _ _)) by lia). done.
Qed.

(** [AppendRune] undoes the decoding of a well-formed unit. *)
Lemma ascii_of_ord n c : n = ord c -> ascii_of_N n = c.
Proof. intros ->. apply ascii_N_embedding. Qed.

Ltac divmod := zify; Z.to_euclidean_division_equations; lia.

Lemma encode_rune_unit s u s' : unit_of s u s' -> unit_ok u = true -> encode_rune u.1 = u.2.
Proof.
  inversion 1; subst; intros Hok; cbn [fst snd] in *; unfold encode_rune.
  - rewrite (proj2 (N.ltb_lt _ _)) by done. by rewrite ascii_N_embedding.
  - done.
  - range_hyps. unfold rune2. rewrite (proj2 (N.ltb_ge _ _)) by lia.
    rewrite (proj2 (N.ltb_lt _ _)) by lia. cbn [string_of_bytes].
    f_equal; [|f_equal]; apply ascii_of_ord; divmod.
  - range_hyps.
    assert (2048 <= rune3 b0 b1 b2 /\ (rune3 b0 b1 b2 < 55296 \/ 57343 < rune3 b0 b1 b2)
      /\ rune3 b0 b1 b2 < 65536) as (Hlo & Hsur & Hhi).
    { unfold lo2, hi2 in *. unfold rune3. repeat case_match; bool_hyps; lia. }
    rewrite (proj2 (N.ltb_ge _ _)) by lia. rewrite (proj2 (N.ltb_ge _ _)) by lia.
    assert (((55296 <=? rune3 b0 b1 b2) && (rune3 b0 b1 b2 <=? 57343)
      || (1114111 <? rune3 b0 b1 b2)) = false) as ->.
    { rewrite (proj2 (N.ltb_ge _ _)), orb_false_r by lia. apply andb_false_iff.
      rewrite !N.leb_gt. lia. }
    rewrite (proj2 (N.ltb_lt _ _)) by lia. cbn [string_of_bytes]. unfold rune3.
    pose proof (lo2_ge (ord b0)).
    assert (ord b1 <= 191) by (unfold hi2 in *; repeat case_match; lia).
    f_equal; [|f_equal; [|f_equal]]; apply ascii_of_ord; divmod.
  - range_hyps.
    assert (65536 <= rune4 b0 b1 b2 b3 /\ rune4 b0 b1 b2 b3 <= 1114111) as (Hlo & Hhi).
    { unfold lo2, hi2 in *. unfold rune4. repeat case_match; bool_hyps; lia. }
    rewrite (proj2 (N.ltb_ge _ _)) by lia. rewrite (proj2 (N.ltb_ge _ _)) by lia.
    assert (((55296 <=? rune4 b0 b1 b2 b3) && (rune4 b0 b1 b2 b3 <=? 57343)
      || (1114111 <? rune4 b0 b1 b2 b3)) = false) as ->.
    { rewrite (proj2 (N.ltb_ge _ _)), orb_false_r by lia. apply andb_false_iff.
      rewrite !N.leb_gt. lia. }
    rewrite (proj2 (N.ltb_ge _ _)) by lia. cbn [string_of_bytes]. unfold rune4.
    pose proof (lo2_ge (ord b0)).
    assert (ord b1 <= 191) by (unfold hi2 in *; repeat case_match; lia).
    f_equal; [|f_equal; [|f_equal; [|f_equal]]]; apply ascii_of_ord; divmod.
Qed.

Lemma Valid_unit s u s' :
  unit_of s u s' -> utf8_units s = u :: utf8_units s' ->
  Valid s = true <-> unit_ok u = true /\ Valid s' = true.
Proof. intros _ Heq. unfold Valid. rewrite Heq. cbn. apply andb_true_iff. Qed.

(** ** Quoting round-trips *)

Lemma hex_val_digit n : n < 16 -> hex_val (ord (hex_digit n)) = Some n.
Proof.
  intros Hn. pose proof (N_lt_cases (fun n => bool_decide (hex_val (ord (hex_digit n)) = Some n))
    16 n eq_refl Hn) as H. by apply bool_decide_eq_true_1 in H.
Qed.

Lemma ascii_units_enc html b :
  b < 128 -> string_forall ascii_byte (enc_ascii html b) = true.
Proof.
  intros Hb. destruct html.
  - apply (N_lt_cases (fun b => string_forall ascii_byte (enc_ascii true b)) 128); [by vm_compute|done].
  - apply (N_lt_cases (fun b => string_forall ascii_byte (enc_ascii false b)) 128); [by vm_compute|done].
Qed.

(** Decoding one encoded ASCII unit. *)
Lemma unquote_enc_ascii html b fuel us :
  b < 128 ->
  unquote_units (S fuel) (ascii_units (enc_ascii html b) ++ us)
  = (t ← unquote_units fuel us; Some (String (chr b) t)).
Proof.
  intros Hb. unfold enc_ascii.
  assert (ord (chr b) = b) as Hord by (apply N_ascii_embedding; lia).
  assert (encode_rune b = String (chr b) "") as Henc
    by (unfold encode_rune; by rewrite (proj2 (N.ltb_lt _ _))).
  destruct ((b =? 34) || (b =? 92)) eqn:Hq.
  { apply orb_true_iff in Hq as [->%N.eqb_eq| ->%N.eqb_eq]; by cbn; destruct (unquote_units fuel us). }
  apply orb_false_iff in Hq as [Hq34 Hq92]. bool_hyps.
  destruct (b =? 8) eqn:E1; bool_hyps; [subst b; by cbn; destruct (unquote_units fuel us)|].
  destruct (b =? 12) eqn:E2; bool_hyps; [subst b; by cbn; destruct (unquote_units fuel us)|].
  destruct (b =? 10) eqn:E3; bool_hyps; [subst b; by cbn; destruct (unquote_units fuel us)|].
  destruct (b =? 13) eqn:E4; bool_hyps; [subst b; by cbn; destruct (unquote_units fuel us)|].
  destruct (b =? 9) eqn:E5; bool_hyps; [subst b; by cbn; destruct (unquote_units fuel us)|].
  destruct ((b <? 32) || _) eqn:Hc.
  - cbn [hex_encode]. str_simpl. cbn [ascii_units app unquote_units].
    change (ord bslash =? 92) with true. change (ord (chr 117) =? 117) with true.
    change (ord "0") with 48. cbn [getu4].
    change (hex_val 48) with (Some 0). rewrite !hex_val_digit by (apply N.mod_lt || apply N.Div0.div_lt_upper_bound; lia).
    cbn [mbind option_bind].
    replace (((0 * 16 + 0) * 16 + b / 16) * 16 + b mod 16) with b by (pose proof (N.div_mod b 16); lia).
    unfold is_surrogate. rewrite (proj2 (N.leb_gt _ _)) by lia. cbn [andb].
    rewrite Henc. by destruct (unquote_units fuel us).
  - cbn [ascii_units app unquote_units]. rewrite Hord.
    rewrite (proj2 (N.eqb_neq _ _)) by done.
    unfold unit_ok. cbn [fst snd]. rewrite (proj2 (N.eqb_neq b RuneError)) by (unfold RuneError; lia).
    cbn. by destruct (unquote_units fuel us).
Qed.

(** The two line separators are written as escapes. *)
Lemma unquote_enc_separator r e fuel us :
  (r, e) = (8232, "u2028") \/ (r, e) = (8233, "u2029") ->
  unquote_units (S fuel) (ascii_units (String bslash e) ++ us)
  = (t ← unquote_units fuel us; Some (encode_rune r +:+ t)).
Proof. by intros [[= -> ->]|[= -> ->]]. Qed.

Lemma unquote_enc html s fuel :
  Valid s = true -> (length (utf8_units (enc_units html (utf8_units s))) <= fuel)%nat ->
  unquote_units fuel (utf8_units (enc_units html (utf8_units s))) = Some s.
Proof.
  revert fuel. induction s as [|s u s' Hu Heq IH] using utf8_ind; intros fuel Hv Hf.
  { by destruct fuel. }
  apply (Valid_unit _ _ _ Hu Heq) in Hv as [Hok Hv].
  rewrite Heq in *. cbn [enc_units foldr] in *. fold (enc_units html (utf8_units s')) in *.
  set (rest := enc_units html (utf8_units s')) in *.
  rewrite (unit_of_raw _ _ _ Hu).
  destruct (unit_of_bytes _ _ _ Hu) as [[Hlt Hraw]|[Hge _]]; unfold enc_unit in *.
  - rewrite (proj2 (N.ltb_lt _ _)) in * by done.
    rewrite utf8_units_ascii in * by (by apply ascii_units_enc).
    assert (1 <= length (ascii_units (enc_ascii html u.1)))%nat.
    { unfold enc_ascii. repeat case_match; cbn; lia. }
    rewrite length_app in Hf. destruct fuel as [|fuel]; [lia|].
    rewrite unquote_enc_ascii by done. rewrite IH by (done || lia). cbn. by rewrite Hraw.
  - rewrite (proj2 (N.ltb_ge _ _)) in * by done. rewrite Hok in *. cbn [negb] in *.
    pose proof (encode_rune_unit _ _ _ Hu Hok) as Henc.
    destruct (u.1 =? 8232) eqn:E1; bool_hyps; [|destruct (u.1 =? 8233) eqn:E2; bool_hyps].
    + rewrite utf8_units_ascii in * by done. rewrite length_app in Hf. cbn [ascii_units length] in Hf.
      destruct fuel as [|fuel]; [lia|]. rewrite (unquote_enc_separator 8232) by auto.
      rewrite IH by (done || lia). by rewrite <- Henc, E1.
    + rewrite utf8_units_ascii in * by done. rewrite length_app in Hf. cbn [ascii_units length] in Hf.
      destruct fuel as [|fuel]; [lia|]. rewrite (unquote_enc_separator 8233) by auto.
      rewrite IH by (done || lia). by rewrite <- Henc, E2.
    + rewrite (utf8_units_ok _ _ _ _ Hu Hok) in *. cbn [length] in Hf.
      destruct fuel as [|fuel]; [lia|]. cbn [unquote_units]. destruct u as [r raw]. cbn [fst snd] in *.
      rewrite (proj2 (N.eqb_neq r 92)) by lia. rewrite Hok, IH by (done || lia). done.
Qed.

(** ** Scanning a literal *)

Lemma scan_u00 h1 h2 t :
  is_hex_digit h1 = true -> is_hex_digit h2 = true ->
  scan_string (String bslash (String (chr 117) (String "0" (String "0" (String h1 (String h2 t))))))
  = ('(body, r) ← scan_string t;
     Some (String bslash (String (chr 117) (String "0" (String "0" (String h1 (String h2 body))))), r)).
Proof. intros E1 E2. cbn [scan_string forallb]. by rewrite E1, E2. Qed.

Lemma scan_enc_ascii html b t :
  b < 128 ->
  scan_string (enc_ascii html b +:+ t)
  = ('(body, r) ← scan_string t; Some (enc_ascii html b +:+ body, r)).
Proof.
  intros Hb. unfold enc_ascii.
  assert (ord (chr b) = b) as Hord by (apply N_ascii_embedding; lia).
  destruct ((b =? 34) || (b =? 92)) eqn:Hq.
  { by apply orb_true_iff in Hq as [->%N.eqb_eq| ->%N.eqb_eq]. }
  apply orb_false_iff in Hq as [Hq34 Hq92].
  do 5 (case_match; [done|]).
  destruct ((b <? 32) || _) eqn:Hc.
  - cbn [hex_encode]. str_simpl. str_simpl.
    rewrite scan_u00 by (apply hex_digit_is_hex; apply N.mod_lt || apply N.Div0.div_lt_upper_bound; lia).
    destruct (scan_string t) as [[body r]|]; [|done]. cbn [mbind option_bind]. by str_simpl.
  - apply orb_false_iff in Hc as [Hc _].
    str_simpl. cbn [scan_string]. rewrite Hord, Hq34, Hc, Hq92.
    by destruct (scan_string t) as [[body r]|].
Qed.

Lemma scan_high raw t :
  string_forall (fun c => negb (ascii_byte c)) raw = true ->
  scan_string (raw +:+ t) = ('(body, r) ← scan_string t; Some (raw +:+ body, r)).
Proof.
  induction raw as [|c raw IH]; intros Hr; str_simpl.
  { by destruct (scan_string t) as [[body r]|]. }
  cbn [string_forall] in Hr. apply andb_true_iff in Hr as [Hc Hr]. unfold ascii_byte in Hc. bool_hyps.
  cbn [scan_string]. rewrite (proj2 (N.eqb_neq _ 34)), (proj2 (N.ltb_ge _ _)),
    (proj2 (N.eqb_neq _ 92)), IH by (done || lia).
  destruct (scan_string t) as [[body r]|]; cbn; by str_simpl.
Qed.

Lemma scan_enc html s t :
  Valid s = true ->
  scan_string (enc_units html (utf8_units s) +:+ t)
  = ('(body, r) ← scan_string t; Some (enc_units html (utf8_units s) +:+ body, r)).
Proof.
  induction s as [|s u s' Hu Heq IH] using utf8_ind; intros Hv.
  { cbn. str_simpl. by destruct (scan_string t) as [[body r]|]. }
  apply (Valid_unit _ _ _ Hu Heq) in Hv as [Hok Hv].
  rewrite Heq. cbn [enc_units foldr]. fold (enc_units html (utf8_units s')). rewrite string_app_assoc.
  enough (forall t, scan_string (enc_unit html u +:+ t)
    = ('(body, r) ← scan_string t; Some (enc_unit html u +:+ body, r))) as Hstep.
  { rewrite Hstep, IH by done. destruct (scan_string t) as [[body r]|]; cbn; [|done].
    by rewrite string_app_assoc. }
  intros t'. unfold enc_unit. rewrite Hok.
  destruct (unit_of_bytes _ _ _ Hu) as [[Hlt Hraw]|[Hge Hraw]].
  - rewrite (proj2 (N.ltb_lt _ _)) by done. by apply scan_enc_ascii.
  - rewrite (proj2 (N.ltb_ge _ _)) by done. cbn [negb].
    repeat case_match; [done|done|]. by apply scan_high.
Qed.

(** A quoted string is read back, whatever follows it. *)
Lemma parse_quote html s fuel depth rest :
  Valid s = true -> parse_value (S fuel) depth (quote html s +:+ rest) = Some (JStr s, rest).
Proof.
  intros Hv. unfold quote, in_quotes. str_simpl. rewrite string_app_assoc. cbn [parse_value].
  change (ord dq =? 123) with false. change (ord dq =? 91) with false.
  change (ord dq =? 34) with true.
  rewrite scan_enc by done. str_simpl. change (scan_string (String dq rest)) with (Some (EmptyString, rest)).
  cbn [mbind option_bind]. rewrite string_app_nil_r. unfold unquote. by rewrite unquote_enc.
Qed.

(** ** The parser's fuel is enough

    Every scanner leaves a shorter text, so a parser called on [s] makes at most
    two nested calls per byte; with that much fuel, more changes nothing. *)

Abbreviation len := String.length.

Lemma accept_len b s r : accept b s = Some r -> len s = S (len r).
Proof. destruct s as [|c s]; cbn; [done|]. case_match; intros; by simplify_eq. Qed.

Lemma skip_ws_len s : (len (skip_ws s) <= len s)%nat.
Proof. induction s as [|c s IH]; cbn; [done|]. case_match; cbn; lia. Qed.

Lemma scan_string_len s : forall b r, scan_string s = Some (b, r) -> (len r < len s)%nat.
Proof.
  induction s as [s IH] using (induction_ltof1 _ len). unfold ltof in IH. intros b r.
  assert (forall s' f b r, (len s' < len s)%nat ->
    ('(b, r) ← scan_string s'; Some (f b, r)) = Some (b : string, r) -> (len r < len s)%nat) as Hrec.
  { intros s' f b' r' Hlt. destruct (scan_string s') as [[b0 r0]|] eqn:Hs; [|done].
    apply IH in Hs; [|done]. cbn. intros [= <- <-]. lia. }
  destruct s as [|c s]; cbn [scan_string]; [done|].
  destruct (ord c =? 34); [intros [= <- <-]; cbn; lia|]. destruct (ord c <? 32); [done|].
  destruct (ord c =? 92); [|apply Hrec; cbn; lia].
  destruct s as [|e s2]; [done|]. case_bool_decide; [apply (Hrec s2 (fun b => String c (String e b))); cbn; lia|].
  destruct (ord e =? 117); [|done].
  destruct s2 as [|h1 [|h2 [|h3 [|h4 s3]]]]; try done. destruct (forallb _ _); [|done].
  apply (Hrec s3 (fun b => String c (String e (String h1 (String h2 (String h3 (String h4 b))))))). cbn; lia.
Qed.

Lemma span_len f s a b : span f s = (a, b) -> len s = (len a + len b)%nat.
Proof.
  revert a b. induction s as [|c s IH]; intros a b; cbn; [intros; by simplify_eq|].
  destruct (f c); [|intros; by simplify_eq].
  destruct (span f s) as [a' b']. intros [= <- <-]. cbn. by rewrite (IH a' b').
Qed.

Lemma digits1_len s ds r : digits1 s = Some (ds, r) -> (len r < len s)%nat.
Proof.
  unfold digits1. destruct (span is_digit s) as [a b] eqn:Hs. apply span_len in Hs.
  case_bool_decide; [done|]. intros [= <- <-]. destruct a; cbn in Hs; [done|lia].
Qed.

Lemma scan_int_len s ds r : scan_int s = Some (ds, r) -> (len r < len s)%nat.
Proof.
  unfold scan_int. destruct (accept 48 s) as [s'|] eqn:Ha; [|apply digits1_len].
  apply accept_len in Ha. intros [= <- <-]. lia.
Qed.

Lemma scan_frac_len s ds r : scan_frac s = Some (ds, r) -> (len r <= len s)%nat.
Proof.
  unfold scan_frac. destruct (accept 46 s) as [s'|] eqn:Ha; [|intros; by simplify_eq].
  apply accept_len in Ha. destruct (digits1 s') as [[a b]|] eqn:Hd; [|done].
  apply digits1_len in Hd. cbn. intros [= <- <-]. lia.
Qed.

Lemma scan_exp_len s ds r : scan_exp s = Some (ds, r) -> (len r <= len s)%nat.
Proof.
  destruct s as [|c s]; cbn; [intros; by simplify_eq|].
  case_match; [|intros; by simplify_eq]. destruct (scan_sign s) as [sg s2] eqn:Hs.
  assert (len s2 <= len s)%nat.
  { destruct s as [|c' s]; cbn in Hs; [by simplify_eq|]. case_match; simplify_eq; cbn; lia. }
  destruct (digits1 s2) as [[a b]|] eqn:Hd; [|done]. apply digits1_len in Hd.
  cbn. intros [= <- <-]. lia.
Qed.

Lemma scan_number_len s t r : scan_number s = Some (t, r) -> (len r < len s)%nat.
Proof.
  unfold scan_number.
  set (p := match accept 45 s with Some s' => (String (chr 45) "", s') | None => ("", s) end).
  assert (len p.2 <= len s)%nat as Hp.
  { subst p. destruct (accept 45 s) eqn:Ha; cbn; [apply accept_len in Ha|]; lia. }
  destruct p as [sg s0]. cbn in Hp.
  destruct (scan_int s0) as [[i s1]|] eqn:H1; [|done]. apply scan_int_len in H1. cbn.
  destruct (scan_frac s1) as [[f s2]|] eqn:H2; [|done]. apply scan_frac_len in H2. cbn.
  destruct (scan_exp s2) as [[e s3]|] eqn:H3; [|done]. apply scan_exp_len in H3. cbn.
  intros [= <- <-]. lia.
Qed.

Lemma strip_len w s r : strip w s = Some r -> len s = (len w + len r)%nat.
Proof.
  revert s. induction w as [|a w IH]; intros s; cbn; [by intros [= ->]|].
  destruct s as [|c s]; [done|]. case_decide; [|done]. intros Hs. cbn. by rewrite (IH s).
Qed.

Lemma scan_word_len s v r : scan_word s = Some (v, r) -> (len r < len s)%nat.
Proof.
  unfold scan_word. intros Hw.
  destruct (strip "null" s) eqn:H1; [apply strip_len in H1; simplify_eq; cbn in H1; lia|].
  destruct (strip "true" s) eqn:H2; [apply strip_len in H2; simplify_eq; cbn in H2; lia|].
  destruct (strip "false" s) eqn:H3; [apply strip_len in H3; simplify_eq; cbn in H3; lia|done].
Qed.

Lemma scan_key_len s k r : scan_key s = Some (k, r) -> (len r < len s)%nat.
Proof.
  unfold scan_key. destruct (accept 34 s) as [s1|] eqn:Ha; [|done]. apply accept_len in Ha. cbn.
  destruct (scan_string s1) as [[b s2]|] eqn:Hs; [|done]. apply scan_string_len in Hs. cbn.
  destruct (unquote b); [|done]. cbn. pose proof (skip_ws_len s2).
  destruct (accept 58 _) as [s3|] eqn:Hb; [|done]. apply accept_len in Hb. cbn.
  pose proof (skip_ws_len s3). intros [= <- <-]. lia.
Qed.

(** Parsing consumes. *)
Lemma parse_len fuel :
  (forall depth s v r, parse_value fuel depth s = Some (v, r) -> (len r < len s)%nat)
  /\ (forall depth s ms r, parse_members fuel depth s = Some (ms, r) -> (len r < len s)%nat)
  /\ (forall depth s vs r, parse_elems fuel depth s = Some (vs, r) -> (len r < len s)%nat).
Proof.
  induction fuel as [|fuel (IHv & IHm & IHe)]; [done|]. split_and!; intros depth s.
  - intros v r. destruct s as [|c s]; cbn [parse_value]; [done|].
    pose proof (skip_ws_len s) as Hws. cbn [len].
    destruct (ord c =? 123); [destruct (depth =? 0); [done|]|].
    { destruct (accept 125 _) eqn:Ha; [apply accept_len in Ha; intros [= <- <-]; lia|].
      destruct (parse_members _ _ _) as [[ms r']|] eqn:Hp; [|done]. apply IHm in Hp.
      cbn. intros [= <- <-]. lia. }
    destruct (ord c =? 91); [destruct (depth =? 0); [done|]|].
    { destruct (accept 93 _) eqn:Ha; [apply accept_len in Ha; intros [= <- <-]; lia|].
      destruct (parse_elems _ _ _) as [[vs r']|] eqn:Hp; [|done]. apply IHe in Hp.
      cbn. intros [= <- <-]. lia. }
    destruct (ord c =? 34).
    { destruct (scan_string s) as [[b r']|] eqn:Hs; [|done]. apply scan_string_len in Hs.
      cbn. destruct (unquote b); [|done]. cbn. intros [= <- <-]. lia. }
    destruct (_ || _).
    { destruct (scan_number _) as [[t r']|] eqn:Hs; [|done]. apply scan_number_len in Hs.
      cbn in *. intros [= <- <-]. lia. }
    intros Hw%scan_word_len. done.
  - intros ms r. cbn [parse_members].
    destruct (scan_key s) as [[k s1]|] eqn:Hk; [|done]. apply scan_key_len in Hk. cbn.
    destruct (parse_value _ _ _) as [[v s2]|] eqn:Hv; [|done]. apply IHv in Hv. cbn.
    pose proof (skip_ws_len s2). destruct (accept 44 _) as [s3|] eqn:Ha; [apply accept_len in Ha|].
    + pose proof (skip_ws_len s3).
      destruct (parse_members _ _ _) as [[ms' r']|] eqn:Hp; [|done]. apply IHm in Hp.
      cbn. intros [= <- <-]. lia.
    + destruct (accept 125 _) eqn:Hb; [|done]. apply accept_len in Hb. cbn. intros [= <- <-]. lia.
  - intros vs r. cbn [parse_elems].
    destruct (parse_value _ _ _) as [[v s2]|] eqn:Hv; [|done]. apply IHv in Hv. cbn.
    pose proof (skip_ws_len s2). destruct (accept 44 _) as [s3|] eqn:Ha; [apply accept_len in Ha|].
    + pose proof (skip_ws_len s3).
      destruct (parse_elems _ _ _) as [[ms' r']|] eqn:Hp; [|done]. apply IHe in Hp.
      cbn. intros [= <- <-]. lia.
    + destruct (accept 93 _) eqn:Hb; [|done]. apply accept_len in Hb. cbn. intros [= <- <-]. lia.
Qed.

(** Two amounts of fuel that are enough parse alike. *)
Lemma parse_fuel f :
  (forall f' depth s, (2 * len s < f)%nat -> (2 * len s < f')%nat ->
     parse_value f depth s = parse_value f' depth s)
  /\ (forall f' depth s, (2 * len s + 1 < f)%nat -> (2 * len s + 1 < f')%nat ->
     parse_members f depth s = parse_members f' depth s
     /\ parse_elems f depth s = parse_elems f' depth s).
Proof.
  induction f as [|f (IHv & IHe)]; [split; intros; lia|].
  split; intros [|f'] depth s Hf Hf'; try lia.
  - destruct s as [|c s]; [done|]. cbn [parse_value]. cbn in Hf, Hf'. pose proof (skip_ws_len s).
    destruct (IHe f' (N.pred depth) (skip_ws s)) as [-> ->]; [lia..|done].
  - split; cbn [parse_members parse_elems].
    + destruct (scan_key s) as [[k s1]|] eqn:Hk; [|done]. apply scan_key_len in Hk. cbn.
      rewrite (IHv f' depth s1) by lia.
      destruct (parse_value f' depth s1) as [[v s2]|] eqn:Hv; [|done].
      apply (proj1 (parse_len f')) in Hv. cbn. pose proof (skip_ws_len s2).
      destruct (accept 44 _) as [s3|] eqn:Ha; [|done]. apply accept_len in Ha.
      pose proof (skip_ws_len s3). by destruct (IHe f' depth (skip_ws s3)) as [-> _]; [lia..|].
    + rewrite (IHv f' depth s) by lia.
      destruct (parse_value f' depth s) as [[v s2]|] eqn:Hv; [|done].
      apply (proj1 (parse_len f')) in Hv. cbn. pose proof (skip_ws_len s2).
      destruct (accept 44 _) as [s3|] eqn:Ha; [|done]. apply accept_len in Ha.
      pose proof (skip_ws_len s3). by destruct (IHe f' depth (skip_ws s3)) as [_ ->]; [lia..|].
Qed.

(** [fuel_for] is enough for a text, and for the members of one in braces. *)
Lemma fuel_for_value s f depth :
  (fuel_for s <= f)%nat -> parse_value f depth s = parse_value (fuel_for s) depth s.
Proof. unfold fuel_for. intros Hf. apply (parse_fuel f); lia. Qed.

Lemma fuel_for_members s s' f depth :
  accept 123 s = Some s' -> (fuel_for s <= f)%nat ->
  parse_members f depth (skip_ws s') = parse_members (fuel_for s) depth (skip_ws s').
Proof.
  unfold fuel_for. intros Ha%accept_len Hf. pose proof (skip_ws_len s').
  apply (parse_fuel f); lia.
Qed.

Lemma getu4_len us r us' : getu4 us = Some (r, us') -> length us = (4 + length us')%nat.
Proof.
  destruct us as [|[a ?] [|[b ?] [|[c ?] [|[d ?] us]]]]; cbn; try done.
  destruct (hex_val a); [|done]. cbn. destruct (hex_val b); [|done]. cbn.
  destruct (hex_val c); [|done]. cbn. destruct (hex_val d); [|done]. cbn. by intros [= _ <-].
Qed.

(** [unquote] has a unit of fuel per unit of text, and consumes one per step. *)
Lemma unquote_fuel f us : forall f', (length us <= f)%nat -> (length us <= f')%nat ->
  unquote_units f us = unquote_units f' us.
Proof.
  revert us. induction f as [|f IH]; intros us f' Hf Hf'.
  { destruct us as [|[] us]; [by destruct f'|cbn in Hf; lia]. }
  destruct f' as [|f']; [destruct us as [|[] us]; [done|cbn in Hf'; lia]|].
  destruct us as [|[r raw] us1]; [done|]. cbn [length] in *.
  assert (forall us2, (length us2 <= length us1)%nat -> unquote_units f us2 = unquote_units f' us2) as Hrec.
  { intros us2 Hle. apply IH; lia. }
  cbn [unquote_units]. destruct (r =? 92); [|by rewrite (Hrec us1)].
  destruct us1 as [|[e raw'] us2]; [done|]. cbn [length] in Hrec.
  destruct (e =? 117); [|by rewrite (Hrec us2) by lia].
  destruct (getu4 us2) as [[rr us3]|] eqn:Hg; [|done]. apply getu4_len in Hg. cbn.
  destruct (is_surrogate rr); [|by rewrite (Hrec us3) by lia].
  rewrite (Hrec us3) by lia. destruct us3 as [|[b ?] [|[u ?] us4]]; [done..|]. cbn in Hg.
  destruct ((b =? 92) && (u =? 117)); [|done].
  destruct (getu4 us4) as [[rr1 us5]|] eqn:Hg'; [|done]. apply getu4_len in Hg'. cbn.
  destruct (utf16_pair rr rr1); [|done]. cbn. by rewrite (Hrec us5) by lia.
Qed.

(** ** What the program relies on *)

(** Strings survive the wire. Any valid UTF-8 text, quoted by the encoder
    with or without HTML escaping, is decoded to itself. *)
Theorem json_string_round_trip html s :
  Valid s = true -> parse_top (quote html s) = Some (TValue (JStr s)).
Proof.
  intros Hv. pose proof (parse_quote html s (2 * String.length (quote html s)) maxNestingDepth "" Hv) as Hp.
  rewrite string_app_nil_r in Hp. unfold parse_top, parse_first, fuel_for.
  change (skip_ws (quote html s)) with (quote html s).
  change (accept 123 (quote html s)) with (@None string). rewrite Hp. done.
Qed.

Lemma json_string_round_trip_witness :
  Valid (String (chr 34) (string_of_bytes [10; 60; 195; 169; 226; 128; 168])) = true
  /\ parse_top (quote true (String (chr 34) (string_of_bytes [10; 60; 195; 169; 226; 128; 168])))
     = Some (TValue (JStr (String (chr 34) (string_of_bytes [10; 60; 195; 169; 226; 128; 168])))).
Proof. split; [by vm_compute|]. apply json_string_round_trip. by vm_compute. Defined.
