(* ===== verification/Wire.v ===== *)
(** * What a subscriber reads

    The frames the server writes, read back by the decoder: the members of a
    written object come out as they went in, and the data a publisher sent
    comes out as the same JSON value, although [compact] rewrote its text. *)
From S2P Require Import Prelude GoStd GoBytes Utf8 GoJson JsonFacts Frame Conn Handler.
From stdpp Require Import options.
Local Open Scope N_scope.

(** ** Compaction, piece by piece *)

(** The state [compact] is in after a text. *)
Fixpoint compact_state (inq esc : bool) (s : string) : bool * bool :=
  match s with
  | EmptyString => (inq, esc)
  | String c s' =>
      if inq then
        if esc then compact_state true false s'
        else if ord c =? 92 then compact_state true true s'
        else compact_state (negb (ord c =? 34)) false s'
      else if is_ws c then compact_state false false s'
      else compact_state (ord c =? 34) false s'
  end.

Lemma compact_app inq esc a b :
  (inq = false -> esc = false) ->
  compact inq esc (a +:+ b)
  = compact inq esc a +:+ (let '(q, e) := compact_state inq esc a in compact q e b).
Proof.
  revert inq esc. induction a as [|c a IH]; intros inq esc Hesc; str_simpl.
  { cbn. destruct inq; [done|]. by rewrite Hesc. }
  cbn [compact compact_state]. destruct inq; [|destruct (is_ws c)].
  - destruct esc; [|destruct (ord c =? 92)]; str_simpl; f_equal; by apply IH.
  - by apply IH.
  - str_simpl. f_equal. by apply IH.
Qed.

(** A text that leaves [compact] outside strings: it can be compacted alone. *)
Definition closed_text (s : string) : Prop := compact_state false false s = (false, false).

Lemma compact_closed a b :
  closed_text a -> compact false false (a +:+ b) = compact false false a +:+ compact false false b.
Proof. intros Ha. rewrite compact_app by done. by rewrite Ha. Qed.

Lemma compact_state_app inq esc a b :
  (inq = false -> esc = false) ->
  compact_state inq esc (a +:+ b)
  = (let '(q, e) := compact_state inq esc a in compact_state q e b).
Proof.
  revert inq esc. induction a as [|c a IH]; intros inq esc Hesc; str_simpl.
  { cbn. destruct inq; [done|]. by rewrite Hesc. }
  cbn [compact_state]. destruct inq; [|destruct (is_ws c)]; [|by apply IH|by apply IH].
  destruct esc; [|destruct (ord c =? 92)]; by apply IH.
Qed.

Lemma closed_app a b : closed_text a -> closed_text b -> closed_text (a +:+ b).
Proof. unfold closed_text. intros Ha Hb. rewrite compact_state_app by done. by rewrite Ha. Qed.

(** White space goes. *)
Lemma compact_ws w : string_forall is_ws w = true -> compact false false w = "" /\ closed_text w.
Proof.
  unfold closed_text. induction w as [|c w IH]; [done|]. cbn. intros [Hc Hw]%andb_true_iff.
  rewrite Hc. by apply IH.
Qed.

Lemma skip_ws_split s :
  exists w, s = w +:+ skip_ws s /\ string_forall is_ws w = true.
Proof.
  induction s as [|c s (w & Hs & Hw)]; [by exists ""|]. cbn. destruct (is_ws c) eqn:Hc.
  - exists (String c w). str_simpl. cbn. by rewrite Hc, <- Hs.
  - by exists "".
Qed.

(** A byte that is neither white space nor a quote stays. *)
Definition bare (c : ascii) : bool := negb (is_ws c) && negb (ord c =? 34).

Lemma compact_bare s : string_forall bare s = true -> compact false false s = s /\ closed_text s.
Proof.
  unfold closed_text, bare. induction s as [|c s IH]; [done|]. cbn.
  intros [[Hw Hq]%andb_true_iff Hs]%andb_true_iff. apply negb_true_iff in Hw, Hq.
  rewrite Hw, Hq. destruct (IH Hs) as [-> ->]. done.
Qed.

(** ** Scanning again in front of something else *)

Definition stops (f : ascii -> bool) (s : string) : bool :=
  match s with EmptyString => true | String c _ => negb (f c) end.

Lemma span_spec f s a b :
  span f s = (a, b) -> s = a +:+ b /\ string_forall f a = true /\ stops f b = true.
Proof.
  revert a b. induction s as [|c s IH]; intros a b; cbn; [by intros [= <- <-]|].
  destruct (f c) eqn:Hc.
  - destruct (span f s) as [a' b'] eqn:Hs. intros [= <- <-].
    destruct (IH _ _ eq_refl) as (-> & Ha & Hb). str_simpl. cbn. by rewrite Hc.
  - intros [= <- <-]. cbn. by rewrite Hc.
Qed.

Lemma span_again f a b : string_forall f a = true -> stops f b = true -> span f (a +:+ b) = (a, b).
Proof.
  intros Ha Hb. induction a as [|c a IH]; str_simpl.
  - destruct b as [|c b]; [done|]. cbn in *. apply negb_true_iff in Hb. by rewrite Hb.
  - cbn in *. apply andb_true_iff in Ha as [-> Ha]. by rewrite IH.
Qed.

Lemma accept_spec b s r :
  accept b s = Some r -> exists c, s = String c r /\ ord c = b.
Proof.
  destruct s as [|c s]; cbn; [done|]. destruct (ord c =? b) eqn:Hc; [|done].
  intros [= <-]. exists c. split; [done|]. by apply N.eqb_eq.
Qed.

Lemma accept_again b c r : ord c = b -> accept b (String c r) = Some r.
Proof. intros <-. cbn. by rewrite N.eqb_refl. Qed.

Lemma accept_not b s : stops (fun c => ord c =? b) s = true -> accept b s = None.
Proof. destruct s as [|c s]; cbn; [done|]. intros Hc. by destruct (ord c =? b). Qed.

Lemma hex_inside h :
  is_hex_digit h || in_range 65 70 h = true -> (ord h =? 92) = false /\ (ord h =? 34) = false.
Proof. by destruct h as [[] [] [] [] [] [] [] []]. Qed.

(** A string literal: everything up to its closing quote is kept. *)
Lemma scan_string_spec s : forall b r,
  scan_string s = Some (b, r) ->
  s = b +:+ String dq r
  /\ compact true false (b +:+ String dq "") = b +:+ String dq ""
  /\ compact_state true false (b +:+ String dq "") = (false, false)
  /\ forall r', scan_string (b +:+ String dq r') = Some (b, r').
Proof.
  induction s as [s IH] using (induction_ltof1 _ len). unfold ltof in IH. intros b r.
  destruct s as [|c s]; cbn [scan_string]; [done|].
  destruct (ord c =? 34) eqn:H34.
  { intros [= <- <-]. apply N.eqb_eq in H34. symmetry in H34. apply ascii_of_ord in H34 as <-. done. }
  destruct (ord c <? 32) eqn:H32; [done|]. destruct (ord c =? 92) eqn:H92.
  - destruct s as [|e s2]; [done|]. case_bool_decide as He.
    + destruct (scan_string s2) as [[b' r0]|] eqn:Hs; [|done]. cbn. intros [= <- <-].
      apply IH in Hs as (-> & Hc & Hst & Ha); [|cbn; lia]. str_simpl.
      split_and!; [done|..].
      * cbn [compact]. rewrite H92. do 2 f_equal. exact Hc.
      * cbn [compact_state]. rewrite H92. exact Hst.
      * intros r'. str_simpl. cbn [scan_string].
        rewrite H34, H32, H92, bool_decide_eq_true_2 by done. by rewrite Ha.
    + destruct (ord e =? 117) eqn:He'; [|done].
      destruct s2 as [|h1 [|h2 [|h3 [|h4 s3]]]]; try done.
      destruct (forallb _ _) eqn:Hh; [|done].
      destruct (scan_string s3) as [[b' r0]|] eqn:Hs; [|done]. cbn. intros [= <- <-].
      apply IH in Hs as (-> & Hc & Hst & Ha); [|cbn; lia]. str_simpl.
      cbn [forallb] in Hh. apply andb_true_iff in Hh as [Hh1 Hh]. apply andb_true_iff in Hh as [Hh2 Hh].
      apply andb_true_iff in Hh as [Hh3 Hh]. apply andb_true_iff in Hh as [Hh4 _].
      destruct (hex_inside _ Hh1) as [E1 F1], (hex_inside _ Hh2) as [E2 F2],
        (hex_inside _ Hh3) as [E3 F3], (hex_inside _ Hh4) as [E4 F4].
      split_and!; [done|..].
      * cbn [compact]. rewrite H92, E1, F1, E2, F2, E3, F3, E4, F4. do 6 f_equal. exact Hc.
      * cbn [compact_state]. rewrite H92, E1, F1, E2, F2, E3, F3, E4, F4. exact Hst.
      * intros r'. str_simpl. cbn [scan_string]. rewrite H34, H32, H92, bool_decide_eq_false_2, He' by done.
        cbn [forallb]. rewrite Hh1, Hh2, Hh3, Hh4. by rewrite Ha.
  - destruct (scan_string s) as [[b' r0]|] eqn:Hs; [|done]. cbn. intros [= <- <-].
    apply IH in Hs as (-> & Hc & Hst & Ha); [|cbn; lia]. str_simpl. split_and!; [done|..].
    + cbn [compact]. rewrite H92, H34. f_equal. exact Hc.
    + cbn [compact_state]. rewrite H92, H34. exact Hst.
    + intros r'. str_simpl. cbn [scan_string]. rewrite H34, H32, H92. by rewrite Ha.
Qed.

(** Numbers: they end at the first byte no number holds. *)
Definition num_byte (c : ascii) : bool :=
  is_digit c || (ord c =? 46) || (ord c =? 101) || (ord c =? 69) || (ord c =? 43) || (ord c =? 45).

Lemma stops_weaken (f g : ascii -> bool) s :
  (forall c, f c = true -> g c = true) -> stops g s = true -> stops f s = true.
Proof.
  intros Hfg. destruct s as [|c s]; [done|]. cbn. intros Hg. apply negb_true_iff in Hg.
  apply negb_true_iff, not_true_is_false. intros Hf. by rewrite (Hfg _ Hf) in Hg.
Qed.

Lemma stops_app f a b : stops f a = true -> stops f b = true -> stops f (a +:+ b) = true.
Proof. by destruct a. Qed.

Lemma num_digit c : is_digit c = true -> num_byte c = true.
Proof. unfold num_byte. by intros ->. Qed.

Lemma digits_bare s : string_forall is_digit s = true -> string_forall bare s = true.
Proof.
  induction s as [|c s IH]; [done|]. cbn. intros [Hc Hs]%andb_true_iff. rewrite IH, andb_true_r by done.
  clear -Hc. by destruct c as [[] [] [] [] [] [] [] []].
Qed.

(** A scanner's piece: what it is, and that it is found again. *)
Record piece (scan : string -> option (string * string)) (f : ascii -> bool) (s p r : string) : Prop := {
  pc_split : s = p +:+ r;
  pc_bare : string_forall bare p = true;
  pc_again r' : stops f r' = true -> scan (p +:+ r') = Some (p, r');
}.

Lemma digits1_piece s p r :
  digits1 s = Some (p, r) -> piece digits1 is_digit s p r /\ p <> "" /\ string_forall is_digit p = true.
Proof.
  unfold digits1. destruct (span is_digit s) as [a b] eqn:Hs. apply span_spec in Hs as (-> & Ha & Hb).
  case_bool_decide as He; [done|]. intros [= <- <-]. split; [|done]. split; [done|by apply digits_bare|].
  intros r' Hr. rewrite span_again by done. by rewrite bool_decide_eq_false_2.
Qed.

Lemma scan_int_piece s p r : scan_int s = Some (p, r) -> piece scan_int is_digit s p r.
Proof.
  unfold scan_int. destruct (accept 48 s) as [s'|] eqn:Ha.
  - apply accept_spec in Ha as (c & -> & Hc). symmetry in Hc. apply ascii_of_ord in Hc as <-.
    intros [= <- <-]. by split.
  - intros ([Hs Hb Hag] & Hne & Hd)%digits1_piece. subst s. split; [done..|]. intros r' Hr.
    destruct p as [|c p]; [done|]. rewrite accept_not; [by apply Hag|].
    rewrite string_app_cons in Ha |- *. cbn in Ha |- *. by destruct (ord c =? 48).
Qed.

Lemma scan_frac_piece s p r :
  scan_frac s = Some (p, r) ->
  piece scan_frac (fun c => is_digit c || (ord c =? 46)) s p r /\ stops is_digit p = true.
Proof.
  unfold scan_frac. destruct (accept 46 s) as [s'|] eqn:Ha.
  - apply accept_spec in Ha as (c & -> & Hc). symmetry in Hc. apply ascii_of_ord in Hc as <-.
    destruct (digits1 s') as [[ds r0]|] eqn:Hd; [|done]. apply digits1_piece in Hd as ([-> Hb Hag] & _).
    cbn. intros [= <- <-]. split; [|done]. split; [done|by cbn; rewrite Hb|].
    intros r' Hr. str_simpl. rewrite (accept_again 46) by done.
    rewrite Hag; [done|]. eapply stops_weaken; [|exact Hr]. intros c Hc. by apply orb_true_iff; left.
  - intros [= <- <-]. split; [|done]. split; [done..|]. intros r' Hr. str_simpl.
    rewrite accept_not; [done|]. eapply stops_weaken; [|exact Hr]. intros c Hc. by apply orb_true_iff; right.
Qed.

Lemma scan_sign_piece s p r :
  scan_sign s = (p, r) ->
  s = p +:+ r /\ string_forall bare p = true
  /\ forall q r', stops (fun c => (ord c =? 43) || (ord c =? 45)) q = true ->
       scan_sign (p +:+ q +:+ r') = (p, q +:+ r') \/ q = "".
Proof.
  unfold scan_sign. destruct s as [|c s]; [intros [= <- <-]; split_and!; try done|].
  { intros q r' Hq. str_simpl. destruct q as [|c q]; [by right|left]. str_simpl. cbn in Hq.
    apply negb_true_iff in Hq. by rewrite Hq. }
  destruct ((ord c =? 43) || (ord c =? 45)) eqn:Hc; intros [= <- <-]; split_and!; try done.
  - cbn. rewrite andb_true_r. clear -Hc. by destruct c as [[] [] [] [] [] [] [] []].
  - intros q r' _. left. str_simpl. by rewrite Hc.
  - intros q r' Hq. str_simpl. destruct q as [|c' q]; [by right|left]. str_simpl. cbn in Hq.
    apply negb_true_iff in Hq. by rewrite Hq.
Qed.

Lemma bare_app a b :
  string_forall bare a = true -> string_forall bare b = true -> string_forall bare (a +:+ b) = true.
Proof. intros Ha Hb. induction a as [|c a IH]; [done|]. str_simpl. cbn in *. bool_hyps. by rewrite H, IH. Qed.

Lemma scan_exp_piece s p r :
  scan_exp s = Some (p, r) ->
  piece scan_exp (fun c => is_digit c || ((ord c =? 101) || (ord c =? 69))) s p r
  /\ stops (fun c => is_digit c || (ord c =? 46)) p = true.
Proof.
  destruct s as [|c s]; cbn [scan_exp].
  { intros [= <- <-]. split; [|done]. split; [done..|]. intros r' Hr. str_simpl.
    destruct r' as [|c r']; [done|]. cbn in Hr |- *. apply negb_true_iff, orb_false_iff in Hr as [_ Hr].
    by rewrite Hr. }
  destruct ((ord c =? 101) || (ord c =? 69)) eqn:Hc.
  - destruct (scan_sign s) as [sg s2] eqn:Hs. apply scan_sign_piece in Hs as (-> & Hb & Hag).
    destruct (digits1 s2) as [[ds r0]|] eqn:Hd; [|done].
    apply digits1_piece in Hd as ([-> Hbd Hagd] & Hne & Hdig). cbn. intros [= <- <-].
    split; [split|].
    + str_simpl. by rewrite string_app_assoc.
    + cbn [string_forall]. rewrite bare_app, andb_true_r by done.
      clear -Hc. by destruct c as [[] [] [] [] [] [] [] []].
    + intros r' Hr. str_simpl. cbn [scan_exp]. rewrite Hc, string_app_assoc.
      destruct (Hag ds r') as [->|]; [|cbn|done].
      { destruct ds as [|d ds]; [done|]. cbn in Hdig |- *. apply andb_true_iff in Hdig as [Hdig _].
        clear -Hdig. by destruct d as [[] [] [] [] [] [] [] []]. }
      rewrite Hagd; [done|]. eapply stops_weaken; [|exact Hr]. intros d Hd. by apply orb_true_iff; left.
    + cbn. clear -Hc. by destruct c as [[] [] [] [] [] [] [] []].
  - intros [= <- <-]. split; [|done]. split; [done..|]. intros r' Hr. str_simpl.
    destruct r' as [|c' r']; [done|]. cbn in Hr |- *. apply negb_true_iff, orb_false_iff in Hr as [_ Hr].
    by rewrite Hr.
Qed.

Lemma scan_number_piece s p r : scan_number s = Some (p, r) -> piece scan_number num_byte s p r.
Proof.
  unfold scan_number at 1.
  destruct (match accept 45 s with Some s' => _ | None => _ end) as [sg s0] eqn:Hsg.
  assert (s = sg +:+ s0 /\ string_forall bare sg = true
    /\ (sg = "" /\ stops (fun c => ord c =? 45) s0 = true \/ sg = String (chr 45) "")) as (-> & Hsb & Hsc).
  { destruct (accept 45 s) as [s'|] eqn:Ha; simplify_eq.
    - apply accept_spec in Ha as (c & -> & Hc). symmetry in Hc. apply ascii_of_ord in Hc as <-.
      split_and!; [done..|by right].
    - split_and!; [done..|]. left. split; [done|]. destruct s0 as [|c s0]; [done|].
      cbn in Ha |- *. by destruct (ord c =? 45). }
  destruct (scan_int s0) as [[i s1]|] eqn:Hi; [|done]. apply scan_int_piece in Hi as [-> Hib Hia]. cbn.
  destruct (scan_frac s1) as [[f s2]|] eqn:Hf; [|done]. apply scan_frac_piece in Hf as ([-> Hfb Hfa] & Hfs). cbn.
  destruct (scan_exp s2) as [[e s3]|] eqn:He; [|done]. apply scan_exp_piece in He as ([-> Heb Hea] & Hes). cbn.
  intros [= <- <-]. split.
  - by rewrite !string_app_assoc.
  - by repeat apply bare_app.
  - intros r' Hr. rewrite !string_app_assoc.
    assert (i <> "") as Hine by (intros ->; by specialize (Hia "" eq_refl)).
    assert (forall g : ascii -> bool, (forall c, g c = true -> num_byte c = true) -> stops g r' = true) as Hw.
    { intros g Hg. by eapply stops_weaken. }
    assert (scan_number (sg +:+ i +:+ f +:+ e +:+ r')
      = '(i, s1) ← scan_int (i +:+ f +:+ e +:+ r'); '(f, s2) ← scan_frac s1; '(e, s3) ← scan_exp s2;
        Some (sg +:+ i +:+ f +:+ e, s3)) as ->.
    { unfold scan_number. destruct Hsc as [[-> Hs]| ->].
      - rewrite accept_not; [by str_simpl|]. destruct i as [|c i]; [done|]. exact Hs.
      - rewrite string_app_cons, string_app_nil_l. by rewrite (accept_again 45). }
    rewrite Hia; [cbn|]. { rewrite Hfa; [cbn|]. { by rewrite Hea by (apply Hw; intros c Hc; unfold num_byte;
      destruct (is_digit c); cbn in *; [done|]; apply orb_true_iff in Hc as [->| ->]; by rewrite ?orb_true_r). }
      apply stops_app; [done|]. apply Hw. intros c Hc. unfold num_byte. destruct (is_digit c); [done|].
      cbn in *. by rewrite Hc. }
    apply stops_app; [done|]. apply stops_app; [|by apply Hw, num_digit].
    eapply stops_weaken; [|exact Hes]. intros c Hc. by apply orb_true_iff; left.
Qed.

Lemma strip_spec w s r : strip w s = Some r -> s = w +:+ r.
Proof.
  revert s. induction w as [|a w IH]; intros s; cbn; [by intros [= ->]|].
  destruct s as [|c s]; [done|]. case_decide as Hc; [|done]. intros Hs. subst c.
  str_simpl. f_equal. by apply IH.
Qed.

Lemma scan_word_piece s v r :
  scan_word s = Some (v, r) ->
  exists p, s = p +:+ r /\ string_forall bare p = true /\ forall r', scan_word (p +:+ r') = Some (v, r').
Proof.
  unfold scan_word. intros Hw.
  destruct (strip "null" s) eqn:H1; [apply strip_spec in H1 as ->; exists "null"|
    destruct (strip "true" s) eqn:H2; [apply strip_spec in H2 as ->; exists "true"|
    destruct (strip "false" s) eqn:H3; [apply strip_spec in H3 as ->; exists "false"|done]]];
    simplify_eq; by split_and!.
Qed.

(** ** Values, members and elements again *)

(** A consumed text: it stands in front of [r], is closed, and begins with a
    byte that is not white space. *)
Record taken (s p r : string) : Prop := {
  tk_split : s = p +:+ r;
  tk_closed : closed_text p;
  tk_head : exists c q, p = String c q /\ is_ws c = false;
}.

Lemma skip_ws_id s : stops is_ws s = true -> skip_ws s = s.
Proof. destruct s as [|c s]; cbn; [done|]. by destruct (is_ws c). Qed.

Lemma compact_head c q : is_ws c = false -> compact false false (String c q) = String c (compact (ord c =? 34) false q).
Proof. intros Hc. cbn. by rewrite Hc. Qed.

Lemma taken_stops s p r x : taken s p r -> stops is_ws (compact false false p +:+ x) = true.
Proof. intros [_ _ (c & q & -> & Hc)]. rewrite compact_head by done. str_simpl. cbn. by rewrite Hc. Qed.

Lemma taken_skip s p r x : taken s p r -> skip_ws (compact false false p +:+ x) = compact false false p +:+ x.
Proof. intros Ht. by eapply skip_ws_id, taken_stops. Qed.

Lemma taken_accept b s p r x :
  taken s p r -> accept b s = None -> accept b (compact false false p +:+ x) = None.
Proof.
  intros [-> _ (c & q & -> & Hc)]. rewrite compact_head by done. str_simpl. cbn. by destruct (ord c =? b).
Qed.

(** A text behind white space and one punctuation byte. *)
Lemma punct_again b s s1 :
  accept b (skip_ws s) = Some s1 -> bare (ascii_of_N b) = true ->
  exists w, s = w +:+ String (ascii_of_N b) s1
  /\ closed_text (w +:+ String (ascii_of_N b) "")
  /\ compact false false (w +:+ String (ascii_of_N b) "") = String (ascii_of_N b) "".
Proof.
  intros Ha Hb. destruct (skip_ws_split s) as (w & Hs & Hw). apply accept_spec in Ha as (c & Hc & Ho).
  symmetry in Ho. apply ascii_of_ord in Ho. exists w. rewrite Hs at 1. rewrite Hc, Ho.
  destruct (compact_ws w Hw) as [Hcw Hclw].
  destruct (compact_bare (String (ascii_of_N b) "")) as [Hcb Hclb]; [cbn; by rewrite Hb|].
  rewrite Ho in *. split_and!; [done|by apply closed_app|]. by rewrite compact_closed, Hcw, Hcb by done.
Qed.

Lemma scan_key_again s k s1 :
  scan_key s = Some (k, s1) ->
  exists p, taken s p s1
  /\ forall x, stops is_ws x = true -> scan_key (compact false false p +:+ x) = Some (k, x).
Proof.
  unfold scan_key at 1. destruct (accept 34 s) as [s2|] eqn:Hq; [|done].
  apply accept_spec in Hq as (c & -> & Hc). symmetry in Hc. apply ascii_of_ord in Hc as <-. cbn.
  destruct (scan_string s2) as [[body s3]|] eqn:Hs; [|done].
  apply scan_string_spec in Hs as (-> & Hcb & Hst & Hag). cbn. destruct (unquote body) as [k'|] eqn:Hu; [|done]. cbn.
  destruct (accept 58 (skip_ws s3)) as [s4|] eqn:H58; [|done].
  apply (punct_again 58) in H58 as (w & -> & Hclw & Hcw); [|done]. cbn. intros [= <- <-].
  destruct (skip_ws_split s4) as (w2 & Hs4 & Hw2). destruct (compact_ws w2 Hw2) as [Hcw2 Hclw2].
  set (p1 := String dq (body +:+ String dq "")).
  assert (closed_text p1) as Hcl1 by exact Hst.
  assert (compact false false p1 = p1) as Hc1.
  { unfold p1. rewrite compact_head by done. f_equal. exact Hcb. }
  exists (p1 +:+ (w +:+ String (ascii_of_N 58) "") +:+ w2). split.
  - split; [|apply closed_app; [done|by apply closed_app]|by eexists _, _].
    rewrite Hs4 at 1. unfold p1. change (ascii_of_N 34) with dq. str_simpl.
    by rewrite !string_app_assoc.
  - intros x Hx. rewrite !compact_closed, Hc1, Hcw, Hcw2 by (try done; by apply closed_app).
    assert (scan_key (String dq (body +:+ String dq (String (ascii_of_N 58) x))) = Some (k', x)) as Hk.
    { unfold scan_key. rewrite (accept_again 34) by done. cbn [mbind option_bind].
      rewrite Hag. cbn [mbind option_bind]. rewrite Hu. cbn [mbind option_bind].
      change (skip_ws (String (ascii_of_N 58) x)) with (String (ascii_of_N 58) x).
      rewrite (accept_again 58) by done. cbn. by rewrite skip_ws_id. }
    rewrite <- Hk. f_equal. unfold p1. str_simpl. by rewrite !string_app_assoc.
Qed.

Definition values (ms : list member) : list (string * json) := (fun m => (m.1, m.2.1)) <$> ms.

(** The three parsers, given enough text to stop. *)
Definition value_again (f : nat) : Prop := forall d s t r,
  parse_value f d s = Some (t, r) ->
  exists p, taken s p r
  /\ forall r', stops num_byte r' = true ->
       parse_value f d (compact false false p +:+ r') = Some (t, r').
Definition members_again (f : nat) : Prop := forall d s ms r,
  parse_members f d s = Some (ms, r) ->
  exists p, taken s p r
  /\ forall r', exists ms',
       parse_members f d (compact false false p +:+ r') = Some (ms', r') /\ values ms' = values ms.
Definition elems_again (f : nat) : Prop := forall d s vs r,
  parse_elems f d s = Some (vs, r) ->
  exists p, taken s p r
  /\ forall r', parse_elems f d (compact false false p +:+ r') = Some (vs, r').

(** A scalar is copied. *)
Lemma scalar_again c q r (parse : string -> option (json * string)) t :
  string_forall bare (String c q) = true ->
  (forall r', stops num_byte r' = true -> parse (String c q +:+ r') = Some (t, r')) ->
  exists p, taken (String c q +:+ r) p r
  /\ forall r', stops num_byte r' = true -> parse (compact false false p +:+ r') = Some (t, r').
Proof.
  intros Hb Ha. destruct (compact_bare _ Hb) as [Hc Hcl]. exists (String c q). split.
  - split; [done..|]. exists c, q. split; [done|]. cbn in Hb. unfold bare in Hb.
    by destruct (is_ws c).
  - intros r' Hr. rewrite Hc. by apply Ha.
Qed.

(** A bracket, with nothing but space before its partner, or with something
    that is kept. *)
Lemma bracket_empty op cl s r :
  is_ws op = false -> (ord op =? 34) = false -> bare (ascii_of_N cl) = true ->
  accept cl (skip_ws s) = Some r ->
  exists p, taken (String op s) p r
  /\ forall r', compact false false p +:+ r' = String op (String (ascii_of_N cl) r').
Proof.
  intros Hop Hq Hcl Ha. apply (punct_again cl) in Ha as (w & -> & Hw & Hc); [|done].
  exists (String op (w +:+ String (ascii_of_N cl) "")). split.
  - split; [by str_simpl; rewrite string_app_assoc| |by eexists _, _].
    unfold closed_text in *. cbn [compact_state]. by rewrite Hop, Hq.
  - intros r'. rewrite compact_head by done. by rewrite Hq, Hc.
Qed.

Lemma bracket_full op s p r :
  is_ws op = false -> (ord op =? 34) = false -> taken (skip_ws s) p r ->
  exists q, taken (String op s) q r
  /\ forall r', compact false false q +:+ r' = String op (compact false false p +:+ r').
Proof.
  intros Hop Hq Ht. destruct (skip_ws_split s) as (w & Hs & Hw). destruct (compact_ws w Hw) as [Hcw Hclw].
  exists (String op (w +:+ p)). split.
  - split; [|unfold closed_text; cbn [compact_state]; rewrite Hop, Hq; exact (closed_app _ _ Hclw (tk_closed _ _ _ Ht))|by eexists _, _].
    rewrite Hs at 1. rewrite (tk_split _ _ _ Ht). str_simpl. by rewrite string_app_assoc.
  - intros r'. rewrite compact_head by done. rewrite Hq, compact_closed, Hcw by done. by str_simpl.
Qed.

(** What [value_again] says of the values that begin with [c]. *)
Definition again_at (f : nat) (c : ascii) : Prop := forall d s t r,
  parse_value (S f) d (String c s) = Some (t, r) ->
  exists p, taken (String c s) p r
  /\ forall r', stops num_byte r' = true ->
       parse_value (S f) d (compact false false p +:+ r') = Some (t, r').

Lemma object_again f : members_again f -> again_at f (ascii_of_N 123).
Proof.
  intros IH d s t r. cbn [parse_value]. change (ord (ascii_of_N 123) =? 123) with true. cbv iota.
  destruct (d =? 0) eqn:Hd; [done|]. destruct (accept 125 (skip_ws s)) as [r0|] eqn:Ha.
  - intros [= <- <-]. apply (bracket_empty (ascii_of_N 123)) in Ha as (p & Ht & Hp); [|done..].
    exists p. split; [done|]. intros r' _. rewrite Hp. cbn [parse_value].
    change (ord (ascii_of_N 123) =? 123) with true. by rewrite ?Hd.
  - destruct (parse_members f (N.pred d) (skip_ws s)) as [[ms r0]|] eqn:Hm; [|done]. cbn. intros [= <- <-].
    apply IH in Hm as (p & Ht & Hag). destruct (bracket_full (ascii_of_N 123) s p r0) as (q & Hq & Hc); [done..|].
    exists q. split; [done|]. intros r' _. rewrite Hc. cbn [parse_value].
    change (ord (ascii_of_N 123) =? 123) with true. cbv iota.
    rewrite ?Hd, (taken_skip _ _ _ _ Ht), (taken_accept 125 _ _ _ _ Ht Ha).
    destruct (Hag r') as (ms' & -> & Hv). cbn. do 3 f_equal. exact Hv.
Qed.

Lemma array_again f : elems_again f -> again_at f (ascii_of_N 91).
Proof.
  intros IH d s t r. cbn [parse_value]. change (ord (ascii_of_N 91) =? 123) with false.
  change (ord (ascii_of_N 91) =? 91) with true. cbv iota.
  destruct (d =? 0) eqn:Hd; [done|]. destruct (accept 93 (skip_ws s)) as [r0|] eqn:Ha.
  - intros [= <- <-]. apply (bracket_empty (ascii_of_N 91)) in Ha as (p & Ht & Hp); [|done..].
    exists p. split; [done|]. intros r' _. rewrite Hp. cbn [parse_value].
    change (ord (ascii_of_N 91) =? 123) with false. change (ord (ascii_of_N 91) =? 91) with true. by rewrite ?Hd.
  - destruct (parse_elems f (N.pred d) (skip_ws s)) as [[vs r0]|] eqn:Hm; [|done]. cbn. intros [= <- <-].
    apply IH in Hm as (p & Ht & Hag). destruct (bracket_full (ascii_of_N 91) s p r0) as (q & Hq & Hc); [done..|].
    exists q. split; [done|]. intros r' _. rewrite Hc. cbn [parse_value].
    change (ord (ascii_of_N 91) =? 123) with false. change (ord (ascii_of_N 91) =? 91) with true. cbv iota.
    rewrite ?Hd, (taken_skip _ _ _ _ Ht), (taken_accept 93 _ _ _ _ Ht Ha). by rewrite Hag.
Qed.

Lemma string_again f : again_at f dq.
Proof.
  intros d s t r. cbn [parse_value]. change (ord dq =? 123) with false. change (ord dq =? 91) with false.
  change (ord dq =? 34) with true. cbv iota. destruct (scan_string s) as [[body r0]|] eqn:Hs; [|done].
  apply scan_string_spec in Hs as (-> & Hcb & Hst & Hag). cbn. destruct (unquote body) eqn:Hu; [|done].
  cbn. intros [= <- <-]. exists (String dq (body +:+ String dq "")). split.
  - split; [by str_simpl; rewrite string_app_assoc|exact Hst|by eexists _, _].
  - intros r' _. rewrite compact_head by done. change (ord dq =? 34) with true. rewrite Hcb.
    str_simpl. rewrite string_app_assoc. cbn [parse_value].
    change (ord dq =? 123) with false. change (ord dq =? 91) with false. change (ord dq =? 34) with true.
    rewrite string_app_cons, string_app_nil_l, Hag. cbn. by rewrite Hu.
Qed.

Lemma value_step f : members_again f -> elems_again f -> value_again (S f).
Proof.
  intros IHm IHe d s t r. destruct s as [|c s]; [done|].
  assert (forall n, n < 256 -> again_at f (ascii_of_N n) -> (ord c =? n) = true ->
    parse_value (S f) d (String c s) = Some (t, r) -> exists p, taken (String c s) p r /\
    forall r', stops num_byte r' = true -> parse_value (S f) d (compact false false p +:+ r') = Some (t, r')) as Hat.
  { intros n Hn Hag Hc%N.eqb_eq. symmetry in Hc. apply ascii_of_ord in Hc as <-. apply Hag. }
  destruct (ord c =? 123) eqn:H123; [by apply (Hat 123); [|apply object_again|]|].
  destruct (ord c =? 91) eqn:H91; [by apply (Hat 91); [|apply array_again|]|].
  destruct (ord c =? 34) eqn:H34; [by apply (Hat 34); [|apply string_again|]|].
  clear Hat. cbn [parse_value]. rewrite H123, H91, H34.
  destruct ((ord c =? 45) || is_digit c) eqn:Hnum.
  - destruct (scan_number _) as [[x r0]|] eqn:Hs; [|done]. apply scan_number_piece in Hs as [Hs Hb Hag].
    cbn. intros [= <- <-]. destruct x as [|c' x]; [by specialize (Hag "" eq_refl)|].
    rewrite Hs. rewrite string_app_cons in Hs. injection Hs as <- ->.
    apply (scalar_again c x r0 (parse_value (S f) d)); [done|]. intros r' Hr. rewrite string_app_cons.
    cbn [parse_value]. rewrite ?H123, ?H91, ?H34, ?Hnum. rewrite <- string_app_cons. by rewrite Hag.
  - intros Hs. apply scan_word_piece in Hs as (x & Hs & Hb & Hag).
    destruct x as [|c' x]; [by specialize (Hag "")|].
    rewrite Hs. rewrite string_app_cons in Hs. injection Hs as <- ->.
    apply (scalar_again c x r (parse_value (S f) d)); [done|]. intros r' Hr. rewrite string_app_cons.
    cbn [parse_value]. rewrite ?H123, ?H91, ?H34, ?Hnum. rewrite <- string_app_cons. by rewrite Hag.
Qed.

Lemma members_step f : value_again f -> members_again f -> members_again (S f).
Proof.
  intros IHv IHm d s ms r. cbn [parse_members].
  destruct (scan_key s) as [[k s1]|] eqn:Hk; [|done]. apply scan_key_again in Hk as (pk & Hpk & Hkag). cbn [mbind option_bind].
  destruct (parse_value f d s1) as [[v s2]|] eqn:Hv; [|done]. apply IHv in Hv as (pv & Hpv & Hvag). cbn [mbind option_bind].
  pose proof (tk_closed _ _ _ Hpk) as Hck. pose proof (tk_closed _ _ _ Hpv) as Hcv.
  destruct (accept 44 (skip_ws s2)) as [s3|] eqn:H44.
  - apply (punct_again 44) in H44 as (w & Hs2 & Hclw & Hcw); [|done].
    destruct (parse_members f d (skip_ws s3)) as [[ms0 r0]|] eqn:Hm; [|done]. cbn [mbind option_bind].
    intros [= <- <-]. apply IHm in Hm as (pm & Hpm & Hmag). pose proof (tk_closed _ _ _ Hpm) as Hcm.
    destruct (skip_ws_split s3) as (w3 & Hs3 & Hw3). destruct (compact_ws w3 Hw3) as [Hcw3 Hclw3].
    exists (pk +:+ pv +:+ (w +:+ String (ascii_of_N 44) "") +:+ w3 +:+ pm). split.
    + split.
      * rewrite (tk_split _ _ _ Hpk), (tk_split _ _ _ Hpv), Hs2, Hs3, (tk_split _ _ _ Hpm).
        rewrite !string_app_assoc. by str_simpl.
      * by repeat (apply closed_app; [done|]).
      * destruct (tk_head _ _ _ Hpk) as (c & q & -> & Hc). by eexists _, _.
    + intros r'. rewrite (compact_closed pk), (compact_closed pv), (compact_closed (w +:+ _)), (compact_closed w3), Hcw, Hcw3 by done. str_simpl. rewrite !string_app_assoc.
      rewrite Hkag by by eapply taken_stops. cbn [mbind option_bind].
      rewrite string_app_cons, Hvag by done. cbn [mbind option_bind].
      change (skip_ws (String (ascii_of_N 44) ?x)) with (String (ascii_of_N 44) x).
      rewrite (accept_again 44) by done. rewrite (taken_skip _ _ _ _ Hpm).
      destruct (Hmag r') as (ms' & -> & Hms). cbn. eexists. split; [done|]. unfold values in *. cbn. by rewrite Hms.
  - destruct (accept 125 (skip_ws s2)) as [r0|] eqn:H125; [|done]. cbn [mbind option_bind]. intros [= <- <-].
    apply (punct_again 125) in H125 as (w & Hs2 & Hclw & Hcw); [|done].
    exists (pk +:+ pv +:+ (w +:+ String (ascii_of_N 125) "")). split.
    + split.
      * rewrite (tk_split _ _ _ Hpk), (tk_split _ _ _ Hpv), Hs2. rewrite !string_app_assoc. by str_simpl.
      * by repeat (apply closed_app; [done|]).
      * destruct (tk_head _ _ _ Hpk) as (c & q & -> & Hc). by eexists _, _.
    + intros r'. rewrite (compact_closed pk), (compact_closed pv), Hcw by done. str_simpl. rewrite !string_app_assoc.
      rewrite Hkag by by eapply taken_stops. cbn [mbind option_bind].
      rewrite string_app_cons, string_app_nil_l, Hvag by done. cbn [mbind option_bind].
      change (skip_ws (String (ascii_of_N 125) r')) with (String (ascii_of_N 125) r').
      rewrite (accept_not 44) by done. rewrite (accept_again 125) by done. cbn. by eexists.
Qed.

Lemma elems_step f : value_again f -> elems_again f -> elems_again (S f).
Proof.
  intros IHv IHe d s vs r. cbn [parse_elems].
  destruct (parse_value f d s) as [[v s2]|] eqn:Hv; [|done]. apply IHv in Hv as (pv & Hpv & Hvag). cbn [mbind option_bind].
  pose proof (tk_closed _ _ _ Hpv) as Hcv.
  destruct (accept 44 (skip_ws s2)) as [s3|] eqn:H44.
  - apply (punct_again 44) in H44 as (w & Hs2 & Hclw & Hcw); [|done].
    destruct (parse_elems f d (skip_ws s3)) as [[vs0 r0]|] eqn:Hm; [|done]. cbn [mbind option_bind].
    intros [= <- <-]. apply IHe in Hm as (pm & Hpm & Hmag). pose proof (tk_closed _ _ _ Hpm) as Hcm.
    destruct (skip_ws_split s3) as (w3 & Hs3 & Hw3). destruct (compact_ws w3 Hw3) as [Hcw3 Hclw3].
    exists (pv +:+ (w +:+ String (ascii_of_N 44) "") +:+ w3 +:+ pm). split.
    + split.
      * rewrite (tk_split _ _ _ Hpv), Hs2, Hs3, (tk_split _ _ _ Hpm). rewrite !string_app_assoc. by str_simpl.
      * by repeat (apply closed_app; [done|]).
      * destruct (tk_head _ _ _ Hpv) as (c & q & -> & Hc). by eexists _, _.
    + intros r'. rewrite (compact_closed pv), (compact_closed (w +:+ _)), (compact_closed w3), Hcw, Hcw3 by done. str_simpl. rewrite !string_app_assoc.
      rewrite string_app_cons, Hvag by done. cbn [mbind option_bind].
      change (skip_ws (String (ascii_of_N 44) ?x)) with (String (ascii_of_N 44) x).
      rewrite (accept_again 44) by done. rewrite (taken_skip _ _ _ _ Hpm). by rewrite Hmag.
  - destruct (accept 93 (skip_ws s2)) as [r0|] eqn:H93; [|done]. cbn [mbind option_bind]. intros [= <- <-].
    apply (punct_again 93) in H93 as (w & Hs2 & Hclw & Hcw); [|done].
    exists (pv +:+ (w +:+ String (ascii_of_N 93) "")). split.
    + split.
      * rewrite (tk_split _ _ _ Hpv), Hs2. rewrite !string_app_assoc. by str_simpl.
      * by repeat (apply closed_app; [done|]).
      * destruct (tk_head _ _ _ Hpv) as (c & q & -> & Hc). by eexists _, _.
    + intros r'. rewrite (compact_closed pv), Hcw by done. str_simpl. rewrite !string_app_assoc.
      rewrite string_app_cons, string_app_nil_l, Hvag by done. cbn [mbind option_bind].
      change (skip_ws (String (ascii_of_N 93) r')) with (String (ascii_of_N 93) r').
      rewrite (accept_not 44) by done. by rewrite (accept_again 93).
Qed.

Lemma parse_again f : value_again f /\ members_again f /\ elems_again f.
Proof.
  induction f as [|f (IHv & IHm & IHe)]; [by split_and!; intros d s x r|].
  split_and!; [by apply value_step|by apply members_step|by apply elems_step].
Qed.

(** ** What decoding writes is well-formed *)

Lemma ord_of n : n < 256 -> ord (ascii_of_N n) = n.
Proof. apply N_ascii_embedding. Qed.

Lemma unit_ok_long r b0 b1 s : unit_ok (r, String b0 (String b1 s)) = true.
Proof. unfold unit_ok. cbn. by rewrite andb_false_r. Qed.

Lemma Valid_front s u s' t :
  unit_of s u s' -> unit_ok u = true -> Valid t = true -> Valid (u.2 +:+ t) = true.
Proof.
  intros Hu Hok Ht. unfold Valid in *. rewrite (utf8_units_ok _ _ _ _ Hu Hok). cbn. by rewrite Hok.
Qed.

Lemma encode_rune_valid r t : Valid t = true -> Valid (encode_rune r +:+ t) = true.
Proof.
  intros Ht. unfold encode_rune. destruct (r <? 128) eqn:H1.
  { apply N.ltb_lt in H1. assert (ord (ascii_of_N r) = r) as Hr by (apply ord_of; lia).
    apply (Valid_front (String (ascii_of_N r) "") (ord (ascii_of_N r), String (ascii_of_N r) "") "");
      [constructor; lia| |done].
    unfold unit_ok. rewrite Hr. cbn. rewrite (proj2 (N.eqb_neq _ _)); [done|unfold RuneError; lia]. }
  apply N.ltb_ge in H1. destruct (r <? 2048) eqn:H2.
  { apply N.ltb_lt in H2. cbn [string_of_bytes].
    set (b0 := ascii_of_N (192 + r / 64)). set (b1 := ascii_of_N (128 + r mod 64)).
    assert (ord b0 = 192 + r / 64 /\ ord b1 = 128 + r mod 64) as [E0 E1]
      by (split; apply ord_of; divmod).
    apply (Valid_front (String b0 (String b1 "")) (rune2 b0 b1, String b0 (String b1 "")) ""); [|apply unit_ok_long|done].
    constructor; apply Is_true_true; unfold cont, in_range; rewrite ?E0, ?E1;
      apply andb_true_iff; split; apply N.leb_le; divmod. }
  apply N.ltb_ge in H2. set (q := if (_ : bool) then RuneError else r).
  assert (2048 <= q /\ q <= 1114111 /\ (q < 55296 \/ 57343 < q)) as (Hq1 & Hq2 & Hq3).
  { subst q. destruct (_ || _) eqn:Hb; [unfold RuneError; lia|].
    apply orb_false_iff in Hb as [Hb1 Hb2]. apply N.ltb_ge in Hb2. split_and!; [done..|].
    apply andb_false_iff in Hb1 as [Hb|Hb]; apply N.leb_gt in Hb; lia. }
  clearbody q. destruct (q <? 65536) eqn:H3; [apply N.ltb_lt in H3|apply N.ltb_ge in H3]; cbn [string_of_bytes].
  - set (b0 := ascii_of_N (224 + q / 4096)). set (b1 := ascii_of_N (128 + q / 64 mod 64)).
    set (b2 := ascii_of_N (128 + q mod 64)).
    assert (ord b0 = 224 + q / 4096 /\ ord b1 = 128 + q / 64 mod 64 /\ ord b2 = 128 + q mod 64)
      as (E0 & E1 & E2) by (split_and!; apply ord_of; divmod).
    apply (Valid_front (String b0 (String b1 (String b2 ""))) (rune3 b0 b1 b2, String b0 (String b1 (String b2 ""))) "");
      [|apply unit_ok_long|done].
    constructor; apply Is_true_true; unfold cont, in_range; rewrite ?E0, ?E1, ?E2;
      apply andb_true_iff; split; apply N.leb_le; unfold lo2, hi2;
      repeat case_match; rewrite ?N.eqb_eq, ?N.eqb_neq in *; divmod.
  - set (b0 := ascii_of_N (240 + q / 262144)). set (b1 := ascii_of_N (128 + q / 4096 mod 64)).
    set (b2 := ascii_of_N (128 + q / 64 mod 64)). set (b3 := ascii_of_N (128 + q mod 64)).
    assert (ord b0 = 240 + q / 262144 /\ ord b1 = 128 + q / 4096 mod 64
      /\ ord b2 = 128 + q / 64 mod 64 /\ ord b3 = 128 + q mod 64)
      as (E0 & E1 & E2 & E3) by (split_and!; apply ord_of; divmod).
    apply (Valid_front (String b0 (String b1 (String b2 (String b3 ""))))
      (rune4 b0 b1 b2 b3, String b0 (String b1 (String b2 (String b3 "")))) "");
      [|apply unit_ok_long|done].
    constructor; apply Is_true_true; unfold cont, in_range; rewrite ?E0, ?E1, ?E2, ?E3;
      apply andb_true_iff; split; apply N.leb_le; unfold lo2, hi2;
      repeat case_match; rewrite ?N.eqb_eq, ?N.eqb_neq in *; divmod.
Qed.

(** A unit of some text. *)
Definition good_unit (u : N * string) : Prop := exists s s', unit_of s u s'.

Lemma utf8_units_good s : Forall good_unit (utf8_units s).
Proof.
  induction s as [|s u s' Hu Heq IH] using utf8_ind; [constructor|].
  rewrite Heq. constructor; [by exists s, s'|done].
Qed.

Lemma getu4_good us r us' : getu4 us = Some (r, us') -> Forall good_unit us -> Forall good_unit us'.
Proof.
  destruct us as [|[a ?] [|[b ?] [|[c ?] [|[d ?] us]]]]; cbn; try done.
  destruct (hex_val a); [|done]. cbn. destruct (hex_val b); [|done]. cbn.
  destruct (hex_val c); [|done]. cbn. destruct (hex_val d); [|done]. cbn.
  intros [= _ <-] Hf. by do 4 apply Forall_inv_tail in Hf.
Qed.

Lemma unquote_valid f : forall us t,
  Forall good_unit us -> unquote_units f us = Some t -> Valid t = true.
Proof.
  induction f as [|f IH]; intros us t Hg; destruct us as [|[r raw] us1]; cbn [unquote_units];
    try done; try (by intros [= <-]).
  inversion Hg as [|? ? Hu Hg1]; subst.
  assert (forall us2 x, Forall good_unit us2 ->
    (t ← unquote_units f us2; Some (encode_rune x +:+ t)) = Some t -> Valid t = true) as Hrec.
  { intros us2 x Hg2. destruct (unquote_units f us2) as [t2|] eqn:Hq; [|done]. cbn. intros [= <-].
    apply encode_rune_valid. by eapply IH. }
  destruct (r =? 92).
  - destruct us1 as [|[e raw'] us2]; [done|]. apply Forall_inv_tail in Hg1 as Hg2.
    destruct (e =? 117); [|destruct (short_escape e) as [x|]; [cbn; by apply Hrec|done]].
    destruct (getu4 us2) as [[rr us3]|] eqn:H3; [|done]. pose proof (getu4_good _ _ _ H3 Hg2) as Hg3. cbn [mbind option_bind].
    destruct (is_surrogate rr); [|by apply Hrec].
    destruct (match us3 with (b, _) :: (u, _) :: us4 => _ | _ => None end) as [[dec us5]|] eqn:Hp; [|by apply Hrec].
    apply Hrec. destruct us3 as [|[b ?] [|[u ?] us4]]; try done.
    destruct ((b =? 92) && (u =? 117)); [|done].
    destruct (getu4 us4) as [[rr1 us6]|] eqn:H4; [|done]. cbn in Hp.
    destruct (utf16_pair rr rr1); [|done]. cbn in Hp. simplify_eq.
    eapply getu4_good; [done|]. by do 2 apply Forall_inv_tail in Hg3.
  - destruct (unit_ok (r, raw)) eqn:Hok; [|by apply Hrec].
    destruct (unquote_units f us1) as [t1|] eqn:Hq; [|done]. cbn. intros [= <-].
    destruct Hu as (s & s' & Hu). apply (Valid_front _ _ _ t1 Hu Hok). by eapply IH.
Qed.

Lemma parse_value_str f d s t r : parse_value f d s = Some (JStr t, r) -> Valid t = true.
Proof.
  destruct f as [|f]; [done|]. destruct s as [|c s]; cbn [parse_value]; [done|].
  destruct (ord c =? 123); [destruct (d =? 0); [done|]|].
  { destruct (accept 125 _); [done|]. by destruct (parse_members _ _ _) as [[]|]. }
  destruct (ord c =? 91); [destruct (d =? 0); [done|]|].
  { destruct (accept 93 _); [done|]. by destruct (parse_elems _ _ _) as [[]|]. }
  destruct (ord c =? 34).
  { destruct (scan_string s) as [[body r0]|]; [|done]. cbn. destruct (unquote body) as [x|] eqn:Hu; [|done].
    cbn. intros [= <- <-]. by eapply unquote_valid, Hu; apply utf8_units_good. }
  destruct (_ || _); [by destruct (scan_number _) as [[]|]|].
  unfold scan_word. repeat case_match; intros; by simplify_eq.
Qed.

(** Where the members of an object come from. *)
Definition member_from (d : N) (m : member) : Prop :=
  exists f s r, parse_value f d s = Some (m.2.1, r) /\ m.2.2 = consumed s r.

Lemma parse_members_from f : forall d s ms r,
  parse_members f d s = Some (ms, r) -> Forall (member_from d) ms.
Proof.
  induction f as [|f IH]; intros d s ms r; cbn [parse_members]; [done|].
  destruct (scan_key s) as [[k s1]|]; [|done]. cbn.
  destruct (parse_value f d s1) as [[v s2]|] eqn:Hv; [|done]. cbn.
  assert (member_from d (k, (v, consumed s1 s2))) as Hm by (by exists f, s1, s2).
  destruct (accept 44 _) as [s3|].
  - destruct (parse_members f d (skip_ws s3)) as [[ms0 r0]|] eqn:Hms; [|done]. cbn.
    intros [= <- <-]. constructor; [done|]. by eapply IH.
  - destruct (accept 125 _); [|done]. cbn. intros [= <- <-]. by constructor.
Qed.

(** What a frame decoded from an object holds: a well-formed channel, and the
    text of a member named data. *)
Record msg_from (ms : list member) (m : incoming) : Prop := {
  mf_channel : Valid (in_Channel m) = true;
  mf_data d : in_Data m = Some d ->
    exists k v, (k, (v, d)) ∈ ms /\ field_match "data" k = true;
}.

Lemma set_field_from ms m f m' :
  msg_from ms m -> member_from (N.pred maxNestingDepth) f -> f ∈ ms -> set_field m f = Some m' ->
  msg_from ms m'.
Proof.
  intros [Hc Hd] Hf Hin. destruct f as [k [v raw]]. unfold set_field.
  assert (forall s, v = JStr s -> Valid s = true) as Hstr.
  { intros s ->. destruct Hf as (g & s0 & r0 & Hp & _). by eapply parse_value_str. }
  destruct (field_match "type" k); [by destruct v; intros; simplify_eq|].
  destruct (field_match "channel" k); [destruct v; intros; simplify_eq; split; cbn [in_Channel in_Data]; auto|].
  destruct (field_match "token" k); [by destruct v; intros; simplify_eq|].
  destruct (field_match "data" k) eqn:Hk; [|by intros; simplify_eq].
  intros [= <-]. split; [done|]. cbn. intros d [= <-]. by exists k, v.
Qed.

Lemma set_fields_from ms0 ms : forall m msg,
  Forall (fun f => member_from (N.pred maxNestingDepth) f /\ f ∈ ms0) ms -> msg_from ms0 m ->
  foldl (fun acc f => m ← acc; set_field m f) (Some m) ms = Some msg -> msg_from ms0 msg.
Proof.
  induction ms as [|f ms IH]; intros m msg Hms Hm; cbn [foldl]; [by intros [= <-]|].
  inversion Hms as [|? ? [Hf Hin] Hms']; subst. cbn [mbind option_bind].
  destruct (set_field m f) as [m'|] eqn:Hs.
  - apply IH; [done|]. by eapply set_field_from.
  - clear. intros Hx. exfalso. induction ms; cbn in Hx; [done|auto].
Qed.

(** A decoded frame that has data is an object. *)
Lemma unmarshal_from raw msg d :
  unmarshal raw = Some msg -> in_Data msg = Some d ->
  exists ms, parse_top raw = Some (TObject ms) /\ msg_from ms msg
  /\ Forall (member_from (N.pred maxNestingDepth)) ms.
Proof.
  unfold unmarshal. destruct (parse_top raw) as [[ms|v]|] eqn:Ht; [|destruct v; try done; by intros [= <-]|done].
  cbn [mbind option_bind]. intros Hm _. exists ms. split; [done|].
  assert (Forall (member_from (N.pred maxNestingDepth)) ms) as Hms.
  { unfold parse_top, parse_first in Ht. destruct (accept 123 _) as [s|].
    - destruct (accept 125 _) as [r|].
      { cbn in Ht. case_bool_decide; simplify_eq. constructor. }
      destruct (parse_members _ _ _) as [[ms' r]|] eqn:Hp; [|done]. cbn in Ht. case_bool_decide; [|done].
      simplify_eq. by eapply parse_members_from.
    - destruct (parse_value _ _ _) as [[v r]|]; [|done]. cbn in Ht. by case_bool_decide. }
  split; [|done]. apply (set_fields_from ms ms incoming_zero msg); [|split; [done|by intros ? [=]]|exact Hm].
  apply Forall_forall. intros f Hf. split; [|done]. by eapply Forall_forall in Hms.
Qed.

(** ** Any fuel that is enough *)

Definition fuel_le (f g : nat) : Prop :=
  (forall d s x, parse_value f d s = Some x -> parse_value g d s = Some x)
  /\ (forall d s x, parse_members f d s = Some x -> parse_members g d s = Some x)
  /\ (forall d s x, parse_elems f d s = Some x -> parse_elems g d s = Some x).

Lemma fuel_le_S f g : fuel_le f g -> fuel_le (S f) (S g).
Proof.
  intros (IHv & IHm & IHe). split_and!; intros d s x.
  - cbn [parse_value]. destruct s as [|c s]; [done|].
    destruct (ord c =? 123); [destruct (d =? 0); [done|]; destruct (accept 125 _); [done|]|].
    { destruct (parse_members f _ _) as [y|] eqn:Hp; [|done]. by rewrite (IHm _ _ _ Hp). }
    destruct (ord c =? 91); [|done]. destruct (d =? 0); [done|]. destruct (accept 93 _); [done|].
    destruct (parse_elems f _ _) as [y|] eqn:Hp; [|done]. by rewrite (IHe _ _ _ Hp).
  - cbn [parse_members]. destruct (scan_key s) as [[k s1]|]; [|done]. cbn [mbind option_bind].
    destruct (parse_value f d s1) as [[v s2]|] eqn:Hp; [|done]. rewrite (IHv _ _ _ Hp). cbn [mbind option_bind].
    destruct (accept 44 _) as [s3|]; [|done].
    destruct (parse_members f d _) as [y|] eqn:Hm; [|done]. by rewrite (IHm _ _ _ Hm).
  - cbn [parse_elems].
    destruct (parse_value f d s) as [[v s2]|] eqn:Hp; [|done]. rewrite (IHv _ _ _ Hp). cbn [mbind option_bind].
    destruct (accept 44 _) as [s3|]; [|done].
    destruct (parse_elems f d _) as [y|] eqn:Hm; [|done]. by rewrite (IHe _ _ _ Hm).
Qed.

Lemma fuel_mono f : fuel_le f (S f).
Proof. induction f as [|f IH]; [by split_and!|]. by apply fuel_le_S. Qed.

Lemma value_mono f f' d s x :
  (f <= f')%nat -> parse_value f d s = Some x -> parse_value f' d s = Some x.
Proof. induction 1 as [|f' Hf IH]; [done|]. intros Hp. by apply fuel_mono, IH. Qed.

Lemma members_mono f f' d s x :
  (f <= f')%nat -> parse_members f d s = Some x -> parse_members f' d s = Some x.
Proof. induction 1 as [|f' Hf IH]; [done|]. intros Hp. by apply fuel_mono, IH. Qed.

Lemma value_enough f f' d s x :
  parse_value f d s = Some x -> (2 * len s < f')%nat -> parse_value f' d s = Some x.
Proof.
  intros Hp Hf. apply (value_mono f (f `max` S (2 * len s))) in Hp; [|lia].
  rewrite <- Hp. apply (parse_fuel f'); lia.
Qed.

Lemma members_enough f f' d s x :
  parse_members f d s = Some x -> (2 * len s + 1 < f')%nat -> parse_members f' d s = Some x.
Proof.
  intros Hp Hf. apply (members_mono f (f `max` S (S (2 * len s)))) in Hp; [|lia].
  rewrite <- Hp. apply (parse_fuel f'); lia.
Qed.

(** ** Written objects *)

(** The text [v] is read as [t], wherever it is written. *)
Definition reads (d : N) (v : string) (t : json) : Prop :=
  (exists c q, v = String c q /\ is_ws c = false)
  /\ forall r, stops num_byte r = true -> exists f, parse_value f d (v +:+ r) = Some (t, r).

Lemma reads_quote d html s : Valid s = true -> reads d (quote html s) (JStr s).
Proof.
  intros Hv. split; [by eexists _, _|]. intros r _. exists 1%nat. by apply parse_quote.
Qed.

Lemma consumed_app p r : consumed (p +:+ r) r = p.
Proof.
  unfold consumed. rewrite string_length_app, Nat.add_sub.
  induction p as [|c p IH]; str_simpl; [by destruct r|]. cbn. by rewrite IH.
Qed.

Lemma reads_data d k v raw : member_from d (k, (v, raw)) -> reads d (compact false false raw) v.
Proof.
  intros (f & s & r & Hp & Hc). cbn [fst snd] in Hp, Hc. subst raw. apply parse_again in Hp as (p & Ht & Hag).
  rewrite (tk_split _ _ _ Ht), consumed_app. split.
  - destruct (tk_head _ _ _ Ht) as (c & q & -> & Hc). rewrite compact_head by done. by eexists _, _.
  - intros r' Hr. exists f. by apply Hag.
Qed.

(** Members to be written, with what they are read as. *)
Definition readable (d : N) (m : member) : Prop := Valid m.1 = true /\ reads d m.2.2 m.2.1.
Definition written (m : member) : string * string := (m.1, m.2.2).

Lemma scan_key_quote html k x :
  Valid k = true -> stops is_ws x = true ->
  scan_key (quote html k +:+ String (chr 58) x) = Some (k, x).
Proof.
  intros Hk Hx. unfold scan_key, quote, in_quotes. str_simpl. rewrite string_app_assoc.
  rewrite (accept_again 34) by done. cbn [mbind option_bind]. rewrite scan_enc by done. str_simpl.
  change (scan_string (String dq ?x)) with (Some (EmptyString, x)). cbn [mbind option_bind].
  rewrite string_app_nil_r. unfold unquote. rewrite unquote_enc by done. cbn [mbind option_bind].
  change (skip_ws (String (chr 58) x)) with (String (chr 58) x).
  rewrite (accept_again 58) by done. cbn. by rewrite skip_ws_id.
Qed.

Lemma reads_stops d v t x : reads d v t -> stops is_ws (v +:+ x) = true.
Proof. intros [(c & q & -> & Hc) _]. str_simpl. cbn. by rewrite Hc. Qed.

Lemma members_read html d ms r :
  ms <> [] -> Forall (readable d) ms ->
  exists f, parse_members f d (members html (written <$> ms) +:+ String (chr 125) r) = Some (ms, r).
Proof.
  intros Hne Hms. induction Hms as [|[k [t v]] ms [Hk Hv] Hms IH]; [done|]. cbn in Hk, Hv.
  destruct ms as [|m ms].
  - cbn [fmap list_fmap written members fst snd]. destruct (proj2 Hv (String (chr 125) r)) as [f Hf]; [done|].
    exists (S f). cbn [parse_members]. str_simpl. rewrite string_app_assoc.
    rewrite string_app_cons, scan_key_quote by (done || by eapply reads_stops). cbn [mbind option_bind].
    rewrite Hf. cbn [mbind option_bind]. rewrite consumed_app.
    change (skip_ws (String (chr 125) r)) with (String (chr 125) r).
    rewrite (accept_not 44), (accept_again 125) by done. done.
  - destruct IH as [f2 Hf2]; [done|].
    change (written <$> (k, (t, v)) :: m :: ms) with ((k, v) :: written m :: (written <$> ms)).
    rewrite members_cons2. change (written <$> m :: ms) with (written m :: (written <$> ms)) in Hf2.
    set (rest := members html (written m :: (written <$> ms))) in *.
    destruct (proj2 Hv (String (chr 44) (rest +:+ String (chr 125) r))) as [f1 Hf1]; [done|].
    exists (S (f1 `max` f2)). cbn [parse_members]. rewrite string_app_assoc. str_simpl.
    rewrite !string_app_assoc. str_simpl.
    rewrite scan_key_quote by (done || by eapply reads_stops). cbn [mbind option_bind].
    rewrite (value_mono f1 _ _ _ _ (Nat.le_max_l _ _) Hf1). cbn [mbind option_bind]. rewrite consumed_app.
    change (skip_ws (String (chr 44) ?x)) with (String (chr 44) x).
    rewrite (accept_again 44) by done.
    assert (stops is_ws (rest +:+ String (chr 125) r) = true) as Hws.
    { subst rest. destruct m as [k' [t' v']]. by destruct ms. }
    rewrite (skip_ws_id _ Hws). by rewrite (members_mono f2 _ _ _ _ (Nat.le_max_r _ _) Hf2).
Qed.

Lemma object_read html ms :
  ms <> [] -> Forall (readable (N.pred maxNestingDepth)) ms ->
  parse_top (object html (written <$> ms)) = Some (TObject ms).
Proof.
  intros Hne Hms. destruct (members_read html _ ms "" Hne Hms) as [f Hf].
  set (body := members html (written <$> ms) +:+ String (chr 125) "") in *.
  assert (stops is_ws body = true /\ accept 125 body = None) as [Hws Hac].
  { subst body. destruct ms as [|[k [t v]] ms]; [done|]. by destruct ms. }
  unfold parse_top, parse_first, object. fold body.
  change (skip_ws (String (chr 123) body)) with (String (chr 123) body).
  rewrite (accept_again 123) by done. rewrite (skip_ws_id _ Hws), Hac.
  rewrite (members_enough f _ _ _ _ Hf); [done|]. unfold fuel_for. cbn [len]. lia.
Qed.

(** ** What a subscriber reads *)

(** The members of an event frame, in the order written. *)
Definition event_members (channel d id : string) (v : json) : list member :=
  [("channel", (JStr channel, text channel)); ("data", (v, compact false false d));
   ("id", (JStr id, text id)); ("type", (JStr "event", text "event"))].

(** C13. What is published is what is received. The event frame that a publish
    produces, decoded, has just the members channel, data, id and type; the
    channel and id are the ones sent, the type is event, and data is the very
    JSON value of the data member the publisher wrote. *)
Theorem publish_is_read_back raw msg d id :
  unmarshal raw = Some msg -> in_Data msg = Some d -> Valid id = true ->
  exists ms k v, parse_top raw = Some (TObject ms) /\ (k, (v, d)) ∈ ms /\ field_match "data" k = true
  /\ parse_top (event_frame (in_Channel msg) (Some d) id)
     = Some (TObject (event_members (in_Channel msg) d id v)).
Proof.
  intros Hm Hd Hid. destruct (unmarshal_from _ _ _ Hm Hd) as (ms & Ht & [Hc Hdata] & Hms).
  destruct (Hdata d Hd) as (k & v & Hin & Hk). exists ms, k, v. split_and!; [done..|].
  change (event_frame (in_Channel msg) (Some d) id)
    with (object false (written <$> event_members (in_Channel msg) d id v)).
  apply object_read; [done|]. unfold event_members, text, readable.
  repeat apply Forall_cons_2; [..|apply Forall_nil_2]; (split; [reflexivity|]);
    try (apply reads_quote; done).
  eapply reads_data. by eapply Forall_forall in Hms.
Qed.

Lemma publish_is_read_back_witness :
  let raw := object false [("type", text "publish"); ("channel", text "room");
    ("data", object false [("n", " [1, 2.5e3 ] "); ("s", text " a ")])] in
  exists ms k v, parse_top raw = Some (TObject ms) /\ field_match "data" k = true
  /\ parse_top (event_frame "room" (Some (object false [("n", " [1, 2.5e3 ] "); ("s", text " a ")])) "01")
     = Some (TObject (event_members "room" (object false [("n", " [1, 2.5e3 ] "); ("s", text " a ")]) "01" v)).
Proof.
  intros raw. destruct (publish_is_read_back raw (MkIncoming "publish" "room" ""
    (Some (object false [("n", " [1, 2.5e3 ] "); ("s", text " a ")])))
    (object false [("n", " [1, 2.5e3 ] "); ("s", text " a ")]) "01") as (ms & k & v & ? & _ & ? & ?);
    [by vm_compute|done|by vm_compute|by exists ms, k, v].
Defined.
