(* ===== verification/WireData.v ===== *)
(** * Numbers and nested objects on the wire

    [Wire] shows that written strings and copied values are read back; here the
    same for the integers and the objects the program writes inside others: the
    counters of the stats channel and the load generator's timestamps. *)
From S2P Require Import Prelude GoStd GoBytes Utf8 GoJson Frame JsonFacts Wire.
From stdpp Require Import options.
Local Open Scope N_scope.

(** ** Integers *)

Lemma pretty_N_char_ord n :
  n < 10 -> is_digit (pretty_N_char n) = true /\ (n <> 0 -> ord (pretty_N_char n) <> 48).
Proof.
  intros Hn.
  pose proof (N_lt_cases (fun n => is_digit (pretty_N_char n)
    && ((n =? 0) || negb (ord (pretty_N_char n) =? 48))) 10 n eq_refl Hn) as H. cbn in H.
  apply andb_true_iff in H as [Hd H]. split; [done|]. intros Hz Ho. rewrite Ho in H.
  apply N.eqb_neq in Hz. by rewrite Hz in H.
Qed.

(** A printed positive integer: digits, the first of them not zero. *)
Lemma pretty_N_go_lead n acc :
  0 < n -> string_forall is_digit acc = true ->
  exists c s, pretty_N_go n acc = String c s /\ is_digit c = true /\ ord c <> 48
  /\ string_forall is_digit s = true.
Proof.
  revert acc. induction (N.lt_wf_0 n) as [n _ IH]; intros acc Hn Ha.
  rewrite pretty_N_go_step by lia.
  destruct (pretty_N_char_ord (n mod 10)) as [Hd Hz]; [by apply N.mod_lt|].
  destruct (decide (n < 10)) as [Hs|Hs].
  - rewrite N.div_small, N.mod_small in * by done. exists (pretty_N_char n), acc.
    split_and!; try done. apply Hz. lia.
  - apply IH; [apply N.div_lt; lia| |by cbn; rewrite Hd]. apply N.div_str_pos. lia.
Qed.

Lemma span_digits s r :
  string_forall is_digit s = true -> stops num_byte r = true -> span is_digit (s +:+ r) = (s, r).
Proof.
  intros Hs Hr. apply span_again; [done|]. eapply stops_weaken; [|exact Hr]. apply num_digit.
Qed.

(** The parts that do not follow an integer. *)
Lemma scan_int_end r : stops num_byte r = true -> scan_frac r = Some ("", r) /\ scan_exp r = Some ("", r).
Proof.
  destruct r as [|c r]; [done|]. cbn [stops]. unfold num_byte. intros Hr.
  apply negb_true_iff in Hr. repeat apply orb_false_iff in Hr as [Hr ?].
  unfold scan_frac, accept, scan_exp. by repeat (match goal with H : _ = false |- _ => rewrite H; clear H end; cbn).
Qed.

Lemma scan_digits c s r :
  is_digit c = true -> ord c <> 48 -> string_forall is_digit s = true -> stops num_byte r = true ->
  scan_int (String c s +:+ r) = Some (String c s, r).
Proof.
  intros Hc Hz Hs Hr. unfold scan_int. rewrite string_app_cons.
  rewrite (accept_not 48) by (cbn; apply negb_true_iff; by apply N.eqb_neq).
  unfold digits1. rewrite <- string_app_cons, span_digits by (done || by cbn; rewrite Hc).
  by rewrite bool_decide_eq_false_2.
Qed.

Lemma scan_number_int sg s r :
  sg = "" \/ sg = String (chr 45) "" ->
  stops num_byte r = true -> stops (fun c => ord c =? 45) (s +:+ r) = true ->
  scan_int (s +:+ r) = Some (s, r) ->
  scan_number (sg +:+ s +:+ r) = Some (sg +:+ s, r).
Proof.
  intros Hsg Hr Hm Hs. destruct (scan_int_end r Hr) as [Hf He].
  assert (scan_number (sg +:+ s +:+ r)
    = '(i, s1) ← scan_int (s +:+ r); '(f, s2) ← scan_frac s1; '(e, s3) ← scan_exp s2;
      Some (sg +:+ i +:+ f +:+ e, s3)) as ->.
  { unfold scan_number. destruct Hsg as [->| ->].
    - by rewrite string_app_nil_l, accept_not.
    - rewrite string_app_cons, string_app_nil_l. by rewrite (accept_again 45). }
  rewrite Hs. cbn [mbind option_bind]. rewrite Hf. cbn [mbind option_bind].
  rewrite He. cbn [mbind option_bind]. by rewrite !string_app_nil_r.
Qed.

(** What [FormatInt] prints is a number's text. *)
Lemma scan_FormatInt z r : stops num_byte r = true -> scan_number (FormatInt z +:+ r) = Some (FormatInt z, r).
Proof.
  intros Hr. assert (forall sg p, sg = "" \/ sg = String (chr 45) "" ->
    scan_number (sg +:+ pretty_N_go (Npos p) "" +:+ r) = Some (sg +:+ pretty_N_go (Npos p) "", r)) as Hp.
  { intros sg p Hsg. destruct (pretty_N_go_lead (Npos p) "" ltac:(lia) eq_refl) as (c & s & -> & Hc & Hn & Hs).
    apply scan_number_int; [done|done| |by apply scan_digits].
    clear -Hc. by destruct c as [[] [] [] [] [] [] [] []]. }
  destruct z as [|p|p].
  - apply (scan_number_int "" "0"); [by left|done..].
  - apply (Hp "" p). by left.
  - specialize (Hp (String (chr 45) "") p ltac:(by right)). by rewrite <- string_app_assoc in Hp.
Qed.

Lemma FormatInt_head z :
  exists c s, FormatInt z = String c s /\ (ord c =? 45) || is_digit c = true.
Proof.
  destruct z as [|p|p]; [by eexists _, _| |by eexists _, _].
  destruct (pretty_N_go_lead (Npos p) "" ltac:(lia) eq_refl) as (c & s & Hf & Hc & _).
  exists c, s. split; [done|]. by rewrite Hc, orb_true_r.
Qed.

(** An integer is read as the number it is. *)
Lemma reads_int d z : reads d (FormatInt z) (JNum (FormatInt z)).
Proof.
  destruct (FormatInt_head z) as (c & s & Hf & Hc). split.
  - exists c, s. split; [done|]. clear -Hc. by destruct c as [[] [] [] [] [] [] [] []].
  - intros r Hr. exists 1%nat. pose proof (scan_FormatInt z r Hr) as Hs. revert Hs.
    rewrite Hf, string_app_cons. intros Hs. cbn [parse_value].
    replace (ord c =? 123) with false by (clear -Hc; by destruct c as [[] [] [] [] [] [] [] []]).
    replace (ord c =? 91) with false by (clear -Hc; by destruct c as [[] [] [] [] [] [] [] []]).
    replace (ord c =? 34) with false by (clear -Hc; by destruct c as [[] [] [] [] [] [] [] []]).
    by rewrite Hc, Hs.
Qed.

(** ** Objects inside objects *)

Lemma reads_object html d ms :
  0 < d -> ms <> [] -> Forall (readable (N.pred d)) ms ->
  reads d (object html (written <$> ms)) (JObj (values ms)).
Proof.
  intros Hd Hne Hms. split; [by eexists _, _|]. intros r _.
  destruct (members_read html _ ms r Hne Hms) as [f Hf]. exists (S f).
  unfold object. rewrite string_app_cons, string_app_assoc, string_app_cons, string_app_nil_l.
  set (body := members html (written <$> ms) +:+ String (chr 125) r) in *.
  assert (stops is_ws body = true /\ accept 125 body = None) as [Hws Hac].
  { subst body. destruct ms as [|[k [t v]] ms]; [done|]. by destruct ms. }
  cbn [parse_value]. change (ord (chr 123) =? 123) with true. cbv iota.
  rewrite (proj2 (N.eqb_neq d 0)) by lia. rewrite (skip_ws_id _ Hws), Hac. by rewrite Hf.
Qed.

