(* ===== verification/Prom.v ===== *)
(** * internal/metrics/prom.go: the collectors and their registration

    The Prometheus client is an interface: metrics that write themselves into
    the wire message, and a registry that panics when a name comes twice.  A
    float64 that only ever had ones added to it is the integer, below 2 to the
    53. *)
From Stdlib Require Import SpecFloat.
From S2P Require Import Prelude GoStd GoFmt.
From stdpp Require Import options.

(** ** The collectors *)

Inductive metric_kind : Type :=
  | KGauge
  | KCounter
  | KCounterVec (labels : list string)
  | KHistogram (start factor : spec_float) (count : nat)   (* exponential buckets *)
  | KGaugeFunc.

Record collector : Type := MkCollector {
  Name : string;
  Help : string;
  co_kind : metric_kind;
}.

Definition Connections_collector : collector :=
  MkCollector "wirefan_connections" "Open WebSocket connections." KGauge.
Definition Published_collector : collector :=
  MkCollector "wirefan_messages_published_total" "Client publishes accepted for fanout." KCounter.
Definition Dropped_collector : collector :=
  MkCollector "wirefan_messages_dropped_total"
    "Messages not delivered to a subscriber, by reason (slow_consumer: its send buffer was full)."
    (KCounterVec ["reason"]).
Definition Latency_collector : collector :=
  MkCollector "wirefan_broadcast_latency_seconds"
    "Seconds a publish spends in the fanout's Broadcast call: queueing onto each subscriber's send buffer (per-conn) or handing off to a worker (sharded). Socket writes happen later and are not included."
    (KHistogram (fdiv (of_int 1) (of_int 10000)) (of_int 2) 16).
Definition UpgradeRej_collector : collector :=
  MkCollector "wirefan_upgrade_rejected_total"
    "WebSocket upgrade requests refused before the handshake, by reason (bad_key, phantom_cap, draining)."
    (KCounterVec ["reason"]).
Definition AuthFails_collector : collector :=
  MkCollector "wirefan_auth_failures_total"
    "Failed subscribe-token checks on private- and presence- channels." KCounter.
Definition channels_collector : collector :=
  MkCollector "wirefan_channels"
    "Channels in the registry, read at scrape time; includes the _wirefan-stats system channel." KGaugeFunc.

(** What [realRegister] registers, call by call. *)
Definition register_calls : list (list collector) :=
  [[channels_collector];
   [Connections_collector; Published_collector; Dropped_collector; Latency_collector; UpgradeRej_collector;
    AuthFails_collector]].

(** ** The client *)

(** The wire message's fields that are read. *)
Record dto_Metric : Type := MkDto {
  Gauge : option Z;
  Counter : option Z;
}.

(** A metric that holds a value, what it writes ([None] is an error), and a
    registry; a registration that panics is [None]. *)
Class Prometheus (M Reg : Type) := {
  gauge : Z -> M;
  counter : Z -> M;
  Write : M -> option dto_Metric;
  MustRegister : list collector -> Reg -> option Reg;
  registered : Reg -> gset string;
}.

Class PrometheusLaws (M Reg : Type) `{Prometheus M Reg} := {
  write_gauge z : Write (gauge z) = Some (MkDto (Some z) None);
  write_counter z : Write (counter z) = Some (MkDto None (Some z));
  must_register cs r :
    NoDup (Name <$> cs) -> (forall c, c ∈ cs -> Name c ∉ registered r) ->
    exists r', MustRegister cs r = Some r' /\ registered r' = registered r ∪ list_to_set (Name <$> cs);
  must_not_register cs r :
    (exists c, c ∈ cs /\ Name c ∈ registered r) \/ ~ NoDup (Name <$> cs) -> MustRegister cs r = None;
}.

(** The interface can be met: a metric is its message, a registry the set of
    its names. *)
#[export] Instance plain_prometheus : Prometheus dto_Metric (gset string) := {
  gauge z := MkDto (Some z) None;
  counter z := MkDto None (Some z);
  Write m := Some m;
  MustRegister cs r :=
    if decide (NoDup (Name <$> cs) /\ Forall (fun c => Name c ∉ r) cs) then Some (r ∪ list_to_set (Name <$> cs)) else None;
  registered r := r;
}.
#[export] Instance plain_prometheus_laws : PrometheusLaws dto_Metric (gset string).
Proof.
  split; [done|done| |]; intros cs r; cbn.
  - intros Hnd Hr. exists (r ∪ list_to_set (Name <$> cs)). by rewrite decide_True by (split; [done|by apply Forall_forall]).
  - intros Hbad. apply decide_False. intros [Hnd Hr]. destruct Hbad as [(c & Hc & Hin)|Hd]; [|done].
    by apply (proj1 (Forall_forall _ _) Hr) in Hc.
Qed.

Section Prom.
Context {M Reg : Type} `{PrometheusLaws M Reg}.
Implicit Types (m : M) (r : Reg).

(** [readValue]. *)
Definition readValue m : Z :=
  match Write m with
  | None => 0
  | Some d =>
      match Gauge d, Counter d with
      | Some z, _ => z
      | None, Some z => z
      | None, None => 0
      end
  end.

(** [readVecTotal], over the children that [Collect] sends. *)
Definition readVecTotal (children : list M) : Z := foldl (fun total m => (total + readValue m)%Z) 0%Z children.

(** [realRegister], and [Register]: [once] tells whether it has run. *)
Definition realRegister r : option Reg := foldl (fun o cs => o ≫= MustRegister cs) (Some r) register_calls.
Definition Register (once : bool) r : option (bool * Reg) :=
  if once then Some (true, r) else r' ← realRegister r; Some (true, r').

Lemma readValue_gauge z : readValue (gauge z) = z.
Proof using All. unfold readValue. by rewrite write_gauge. Qed.
Lemma readValue_counter z : readValue (counter z) = z.
Proof using All. unfold readValue. by rewrite write_counter. Qed.

(** The total is the sum of the children, in whatever order they come. *)
Lemma readVecTotal_sum zs : readVecTotal (counter <$> zs) = foldr Z.add 0%Z zs.
Proof using All.
  unfold readVecTotal. enough (forall t, foldl (fun total m => (total + readValue m)%Z) t (counter <$> zs)
    = (t + foldr Z.add 0 zs)%Z) as -> by lia.
  induction zs as [|z zs IH]; intros t; cbn; [lia|]. rewrite IH, readValue_counter. lia.
Qed.

Definition collector_names : list string := Name <$> concat register_calls.

(** On a registry without them the collectors register, each once; a later boot
    in the same process neither panics nor registers anything. *)
Lemma Register_ok r :
  (forall n, n ∈ collector_names -> n ∉ registered r) ->
  exists r', Register false r = Some (true, r') /\ registered r' = registered r ∪ list_to_set collector_names
    /\ Register true r' = Some (true, r').
Proof using All.
  intros Hn. unfold Register, realRegister. cbn [register_calls foldl mbind option_bind].
  destruct (must_register [channels_collector] r) as (r1 & -> & E1).
  { vm_decide. }
  { intros c ->%list_elem_of_singleton. apply Hn. vm_decide. }
  cbn [mbind option_bind].
  set (cs := [Connections_collector; _; _; _; _; _]).
  destruct (must_register cs r1) as (r2 & -> & E2).
  { vm_decide. }
  { intros c Hc. assert (Name c ∈ Name <$> cs) as Hin by by apply (list_elem_of_fmap_2 Name).
    rewrite E1. apply not_elem_of_union. split.
    - apply Hn. unfold collector_names. cbn [register_calls concat]. rewrite app_nil_r, fmap_app. by apply elem_of_app; right.
    - revert Hin. generalize (Name c). intros s Hin.
      assert (Forall (fun s => s ∉ ({["wirefan_channels"]} : gset string)) (Name <$> cs)) as Hf by vm_decide.
      apply (proj1 (Forall_forall _ _) Hf) in Hin. clear -Hin. set_solver. }
  exists r2. split_and!; [done| |done]. rewrite E2, E1, <- (assoc_L (∪)). by f_equal.
Qed.

(** A second [realRegister] panics: what [registerOnce] prevents. *)
Lemma realRegister_twice r :
  "wirefan_channels" ∈ registered r -> realRegister r = None.
Proof using All.
  intros Hin. unfold realRegister. cbn [register_calls foldl mbind option_bind].
  by rewrite must_not_register by (left; exists channels_collector; split; [left|done]).
Qed.
End Prom.
