(* ===== verification/Metrics.v ===== *)
(** * internal/metrics/prom.go: what the stats channel reports

    The values of the collectors ([Prom]) are the counters of [World]; here the
    channel source, the snapshot, and what a client of the stats channel
    reads. *)
From S2P Require Import Prelude GoStd GoBytes Utf8 GoJson Token Channel Registry Limiter Hub Frame Conn World Membership Handler Run JsonFacts Wire WireData Service Prom.
From stdpp Require Import options.

Section Metrics.
Context {R B F : Type} `{RegistryLaws R, TokenBucket B, !Fanout R B F, !FanoutLaws R B F}.
Context (M Reg : Type) `{PrometheusLaws M Reg}.
Implicit Types (w : World R B F).

(** [channelSource]: nil, or a callback that reads the live registry.  [run]
    installs [Len]. *)
Definition channel_source : Type := option (R -> nat).
Definition SetChannelSource (fn : channel_source) : channel_source := fn.
Definition run_source : channel_source := SetChannelSource (Some Registry.Len).

Definition channelCount (src : channel_source) w : Z :=
  match src with Some fn => Z.of_nat (fn (w_reg w)) | None => 0 end.

(** The collectors' values; [Dropped] has one child. *)
Definition dropped_children w : list M := [counter (Dropped (w_metrics w))].

Definition SnapshotBasic (src : channel_source) w : list (string * Z) :=
  let published := readValue (M:=M) (counter (Published (w_metrics w))) in
  [("connections", readValue (M:=M) (gauge (Connections (w_metrics w)))); ("channels", channelCount src w);
   ("published", published); ("messages_published_total", published);
   ("dropped", readVecTotal (dropped_children w))].

(** The loop's iteration as [run] starts it: the snapshot is taken after the
    stats channel was created. *)
Definition stats_world w : World R B F :=
  set_store (GetOrCreate "_wirefan-stats" (w_reg w, w_heap w)).2 w.
Definition publish_stats (cfg : Config) (src : channel_source) (id : string) w : World R B F :=
  stats_tick cfg (SnapshotBasic src (stats_world w)) id w.

(** ** What a subscriber decodes *)

Definition int_member (k : string) (z : Z) : member := (k, (JNum (FormatInt z), FormatInt z)).

Definition snapshot_members (channels connections dropped published : Z) : list member :=
  [int_member "channels" channels; int_member "connections" connections; int_member "dropped" dropped;
   int_member "messages_published_total" published; int_member "published" published].

Definition stats_members (id : string) (data : list member) : list member :=
  let str k s : member := (k, (JStr s, quote true s)) in
  [str "channel" statsChannel; ("data", (JObj (values data), object true (written <$> data)));
   str "id" id; str "type" "event"].

Lemma stats_frame_read src w id :
  Valid id = true ->
  parse_top (stats_frame (SnapshotBasic src w) id)
  = Some (TObject (stats_members id (snapshot_members (channelCount src w) (Connections (w_metrics w))
      (Dropped (w_metrics w)) (Published (w_metrics w))))).
Proof using All.
  intros Hid. set (data := snapshot_members _ _ _ _).
  assert (stats_frame (SnapshotBasic src w) id = object true (written <$> stats_members id data)) as ->.
  { unfold stats_frame, SnapshotBasic, dropped_children.
    change [counter ?z] with (counter (M:=M) <$> [z]).
    rewrite readVecTotal_sum, !readValue_counter, readValue_gauge. cbn [foldr]. by rewrite Z.add_0_r. }
  apply object_read; [done|].
  repeat apply Forall_cons_2; [..|apply Forall_nil_2]; (split; [reflexivity|]);
    try (apply reads_quote; done).
  apply reads_object; [done|done|]. repeat apply Forall_cons_2; [..|apply Forall_nil_2];
    (split; [reflexivity|apply reads_int]).
Qed.

(** ** The numbers *)

(** The hub tracks as many conns as are open. *)
Lemma open_count w : world_ok w ->
  Hub.Len (w_hub w) = size (filter (fun p : conn_id * Conn B => closed p.2 = false) (w_conns w)).
Proof using Type.
  intros [_ _ Hh _]. unfold Hub.Len. rewrite <- !size_dom. f_equal. apply set_eq. intros i.
  rewrite !elem_of_dom. split.
  - intros [key (c & Hc & Hcl & _)%Hh]. exists c. by apply map_lookup_filter_Some.
  - intros [c [Hc Hcl]%map_lookup_filter_Some]. exists (apiKeyID c). apply Hh. eauto.
Qed.

Lemma stats_world_reg w : world_ok w ->
  reg_wf (w_reg (stats_world w)) /\ is_Some (reg_abs (w_reg (stats_world w)) !! statsChannel).
Proof using All.
  intros [[Hreg _ _ _ _ _] _ _ _]. unfold stats_world.
  destruct (GetOrCreate _ _) as [l [r h]] eqn:Hg. apply GetOrCreate_spec in Hg; [|done].
  destruct Hg as (Hreg' & Hl & _). split; [apply Hreg'|]. by exists l.
Qed.

(** C35. The stats channel tells the truth. In every reachable state, what the
    stats loop broadcasts decodes to an event whose connections are the number
    of open conns, whose channels are the names in the registry, the stats
    channel among them, and whose published and dropped are the counters. *)
Theorem stats_channel_is_true (cfg : Config) l cache f w id :
  rtc (world_step cfg) (world_init l cache f) w -> Valid id = true ->
  let open := filter (fun p : conn_id * Conn B => closed p.2 = false) (w_conns w) in
  let names := reg_abs (w_reg (stats_world w)) in
  publish_stats cfg run_source id w
  = hub_Broadcast cfg (GetOrCreate "_wirefan-stats" (w_reg w, w_heap w)).1
      (stats_frame (SnapshotBasic run_source (stats_world w)) id) (stats_world w)
  /\ parse_top (stats_frame (SnapshotBasic run_source (stats_world w)) id)
     = Some (TObject (stats_members id (snapshot_members (Z.of_nat (size names)) (Z.of_nat (size open))
         (Dropped (w_metrics w)) (Published (w_metrics w)))))
  /\ is_Some (names !! statsChannel).
Proof using All.
  intros Hr Hid open names. pose proof (world_reach _ _ _ _ _ Hr) as Hok.
  destruct (stats_world_reg w Hok) as [Hreg Hin]. split_and!.
  - unfold publish_stats, stats_tick, stats_world. by destruct (GetOrCreate _ _) as [ch s].
  - rewrite stats_frame_read by done. unfold channelCount, run_source, SetChannelSource.
    rewrite Len_abs by apply Hreg. rewrite (wo_count _ Hok : Connections (w_metrics (stats_world w)) = _).
    by rewrite open_count.
  - exact Hin.
Qed.
End Metrics.

(** One open conn, one published message, one channel and the stats channel. *)
Lemma stats_channel_is_true_witness :
  parse_top (stats_frame (SnapshotBasic dto_Metric (gset string) run_source (stats_world demo3)) "01HKQ8M9F7")
  = Some (TObject (stats_members "01HKQ8M9F7" (snapshot_members 2 1 0 1))).
Proof.
  destruct (stats_channel_is_true dto_Metric (gset string) demo_cfg demo_limiter (Some ∅) NewPerConn demo3 "01HKQ8M9F7")
    as (_ & -> & _); [|reflexivity|by vm_compute].
  eapply rtc_r; [exact demo2_reach|]. apply frame_step, demo2_open.
Defined.
