(* ===== verification/Loadtest.v ===== *)
(** * cmd/loadtest/main.go: the load generator

    What it sends and how it reads the server's frames, the plan of the
    connections, the goroutines of one connection as they count, and the verdict
    of a run.  Clocks and the network are labels. *)
From Stdlib Require Import SpecFloat.
From S2P Require Import Prelude GoStd GoBytes GoFmt Utf8 GoJson Frame Handler JsonFacts Wire WireData.
From stdpp Require Import sorting options.

(** ** Flags and the plan *)

(** [parseKeyPool]; [None] is [log.Fatal]. *)
Definition parseKeyPool (apiKeys apiKeyOne : string) : option (list string) :=
  let raw := if decide (apiKeys = "") then apiKeyOne else apiKeys in
  let pool := filter (fun k => k <> "") (TrimSpace <$> Split "," raw) in
  if decide (pool = []) then None else Some pool.

(** Bresenham's choice: does the [seq]-th conn of a group publish? *)
Definition selects (publishers : spec_float) (seq : Z) : bool :=
  (trunc (fmul (of_int seq) publishers) <? trunc (fmul (of_int (seq + 1)) publishers))%Z.

Record plan : Type := MkPlan {
  pl_channel : string;
  pl_url : string;
  pl_publisher : bool;
}.

(** The loop's body for conn [i]; [None] is a division by zero. *)
Definition plan_conn (addr : string) (pool : list string) (conns channels : Z)
    (publishers : spec_float) (i : Z) : option plan :=
  key ← pool !! Z.to_nat (i mod Z.of_nat (length pool));
  let seq :=
    if (Z.quot conns (Z.of_nat (length pool)) <? 2)%Z then i else (i / Z.of_nat (length pool))%Z in
  if decide (channels = 0%Z) then None else
  Some (MkPlan ("loadtest-" +:+ FormatInt (Z.rem i channels)) (addr +:+ "/v1/connect?key=" +:+ key)
    (selects publishers seq)).

(** The pause between two dials. *)
Definition perConnDelay (rampUp conns : Z) : Z := Z.max (Z.quot rampUp (conns + 1)) 1000.

(** ** Frames *)

(** [json.Marshal] of the two maps it sends. *)
Definition sub_frame (channel : string) : string :=
  encode_map true [("type", quote true "subscribe"); ("channel", quote true channel)].
Definition pub_frame (channel : string) (t : Z) : string :=
  encode_map true [("type", quote true "publish"); ("channel", quote true channel);
                   ("data", encode_map true [("t", FormatInt t)])].

(** [json.Unmarshal] into a struct, given what one member does to it. *)
Definition decode {A} (zero : A) (set : A -> member -> option A) (raw : string) : option A :=
  t ← parse_top raw;
  match t with
  | TObject ms => foldl (fun acc f => a ← acc; set a f) (Some zero) ms
  | TValue JNull => Some zero
  | TValue _ => None
  end.

Definition str_val (v : json) (old : string) : option string :=
  match v with JStr s => Some s | JNull => Some old | _ => None end.

Record ackMsg : Type := MkAck { ak_Type : string; ak_Code : string }.

Definition set_ack (a : ackMsg) (f : member) : option ackMsg :=
  let '(k, (v, _)) := f in
  if field_match "type" k then s ← str_val v (ak_Type a); Some (MkAck s (ak_Code a))
  else if field_match "code" k then s ← str_val v (ak_Code a); Some (MkAck (ak_Type a) s)
  else Some a.

(** What a frame is while waiting for the ack. *)
Inductive ack_kind : Type :=
  | AckKeep
  | AckOk
  | AckErr (code : string).

Definition ack_read (raw : string) : ack_kind :=
  match decode (MkAck "" "") set_ack raw with
  | None => AckKeep
  | Some a =>
      if decide (ak_Type a = "subscribed") then AckOk
      else if decide (ak_Type a = "error") then AckErr (ak_Code a) else AckKeep
  end.

Record readMsg : Type := MkRead {
  rm_Type : string;
  rm_Code : string;
  rm_Channel : string;
  rm_Data : string;
}.

Definition set_read_msg (m : readMsg) (f : member) : option readMsg :=
  let '(k, (v, raw)) := f in
  if field_match "type" k then
    s ← str_val v (rm_Type m); Some (MkRead s (rm_Code m) (rm_Channel m) (rm_Data m))
  else if field_match "code" k then
    s ← str_val v (rm_Code m); Some (MkRead (rm_Type m) s (rm_Channel m) (rm_Data m))
  else if field_match "channel" k then
    s ← str_val v (rm_Channel m); Some (MkRead (rm_Type m) (rm_Code m) s (rm_Data m))
  else if field_match "data" k then Some (MkRead (rm_Type m) (rm_Code m) (rm_Channel m) raw)
  else Some m.

(** The timestamp in the data: an int64. *)
Definition set_t (t : Z) (f : member) : option Z :=
  let '(k, (v, _)) := f in
  if field_match "t" k then
    match v with JNum text => ParseInt text | JNull => Some t | _ => None end
  else Some t.

Definition stamp (data : string) : option Z :=
  t ← decode 0%Z set_t data; if decide (0 < t)%Z then Some t else None.

(** What a frame is to the reader goroutine. *)
Inductive read_kind : Type :=
  | RSkip
  | RErr (code : string)
  | REvent (t : option Z).

Definition reader_frame (raw : string) : read_kind :=
  match decode (MkRead "" "" "" "") set_read_msg raw with
  | None => RSkip
  | Some m =>
      if decide (rm_Type m = "error") then RErr (rm_Code m)
      else if decide (rm_Type m = "event") then REvent (stamp (rm_Data m)) else RSkip
  end.

(** ** Counting *)

Record counters : Type := MkCounters {
  attempted : Z;
  connected : Z;
  dialFailed : Z;
  subFailed : Z;
  diedEarly : Z;
  sent : Z;
  recv : Z;
  errByCode : gmap string Z;
  dialErrKinds : gmap string Z;
  lats : list Z;             (* the samples collected *)
}.

Definition counters_zero : counters := MkCounters 0 0 0 0 0 0 0 ∅ ∅ [].

(** One atomic operation of a connection's goroutines on the shared tallies. *)
Inductive bump : Type :=
  | BAttempted
  | BConnected
  | BDialFailed
  | BSubFailed
  | BDied
  | BSent
  | BRecv
  | BErr (code : string)
  | BDialErr (err : string)
  | BSample (ns : Z).

Definition incr (k : string) (m : gmap string Z) : gmap string Z := <[k := (default 0 (m !! k) + 1)%Z]> m.

(** [countErr]. *)
Definition countErr (code : string) (c : counters) : counters :=
  MkCounters (attempted c) (connected c) (dialFailed c) (subFailed c) (diedEarly c) (sent c) (recv c)
    (incr code (errByCode c)) (dialErrKinds c) (lats c).

Definition first_line (msg : string) : string :=
  match Cut (ascii_of_N 10) msg with Some (l, _) => l | None => msg end.

(** [countDialErr]. *)
Definition countDialErr (err : string) (c : counters) : counters :=
  MkCounters (attempted c) (connected c) (dialFailed c) (subFailed c) (diedEarly c) (sent c) (recv c)
    (errByCode c) (incr (first_line err) (dialErrKinds c)) (lats c).

Definition count (b : bump) (c : counters) : counters :=
  let add (b' : bool) (z : Z) := if b' then (z + 1)%Z else z in
  match b with
  | BErr code => countErr code c
  | BDialErr err => countDialErr err c
  | BSample ns =>
      MkCounters (attempted c) (connected c) (dialFailed c) (subFailed c) (diedEarly c) (sent c)
        (recv c) (errByCode c) (dialErrKinds c) (lats c ++ [ns])
  | _ =>
      MkCounters (add (match b with BAttempted => true | _ => false end) (attempted c))
        (add (match b with BConnected => true | _ => false end) (connected c))
        (add (match b with BDialFailed => true | _ => false end) (dialFailed c))
        (add (match b with BSubFailed => true | _ => false end) (subFailed c))
        (add (match b with BDied => true | _ => false end) (diedEarly c))
        (add (match b with BSent => true | _ => false end) (sent c))
        (add (match b with BRecv => true | _ => false end) (recv c))
        (errByCode c) (dialErrKinds c) (lats c)
  end.

(** *** runConn *)

(** Where a connection's goroutines are; [PLive] has the reader and the
    publishing or waiting loop, each running or not.  [PGone] remembers whether
    the subscribe was acknowledged. *)
Inductive cpc : Type :=
  | PNew
  | PDial
  | PHello
  | PSub
  | PAck
  | PLive (reading looping : bool)
  | PGone (acked : bool).

#[export] Instance cpc_eq_dec : EqDecision cpc.
Proof. solve_decision. Defined.

(** What happens to it: the results of its calls, and which case of a select
    was taken.  [CTick]'s second argument is that [pubCtx] has not ended. *)
Inductive clabel : Type :=
  | CAttempt
  | CDial (err : option string)
  | CHello (ok : bool)
  | CSub (ok : bool)
  | CAck (raw : option string)
  | CFrame (raw : string) (now : Z) (kept : bool)
  | CReadEnd
  | CTick (ok up : bool)
  | CStop
  | CLost
  | CExit.

(** One step; [ctx] is that the run's context has not ended. *)
Definition conn_step (publisher ctx : bool) (l : clabel) (p : cpc) : option (cpc * list bump) :=
  match p, l with
  | PNew, CAttempt => Some (PDial, [BAttempted])
  | PDial, CDial None => Some (PHello, [])
  | PDial, CDial (Some err) => Some (PGone false, [BDialFailed; BDialErr err])
  | PHello, CHello true => Some (PSub, [])
  | PHello, CHello false | PSub, CSub false | PAck, CAck None => Some (PGone false, [BSubFailed])
  | PSub, CSub true => Some (PAck, [])
  | PAck, CAck (Some raw) =>
      match ack_read raw with
      | AckKeep => Some (PAck, [])
      | AckOk => Some (PLive true true, [BConnected])
      | AckErr code =>
          Some (PGone false, BSubFailed :: (if decide (code = "") then [] else [BErr code]))
      end
  | PLive true _, CFrame raw now kept =>
      match reader_frame raw with
      | RSkip => Some (p, [])
      | RErr code => Some (p, [BErr code])
      | REvent t =>
          Some (p, BRecv :: match t with
                            | Some t => if kept then [BSample (now - t)] else []
                            | None => []
                            end)
      end
  | PLive true m, CReadEnd => Some (PLive false m, [])
  | PLive r true, CTick ok up =>
      if publisher then
        if ok then Some (p, [BSent]) else Some (PLive r false, if up && ctx then [BDied] else [])
      else None
  | PLive r true, CStop => Some (PLive r false, [])
  | PLive false true, CLost =>
      if publisher then None else Some (PLive false false, if ctx then [BDied] else [])
  | PLive false false, CExit => Some (PGone true, [])
  | _, _ => None
  end.

(** *** All of them *)

Record lt : Type := MkLt {
  lt_pcs : list cpc;
  lt_ctx : bool;
  lt_ctrs : counters;
}.

Inductive label : Type :=
  | LConn (i : nat) (l : clabel)
  | LCancel.                   (* a signal, or the run's deadline *)

Section Run.
Context (publisher : nat -> bool).

Definition lt_step (l : label) (s : lt) : option lt :=
  match l with
  | LCancel => Some (MkLt (lt_pcs s) false (lt_ctrs s))
  | LConn i cl =>
      p ← lt_pcs s !! i;
      '(p', bs) ← conn_step (publisher i) (lt_ctx s) cl p;
      Some (MkLt (<[i := p']> (lt_pcs s)) (lt_ctx s) (foldl (flip count) (lt_ctrs s) bs))
  end.

Definition lt_start (conns : nat) : lt := MkLt (replicate conns PNew) true counters_zero.

Definition lt_run (tr : list label) (s : lt) : option lt := foldl (fun o l => s ← o; lt_step l s) (Some s) tr.

(** [wg.Wait] returned. *)
Definition finished (s : lt) : bool :=
  forallb (fun p => match p with PGone _ => true | _ => false end) (lt_pcs s).
End Run.

(** ** The report *)

Definition err_codes (c : counters) : list string := merge_sort String.le (map_to_list (errByCode c)).*1.

Definition errTotal (c : counters) : Z := foldr Z.add 0%Z ((fun code => default 0%Z (errByCode c !! code)) <$> err_codes c).

Definition err_line (c : counters) (code : string) : string :=
  "server errors [" +:+ code +:+ "]: " +:+ FormatInt (default 0%Z (errByCode c !! code)).
Definition errLines (c : counters) : list string := err_line c <$> err_codes c.

(** The percentiles' index, rounded and clamped, and the sample there. *)
Definition pct_index (n : Z) (q : spec_float) : Z :=
  let idx := trunc (fadd (fmul (of_int n) q) (fdiv (of_int 1) (of_int 2))) in
  let idx := if decide (n <= idx)%Z then (n - 1)%Z else idx in
  if decide (idx < 0)%Z then 0%Z else idx.

Definition percentile (lats : list Z) (q : spec_float) : option Z :=
  merge_sort Z.le lats !! Z.to_nat (pct_index (Z.of_nat (length lats)) q).

(** The exit code. *)
Definition verdict (publishers : spec_float) (c : counters) : nat :=
  if decide (connected c = 0)%Z then 2
  else if decide (0 < dialFailed c \/ 0 < subFailed c)%Z then 3
  else if decide (0 < diedEarly c)%Z then 7
  else if SFltb (S754_zero false) publishers && bool_decide (sent c = 0)%Z then 4
  else if decide (0 < errTotal c)%Z then 5
  else if decide (recv c = 0)%Z then 6
  else 0.

(** ** What the two sides make of each other's frames *)

(** Comparing concrete keys. *)
Ltac keys :=
  repeat match goal with
  | |- context [field_match ?a ?b] =>
      let v := eval vm_compute in (field_match a b) in change (field_match a b) with v
  end; cbv iota.

Definition str_member (html : bool) (k s : string) : member := (k, (JStr s, quote html s)).

Lemma str_readable d html k s : Valid k = true -> Valid s = true -> readable d (str_member html k s).
Proof. split; [done|]. by apply reads_quote. Qed.

(** The text of a published timestamp. *)
Definition t_members (t : Z) : list member := [("t", (JNum (FormatInt t), FormatInt t))].
Definition t_text (t : Z) : string := object true (written <$> t_members t).

Lemma t_readable d t : Forall (readable d) (t_members t).
Proof. apply Forall_singleton. split; [done|apply reads_int]. Qed.

Lemma t_text_read d t : (0 < d)%N -> reads d (t_text t) (JObj (values (t_members t))).
Proof. intros Hd. apply reads_object; [done|done|apply t_readable]. Qed.

Lemma t_text_compact t : compact false false (t_text t) = t_text t.
Proof.
  pose proof (scan_FormatInt t "" eq_refl) as Hs. apply scan_number_piece in Hs as [_ Hb _].
  destruct (compact_bare _ Hb) as [Hc Hcl].
  change (t_text t) with (String (chr 123) (quote true "t" +:+ String (chr 58) "") +:+ FormatInt t +:+ String (chr 125) "").
  rewrite compact_closed by reflexivity. f_equal. rewrite compact_closed by done. by rewrite Hc.
Qed.

Lemma stamp_read t : (0 < t)%Z -> int64_ok t -> stamp (t_text t) = Some t.
Proof.
  intros Ht Hi. unfold stamp, decode, t_text. rewrite object_read by (done || apply t_readable).
  cbn [mbind option_bind t_members foldl set_t]. keys.
  rewrite ParseInt_FormatInt by done. cbn [mbind option_bind]. by rewrite decide_True.
Qed.

Definition event_members_of (channel id : string) (t : Z) : list member :=
  [str_member false "channel" channel; ("data", (JObj (values (t_members t)), t_text t));
   str_member false "id" id; str_member false "type" "event"].

Lemma event_read channel id t :
  Valid channel = true -> Valid id = true ->
  parse_top (event_frame channel (Some (t_text t)) id) = Some (TObject (event_members_of channel id t)).
Proof.
  intros Hc Hi. assert (event_frame channel (Some (t_text t)) id
    = object false (written <$> event_members_of channel id t)) as ->.
  { unfold event_frame. cbn [encode_raw]. by rewrite t_text_compact. }
  apply object_read; [done|]. unfold event_members_of.
  repeat apply Forall_cons_2; [by apply str_readable|split; [done|by apply t_text_read]|
    by apply str_readable|by apply str_readable|apply Forall_nil_2].
Qed.

Definition op_member (k v : string) : list member := if decide (v = "") then [] else [str_member false k v].

Definition error_members (f : errorFrame) : list member :=
  [str_member false "type" (ef_Type f); str_member false "code" (ef_Code f);
   str_member false "message" (ef_Message f)]
  ++ op_member "op" (ef_Op f) ++ op_member "channel" (ef_Channel f).

(** Every text of the frame is valid UTF-8. *)
Definition valid_error (f : errorFrame) : bool :=
  forallb Valid [ef_Type f; ef_Code f; ef_Message f; ef_Op f; ef_Channel f].

Lemma op_member_ok d k v :
  Valid k = true -> Valid v = true -> Forall (readable d) (op_member k v)
  /\ written <$> op_member k v = omitempty k v.
Proof.
  intros Hk Hv. unfold op_member, omitempty. case_decide; [by split|]. split; [|done].
  apply Forall_singleton. by apply str_readable.
Qed.

Lemma error_read f :
  valid_error f = true -> parse_top (error_frame f) = Some (TObject (error_members f)).
Proof.
  unfold valid_error. cbn [forallb]. intros Hv. repeat apply andb_true_iff in Hv as [? Hv].
  destruct (op_member_ok (N.pred maxNestingDepth) "op" (ef_Op f)) as [Ho Hwo]; [done..|].
  destruct (op_member_ok (N.pred maxNestingDepth) "channel" (ef_Channel f)) as [Hc Hwc]; [done..|].
  assert (error_frame f = object false (written <$> error_members f)) as ->.
  { unfold error_frame, error_members. by rewrite !fmap_app, Hwo, Hwc. }
  apply object_read; [done|]. unfold error_members. apply Forall_app. split; [|by apply Forall_app].
  repeat apply Forall_cons_2; [..|apply Forall_nil_2]; by apply str_readable.
Qed.

(** Members the decoders skip. *)
Lemma set_ack_op a k v : field_match "type" k = false -> field_match "code" k = false ->
  foldl (fun acc f => a ← acc; set_ack a f) (Some a) (op_member k v) = Some a.
Proof. intros Ht Hc. unfold op_member. case_decide; [done|]. cbn. by rewrite Ht, Hc. Qed.

Lemma ack_error f :
  valid_error f = true -> ef_Type f = "error" -> ack_read (error_frame f) = AckErr (ef_Code f).
Proof.
  intros Hv Ht. unfold ack_read, decode. rewrite error_read by done. cbn [mbind option_bind].
  unfold error_members. rewrite !foldl_app. cbn [foldl mbind option_bind set_ack str_member]. keys.
  cbn [str_val mbind option_bind ak_Type ak_Code]. rewrite !set_ack_op by reflexivity. cbn [ak_Type ak_Code].
  by rewrite Ht.
Qed.

Lemma reader_error f :
  valid_error f = true -> ef_Type f = "error" -> reader_frame (error_frame f) = RErr (ef_Code f).
Proof.
  intros Hv Ht. unfold reader_frame, decode. rewrite error_read by done. cbn [mbind option_bind].
  unfold error_members, op_member. rewrite !foldl_app.
  destruct (decide (ef_Op f = "")), (decide (ef_Channel f = ""));
    cbn [foldl mbind option_bind set_read_msg str_member]; keys;
    cbn [str_val mbind option_bind rm_Type rm_Code rm_Channel rm_Data]; by rewrite Ht.
Qed.

(** The server reads the subscribe and publish frames as what was meant. *)
Lemma sub_frame_read channel :
  Valid channel = true -> unmarshal (sub_frame channel) = Some (MkIncoming "subscribe" channel "" None).
Proof.
  intros Hc. unfold unmarshal. change (sub_frame channel)
    with (object true (written <$> [str_member true "channel" channel; str_member true "type" "subscribe"])).
  rewrite object_read; [|done|by repeat apply Forall_cons_2; try apply str_readable].
  cbn [mbind option_bind foldl set_field str_member]. by keys.
Qed.

Lemma pub_frame_read channel t :
  Valid channel = true -> unmarshal (pub_frame channel t) = Some (MkIncoming "publish" channel "" (Some (t_text t))).
Proof.
  intros Hc. unfold unmarshal. change (pub_frame channel t)
    with (object true (written <$> [str_member true "channel" channel;
      ("data", (JObj (values (t_members t)), t_text t)); str_member true "type" "publish"])).
  rewrite object_read; [|done|repeat apply Forall_cons_2; try (by apply str_readable);
    [split; [done|by apply t_text_read]|apply Forall_nil_2]].
  cbn [mbind option_bind foldl set_field str_member]. by keys.
Qed.

(** The ack is taken for the ack; the event of a publish for an event with the
    timestamp sent, and not for an ack. *)
Lemma ack_frame_read channel : Valid channel = true -> ack_read (ack_frame "subscribed" channel) = AckOk.
Proof.
  intros Hc. unfold ack_read, decode. change (ack_frame "subscribed" channel)
    with (object false (written <$> [str_member false "channel" channel; str_member false "type" "subscribed"])).
  rewrite object_read; [|done|by repeat apply Forall_cons_2; try apply str_readable].
  cbn [mbind option_bind foldl set_ack str_member]. by keys.
Qed.

Lemma event_is_read channel id t :
  Valid channel = true -> Valid id = true -> (0 < t)%Z -> int64_ok t ->
  reader_frame (event_frame channel (Some (t_text t)) id) = REvent (Some t).
Proof.
  intros Hc Hi Ht Hti. unfold reader_frame, decode. rewrite event_read by done. unfold event_members_of.
  cbn [mbind option_bind foldl set_read_msg str_member]. keys.
  cbn [str_val mbind option_bind rm_Type rm_Code rm_Channel rm_Data]. by rewrite stamp_read.
Qed.

Lemma event_is_no_ack channel id t :
  Valid channel = true -> Valid id = true -> ack_read (event_frame channel (Some (t_text t)) id) = AckKeep.
Proof.
  intros Hc Hi. unfold ack_read, decode. rewrite event_read by done. unfold event_members_of.
  cbn [mbind option_bind foldl set_ack str_member]. by keys.
Qed.

(** The load generator speaks the protocol: the frames of both sides are read as
    what was meant. *)
Theorem loadtest_speaks channel id t f :
  Valid channel = true -> Valid id = true -> (0 < t)%Z -> int64_ok t ->
  valid_error f = true -> ef_Type f = "error" ->
  unmarshal (sub_frame channel) = Some (MkIncoming "subscribe" channel "" None)
  /\ ack_read (ack_frame "subscribed" channel) = AckOk
  /\ (exists d, unmarshal (pub_frame channel t) = Some (MkIncoming "publish" channel "" (Some d))
      /\ reader_frame (event_frame channel (Some d) id) = REvent (Some t)
      /\ ack_read (event_frame channel (Some d) id) = AckKeep)
  /\ ack_read (error_frame f) = AckErr (ef_Code f) /\ reader_frame (error_frame f) = RErr (ef_Code f).
Proof.
  intros. split_and!; [by apply sub_frame_read|by apply ack_frame_read| |by apply ack_error|by apply reader_error].
  exists (t_text t). split_and!; [by apply pub_frame_read|by apply event_is_read|by apply event_is_no_ack].
Qed.

(** ** What the tallies say *)

Local Open Scope Z_scope.

(** How many of a list are as [f] says. *)
Definition number {A} (f : A -> bool) (l : list A) : Z := foldr (fun p n => (if f p then 1 else 0) + n) 0 l.

Lemma number_cons {A} (f : A -> bool) p l : number f (p :: l) = (if f p then 1 else 0) + number f l.
Proof. done. Qed.

Lemma number_insert {A} (f : A -> bool) pcs i p q :
  pcs !! i = Some p ->
  number f (<[i := q]> pcs) = number f pcs + ((if f q then 1 else 0) - (if f p then 1 else 0)).
Proof.
  revert i. induction pcs as [|r pcs IH]; intros [|i] Hi; try done.
  - cbn in Hi. simplify_eq. change (<[0%nat := q]> (p :: pcs)) with (q :: pcs). rewrite !number_cons. lia.
  - change (<[S i := q]> (r :: pcs)) with (r :: <[i := q]> pcs). rewrite !number_cons, (IH i) by done. lia.
Qed.

Lemma number_nonneg {A} (f : A -> bool) l : 0 <= number f l.
Proof. induction l as [|p l IH]; [done|]. rewrite number_cons. destruct (f p); lia. Qed.

Lemma number_app {A} (f : A -> bool) l k : number f (l ++ k) = number f l + number f k.
Proof. induction l as [|p l IH]; [done|]. change ((p :: l) ++ k) with (p :: (l ++ k)). rewrite !number_cons. lia. Qed.

Lemma number_none {A} (f : A -> bool) l : number f l = 0 <-> Forall (fun p => f p = false) l.
Proof.
  induction l as [|p l IH]; [by split|]. rewrite number_cons, Forall_cons, <- IH.
  pose proof (number_nonneg f l). destruct (f p); split; intros Hn; try lia; try by destruct Hn.
Qed.

Lemma number_some {A} (f : A -> bool) l : 0 < number f l <-> exists p, p ∈ l /\ f p = true.
Proof.
  induction l as [|p l IH]; [split; [done|intros (? & ?%not_elem_of_nil & _); done]|].
  rewrite number_cons. pose proof (number_nonneg f l). split.
  - intros Hn. destruct (f p) eqn:Hp; [exists p; split; [left|done]|].
    destruct IH as [IH _]. destruct IH as (q & ? & ?); [lia|]. exists q. split; [by right|done].
  - intros (q & [->|Hq]%elem_of_cons & Hf); [rewrite Hf; lia|]. destruct IH as [_ IH].
    assert (0 < number f l) by eauto. destruct (f p); lia.
Qed.

Definition started (p : cpc) : bool := negb (bool_decide (p = PNew)).
Definition is_acked (p : cpc) : bool := match p with PLive _ _ | PGone true => true | _ => false end.
Definition gave_up (p : cpc) : bool := match p with PGone false => true | _ => false end.

(** What a label means. *)
Definition acks (l : label) (i : nat) : Prop := exists raw, l = LConn i (CAck (Some raw)) /\ ack_read raw = AckOk.
Definition death (l : label) : bool :=
  match l with LConn _ (CTick false true) | LConn _ CLost => true | _ => false end.
Definition receives (l : label) : bool :=
  match l with
  | LConn _ (CFrame raw _ _) => match reader_frame raw with REvent _ => true | _ => false end
  | _ => false
  end.
Definition sends (l : label) : bool := match l with LConn _ (CTick true _) => true | _ => false end.
Definition error_code (l : label) : option string :=
  match l with
  | LConn _ (CFrame raw _ _) => match reader_frame raw with RErr code => Some code | _ => None end
  | LConn _ (CAck (Some raw)) =>
      match ack_read raw with
      | AckErr code => if decide (code = "") then None else Some code
      | _ => None
      end
  | _ => None
  end.

(** A connection died before the run was over. *)
Definition died (tr : list label) : Prop :=
  exists tr1 l tr2, tr = tr1 ++ l :: tr2 /\ death l = true /\ LCancel ∉ tr1.

(** The frames with each error code. *)
Definition errors_of (tr : list label) (code : string) : Z :=
  number (fun l => bool_decide (error_code l = Some code)) tr.

Record told (conns : nat) (tr : list label) (s : lt) : Prop := {
  td_conns : length (lt_pcs s) = conns;
  td_attempted : attempted (lt_ctrs s) = number started (lt_pcs s);
  td_connected : connected (lt_ctrs s) = number is_acked (lt_pcs s);
  td_failed : 0 <= dialFailed (lt_ctrs s) /\ 0 <= subFailed (lt_ctrs s)
    /\ dialFailed (lt_ctrs s) + subFailed (lt_ctrs s) = number gave_up (lt_pcs s);
  td_acked i p : lt_pcs s !! i = Some p -> is_acked p = true <-> Exists (fun l => acks l i) tr;
  td_ctx : lt_ctx s = true <-> LCancel ∉ tr;
  td_died : 0 <= diedEarly (lt_ctrs s) /\ (0 < diedEarly (lt_ctrs s) <-> died tr);
  td_sent : sent (lt_ctrs s) = number sends tr;
  td_recv : recv (lt_ctrs s) = number receives tr;
  td_errs code : default 0 (errByCode (lt_ctrs s) !! code) = errors_of tr code;
}.

(** *** One step *)

Definition is_attempted (b : bump) : bool := match b with BAttempted => true | _ => false end.
Definition is_connected (b : bump) : bool := match b with BConnected => true | _ => false end.
Definition is_dialFailed (b : bump) : bool := match b with BDialFailed => true | _ => false end.
Definition is_subFailed (b : bump) : bool := match b with BSubFailed => true | _ => false end.
Definition is_died (b : bump) : bool := match b with BDied => true | _ => false end.
Definition is_sent (b : bump) : bool := match b with BSent => true | _ => false end.
Definition is_recv (b : bump) : bool := match b with BRecv => true | _ => false end.
Definition is_err (code : string) (b : bump) : bool :=
  match b with BErr c => bool_decide (Some c = Some code) | _ => false end.

(** The shared tallies add up what the goroutines did. *)
Lemma count_all bs c :
  let c' := foldl (flip count) c bs in
  attempted c' = attempted c + number is_attempted bs
  /\ connected c' = connected c + number is_connected bs
  /\ dialFailed c' = dialFailed c + number is_dialFailed bs
  /\ subFailed c' = subFailed c + number is_subFailed bs
  /\ diedEarly c' = diedEarly c + number is_died bs
  /\ sent c' = sent c + number is_sent bs
  /\ recv c' = recv c + number is_recv bs
  /\ forall code, default 0 (errByCode c' !! code) = default 0 (errByCode c !! code) + number (is_err code) bs.
Proof.
  revert c. induction bs as [|b bs IH]; intros c; cbn [foldl flip].
  { split_and!; intros; cbn; lia. }
  specialize (IH (count b c)) as (-> & -> & -> & -> & -> & -> & -> & He).
  split_and!; try (by destruct b; cbn; unfold number; lia). intros code. rewrite He. cbn.
  destruct b as [| | | | | | |code'|err|ns]; cbn; unfold number; try lia. unfold incr.
  rewrite lookup_insert. case_decide as Hc; [subst|]; case_bool_decide; simplify_eq; cbn; lia.
Qed.

Definition unit_z (b : bool) : Z := if b then 1 else 0.

Definition is_ack (l : clabel) : bool :=
  match l with CAck (Some raw) => match ack_read raw with AckOk => true | _ => false end | _ => false end.

(** What one step of a connection adds. *)
Lemma conn_step_adds i pub ctx l p p' bs :
  conn_step pub ctx l p = Some (p', bs) ->
  number is_attempted bs = unit_z (started p') - unit_z (started p)
  /\ number is_connected bs = unit_z (is_acked p') - unit_z (is_acked p)
  /\ number is_dialFailed bs + number is_subFailed bs = unit_z (gave_up p') - unit_z (gave_up p)
  /\ is_acked p' = is_acked p || is_ack l
  /\ number is_died bs = unit_z (death (LConn i l) && ctx)
  /\ number is_sent bs = unit_z (sends (LConn i l))
  /\ number is_recv bs = unit_z (receives (LConn i l))
  /\ forall code, number (is_err code) bs = unit_z (bool_decide (error_code (LConn i l) = Some code)).
Proof.
  destruct p as [| | | | |[] []|a], l as [|[err|]|[]|[]|[raw|]|raw now kept| |[] []| | |]; cbn; intros Hs;
    try discriminate Hs; repeat (case_match; try discriminate Hs; cbn in Hs); simplify_eq; cbn.
  all: split_and!; try done; intros code'; by destruct (bool_decide (Some code = Some code')).
Qed.

(** *** All steps *)

Lemma died_snoc tr l : died (tr ++ [l]) <-> died tr \/ death l = true /\ LCancel ∉ tr.
Proof.
  split.
  - intros (t1 & d & t2 & Ht & Hd & Hn). destruct t2 as [|x t2 _] using rev_ind.
    + apply app_inj_tail in Ht as [-> ->]. by right.
    + rewrite app_comm_cons, app_assoc in Ht. apply app_inj_tail in Ht as [-> _]. left. by exists t1, d, t2.
  - intros [(t1 & d & t2 & -> & ?)|[Hd Hn]]; [|by exists tr, l, []].
    exists t1, d, (t2 ++ [l]). split; [|done]. by rewrite <- app_assoc.
Qed.

Lemma acks_conn i j l : acks (LConn i l) j <-> j = i /\ is_ack l = true.
Proof.
  unfold acks, is_ack. split.
  - intros (raw & [= -> ->] & ->). done.
  - intros [-> Hl]. destruct l as [| | | |[raw|]| | | | | |]; try done. exists raw.
    by destruct (ack_read raw).
Qed.

Lemma Exists_snoc {A} (P : A -> Prop) l x : Exists P (l ++ [x]) <-> Exists P l \/ P x.
Proof. by rewrite Exists_app, Exists_cons, Exists_nil, (right_id False or). Qed.

Lemma number_snoc {A} (f : A -> bool) l x : number f (l ++ [x]) = number f l + unit_z (f x).
Proof. rewrite number_app. f_equal. cbn. by destruct (f x). Qed.

Lemma told_start conns : told conns [] (lt_start conns).
Proof.
  assert (forall f : cpc -> bool, f PNew = false -> number f (replicate conns PNew) = 0) as Hn.
  { intros f Hf. induction conns as [|n IH]; [done|]. cbn [replicate]. by rewrite number_cons, Hf, IH. }
  split; cbn [lt_start lt_pcs lt_ctx lt_ctrs counters_zero attempted connected dialFailed subFailed diedEarly];
    rewrite ?length_replicate, ?Hn by done; try done.
  - intros i p [-> _]%lookup_replicate. by rewrite Exists_nil.
  - split; [|done]. intros _. apply not_elem_of_nil.
  - split; [done|]. split; [done|]. intros (t1 & d & t2 & Ht & _). by destruct t1.
Qed.

Section Told.
Context (publisher : nat -> bool).

Lemma told_step conns tr l s s' :
  told conns tr s -> lt_step publisher l s = Some s' -> told conns (tr ++ [l]) s'.
Proof.
  intros [Hl Ha Hc (Hf1 & Hf2 & Hf) Hk Hx [Hd0 Hd] Hs Hr He]. destruct l as [i cl|]; cbn [lt_step].
  2: { intros [= <-].
    split; cbn [lt_pcs lt_ctx lt_ctrs]; unfold errors_of; try (done || intros; rewrite number_snoc; cbn; rewrite ?Z.add_0_r; done).
    - intros i p Hp. rewrite (Hk i p Hp), Exists_snoc. split; [by left|].
      by intros [?|(raw & ? & _)].
    - split; [done|]. intros []. apply elem_of_app. right. by left.
    - rewrite died_snoc. split; [done|]. rewrite Hd. split; [by left|]. by intros [|[? _]]. }
  destruct (lt_pcs s !! i) as [p|] eqn:Hp; [|done]. cbn [mbind option_bind].
  destruct (conn_step _ _ _ _) as [[p' bs]|] eqn:Hst; [|done]. cbn. intros [= <-].
  destruct (conn_step_adds i _ _ _ _ _ _ Hst) as (Aa & Ac & Af & Ak & Ad & As & Ar & Ae).
  destruct (count_all bs (lt_ctrs s)) as (Ca & Cc & Cd & Cs & Cx & Ct & Cr & Ce).
  pose proof (number_nonneg is_dialFailed bs). pose proof (number_nonneg is_subFailed bs).
  split; cbn [lt_pcs lt_ctx lt_ctrs].
  - by rewrite length_insert.
  - rewrite Ca, Aa, Ha. by rewrite (number_insert _ _ _ _ _ Hp).
  - rewrite Cc, Ac, Hc. by rewrite (number_insert _ _ _ _ _ Hp).
  - rewrite (number_insert _ _ _ _ _ Hp). rewrite Cd, Cs. fold (unit_z (gave_up p)) (unit_z (gave_up p')). lia.
  - intros j q Hq. rewrite Exists_snoc, acks_conn. apply list_lookup_insert_Some in Hq.
    destruct Hq as [(<- & <- & _)|[Hne Hq]].
    + rewrite Ak, orb_true_iff, (Hk i p Hp). intuition.
    + rewrite (Hk j q Hq). intuition congruence.
  - rewrite Hx. rewrite not_elem_of_app. split; [|tauto]. intros Hn. split; [done|]. by intros ?%list_elem_of_singleton.
  - rewrite died_snoc, Cx, Ad, <- Hd, <- Hx. destruct (death _), (lt_ctx s); cbn; intuition lia.
  - by rewrite Ct, As, Hs, number_snoc.
  - by rewrite Cr, Ar, Hr, number_snoc.
  - intros code. rewrite Ce, Ae, He. unfold errors_of. by rewrite number_snoc.
Qed.

Lemma told_run conns tr s : lt_run publisher tr (lt_start conns) = Some s -> told conns tr s.
Proof.
  revert s. induction tr as [|l tr IH] using rev_ind; intros s.
  { intros [= <-]. apply told_start. }
  unfold lt_run. rewrite foldl_app. cbn. fold (lt_run publisher tr (lt_start conns)).
  destruct (lt_run _ _ _) as [s0|]; [|done]. cbn. by apply told_step, IH.
Qed.
End Told.

(** *** The verdict *)

Lemma sum_pos (l : list Z) : Forall (fun z => 0 <= z) l -> 0 <= foldr Z.add 0 l /\ (0 < foldr Z.add 0 l <-> Exists (fun z => 0 < z) l).
Proof.
  induction 1 as [|z l Hz _ [IH0 IH]]; cbn; [by rewrite Exists_nil|]. rewrite Exists_cons, <- IH. lia.
Qed.

Lemma errTotal_pos c :
  (forall code, 0 <= default 0 (errByCode c !! code)) ->
  0 < errTotal c <-> exists code, 0 < default 0 (errByCode c !! code).
Proof.
  intros Hn. unfold errTotal. destruct (sum_pos ((fun code => default 0 (errByCode c !! code)) <$> err_codes c)) as [_ ->].
  { apply Forall_fmap, Forall_true. intros code. apply Hn. }
  rewrite Exists_fmap, Exists_exists. split; [intros (code & _ & Hc); by exists code|].
  intros [code Hc]. exists code. split; [|done]. unfold err_codes. rewrite merge_sort_Permutation.
  cbn in Hc. destruct (errByCode c !! code) as [z|] eqn:Hz; [|done].
  apply list_elem_of_fmap. exists (code, z). split; [done|]. by apply elem_of_map_to_list.
Qed.

(** A clean run: every connection was acknowledged and none died before the end,
    no error frame came, events came, and if anyone was to publish, someone did. *)
Record clean (publishers : spec_float) (conns : nat) (tr : list label) : Prop := {
  cl_some : (0 < conns)%nat;
  cl_acked i : (i < conns)%nat -> Exists (fun l => acks l i) tr;
  cl_alive : ~ died tr;
  cl_sent : SFltb (S754_zero false) publishers = true -> exists l, l ∈ tr /\ sends l = true;
  cl_errors l : l ∈ tr -> error_code l = None;
  cl_recv : exists l, l ∈ tr /\ receives l = true;
}.

Lemma finished_pc s i p : finished s = true -> lt_pcs s !! i = Some p -> exists a, p = PGone a.
Proof.
  unfold finished. rewrite forallb_forall. intros Hf Hp. specialize (Hf p).
  destruct p as [| | | | | |a]; try (by discriminate Hf; apply list_elem_of_In, list_elem_of_lookup; eauto). by exists a.
Qed.

Section Verdict.
Context (publisher : nat -> bool) (publishers : spec_float).

Lemma finished_counts conns tr s :
  told conns tr s -> finished s = true ->
  attempted (lt_ctrs s) = Z.of_nat conns
  /\ connected (lt_ctrs s) + dialFailed (lt_ctrs s) + subFailed (lt_ctrs s) = Z.of_nat conns.
Proof.
  intros [Hl Ha Hc (_ & _ & Hf) _ _ _ _ _ _] Hfin. unfold finished in Hfin.
  rewrite Ha. rewrite <- Z.add_assoc, Hf, Hc. rewrite <- Hl. clear -Hfin.
  induction (lt_pcs s) as [|p pcs IH]; [done|]. cbn [forallb] in Hfin. apply andb_true_iff in Hfin as [Hp Hfin].
  destruct (IH Hfin) as [IH1 IH2]. rewrite !number_cons. cbn [length].
  destruct p as [| | | | | |[]]; try done; cbn [is_acked gave_up];
    change (started (PGone _)) with true; cbv iota; lia.
Qed.

(** Nobody gave up exactly when everybody was acknowledged. *)
Lemma all_acked conns tr s :
  told conns tr s -> finished s = true ->
  dialFailed (lt_ctrs s) + subFailed (lt_ctrs s) = 0
  <-> forall i, (i < conns)%nat -> Exists (fun l => acks l i) tr.
Proof.
  intros [Hl _ _ (_ & _ & Hf) Hk _ _ _ _ _] Hfin. rewrite Hf, number_none, Forall_lookup. split.
  - intros Hn i Hi. rewrite <- Hl in Hi. apply lookup_lt_is_Some in Hi as [p Hp].
    apply (Hk _ _ Hp). destruct (finished_pc _ _ _ Hfin Hp) as [a ->]. specialize (Hn _ _ Hp). by destruct a.
  - intros Ha i p Hp. destruct (finished_pc _ _ _ Hfin Hp) as [a ->].
    assert (is_acked (PGone a) = true) as Hx; [|by destruct a].
    apply (Hk _ _ Hp), Ha. rewrite <- Hl. by eapply lookup_lt_Some.
Qed.

Lemma no_errors conns tr s :
  told conns tr s -> ~ 0 < errTotal (lt_ctrs s) <-> forall l, l ∈ tr -> error_code l = None.
Proof.
  intros [_ _ _ _ _ _ _ _ _ He]. rewrite errTotal_pos by (intros code; rewrite He; apply number_nonneg). split.
  - intros Hn l Hl. destruct (error_code l) as [code|] eqn:Hc; [|done]. destruct Hn. exists code.
    rewrite He. apply number_some. exists l. split; [done|]. by apply bool_decide_eq_true_2.
  - intros Hn [code Hc]. rewrite He in Hc. apply number_some in Hc as (l & Hl & Hc%bool_decide_eq_true_1).
    by rewrite Hn in Hc.
Qed.

(** C36. The load generator's verdict is honest. When every connection of a run
    has ended, the attempts are the connections and each was either established
    or counted as failed; and the exit code is 0 exactly when there were
    connections, all were acknowledged, none was seen to die before the run was
    over, no error frame came, events came, and somebody sent if anybody was to
    publish. *)
Theorem verdict_is_honest conns tr s :
  lt_run publisher tr (lt_start conns) = Some s -> finished s = true ->
  attempted (lt_ctrs s) = Z.of_nat conns
  /\ connected (lt_ctrs s) + dialFailed (lt_ctrs s) + subFailed (lt_ctrs s) = Z.of_nat conns
  /\ (verdict publishers (lt_ctrs s) = 0%nat <-> clean publishers conns tr).
Proof using Type.
  intros Hr Hfin. pose proof (told_run publisher _ _ _ Hr) as Ht.
  pose proof (finished_counts _ _ _ Ht Hfin) as [Hatt Hsum]. split_and!; [done..|].
  pose proof (all_acked _ _ _ Ht Hfin) as Hall. pose proof (no_errors _ _ _ Ht) as Herr.
  destruct Ht as [_ _ _ (Hd0 & Hs0 & _) _ _ [Hx0 Hx] Hs Hv _].
  pose proof (number_some sends tr) as Hsend. rewrite <- Hs in Hsend.
  pose proof (number_some receives tr) as Hrecv. rewrite <- Hv in Hrecv.
  pose proof (number_nonneg receives tr) as Hrn. rewrite <- Hv in Hrn.
  pose proof (number_nonneg sends tr) as Hsn. rewrite <- Hs in Hsn.
  unfold verdict. split.
  - repeat (case_decide; [done|]). destruct (SFltb _ _ && _) eqn:Hp; [done|].
    apply andb_false_iff in Hp. rewrite bool_decide_eq_false in Hp.
    case_decide as H5; [done|]. case_decide as H6; [done|]. intros _. split.
    + lia.
    + apply Hall. lia.
    + rewrite <- Hx. lia.
    + intros Hpub. destruct Hp as [Hp|Hp]; [by rewrite Hpub in Hp|]. apply Hsend. lia.
    + by apply (proj1 Herr).
    + apply Hrecv. lia.
  - intros [Hn Ha Hal Hse He Hre]. apply Hall in Ha. apply Herr in He. apply Hrecv in Hre. rewrite <- Hx in Hal.
    rewrite !decide_False by lia. destruct (SFltb _ _); [|done].
    specialize (Hse eq_refl). apply Hsend in Hse. by rewrite bool_decide_eq_false_2 by lia.
Qed.
End Verdict.

(** *** Percentiles *)

(** A percentile of some samples is one of them: the index never leaves them,
    whatever the float arithmetic gives. *)
Lemma percentile_sample l q : l <> [] -> exists x, percentile l q = Some x /\ x ∈ l.
Proof.
  intros Hl. unfold percentile. set (n := Z.of_nat (length l)).
  assert (0 <= pct_index n q < n) as Hi.
  { unfold pct_index. assert (0 < n) by (destruct l; cbn in *; [done|lia]). repeat case_decide; lia. }
  destruct (lookup_lt_is_Some_2 (merge_sort Z.le l) (Z.to_nat (pct_index n q))) as [x Hx].
  { rewrite merge_sort_Permutation. lia. }
  exists x. split; [done|]. rewrite <- (merge_sort_Permutation Z.le l). by eapply list_elem_of_lookup_2.
Qed.

(** *** Examples *)

Definition float_half : spec_float := fdiv (of_int 1) (of_int 2).

(** The publishers among the first conns of a group, and the percentiles. *)
Example plan_examples :
  length (filter (fun i => selects float_half i = true) (seqZ 0 100)) = 50%nat
  /\ length (filter (fun i => selects (fdiv (of_int 3) (of_int 10)) i = true) (seqZ 0 1000)) = 300%nat
  /\ (pct_index 100) <$> [float_half; fdiv (of_int 99) (of_int 100); fdiv (of_int 999) (of_int 1000)]
     = [50; 99; 99]
  /\ plan_conn "ws://h" ["a"; "b"] 4 3 float_half 3
     = Some (MkPlan "loadtest-0" "ws://h/v1/connect?key=b" true).
Proof. by vm_compute. Qed.

(** Two connections, the first of which publishes.  The run is cut short by a
    signal after one message. *)
Definition demo_run : list label :=
  let both l := [LConn 0 l; LConn 1 l] in
  both CAttempt ++ both (CDial None) ++ both (CHello true) ++ both (CSub true)
  ++ both (CAck (Some (ack_frame "subscribed" "loadtest-0")))
  ++ [LConn 0 (CTick true true)]
  ++ both (CFrame (event_frame "loadtest-0" (Some (t_text 5)) "01") 9 true)
  ++ [LCancel] ++ both CStop ++ both CReadEnd ++ both CExit.

Definition demo_end : lt := default (lt_start 0) (lt_run Nat.even demo_run (lt_start 2)).

Lemma verdict_is_honest_witness :
  attempted (lt_ctrs demo_end) = 2 /\ lats (lt_ctrs demo_end) = [4; 4] /\ clean float_half 2 demo_run.
Proof.
  destruct (verdict_is_honest Nat.even float_half 2 demo_run demo_end) as (Ha & _ & Hv);
    [by vm_compute|by vm_compute|]. split_and!; [done|by vm_compute|].
  apply Hv. by vm_compute.
Defined.

Lemma loadtest_speaks_witness :
  ack_read (ack_frame "subscribed" "loadtest-7") = AckOk
  /\ reader_frame (error_frame (MkErrorFrame "error" "RATE_LIMITED" "too many publishes" "publish" "loadtest-7"))
     = RErr "RATE_LIMITED".
Proof.
  destruct (loadtest_speaks "loadtest-7" "01HKQ8M9F7" 1700000000000000000
    (MkErrorFrame "error" "RATE_LIMITED" "too many publishes" "publish" "loadtest-7"))
    as (_ & Ha & _ & _ & Hr); [by vm_compute..|by vm_compute|by vm_compute|reflexivity|done].
Defined.

(** A run that a signal cuts short is clean, although most of its duration is
    missing from the rate it reports. *)
Example interrupted_run_is_clean :
  verdict float_half (lt_ctrs demo_end) = 0%nat /\ LCancel ∈ demo_run.
Proof. split; [by vm_compute|]. unfold demo_run. set_solver. Qed.

(** A publisher that dies after its last tick is not counted; the same end of a
    subscriber is. *)
Example dead_publisher_is_unseen :
  let live := PLive true true in
  (conn_step true true CReadEnd live ≫= fun s => conn_step true true CStop s.1) = Some (PLive false false, [])
  /\ conn_step true true CLost (PLive false true) = None
  /\ (conn_step false true CReadEnd live ≫= fun s => conn_step false true CLost s.1)
     = Some (PLive false false, [BDied]).
Proof. done. Qed.
