(* ===== verification/Harness.v ===== *)
(** * cmd/loadtest/main.go, main: starting, waiting, collecting

    [Loadtest] counts what the connections' goroutines do; here are the
    goroutines around them: the loop that starts them, the [WaitGroup], the
    samples channel with its collector, and the hand-over to the report.  A send
    on a closed channel, a second close, a negative [WaitGroup] and a division by
    zero are panics, which the theorem excludes. *)
From Stdlib Require Import SpecFloat.
From S2P Require Import Prelude GoStd GoFmt Frame Handler Loadtest.
From stdpp Require Import options.

(** Where [main] is; and the collector: reading, its slice in [samplesDone], or
    ended with the slice received. *)
Inductive main_pc : Type :=
  | Starting (i : nat)
  | Waiting                 (* in wg.Wait *)
  | Closing
  | Receiving               (* in <-samplesDone *)
  | Reporting (ls : list Z).

Inductive coll_pc : Type :=
  | CollRange
  | CollSent (ls : list Z)
  | CollDone.

Record main_state : Type := MkMain {
  mn_lt : lt;
  mn_pc : main_pc;
  mn_wg : Z;
  mn_samples : list Z;      (* the channel's buffer, oldest first *)
  mn_closed : bool;
  mn_taken : list Z;        (* the collector's [lats] *)
  mn_coll : coll_pc;
  mn_panic : bool;
}.

Inductive main_label : Type :=
  | MSpawn
  | MConn (i : nat) (l : clabel)
  | MCancel
  | MWaited
  | MClose
  | MCollect
  | MCollected
  | MReport.

Section Main.
(** The flags. *)
Context (addr : string) (pool : list string) (conns : nat) (channels : Z) (publishers : spec_float).

Definition plan_at (i : nat) : option plan :=
  plan_conn addr pool (Z.of_nat conns) channels publishers (Z.of_nat i).
Definition publishes (i : nat) : bool := from_option pl_publisher false (plan_at i).

Definition samplesCap : nat := conns * 16.

Definition spawned (s : main_state) : nat := match mn_pc s with Starting i => i | _ => conns end.

(** The reader comes to its select, whose send is taken when there is room. *)
Definition attempts (l : clabel) : bool :=
  match l with
  | CFrame raw _ _ => match reader_frame raw with REvent (Some _) => true | _ => false end
  | _ => false
  end.
Definition selected (s : main_state) (l : clabel) : bool :=
  match l with
  | CFrame _ _ kept => bool_decide (kept = bool_decide (length (mn_samples s) < samplesCap))
  | _ => true
  end.

Definition sampled (bs : list bump) : list Z :=
  omap (fun b => match b with BSample ns => Some ns | _ => None end) bs.

Definition is_gone (p : cpc) : bool := match p with PGone _ => true | _ => false end.

Definition set_pc (pc : main_pc) (s : main_state) : main_state :=
  MkMain (mn_lt s) pc (mn_wg s) (mn_samples s) (mn_closed s) (mn_taken s) (mn_coll s) (mn_panic s).
Definition panicked (s : main_state) : main_state :=
  MkMain (mn_lt s) (mn_pc s) (mn_wg s) (mn_samples s) (mn_closed s) (mn_taken s) (mn_coll s) true.

(** One step of [main] (MSpawn, MWaited, MClose, MReport), of the collector
    (MCollect, MCollected), of a connection, or the context's end. *)
Definition main_step (l : main_label) (s : main_state) : option main_state :=
  if mn_panic s then None else
  match l, mn_pc s with
  | MSpawn, Starting i =>
      if decide (i < conns) then
        match plan_at i with
        | None => Some (panicked s)
        | Some _ =>
            Some (MkMain (mn_lt s) (Starting (S i)) (mn_wg s + 1) (mn_samples s) (mn_closed s) (mn_taken s)
                    (mn_coll s) false)
        end
      else Some (set_pc Waiting s)
  | MConn i cl, _ =>
      if decide (i < spawned s) then
        if selected s cl then
          p ← lt_pcs (mn_lt s) !! i;
          '(p', bs) ← conn_step (publishes i) (lt_ctx (mn_lt s)) cl p;
          t ← lt_step publishes (LConn i cl) (mn_lt s);
          let wg := (if is_gone p' then mn_wg s - 1 else mn_wg s)%Z in
          Some (MkMain t (mn_pc s) wg (mn_samples s ++ sampled bs) (mn_closed s) (mn_taken s) (mn_coll s)
                  ((mn_closed s && attempts cl) || bool_decide (wg < 0)%Z))
        else None
      else None
  | MCancel, _ =>
      t ← lt_step publishes LCancel (mn_lt s);
      Some (MkMain t (mn_pc s) (mn_wg s) (mn_samples s) (mn_closed s) (mn_taken s) (mn_coll s) false)
  | MWaited, Waiting => if decide (mn_wg s = 0%Z) then Some (set_pc Closing s) else None
  | MClose, Closing =>
      Some (MkMain (mn_lt s) Receiving (mn_wg s) (mn_samples s) true (mn_taken s) (mn_coll s) (mn_closed s))
  | MCollect, _ =>
      match mn_coll s, mn_samples s with
      | CollRange, ns :: q =>
          Some (MkMain (mn_lt s) (mn_pc s) (mn_wg s) q (mn_closed s) (mn_taken s ++ [ns]) CollRange false)
      | _, _ => None
      end
  | MCollected, _ =>
      match mn_coll s, mn_samples s with
      | CollRange, [] =>
          if mn_closed s then
            Some (MkMain (mn_lt s) (mn_pc s) (mn_wg s) [] true (mn_taken s) (CollSent (mn_taken s)) false)
          else None
      | _, _ => None
      end
  | MReport, Receiving =>
      match mn_coll s with
      | CollSent ls =>
          Some (MkMain (mn_lt s) (Reporting ls) (mn_wg s) (mn_samples s) (mn_closed s) (mn_taken s) CollDone false)
      | _ => None
      end
  | _, _ => None
  end.

Definition main_start : main_state :=
  MkMain (lt_start conns) (Starting 0) 0 [] false [] CollRange false.

Fixpoint main_run (tr : list main_label) (s : main_state) : option main_state :=
  match tr with [] => Some s | l :: tr => s' ← main_step l s; main_run tr s' end.

(** What [Loadtest] sees of a run. *)
Definition lt_label (l : main_label) : option label :=
  match l with MConn i cl => Some (LConn i cl) | MCancel => Some LCancel | _ => None end.

(** ** What is kept *)

Definition ended (s : main_state) : Prop := finished (mn_lt s) = true.

Record main_inv (s : main_state) : Prop := {
  mi_len : length (lt_pcs (mn_lt s)) = conns;
  mi_spawned : spawned s <= conns;
  mi_new j p : lt_pcs (mn_lt s) !! j = Some p -> spawned s <= j -> p = PNew;
  mi_wg : mn_wg s = number (fun p => negb (is_gone p)) (take (spawned s) (lt_pcs (mn_lt s)));
  mi_samples : lats (lt_ctrs (mn_lt s)) = mn_taken s ++ mn_samples s;
  mi_cap : length (mn_samples s) <= samplesCap;
  mi_closed : mn_closed s = match mn_pc s with Receiving | Reporting _ => true | _ => false end;
  mi_ended : match mn_pc s with Starting _ | Waiting => True | _ => ended s end;
  mi_coll : match mn_coll s with
            | CollRange => match mn_pc s with Reporting _ => False | _ => True end
            | CollSent ls => mn_pc s = Receiving /\ mn_samples s = [] /\ ls = mn_taken s
            | CollDone => mn_pc s = Reporting (mn_taken s) /\ mn_samples s = []
            end;
  mi_panic : mn_panic s = false;
}.

Lemma finished_iff (t : lt) : finished t = true <-> forall j p, lt_pcs t !! j = Some p -> is_gone p = true.
Proof using Type.
  unfold finished. rewrite forallb_forall. split.
  - intros Hf j p Hp. specialize (Hf p). destruct p; try done; apply Hf; apply list_elem_of_In; by eapply list_elem_of_lookup_2.
  - intros Hf p [j Hj]%list_elem_of_In%list_elem_of_lookup_1. specialize (Hf j p Hj). by destruct p.
Qed.

Lemma gone_stuck pub ctx l p p' bs : is_gone p = true -> conn_step pub ctx l p <> Some (p', bs).
Proof using Type. by destruct p, l. Qed.

(** A step's samples: none, or the one the select let in. *)
Lemma conn_step_sampled pub ctx l p p' bs s :
  conn_step pub ctx l p = Some (p', bs) -> selected s l = true -> length (mn_samples s) <= samplesCap ->
  length (mn_samples s ++ sampled bs) <= samplesCap.
Proof using Type.
  intros Hst Hsel Hcap. rewrite length_app.
  enough (sampled bs = [] \/ length (sampled bs) = 1 /\ length (mn_samples s) < samplesCap) as [->|]; [cbn; lia|lia|].
  destruct p as [| | | | |[] []|a], l as [|[err|]|[]|[]|[raw|]|raw now kept| |[] []| | |]; cbn in Hst;
    try discriminate Hst; repeat (case_match; try discriminate Hst; cbn in Hst); simplify_eq; cbn; try (by left).
  all: right; split; [done|]; unfold selected in Hsel; bool_hyps; symmetry in Hsel; by bool_hyps.
Qed.

Lemma sampled_lats bs c : lats (foldl (flip count) c bs) = lats c ++ sampled bs.
Proof using Type.
  revert c. induction bs as [|b bs IH]; intros c; cbn [foldl flip]; [by rewrite app_nil_r|].
  rewrite IH. destruct b; cbn; try done. by rewrite <- app_assoc.
Qed.

Lemma main_inv_start : main_inv main_start.
Proof using Type.
  split; cbn; rewrite ?length_replicate, ?take_0; try (done || lia).
  by intros j p [-> _]%lookup_replicate.
Qed.

(** A connection that is running holds [main] back. *)
Lemma running_pc s i p :
  main_inv s -> lt_pcs (mn_lt s) !! i = Some p -> is_gone p = false ->
  match mn_pc s with Starting _ | Waiting => True | _ => False end.
Proof using Type.
  intros I Hp Hg. pose proof (mi_ended s I) as He. destruct (mn_pc s); try done;
    unfold ended in He; rewrite finished_iff in He; specialize (He _ _ Hp); congruence.
Qed.

Lemma main_inv_conn i cl p p' bs s :
  main_inv s -> i < spawned s -> selected s cl = true -> lt_pcs (mn_lt s) !! i = Some p ->
  conn_step (publishes i) (lt_ctx (mn_lt s)) cl p = Some (p', bs) ->
  let wg := (if is_gone p' then mn_wg s - 1 else mn_wg s)%Z in
  main_inv (MkMain (MkLt (<[i := p']> (lt_pcs (mn_lt s))) (lt_ctx (mn_lt s)) (foldl (flip count) (lt_ctrs (mn_lt s)) bs))
    (mn_pc s) wg (mn_samples s ++ sampled bs) (mn_closed s) (mn_taken s) (mn_coll s)
    ((mn_closed s && attempts cl) || bool_decide (wg < 0)%Z)).
Proof using Type.
  intros I Hi Hsel Hp Hst wg.
  assert (is_gone p = false) as Hg.
  { destruct (is_gone p) eqn:Hg; [|done]. by destruct (gone_stuck _ _ _ _ _ _ Hg Hst). }
  pose proof (running_pc s i p I Hp Hg) as Hpc. pose proof (mi_closed s I) as Hclosed.
  assert (mn_closed s = false) as Hcl by (by destruct (mn_pc s)).
  assert (take (spawned s) (lt_pcs (mn_lt s)) !! i = Some p) as Ht by (by rewrite lookup_take_lt).
  assert (wg = number (fun p => negb (is_gone p)) (take (spawned s) (<[i := p']> (lt_pcs (mn_lt s))))) as Hwg.
  { rewrite take_insert_lt, (number_insert _ _ _ _ _ Ht), <- (mi_wg s I), Hg by done.
    subst wg. destruct (is_gone p'); cbn; lia. }
  split; unfold spawned; cbn [mn_lt mn_pc mn_wg mn_samples mn_closed mn_taken mn_coll mn_panic lt_pcs lt_ctrs];
    fold (spawned s).
  - rewrite length_insert. apply I.
  - apply I.
  - intros j q Hj Hsp. rewrite list_lookup_insert_ne in Hj by lia. by apply (mi_new s I j).
  - exact Hwg.
  - by rewrite sampled_lats, (mi_samples s I), app_assoc.
  - eapply conn_step_sampled; [done..|apply I].
  - done.
  - by destruct (mn_pc s).
  - pose proof (mi_coll s I) as Hc. destruct (mn_coll s) as [|ls|]; [done|..]; destruct (mn_pc s); naive_solver.
  - rewrite Hcl. cbn. apply bool_decide_eq_false_2. rewrite Hwg.
    pose proof (number_nonneg (fun p => negb (is_gone p)) (take (spawned s) (<[i := p']> (lt_pcs (mn_lt s))))). lia.
Qed.

Lemma main_inv_spawn s i :
  main_inv s -> mn_pc s = Starting i -> i < conns ->
  main_inv (MkMain (mn_lt s) (Starting (S i)) (mn_wg s + 1) (mn_samples s) (mn_closed s) (mn_taken s) (mn_coll s) false).
Proof using Type.
  intros I Hpc Hi. pose proof I as [Hlen Hsp Hnew Hwg Hsam Hcap Hcl Hend Hcoll _]. unfold spawned in *. rewrite Hpc in *.
  destruct (lookup_lt_is_Some_2 (lt_pcs (mn_lt s)) i) as [p Hp]; [lia|]. pose proof (Hnew i p Hp ltac:(lia)) as ->.
  split; unfold spawned; cbn [mn_lt mn_pc mn_wg mn_samples mn_closed mn_taken mn_coll mn_panic]; try done.
  - intros j p Hj Hle. apply (Hnew j p Hj). lia.
  - rewrite (take_S_r _ _ _ Hp), number_app, <- Hwg. done.
  - by destruct (mn_coll s) as [|ls|]; naive_solver.
Qed.

(** [main] goes on, with what holds at its new place. *)
Lemma main_inv_pc s pc :
  main_inv s -> spawned (set_pc pc s) = spawned s ->
  match pc with Starting _ | Waiting | Closing => mn_closed s = false /\ mn_coll s = CollRange | _ => False end ->
  match pc with Starting _ | Waiting => True | _ => ended s end ->
  main_inv (set_pc pc s).
Proof using Type.
  intros I Hsp Hpc Hend. pose proof I as [Hlen Hsp0 Hnew Hwg Hsam Hcap Hcl He Hcoll Hpan].
  split; rewrite ?Hsp; cbn; try done; destruct pc; try done; destruct Hpc as [Hc Hl]; by rewrite ?Hl.
Qed.

Lemma wait_over s : main_inv s -> mn_pc s = Waiting -> mn_wg s = 0%Z -> ended s.
Proof using Type.
  intros I Hpc Hz. rewrite (mi_wg s I) in Hz. unfold spawned in Hz. rewrite Hpc, <- (mi_len s I), firstn_all in Hz.
  apply number_none in Hz. apply finished_iff. intros j p Hp. rewrite Forall_lookup in Hz.
  specialize (Hz j p Hp). cbn in Hz. by destruct (is_gone p).
Qed.

Lemma early_coll s :
  main_inv s -> match mn_pc s with Starting _ | Waiting | Closing => True | _ => False end ->
  mn_closed s = false /\ mn_coll s = CollRange.
Proof using Type.
  intros I Hpc. pose proof (mi_closed s I) as Hcl. pose proof (mi_coll s I) as Hcoll.
  destruct (mn_pc s); try done; destruct (mn_coll s); naive_solver.
Qed.

(** The loop divides by the number of channels and of keys. *)
Context (Hpool : pool <> []) (Hchannels : channels <> 0%Z).

Lemma plan_at_some i : is_Some (plan_at i).
Proof using Hpool Hchannels.
  unfold plan_at, plan_conn. destruct (pool !! _) as [key|] eqn:Hk.
  - cbn. rewrite decide_False by done. by eexists.
  - apply lookup_ge_None in Hk. assert (0 < length pool) by (destruct pool; [done|cbn; lia]).
    pose proof (Z.mod_pos_bound (Z.of_nat i) (Z.of_nat (length pool))). lia.
Qed.

Lemma main_inv_step l s s' : main_inv s -> main_step l s = Some s' -> main_inv s'.
Proof using Hpool Hchannels.
  intros I. unfold main_step. rewrite (mi_panic s I). pose proof (early_coll s I) as Hearly.
  destruct l as [|i cl| | | | | |].
  - destruct (mn_pc s) as [i| | | |] eqn:Hpc; try done. destruct (Hearly Logic.I) as [Hcl Hcoll].
    case_decide as Hi; [destruct (plan_at_some i) as [pl ->]; intros [= <-]; by apply main_inv_spawn|intros [= <-]].
    apply main_inv_pc; [done| |done..]. unfold spawned. cbn. rewrite Hpc.
    pose proof (mi_spawned s I) as Hs. unfold spawned in Hs. rewrite Hpc in Hs. lia.
  - case_decide as Hi; [|done]. destruct (selected s cl) eqn:Hsel; [|done].
    destruct (lt_pcs (mn_lt s) !! i) as [p|] eqn:Hp; [|done]. cbn [mbind option_bind].
    destruct (conn_step _ _ _ _) as [[p' bs]|] eqn:Hst; [|done]. cbn [mbind option_bind lt_step]. rewrite Hp.
    cbn [mbind option_bind]. rewrite Hst. cbn [mbind option_bind]. intros [= <-]. by apply (main_inv_conn i cl p p' bs).
  - cbn. intros [= <-]. by destruct I.
  - destruct (mn_pc s) eqn:Hpc; try done. case_decide as Hz; [|done]. intros [= <-].
    apply main_inv_pc; [done|by unfold spawned; cbn; rewrite Hpc|by apply Hearly|by apply wait_over].
  - destruct (mn_pc s) eqn:Hpc; try done. intros [= <-]. destruct (Hearly Logic.I) as [Hcl Hcoll].
    pose proof I as [Hlen Hsp Hnew Hwg Hsam Hcap _ Hend _ _]. unfold spawned in *. rewrite Hpc in *.
    split; cbn; try done. by rewrite Hcoll.
  - destruct (mn_coll s) eqn:Hcoll; try done. destruct (mn_samples s) as [|ns q] eqn:Hq; [done|]. intros [= <-].
    pose proof I as [Hlen Hsp Hnew Hwg Hsam Hcap Hcl Hend Hc _]. rewrite Hcoll, Hq in *.
    split; cbn in *; try done; [by rewrite <- app_assoc|lia].
  - destruct (mn_coll s) eqn:Hcoll; try done. destruct (mn_samples s) as [|ns q] eqn:Hq; [|done].
    destruct (mn_closed s) eqn:Hclosed; [|done]. intros [= <-].
    pose proof I as [Hlen Hsp Hnew Hwg Hsam Hcap Hcl Hend Hc _]. rewrite Hcoll, Hq in *.
    rewrite Hclosed in Hcl. split; cbn in *; try done; by destruct (mn_pc s).
  - destruct (mn_pc s) eqn:Hpc; try done. destruct (mn_coll s) as [|ls|] eqn:Hcoll; try done. intros [= <-].
    pose proof I as [Hlen Hsp Hnew Hwg Hsam Hcap Hcl Hend Hc _]. unfold spawned in *. rewrite Hcoll, Hpc in *.
    destruct Hc as (_ & Hq & ->). split; cbn; done.
Qed.

Definition lt_trace (tr : list main_label) : list label := omap lt_label tr.

Lemma lt_run_cons pub l tr t t' : lt_step pub l t = Some t' -> lt_run pub (l :: tr) t = lt_run pub tr t'.
Proof using Type. intros Hs. unfold lt_run. cbn. by rewrite Hs. Qed.

(** A run of [main] is a run of the connections. *)
Lemma main_step_lt l s s' :
  main_step l s = Some s' ->
  match lt_label l with
  | Some k => lt_step publishes k (mn_lt s) = Some (mn_lt s')
  | None => mn_lt s' = mn_lt s
  end.
Proof using Type.
  unfold main_step. destruct (mn_panic s); [done|]. destruct l as [|i cl| | | | | |]; cbn [lt_label];
    try (repeat (case_match; try done); by intros [= <-]).
  - case_decide; [|done]. destruct (selected s cl); [|done].
    destruct (lt_pcs (mn_lt s) !! i); [|done]. cbn [mbind option_bind].
    destruct (conn_step _ _ _ _) as [[p' bs]|]; [|done]. cbn [mbind option_bind].
    destruct (lt_step _ _ _); [|done]. by intros [= <-].
Qed.

Lemma main_run_lt tr s s' : main_run tr s = Some s' -> lt_run publishes (lt_trace tr) (mn_lt s) = Some (mn_lt s').
Proof using Type.
  revert s. induction tr as [|l tr IH]; intros s; cbn [main_run]; [by intros [= <-]|].
  destruct (main_step l s) as [s1|] eqn:Hs; [|done]. cbn [mbind option_bind]. intros Hr%IH.
  apply main_step_lt in Hs. unfold lt_trace. cbn. destruct (lt_label l) as [k|].
  - rewrite <- Hr. by apply lt_run_cons.
  - by rewrite <- Hs.
Qed.

Lemma main_run_inv tr s s' : main_inv s -> main_run tr s = Some s' -> main_inv s'.
Proof using Hpool Hchannels.
  revert s. induction tr as [|l tr IH]; intros s I; cbn [main_run]; [by intros [= <-]|].
  destruct (main_step l s) as [s1|] eqn:Hs; [|done]. apply IH. by eapply main_inv_step.
Qed.

(** ** The end *)

(** A step of [main] or of the collector. *)
Definition own_step (s s' : main_state) : Prop := exists l, lt_label l = None /\ main_step l s = Some s'.

Definition reporting (s : main_state) : Prop := exists ls, mn_pc s = Reporting ls.

Definition own_rank (s : main_state) : nat :=
  match mn_pc s with Starting _ => 4 | Waiting => 3 | Closing => 2 | Receiving => 1 | Reporting _ => 0 end
  + length (mn_samples s) + match mn_coll s with CollRange => 1 | _ => 0 end.

Lemma own_progress s :
  main_inv s /\ ended s -> reporting s \/ exists s', own_step s s' /\ (main_inv s' /\ ended s') /\ own_rank s' < own_rank s.
Proof using Hpool Hchannels.
  intros [I He].
  assert (forall l s', lt_label l = None -> main_step l s = Some s' -> own_rank s' < own_rank s ->
    exists s', own_step s s' /\ (main_inv s' /\ ended s') /\ own_rank s' < own_rank s) as Hgo.
  { intros l s' Hl Hs Hr. exists s'. split; [by exists l|]. split; [|done]. split; [by eapply main_inv_step|].
    apply main_step_lt in Hs. rewrite Hl in Hs. unfold ended. by rewrite Hs. }
  pose proof I as [Hlen Hsp Hnew Hwg Hsam Hcap Hcl _ Hcoll Hpan]. unfold own_rank, reporting in *.
  destruct (mn_pc s) as [i| | | |ls] eqn:Hpc; [right..|left; by exists ls].
  - destruct (decide (i < conns)) as [Hi|Hi].
    + destruct (lookup_lt_is_Some_2 (lt_pcs (mn_lt s)) i) as [p Hp]; [lia|].
      assert (p = PNew) as -> by (apply (Hnew i p Hp); unfold spawned; by rewrite Hpc).
      unfold ended in He. rewrite finished_iff in He. by specialize (He i PNew Hp).
    + apply (Hgo MSpawn (set_pc Waiting s)); [done|unfold main_step; by rewrite Hpan, Hpc, decide_False|]. cbn. lia.
  - apply (Hgo MWaited (set_pc Closing s)); [done| |cbn; lia]. unfold main_step. rewrite Hpan, Hpc, decide_True; [done|].
    rewrite Hwg. apply number_none, Forall_lookup. intros j p Hp.
    unfold spawned in Hp. rewrite Hpc, <- Hlen, firstn_all in Hp. unfold ended in He. rewrite finished_iff in He.
    by rewrite (He j p Hp).
  - eapply (Hgo MClose); [done|unfold main_step; by rewrite Hpan, Hpc|]. cbn. lia.
  - destruct (mn_coll s) as [|ls|] eqn:Hc; [|eapply (Hgo MReport); [done|unfold main_step; by rewrite Hpan, Hpc, Hc|cbn; lia]|by destruct Hcoll].
    destruct (mn_samples s) as [|ns q] eqn:Hq.
    + eapply (Hgo MCollected); [done|unfold main_step; by rewrite Hpan, Hc, Hq, Hcl|]. cbn. rewrite Hpc. lia.
    + eapply (Hgo MCollect); [done|unfold main_step; by rewrite Hpan, Hc, Hq|]. cbn. rewrite Hpc. lia.
Qed.

(** C37. The load generator reports everything. Whatever its connections do and
    however they, main and the collector are scheduled, with at least one key
    and one channel: there is no send on the closed samples channel, no second
    close, no negative wait group and no division by zero; main reports only
    when every connection has ended, and then with exactly the samples that were
    kept, in order; and once every connection has ended nothing keeps main from
    its report. *)
Theorem main_reports_everything tr s :
  main_run tr main_start = Some s ->
  mn_panic s = false
  /\ lt_run publishes (lt_trace tr) (lt_start conns) = Some (mn_lt s)
  /\ (forall ls, mn_pc s = Reporting ls -> finished (mn_lt s) = true /\ ls = lats (lt_ctrs (mn_lt s)))
  /\ (finished (mn_lt s) = true -> exists s', rtc own_step s s' /\ reporting s').
Proof using Hpool Hchannels.
  intros Hr. pose proof (main_run_inv _ _ _ main_inv_start Hr) as I. split_and!.
  - apply I.
  - by apply (main_run_lt tr main_start).
  - intros ls Hpc. pose proof (mi_ended s I) as He. pose proof (mi_coll s I) as Hc. rewrite Hpc in He, Hc.
    split; [done|]. rewrite (mi_samples s I). destruct (mn_coll s); [done|by destruct Hc|].
    destruct Hc as [[= ->] ->]. by rewrite app_nil_r.
  - intros Hf. by apply (rtc_measure own_step reporting (fun s => main_inv s /\ ended s) own_rank own_progress).
Qed.
End Main.

(** ** A run *)

(** Two connections, of which the second publishes; the collector takes the
    first sample before the second comes, and a signal ends the run. *)
Definition demo_trace : list main_label :=
  let both l := [MConn 0 l; MConn 1 l] in
  [MSpawn; MConn 0 CAttempt; MSpawn; MConn 1 CAttempt; MSpawn]
  ++ both (CDial None) ++ both (CHello true) ++ both (CSub true)
  ++ both (CAck (Some (ack_frame "subscribed" "loadtest-0")))
  ++ [MConn 1 (CTick true true); MConn 0 (CFrame (event_frame "loadtest-0" (Some (t_text 5)) "01") 9 true); MCollect;
      MConn 1 (CFrame (event_frame "loadtest-0" (Some (t_text 5)) "01") 11 true); MCancel]
  ++ both CStop ++ both CReadEnd ++ both CExit ++ [MWaited; MClose; MCollect; MCollected; MReport].

Definition demo_main : main_state :=
  default (main_start 0) (main_run "ws://h" ["key"] 2 1 float_half demo_trace (main_start 2)).

Lemma main_reports_everything_witness :
  mn_pc demo_main = Reporting [4; 6]%Z /\ finished (mn_lt demo_main) = true
  /\ lats (lt_ctrs (mn_lt demo_main)) = [4; 6]%Z.
Proof.
  destruct (main_reports_everything "ws://h" ["key"] 2 1 float_half ltac:(done) ltac:(done) demo_trace demo_main)
    as (_ & _ & Hrep & _); [by vm_compute|].
  assert (mn_pc demo_main = Reporting [4; 6]%Z) as Hpc by (by vm_compute).
  destruct (Hrep _ Hpc) as [Hf Hl]. exact (conj Hpc (conj Hf (eq_sym Hl))).
Defined.
