(* ===== verification/Report.v ===== *)
(** * cmd/loadtest/main.go: what a run prints

    The line [main] prints before it dials, [report], the clock probe, and the
    lines that explain a failing exit code, byte for byte; and how
    scripts/bench.sh reads the counters back out of that text. *)
From Stdlib Require Import SpecFloat.
From S2P Require Import Prelude GoStd GoFmt GoJson Loadtest.
From stdpp Require Import sorting options.

Local Open Scope Z_scope.

(** ** The flags *)

Record options : Type := MkOptions {
  o_conns : Z;
  o_channels : Z;
  o_rate : spec_float;
  o_duration : Z;
  o_rampUp : Z;
  o_publishers : spec_float;
}.

Definition default_options : options :=
  MkOptions 1000 100 (of_int 10) (30 * second) (5 * second) (fdiv (of_int 1) (of_int 2)).

(** The pause between two publishes. *)
Definition interval (rate : spec_float) : Z := trunc (fdiv (of_int second) rate).

(** ** The clock probe *)

(** Each reading is the deadline check's clock and the two that are compared. *)
Fixpoint probe (deadline minD : Z) (reads : list (Z * Z * Z)) : Z :=
  match reads with
  | (now, a, b) :: reads =>
      if deadline <=? now then minD
      else probe deadline (if (0 <? b - a) && (b - a <? minD) then b - a else minD) reads
  | [] => minD
  end.

Definition wallClockResolution (deadline : Z) (reads : list (Z * Z * Z)) : Z :=
  let minD := probe deadline (2 ^ 62) reads in if decide (minD = 2 ^ 62) then 0 else minD.

(** ** The report *)

Definition nl : ascii := ascii_of_N 10.

Definition dialing_line (o : options) (keys : Z) : string :=
  "dialing " +:+ FormatInt (o_conns o) +:+ " conns over " +:+ Duration_String (o_rampUp o) +:+ " rampup, "
  +:+ FormatInt (o_channels o) +:+ " channels, " +:+ fmt_f 1 (o_rate o) +:+ " msg/s/conn ("
  +:+ fmt_f 0 (fmul (o_publishers o) (of_int 100)) +:+ "% publishers), " +:+ FormatInt keys
  +:+ "-key pool, duration " +:+ Duration_String (o_duration o).

(** Nanoseconds as microseconds, and a percentile; 0 without samples. *)
Definition us (ns : Z) : spec_float := fdiv (of_int ns) (of_int 1000).
Definition pct_us (lats : list Z) (num den : Z) : spec_float :=
  from_option us (S754_zero false) (percentile lats (fdiv (of_int num) (of_int den))).
Definition max_us (lats : list Z) : spec_float :=
  from_option us (S754_zero false) (last (merge_sort Z.le lats)).

Definition delivered (o : options) (c : counters) : spec_float := fdiv (of_int (recv c)) (Seconds (o_duration o)).

(** The fields of the SUMMARY line. *)
Definition summary_fields (o : options) (c : counters) : list (string * string) :=
  [("attempted", FormatInt (attempted c)); ("connected", FormatInt (connected c));
   ("dial_failed", FormatInt (dialFailed c)); ("sub_failed", FormatInt (subFailed c));
   ("died_early", FormatInt (diedEarly c)); ("sent", FormatInt (sent c)); ("recv", FormatInt (recv c));
   ("server_errors", FormatInt (errTotal c)); ("delivered_per_s", fmt_f 0 (delivered o c));
   ("p50_us", fmt_f 1 (pct_us (lats c) 1 2)); ("p99_us", fmt_f 1 (pct_us (lats c) 99 100));
   ("p999_us", fmt_f 1 (pct_us (lats c) 999 1000)); ("max_us", fmt_f 1 (max_us (lats c)))].

Definition kv_text (f : string * string) : string := f.1 +:+ String "=" f.2.
Definition summary_line (o : options) (c : counters) : string :=
  join_with " " ("SUMMARY" :: (kv_text <$> summary_fields o c)).

Definition dial_line (d : string * Z) : string := "  dial error x" +:+ FormatInt d.2 +:+ ": " +:+ d.1.

(** The lines of [report] before the last; [kinds] is the map of dial errors in
    the order its iteration takes, [res] the probe's answer. *)
Definition report_body (o : options) (c : counters) (kinds : list (string * Z)) (res : Z) : list string :=
  [""; "=== loadtest results ===";
   "conns attempted:  " +:+ FormatInt (attempted c); "conns connected:  " +:+ FormatInt (connected c);
   "conns dial-fail:  " +:+ FormatInt (dialFailed c); "conns sub-fail:   " +:+ FormatInt (subFailed c);
   "conns died early: " +:+ FormatInt (diedEarly c)]
  ++ (dial_line <$> kinds)
  ++ ["channels:         " +:+ FormatInt (o_channels o);
      "rate:             " +:+ fmt_f 1 (o_rate o) +:+ " msg/s/conn (publishers: "
        +:+ fmt_f 0 (fmul (o_publishers o) (of_int 100)) +:+ "%)";
      "duration:         " +:+ Duration_String (o_duration o);
      "sent:             " +:+ FormatInt (sent c); "recv:             " +:+ FormatInt (recv c)]
  ++ errLines c
  ++ (if decide (0 < sent c)
      then ["recv/sent:        " +:+ fmt_f 2 (fdiv (of_int (recv c)) (of_int (sent c)))] else [])
  ++ (if decide (0 < o_duration o) then ["delivered msg/s:  " +:+ fmt_f 0 (delivered o c)] else [])
  ++ ["host clock res:   " +:+ fmt_f 1 (us res)
        +:+ "us (client latencies at/below this are floor-limited)"]
  ++ (if decide (lats c = []) then []
      else ["samples:          " +:+ FormatInt (Z.of_nat (length (lats c)));
            "latency p50:      " +:+ fmt_f 1 (pct_us (lats c) 1 2) +:+ "us";
            "latency p99:      " +:+ fmt_f 1 (pct_us (lats c) 99 100) +:+ "us";
            "latency p999:     " +:+ fmt_f 1 (pct_us (lats c) 999 1000) +:+ "us";
            "latency max:      " +:+ fmt_f 1 (max_us (lats c)) +:+ "us"]).

Definition report (o : options) (c : counters) (kinds : list (string * Z)) (res : Z) : list string :=
  report_body o c kinds res ++ [summary_line o c].

(** What is printed for an exit code. *)
Definition fail_line (code : nat) : list string :=
  match code with
  | 2%nat => ["FAIL: zero connections established"]
  | 3%nat => ["FAIL: some connections failed to establish; not a clean run"]
  | 7%nat => ["FAIL: established connections died before the duration elapsed; not a clean run"]
  | 4%nat => ["FAIL: zero messages sent; not a clean run"]
  | 5%nat => ["FAIL: server rejected messages (see error counts); not a clean run"]
  | 6%nat => ["FAIL: zero messages received; not a clean run"]
  | _ => []
  end.

(** Everything a run writes to its two outputs, merged as bench.sh does. *)
Definition output (o : options) (keys : Z) (c : counters) (kinds : list (string * Z)) (res : Z) : list string :=
  dialing_line o keys :: report o c kinds res ++ fail_line (verdict (o_publishers o) c).

Definition print_lines (ls : list string) : string := foldr (fun l s => l +:+ String nl s) "" ls.

(** ** What bench.sh reads *)

(** awk's fields: runs of bytes other than blanks and tabs. *)
Definition tab : ascii := ascii_of_N 9.
Definition awk_fields (line : string) : list string :=
  filter (fun f => f <> "") (s ← Split " " line; Split tab s).

(** The value of the field [name] of each SUMMARY line. *)
Definition bench_read (name text : string) : list string :=
  line ← filter (fun l => HasPrefix l "SUMMARY ") (Split nl text);
  (fun f => default "" (Split "=" f !! 1%nat)) <$> filter (fun f => HasPrefix f (name +:+ "=")) (awk_fields line).

(** ** A run that was published *)

(** results/per-conn-sync-map-c100-rep1.txt, its latencies cut down to four. *)
Definition bench_counters : counters :=
  MkCounters 100 100 0 0 0 14981 141770 ∅ ∅ [9731900; 1111100; 4077800; 1111100].
Definition bench_options : options :=
  MkOptions 100 10 (of_int 10) (30 * second) (5 * second) (fdiv (of_int 1) (of_int 2)).

Example bench_output :
  output bench_options 10 bench_counters [] 514200
  = ["dialing 100 conns over 5s rampup, 10 channels, 10.0 msg/s/conn (50% publishers), 10-key pool, duration 30s";
     ""; "=== loadtest results ==="; "conns attempted:  100"; "conns connected:  100"; "conns dial-fail:  0";
     "conns sub-fail:   0"; "conns died early: 0"; "channels:         10";
     "rate:             10.0 msg/s/conn (publishers: 50%)"; "duration:         30s"; "sent:             14981";
     "recv:             141770"; "recv/sent:        9.46"; "delivered msg/s:  4726";
     "host clock res:   514.2us (client latencies at/below this are floor-limited)";
     "samples:          4"; "latency p50:      4077.8us"; "latency p99:      9731.9us";
     "latency p999:     9731.9us"; "latency max:      9731.9us";
     "SUMMARY attempted=100 connected=100 dial_failed=0 sub_failed=0 died_early=0 sent=14981 recv=141770 server_errors=0 delivered_per_s=4726 p50_us=4077.8 p99_us=9731.9 p999_us=9731.9 max_us=9731.9"].
Proof. by vm_compute. Qed.

(** ** Lines *)

Definition one_line (s : string) : Prop := string_elem nl s = false.

Lemma one_line_app a b : one_line (a +:+ b) <-> one_line a /\ one_line b.
Proof. unfold one_line. by rewrite string_elem_app, orb_false_iff. Qed.
Lemma one_line_int z : one_line (FormatInt z).
Proof. by apply FormatInt_elem. Qed.
Lemma one_line_float p f : one_line (fmt_f p f).
Proof. by apply fmt_f_elem. Qed.
Lemma one_line_duration d : one_line (Duration_String d).
Proof. by apply Duration_String_elem. Qed.
Create HintDb report.
#[local] Hint Resolve one_line_int one_line_float one_line_duration : report.

(** A line made of texts, numbers and durations. *)
Ltac one_line :=
  repeat first [ apply one_line_app; split | by auto with report | by vm_compute ].

Lemma print_lines_split ls : Forall one_line ls -> Split nl (print_lines ls) = ls ++ [""].
Proof.
  induction 1 as [|l ls Hl _ IH]; [done|]. unfold print_lines in *. cbn [foldr app].
  by rewrite Split_app, IH.
Qed.

(** The words of the SUMMARY line hold no blank, tab, newline or '='. *)
Definition separator (c : ascii) : bool := bool_decide (c = " "%char \/ c = tab \/ c = nl \/ c = "="%char).

Lemma summary_field_elem o c k v sep :
  (k, v) ∈ summary_fields o c -> separator sep = true -> string_elem sep k = false /\ string_elem sep v = false.
Proof.
  intros Hin Hs. apply bool_decide_eq_true_1 in Hs. revert k v Hin.
  enough (Forall (fun f => string_elem sep f.1 = false /\ string_elem sep f.2 = false) (summary_fields o c)) as Hall.
  { intros k v Hin. by apply (proj1 (Forall_forall _ _) Hall) in Hin. }
  unfold summary_fields. repeat constructor; cbn [fst snd];
    first [ apply FormatInt_elem | apply fmt_f_elem | idtac ]; destruct_or! Hs; by subst sep.
Qed.

Lemma summary_word_elem o c sep w :
  w ∈ "SUMMARY" :: (kv_text <$> summary_fields o c) -> separator sep = true -> sep <> "="%char ->
  string_elem sep w = false.
Proof.
  intros Hw Hs He. apply elem_of_cons in Hw as [->|Hw].
  - apply bool_decide_eq_true_1 in Hs. by destruct_or! Hs; subst sep.
  - apply list_elem_of_fmap in Hw as ((k & v) & -> & Hin).
    destruct (summary_field_elem _ _ _ _ _ Hin Hs) as [Hk Hv]. unfold kv_text. cbn [fst snd].
    rewrite string_elem_app, Hk. cbn. by rewrite Hv, bool_decide_eq_false_2.
Qed.

Lemma summary_words o c : awk_fields (summary_line o c) = "SUMMARY" :: (kv_text <$> summary_fields o c).
Proof.
  set (ws := "SUMMARY" :: _). unfold awk_fields, summary_line. fold ws.
  rewrite Split_join; [|done|apply Forall_forall; intros w Hw; by apply (summary_word_elem o c)].
  rewrite bind_singletons by (intros w Hw; by apply Split_none, (summary_word_elem o c)).
  apply filter_everything. unfold ws. constructor; [done|].
  apply Forall_fmap, Forall_forall. intros (k & v) _. by destruct k.
Qed.

Lemma summary_one_line o c : one_line (summary_line o c).
Proof.
  unfold summary_line, one_line. set (ws := "SUMMARY" :: _).
  assert (forall w, w ∈ ws -> string_elem nl w = false) as Hws by (intros w Hw; by apply (summary_word_elem o c)).
  clearbody ws. induction ws as [|w ws IH]; [done|]. destruct ws as [|w' ws]; [by apply Hws; left|].
  change (join_with " " (w :: w' :: ws)) with (w +:+ String " " (join_with " " (w' :: ws))).
  rewrite string_elem_app, Hws by left. cbn [orb string_elem]. rewrite IH; [done|]. intros x Hx. apply Hws. by right.
Qed.

Lemma summary_line_eq o c : summary_line o c = "SUMMARY " +:+ join_with " " (kv_text <$> summary_fields o c).
Proof. reflexivity. Qed.

Lemma summary_field_key o c k v :
  (k, v) ∈ summary_fields o c -> HasPrefix "SUMMARY" (k +:+ "=") = false.
Proof.
  assert (Forall (fun f => HasPrefix "SUMMARY" (f.1 +:+ "=") = false) (summary_fields o c)) as Hall
    by (unfold summary_fields; repeat constructor).
  intros Hin. by apply (proj1 (Forall_forall _ _) Hall) in Hin.
Qed.

Lemma summary_fields_keys o c : NoDup (summary_fields o c).*1.
Proof. change (NoDup (summary_fields o c).*1) with (NoDup (summary_fields default_options counters_zero).*1). vm_decide. Qed.

(** A name picks its own field of the line. *)
Lemma field_prefix k f :
  string_elem "=" k = false -> string_elem "=" f.1 = false -> HasPrefix (kv_text f) (k +:+ "=") = bool_decide (f.1 = k).
Proof.
  destruct f as [k' v]. unfold kv_text. cbn [fst snd]. revert k'.
  induction k as [|c k IH]; intros [|c' k'] Hk Hk'; str_simpl; rewrite HasPrefix_cons; cbn in Hk, Hk'; bool_hyps.
  - by destruct v.
  - by rewrite !bool_decide_eq_false_2 by congruence.
  - by rewrite !bool_decide_eq_false_2 by congruence.
  - rewrite IH, <- bool_decide_and by done. apply bool_decide_ext. naive_solver.
Qed.

Lemma pick_field l k v :
  NoDup l.*1 -> (forall f, f ∈ l -> string_elem "=" f.1 = false) -> (k, v) ∈ l ->
  filter (fun f => HasPrefix f (k +:+ "=")) (kv_text <$> l) = [kv_text (k, v)].
Proof.
  intros Hnd He Hin. pose proof (He _ Hin) as Hk. cbn in Hk.
  induction l as [|f l IH]; [by apply elem_of_nil in Hin|].
  rewrite fmap_cons in Hnd. apply NoDup_cons in Hnd as [Hf Hnd]. rewrite fmap_cons, filter_cons.
  pose proof (field_prefix k f Hk (He f ltac:(left))) as Hp.
  apply elem_of_cons in Hin as [<-|Hin].
  - rewrite Hp, bool_decide_eq_true_2, decide_True by done. f_equal. apply filter_nothing.
    apply Forall_fmap, Forall_forall. intros g Hg. cbn. rewrite field_prefix; [|done|by apply He; right].
    rewrite bool_decide_spec. intros Hgk. apply Hf. cbn. rewrite <- Hgk. by apply (list_elem_of_fmap_2 fst).
  - assert (f.1 <> k) as Hn by (intros <-; apply Hf; by apply (list_elem_of_fmap_2 fst) in Hin).
    rewrite Hp, bool_decide_eq_false_2, decide_False by auto.
    apply IH; [done|intros g Hg; apply He; by right|done].
Qed.

(** ** Reading the output *)

(** A line that is not taken for the SUMMARY line. *)
Definition other_line (l : string) : Prop := one_line l /\ HasPrefix l "SUMMARY " = false.

Ltac other_lines := repeat (apply Forall_cons; split; [split; [one_line | reflexivity]|]); try apply Forall_nil_2.

Lemma other_map {A} (f : A -> string) l : (forall x, x ∈ l -> other_line (f x)) -> Forall other_line (f <$> l).
Proof. intros Hf. apply Forall_fmap, Forall_forall. auto. Qed.

Lemma other_filter ls : Forall other_line ls -> filter (fun l => HasPrefix l "SUMMARY ") ls = [].
Proof. intros Hls. apply filter_nothing. eapply Forall_impl; [done|]. intros l [_ ->]. auto. Qed.

Lemma other_one_line ls : Forall other_line ls -> Forall one_line ls.
Proof. intros Hls. by eapply Forall_impl; [done|intros l []]. Qed.

Lemma fail_line_other n : Forall other_line (fail_line n).
Proof. unfold fail_line. repeat case_match; other_lines. Qed.

Section Output.
Context (o : options) (keys : Z) (c : counters) (kinds : list (string * Z)) (res : Z).
Hypothesis kinds_ok : Forall one_line kinds.*1.
Hypothesis codes_ok : forall code, is_Some (errByCode c !! code) -> one_line code.

Lemma err_lines_other : Forall other_line (errLines c).
Proof using codes_ok.
  apply other_map. intros code Hin. unfold err_codes in Hin. rewrite merge_sort_Permutation in Hin.
  apply list_elem_of_fmap in Hin as ((code' & n) & -> & Hin). apply elem_of_map_to_list in Hin.
  pose proof (codes_ok code' (mk_is_Some _ _ Hin)) as Hc. split; [|done]. unfold err_line. cbn [fst]. one_line.
Qed.

Lemma dial_lines_other : Forall other_line (dial_line <$> kinds).
Proof using kinds_ok.
  apply other_map. intros (k & n) Hin. split; [|done]. unfold dial_line. cbn [fst snd]. one_line.
  apply (proj1 (Forall_forall _ _) kinds_ok). by apply (list_elem_of_fmap_2 fst) in Hin.
Qed.

Lemma report_body_other : Forall other_line (report_body o c kinds res).
Proof using kinds_ok codes_ok.
  pose proof dial_lines_other. pose proof err_lines_other. unfold report_body.
  repeat case_decide; rewrite !Forall_app; split_and?; try done; other_lines.
Qed.

Lemma dialing_other : Forall other_line [dialing_line o keys].
Proof using Type. unfold dialing_line. other_lines. Qed.

(** What bench.sh reads for a field is its value. *)
Lemma output_read k v :
  (k, v) ∈ summary_fields o c -> bench_read k (print_lines (output o keys c kinds res)) = [v].
Proof using kinds_ok codes_ok.
  intros Hin. unfold bench_read.
  set (before := dialing_line o keys :: report_body o c kinds res). set (after := fail_line (verdict (o_publishers o) c)).
  assert (output o keys c kinds res = before ++ [summary_line o c] ++ after) as ->.
  { unfold output, report, before, after. by rewrite <- app_assoc. }
  assert (Forall other_line before) as Hb by (apply (Forall_app_2 _ [_]), report_body_other; apply dialing_other).
  pose proof (fail_line_other (verdict (o_publishers o) c) : Forall other_line after) as Ha. clearbody before after.
  rewrite print_lines_split by (rewrite !Forall_app; split_and!;
    [by apply other_one_line|by constructor; [apply summary_one_line|]|by apply other_one_line]).
  rewrite !filter_app, (other_filter before), (other_filter after), (other_filter [""]) by (done || by other_lines).
  rewrite filter_cons_True by (by rewrite summary_line_eq, HasPrefix_app).
  cbn [app]. rewrite filter_nil. cbn [mbind list_bind app]. rewrite summary_words.
  rewrite filter_cons_False by (by rewrite (summary_field_key _ _ _ _ Hin); intros ?).
  rewrite (pick_field _ _ v); [|apply summary_fields_keys| |done].
  - destruct (summary_field_elem _ _ _ _ "=" Hin eq_refl) as [Hk Hv]. cbn. unfold kv_text. cbn [fst snd].
    by rewrite Split_app, Split_none by done.
  - intros (k' & v') Hin'. by destruct (summary_field_elem _ _ _ _ "=" Hin' eq_refl).
Qed.
End Output.

(** ** The tallies of a run *)

(** What every tally keeps holds at the end of a run. *)
Lemma lt_run_ctrs publisher (P : counters -> Prop) tr s0 s :
  (forall b c, P c -> P (count b c)) -> P (lt_ctrs s0) -> lt_run publisher tr s0 = Some s -> P (lt_ctrs s).
Proof.
  intros Hc H0. revert s. induction tr as [|l tr IH] using rev_ind; intros s; [by intros [= <-]|].
  unfold lt_run. rewrite foldl_app. cbn. fold (lt_run publisher tr s0).
  destruct (lt_run _ _ _) as [s1|]; [|done]. cbn. specialize (IH s1 eq_refl).
  destruct l as [i cl|]; cbn [lt_step]; [|by intros [= <-]].
  destruct (lt_pcs s1 !! i) as [p|]; [|done]. cbn [mbind option_bind].
  destruct (conn_step _ _ _ _) as [[p' bs]|]; [|done]. cbn. intros [= <-]. cbn [lt_ctrs].
  revert IH. generalize (lt_ctrs s1). induction bs as [|b bs IHb]; intros c HP; [done|]. cbn. by apply IHb, Hc.
Qed.

Lemma first_line_one msg : one_line (first_line msg).
Proof.
  unfold first_line, one_line. fold nl. destruct (Cut nl msg) as [[a b]|] eqn:E.
  - by apply Cut_Some in E as [_ ?].
  - by apply Cut_None.
Qed.

Lemma dial_kinds_one_line publisher conns tr s :
  lt_run publisher tr (lt_start conns) = Some s -> map_Forall (fun k _ => one_line k) (dialErrKinds (lt_ctrs s)).
Proof.
  apply (lt_run_ctrs publisher (fun c => map_Forall (fun k _ => one_line k) (dialErrKinds c))); [|by apply map_Forall_empty]. intros b c Hc. destruct b; try done.
  by apply map_Forall_insert_2; [apply first_line_one|].
Qed.

(** The last of the sorted samples is the largest. *)
Lemma max_sample l : l <> [] -> exists x, last (merge_sort Z.le l) = Some x /\ x ∈ l /\ forall y, y ∈ l -> y <= x.
Proof.
  intros Hl. destruct (last (merge_sort Z.le l)) as [x|] eqn:E.
  - apply last_Some in E as [l' E]. pose proof (merge_sort_Permutation Z.le l) as Hp. rewrite E in Hp.
    exists x. split; [done|]. split; [rewrite <- Hp; set_solver|]. intros y. rewrite <- Hp.
    intros [Hy|Hy%list_elem_of_singleton]%elem_of_app; [|lia].
    pose proof (StronglySorted_merge_sort Z.le l) as Hs. rewrite E in Hs.
    eapply StronglySorted_app_1_elem_of in Hs; [done..|set_solver].
  - apply last_None in E. pose proof (merge_sort_Permutation Z.le l) as Hp. rewrite E in Hp.
    by apply Permutation_nil in Hp.
Qed.

(** C40. What the benchmark reads is what was counted. Whatever a run's
    counters, flags, dial errors and samples, as long as no error code holds a
    newline, the awk program of scripts/bench.sh, run over everything the load
    generator prints, finds each field of the one SUMMARY line, once, with the
    value the generator printed: sent is the number of publishes written and
    recv the number of events read in the run; and with samples, each latency
    printed is that of a sample, the maximum that of the largest. *)
Theorem report_is_read publisher conns tr s o keys kinds res :
  lt_run publisher tr (lt_start conns) = Some s ->
  kinds ≡ₚ map_to_list (dialErrKinds (lt_ctrs s)) ->
  (forall code, is_Some (errByCode (lt_ctrs s) !! code) -> one_line code) ->
  let read k := bench_read k (print_lines (output o keys (lt_ctrs s) kinds res)) in
  (forall k v, (k, v) ∈ summary_fields o (lt_ctrs s) -> read k = [v])
  /\ read "sent" = [FormatInt (number sends tr)]
  /\ read "recv" = [FormatInt (number receives tr)]
  /\ (lats (lt_ctrs s) <> [] ->
      (forall k, k ∈ ["p50_us"; "p99_us"; "p999_us"; "max_us"] ->
        exists x, x ∈ lats (lt_ctrs s) /\ read k = [fmt_f 1 (us x)])
      /\ exists m, read "max_us" = [fmt_f 1 (us m)] /\ forall x, x ∈ lats (lt_ctrs s) -> x <= m).
Proof.
  intros Hr Hk Hcodes read. pose proof (told_run _ _ _ _ Hr) as Ht. pose proof (dial_kinds_one_line _ _ _ _ Hr) as Hd.
  assert (forall k v, (k, v) ∈ summary_fields o (lt_ctrs s) -> read k = [v]) as Hread.
  { intros k v. apply output_read; [|done]. rewrite Hk. apply Forall_fmap, Forall_forall.
    intros (m & n) Hin. apply elem_of_map_to_list in Hin. by apply Hd in Hin. }
  split; [done|]. rewrite <- (td_sent _ _ _ Ht), <- (td_recv _ _ _ Ht).
  split_and!; [apply Hread; unfold summary_fields; set_solver..|]. intros Hl.
  destruct (max_sample _ Hl) as (m & Hm & Hin & Hmax). split.
  2: { exists m. split; [|done]. apply Hread. unfold summary_fields, max_us. rewrite Hm. set_solver. }
  assert (forall a b, exists x, x ∈ lats (lt_ctrs s) /\ pct_us (lats (lt_ctrs s)) a b = us x) as Hp.
  { intros a b. destruct (percentile_sample _ (fdiv (of_int a) (of_int b)) Hl) as (x & Hx & ?).
    exists x. unfold pct_us. by rewrite Hx. }
  destruct (Hp 1 2) as (x & ? & Hx), (Hp 99 100) as (y & ? & Hy), (Hp 999 1000) as (z & ? & Hz).
  intros k Hin'. set_unfold in Hin'.
  destruct_or! Hin'; subst; [exists x|exists y|exists z|exists m]; (split; [done|]); apply Hread;
    unfold summary_fields, max_us; rewrite ?Hx, ?Hy, ?Hz, ?Hm; set_solver.
Qed.

(** ** Examples *)

Lemma report_is_read_witness :
  bench_read "sent" (print_lines (output bench_options 1 (lt_ctrs demo_end) [] 0)) = ["1"]
  /\ bench_read "max_us" (print_lines (output bench_options 1 (lt_ctrs demo_end) [] 0)) = ["0.0"].
Proof.
  assert (errByCode (lt_ctrs demo_end) = ∅) as He by vm_decide.
  destruct (report_is_read Nat.even 2 demo_run demo_end bench_options 1 [] 0) as (_ & Hs & _ & Hl);
    [vm_compute; reflexivity|vm_compute; reflexivity|intros code; rewrite He, lookup_empty; intros [? [=]]|].
  split; [rewrite Hs; vm_compute; reflexivity|].
  assert (lats (lt_ctrs demo_end) = [4; 4]) as Hlats by (vm_compute; reflexivity).
  rewrite Hlats in Hl. destruct (Hl ltac:(done)) as [Hk _]. destruct (Hk "max_us" ltac:(clear; set_solver)) as (x & Hx & Hm).
  rewrite Hm. clear -Hx. set_unfold in Hx. destruct Hx as [->|[->|[]]]; vm_compute; reflexivity.
Defined.

(** An error code with a newline in it would be taken for a SUMMARY line; the
    server has no such code. *)
Example code_with_newline :
  let code := String nl ("SUMMARY sent=0 " +:+ String nl "") in
  bench_read "sent" (print_lines (output bench_options 1 (countErr code counters_zero) [] 0)) = ["0"; "0"].
Proof. by vm_compute. Qed.

(** The probe: the smallest step of the clock before the deadline. *)
Example probe_examples :
  wallClockResolution 50 [(1, 1, 1); (2, 2, 9); (10, 10, 12); (60, 60, 61)] = 2
  /\ wallClockResolution 50 [(1, 1, 1); (60, 60, 61)] = 0
  /\ interval (of_int 10) = 100000000 /\ interval (of_int 0) = int64_min.
Proof. by vm_compute. Qed.
