(* ===== verification/Endtoend.v ===== *)
(** * The server and its load generator, end to end

    cmd/loadtest's frames through the whole of [handle], and back: a subscribe
    is answered by one frame that the generator takes for what it is, and an
    accepted publish becomes an event it reads its own timestamp from.  Also,
    whatever the encoders write is valid UTF-8, as a text frame must be. *)
From S2P Require Import Prelude GoStd GoBytes Utf8 GoJson Token Channel Registry Sweep Limiter Hub Frame Conn World Handler Membership Run Protocol Service JsonFacts Wire WireData Loadtest.
From stdpp Require Import options.

(** ** Valid UTF-8 *)

Lemma Valid_ascii_app a t : string_forall ascii_byte a = true -> Valid (a +:+ t) = Valid t.
Proof.
  intros Ha. unfold Valid. rewrite utf8_units_ascii, forallb_app by done.
  enough (forallb unit_ok (ascii_units a) = true) as -> by done.
  induction a as [|c a IH]; [done|]. cbn in Ha |- *. apply andb_true_iff in Ha as [Hc Ha].
  rewrite IH by done. unfold unit_ok, ascii_byte in *. cbn. apply N.ltb_lt in Hc.
  rewrite (proj2 (N.eqb_neq _ _)); [done|]. unfold RuneError. lia.
Qed.

(** In front of valid text it is valid. *)
Definition vfront (s : string) : Prop := forall t, Valid t = true -> Valid (s +:+ t) = true.

Lemma vfront_ascii s : string_forall ascii_byte s = true -> vfront s.
Proof. intros Hs t Ht. by rewrite Valid_ascii_app. Qed.

Lemma vfront_app a b : vfront a -> vfront b -> vfront (a +:+ b).
Proof. intros Ha Hb t Ht. rewrite string_app_assoc. by apply Ha, Hb. Qed.

Lemma vfront_cons c s : (ord c < 128)%N -> vfront s -> vfront (String c s).
Proof.
  intros Hc Hs. apply (vfront_app (String c "") s); [|done]. apply vfront_ascii. cbn.
  unfold ascii_byte. by rewrite (proj2 (N.ltb_lt _ _)).
Qed.

Lemma vfront_valid s : vfront s -> Valid s = true.
Proof. intros Hs. rewrite <- (string_app_nil_r s). by apply Hs. Qed.

Lemma enc_vfront html s : vfront (enc_units html (utf8_units s)).
Proof.
  induction s as [|s u s' Hu Heq IH] using utf8_ind; [by intros ?|].
  rewrite Heq. change (vfront (enc_unit html u +:+ enc_units html (utf8_units s'))).
  apply vfront_app; [|done]. unfold enc_unit. destruct (u.1 <? 128)%N eqn:H1.
  { apply vfront_ascii, ascii_units_enc. by apply N.ltb_lt. }
  destruct (unit_ok u) eqn:Hok; cbn [negb]; [|by apply vfront_ascii].
  destruct (u.1 =? 8232)%N; [by apply vfront_ascii|]. destruct (u.1 =? 8233)%N; [by apply vfront_ascii|].
  intros t Ht. by eapply Valid_front.
Qed.

Lemma quote_vfront html s : vfront (quote html s).
Proof.
  unfold quote, in_quotes. apply vfront_cons; [done|]. apply vfront_app; [apply enc_vfront|by apply vfront_ascii].
Qed.

Lemma object_vfront html kvs : Forall (fun kv => vfront kv.2) kvs -> vfront (object html kvs).
Proof.
  intros Hk. unfold object. apply vfront_cons; [done|]. apply vfront_app; [|by apply vfront_ascii].
  induction Hk as [|[k v] kvs Hv _ IH]; [by intros ?|]. cbn [members].
  destruct kvs as [|kv kvs]; (apply vfront_app; [apply quote_vfront|apply vfront_cons; [done|]]); [done|].
  apply vfront_app; [done|]. by apply vfront_cons.
Qed.

Lemma FormatInt_vfront z : vfront (FormatInt z).
Proof.
  apply vfront_ascii. enough (forall c, string_elem c (FormatInt z) = true -> ascii_byte c = true) as Hall.
  { revert Hall. generalize (FormatInt z). intros s. induction s as [|c s IH]; intros Hall; [done|]. cbn in *.
    rewrite Hall, IH; [done| |by rewrite bool_decide_eq_true_2].
    intros d Hd. apply Hall. by rewrite Hd, orb_true_r. }
  intros c Hc. destruct (ascii_byte c) eqn:Ha; [done|]. exfalso. apply not_false_iff_true in Hc. apply Hc.
  unfold ascii_byte in Ha. apply N.ltb_ge in Ha. apply FormatInt_elem.
  - unfold digit_val. fold (ord c). rewrite decide_False; [done|lia].
  - intros ->. by vm_compute in Ha.
Qed.

(** ** The frames *)

Lemma sub_frame_valid channel : Valid (sub_frame channel) = true.
Proof.
  apply vfront_valid. unfold sub_frame, encode_map. apply object_vfront.
  repeat constructor; apply quote_vfront.
Qed.

Lemma pub_frame_valid channel t : Valid (pub_frame channel t) = true.
Proof.
  apply vfront_valid. unfold pub_frame, encode_map at 1. apply object_vfront.
  repeat constructor; cbn [snd]; try apply quote_vfront.
  unfold encode_map. apply object_vfront. repeat constructor. apply FormatInt_vfront.
Qed.

Section Endtoend.
Context {R B F : Type} `{RegistryLaws R, TokenBucket B, !Fanout R B F, !FanoutLaws R B F}.
Context (cfg : Config) (rd : readings).
Implicit Types (w : World R B F) (c : Conn B).

(** A failed check's refusal is one of the list's. *)
Lemma first_failure_elem checks e : first_failure checks = Some e -> e ∈ checks.*1.
Proof using Type.
  induction checks as [|[e' []] checks IH]; [done|..]; cbn.
  - intros He. right. by apply IH.
  - intros [= ->]. left.
Qed.

(** The refusals are texts, with a code. *)
Definition text_refusal (e : refusal) : bool := Valid e.1 && Valid e.2 && negb (bool_decide (e.1 = "")).

Lemma subscribe_refusal_text c msg w e : subscribe_refusal cfg rd c msg w = Some e -> text_refusal e = true.
Proof using Type.
  intros He. enough (e ∈ [reserved_refusal] ++ (control_checks rd c w).*1 ++ (token_checks cfg rd c msg w).*1
    ++ [("LIMIT_CHANNELS", "max channels per conn")] ++ (join_checks rd msg w).*1) as Hin.
  { assert (Forall (fun e => text_refusal e = true) ([reserved_refusal] ++ (control_checks rd c w).*1
      ++ (token_checks cfg rd c msg w).*1 ++ [("LIMIT_CHANNELS", "max channels per conn")] ++ (join_checks rd msg w).*1))
      as Hall by (repeat constructor). by apply (proj1 (Forall_forall _ _) Hall). }
  unfold subscribe_refusal in He. destruct (first_failure (_ :: _)) as [e'|] eqn:E.
  - simplify_eq. apply first_failure_elem in E. rewrite fmap_cons in E. cbn [fst] in E.
    rewrite !elem_of_app. apply elem_of_cons in E as [->|?]; [left; by left|by right; left].
  - case_decide; [done|]. apply first_failure_elem in He. rewrite !fmap_app in He. cbn [fmap list_fmap fst] in He.
    rewrite !elem_of_app in *. tauto.
Qed.

Lemma publish_refusal_text c msg w e : publish_refusal rd c msg w = Some e -> text_refusal e = true.
Proof using Type.
  intros He%first_failure_elem.
  match type of He with _ ∈ ?l => assert (Forall (fun e => text_refusal e = true) l) as Hall by (repeat constructor) end.
  by apply (proj1 (Forall_forall _ _) Hall).
Qed.

Lemma op_error_valid msg e :
  Valid (in_Type msg) = true -> Valid (in_Channel msg) = true -> text_refusal e = true ->
  valid_error (op_error msg e.1 e.2) = true.
Proof using Type.
  unfold text_refusal. intros Ht Hc He. bool_hyps. unfold valid_error, op_error.
  cbn [forallb ef_Type ef_Code ef_Message ef_Op ef_Channel].
  case_decide; repeat (apply andb_true_iff; split); done.
Qed.

(** ** The meeting *)

(** The generator's subscribe is answered by one frame: the ack, which it takes
    for the ack, and the conn holds the channel; or an error frame whose code it
    counts, and nothing was joined. *)
Lemma subscribe_meets i c w channel :
  world_ok w -> w_conns w !! i = Some c -> Valid channel = true -> ValidateChannelName channel = Ok tt ->
  let msg := MkIncoming "subscribe" channel "" None in
  exists frame subs', replied i c frame subs' w (handle cfg rd i (sub_frame channel) w)
    /\ match subscribe_refusal cfg rd c msg w with
       | None => ack_read frame = AckOk /\ is_Some (subs' !! channel)
       | Some (code, _) => ack_read frame = AckErr code /\ code <> "" /\ subs' = conn_subs c
       end.
Proof using All.
  intros Hok Hi Hv Hn msg. destruct (subscribe_outcome cfg rd i msg c w Hok Hi) as (subs' & Hrep & Hs).
  exists (answer msg "subscribed" (subscribe_refusal cfg rd c msg w)), subs'. split.
  - rewrite (handle_op _ _ _ _ msg) by first [exact (sub_frame_valid _) | by apply sub_frame_read | done].
    unfold channel_refusal, dispatch. cbn [in_Channel in_Type msg]. by rewrite Hn, decide_True.
  - destruct (subscribe_refusal cfg rd c msg w) as [[code m]|] eqn:Hr; cbn [answer].
    + apply subscribe_refusal_text in Hr. pose proof (op_error_valid msg (code, m) eq_refl Hv Hr) as He.
      rewrite ack_error by done. unfold text_refusal in Hr. bool_hyps. done.
    + split; [by apply ack_frame_read|]. apply Hs.
Qed.

(** C38. The load generator meets the server. In any consistent world, the
    generator's subscribe frame, handled, is answered by one frame: the ack,
    which it takes for the ack, and the conn holds the channel; or an error
    frame whose non-empty code it counts, and nothing was joined. Its publish,
    handled, is either refused by an error frame whose code it counts, or
    broadcast on the channel the conn holds as an event that it reads as one,
    with the very timestamp it sent, and does not take for an ack. *)
Theorem generator_meets_server i c w channel t :
  world_ok w -> w_conns w !! i = Some c -> Valid channel = true -> ValidateChannelName channel = Ok tt ->
  (0 < t)%Z -> int64_ok t -> Valid (rd_ulid rd) = true ->
  let sub := MkIncoming "subscribe" channel "" None in
  let pub := MkIncoming "publish" channel "" (Some (t_text t)) in
  (exists frame subs', replied i c frame subs' w (handle cfg rd i (sub_frame channel) w)
    /\ match subscribe_refusal cfg rd c sub w with
       | None => ack_read frame = AckOk /\ is_Some (subs' !! channel)
       | Some (code, _) => ack_read frame = AckErr code /\ code <> "" /\ subs' = conn_subs c
       end)
  /\ match publish_refusal rd c pub w with
     | Some (code, _) => exists frame,
         replied i c frame (conn_subs c) w (handle cfg rd i (pub_frame channel t) w) /\ reader_frame frame = RErr code
     | None => exists ch event, conn_subs c !! channel = Some ch
         /\ handle cfg rd i (pub_frame channel t) w = Broadcast cfg ch event (inc_Published (charge_publish rd i c w))
         /\ reader_frame event = REvent (Some t) /\ ack_read event = AckKeep
     end.
Proof using All.
  intros Hok Hi Hv Hn Ht Ht64 Hid sub pub. split; [by apply subscribe_meets|].
  pose proof (publish_outcome cfg rd i pub c w Hi) as Hp.
  assert (handle cfg rd i (pub_frame channel t) w = handlePublish cfg rd i pub w) as ->.
  { rewrite (handle_op _ _ _ _ pub) by first [exact (pub_frame_valid _ _) | by apply pub_frame_read | done].
    unfold channel_refusal, dispatch. cbn [in_Channel in_Type pub]. by rewrite Hn, decide_False, decide_False, decide_True. }
  destruct (publish_refusal rd c pub w) as [[code m]|] eqn:Hr.
  - eexists. split; [exact Hp|]. apply publish_refusal_text in Hr.
    apply (reader_error (op_error pub code m)); [|done]. by apply (op_error_valid pub (code, m)).
  - destruct Hp as (ch & Hch & Hp). exists ch, (event_frame channel (Some (t_text t)) (rd_ulid rd)).
    split_and!; [done|done|by apply event_is_read|by apply event_is_no_ack].
Qed.
End Endtoend.

(** A conn subscribes to a second channel. *)
Lemma generator_meets_server_witness :
  exists frame subs',
    replied 1 (conn_at 1 demo2) frame subs' demo2 (handle demo_cfg demo_rd 1 (sub_frame "loadtest-7") demo2)
    /\ ack_read frame = AckOk /\ is_Some (subs' !! "loadtest-7").
Proof.
  destruct (generator_meets_server demo_cfg demo_rd 1 (conn_at 1 demo2) demo2 "loadtest-7" 1700000000000000000)
    as [(frame & subs' & Hr & Hm) _].
  - exact demo2_ok.
  - apply is_open_conn, demo2_open.
  - by vm_compute.
  - by vm_compute.
  - by vm_compute.
  - split; by vm_compute.
  - by vm_compute.
  - exists frame, subs'. split; [exact Hr|].
    replace (subscribe_refusal demo_cfg demo_rd (conn_at 1 demo2) (MkIncoming "subscribe" "loadtest-7" "" None) demo2)
      with (None : option refusal) in Hm by (vm_compute; reflexivity).
    exact Hm.
Defined.
