(* ===== verification/Store.v ===== *)
(** * internal/store: the key stores

    [store.go]'s interface as a class with its contract, and the two
    implementations: [memory.go]'s map and [sqlite.go]'s table.  The SQL engine
    is a class of its own, with what its four statements are documented to do;
    identifiers ([ulid.Make]) and clock readings are arguments. *)
From S2P Require Import Prelude GoStd GoPath.
From stdpp Require Import options.

Record Key : Type := MkKey {
  k_ID : string;
  k_Name : string;
  k_SecretHash : string;
  k_CreatedAt : Z;
  k_RevokedAt : option Z;
}.

#[export] Instance Key_eq_dec : EqDecision Key.
Proof. solve_decision. Defined.

Inductive store_err : Type :=
  | ErrKeyNotFound
  | ErrBackend (msg : string).

#[export] Instance store_err_eq_dec : EqDecision store_err.
Proof. solve_decision. Defined.

Definition revoked_at (t : Z) (k : Key) : Key :=
  MkKey (k_ID k) (k_Name k) (k_SecretHash k) (k_CreatedAt k) (Some t).

(** ** The interface *)

Class Store (S : Type) : Type := {
  CreateKey : string -> Z -> string -> string -> S -> res store_err Key * S;
  LookupKey : string -> S -> res store_err Key * S;
  ListKeys : S -> res store_err (list Key) * S;
  RevokeKey : Z -> string -> S -> res store_err unit * S;
}.

(** Its contract: a store is a map from identifiers to keys, whose times it
    keeps with some precision, and an operation that fails changes nothing. *)
Class StoreLaws (S : Type) `{Store S} : Type := {
  keys : S -> gmap string Key;
  stored_time : Z -> Z;
  CreateKey_law id now name hash s r s' :
    CreateKey id now name hash s = (r, s') ->
    match r with
    | Ok k => k = MkKey id name hash now None
        /\ keys s' = <[id := MkKey id name hash (stored_time now) None]> (keys s)
    | Err ErrKeyNotFound => False
    | Err _ => keys s' = keys s
    end;
  LookupKey_law id s r s' :
    LookupKey id s = (r, s') ->
    keys s' = keys s /\
    match r with
    | Ok k => keys s !! id = Some k
    | Err ErrKeyNotFound => keys s !! id = None
    | Err _ => True
    end;
  ListKeys_law s r s' :
    ListKeys s = (r, s') ->
    keys s' = keys s /\
    match r with
    | Ok ks => ks ≡ₚ (map_to_list (keys s)).*2
    | Err ErrKeyNotFound => False
    | Err _ => True
    end;
  RevokeKey_law now id s r s' :
    RevokeKey now id s = (r, s') ->
    match r with
    | Ok _ => exists k, keys s !! id = Some k
        /\ keys s' = <[id := revoked_at (stored_time now) k]> (keys s)
    | Err ErrKeyNotFound => keys s !! id = None /\ keys s' = keys s
    | Err _ => keys s' = keys s
    end;
}.

(** ** memory.go *)
Module Memory.

Record memoryStore : Type := MkMemory { mkeys : gmap string Key }.

Definition NewMemory : memoryStore := MkMemory ∅.

Definition CreateKey (id : string) (now : Z) (name secretHash : string) (m : memoryStore)
    : res store_err Key * memoryStore :=
  let k := MkKey id name secretHash now None in
  (Ok k, MkMemory (<[k_ID k := k]> (mkeys m))).

Definition LookupKey (id : string) (m : memoryStore) : res store_err Key * memoryStore :=
  match mkeys m !! id with
  | None => (Err ErrKeyNotFound, m)
  | Some k => (Ok k, m)
  end.

Definition ListKeys (m : memoryStore) : res store_err (list Key) * memoryStore :=
  (Ok (map_to_list (mkeys m)).*2, m).

Definition RevokeKey (now : Z) (id : string) (m : memoryStore)
    : res store_err unit * memoryStore :=
  match mkeys m !! id with
  | None => (Err ErrKeyNotFound, m)
  | Some k => (Ok tt, MkMemory (<[id := revoked_at now k]> (mkeys m)))
  end.

End Memory.

#[export] Instance memory_store : Store Memory.memoryStore := {
  CreateKey := Memory.CreateKey;
  LookupKey := Memory.LookupKey;
  ListKeys := Memory.ListKeys;
  RevokeKey := Memory.RevokeKey;
}.

#[export] Instance memory_laws : StoreLaws Memory.memoryStore.
Proof.
  refine {| keys := Memory.mkeys; stored_time t := t |}.
  - intros id now name hash s r s' [= <- <-]. done.
  - cbn. unfold Memory.LookupKey. intros. case_match; by simplify_eq.
  - cbn. intros s r s' [= <- <-]. done.
  - cbn. unfold Memory.RevokeKey. intros. case_match; simplify_eq; naive_solver.
Defined.

(** ** sqlite.go *)

(** A row of [keys], and the statements [sqlite.go] runs on the table: the
    INSERT, the SELECT by id, the SELECT of all rows and the UPDATE, which
    reports the number of rows it affected. *)
Record Row : Type := MkRow {
  r_id : string;
  r_name : string;
  r_secret_hash : string;
  r_created_at : Z;
  r_revoked_at : option Z;
}.

Definition row_revoked (t : Z) (r : Row) : Row :=
  MkRow (r_id r) (r_name r) (r_secret_hash r) (r_created_at r) (Some t).

Class SqlKeys (D : Type) : Type := {
  sql_insert : Row -> D -> res string unit * D;
  sql_select : string -> D -> res string (option Row) * D;
  sql_select_all : D -> res string (list Row) * D;
  sql_revoke : Z -> string -> D -> res string nat * D;
}.

(** What SQL says of them on a table whose primary key is [id]; a statement
    that fails has no effect. *)
Class SqlLaws (D : Type) `{SqlKeys D} : Type := {
  table : D -> gmap string Row;
  sql_insert_law r d q d' :
    sql_insert r d = (q, d') ->
    match q with
    | Ok _ => table d !! r_id r = None /\ table d' = <[r_id r := r]> (table d)
    | Err _ => table d' = table d
    end;
  sql_select_law id d q d' :
    sql_select id d = (q, d') ->
    table d' = table d /\ match q with Ok o => o = table d !! id | Err _ => True end;
  sql_select_all_law d q d' :
    sql_select_all d = (q, d') ->
    table d' = table d
    /\ match q with Ok rs => rs ≡ₚ (map_to_list (table d)).*2 | Err _ => True end;
  sql_revoke_law t id d q d' :
    sql_revoke t id d = (q, d') ->
    match q with
    | Ok n => table d' = alter (row_revoked t) id (table d)
        /\ n = match table d !! id with Some _ => 1 | None => 0 end
    | Err _ => table d' = table d
    end;
}.

(** A concrete engine: the table in memory. *)
Definition TableDB : Type := gmap string Row.

#[export] Instance table_sql : SqlKeys TableDB := {
  sql_insert r d :=
    match d !! r_id r with
    | Some _ => (Err "UNIQUE constraint failed: keys.id", d)
    | None => (Ok tt, <[r_id r := r]> d)
    end;
  sql_select id d := (Ok (d !! id), d);
  sql_select_all d := (Ok (map_to_list d).*2, d);
  sql_revoke t id d :=
    (Ok (match d !! id with Some _ => 1 | None => 0 end), alter (row_revoked t) id d);
}.

(** *** The path guard *)

(** [strings.ContainsAny]. *)
Definition ContainsAny (s : string) (chars : list ascii) : bool :=
  existsb (fun c => string_elem c s) chars.

Inductive path_err : Type :=
  | PathEmpty
  | PathRelative
  | PathForbidden.

Definition forbidden : list ascii :=
  ["?"; "#"; ascii_of_N 0; ascii_of_N 10; ascii_of_N 13]%char.

Definition validateDBPath (path : string) : res path_err unit :=
  if decide (path = "") then Err PathEmpty
  else if negb (IsAbs path) then Err PathRelative
  else if ContainsAny path forbidden then Err PathForbidden
  else Ok tt.

Definition dsn_query : string := "_journal_mode=WAL&_busy_timeout=5000".

(** The DSN [NewSQLite] opens. *)
Definition sqlite_dsn (path : string) : string := path +:+ "?" +:+ dsn_query.

Module Sqlite.

Record sqliteStore (D : Type) : Type := MkSqlite { db : D }.
Arguments MkSqlite {D} db.
Arguments db {D} _.

Section Sqlite.
Context {D : Type} `{SqlKeys D}.

Definition CreateKey (id : string) (now : Z) (name secretHash : string) (s : sqliteStore D)
    : res store_err Key * sqliteStore D :=
  let k := MkKey id name secretHash now None in
  let '(q, d) := sql_insert (MkRow (k_ID k) (k_Name k) (k_SecretHash k)
                               (UnixMilli (k_CreatedAt k)) None) (db s) in
  match q with
  | Ok _ => (Ok k, MkSqlite d)
  | Err e => (Err (ErrBackend e), MkSqlite d)
  end.

(** The scan of a row, in [LookupKey] and [ListKeys] alike. *)
Definition scan_row (r : Row) : Key :=
  MkKey (r_id r) (r_name r) (r_secret_hash r) (time_of_millis (r_created_at r))
    (time_of_millis <$> r_revoked_at r).

Definition LookupKey (id : string) (s : sqliteStore D) : res store_err Key * sqliteStore D :=
  let '(q, d) := sql_select id (db s) in
  match q with
  | Ok None => (Err ErrKeyNotFound, MkSqlite d)
  | Ok (Some r) => (Ok (scan_row r), MkSqlite d)
  | Err e => (Err (ErrBackend e), MkSqlite d)
  end.

Definition ListKeys (s : sqliteStore D) : res store_err (list Key) * sqliteStore D :=
  let '(q, d) := sql_select_all (db s) in
  match q with
  | Ok rs => (Ok (scan_row <$> rs), MkSqlite d)
  | Err e => (Err (ErrBackend e), MkSqlite d)
  end.

Definition RevokeKey (now : Z) (id : string) (s : sqliteStore D)
    : res store_err unit * sqliteStore D :=
  let '(q, d) := sql_revoke (UnixMilli now) id (db s) in
  match q with
  | Err e => (Err (ErrBackend e), MkSqlite d)
  | Ok n => if decide (n = 0) then (Err ErrKeyNotFound, MkSqlite d) else (Ok tt, MkSqlite d)
  end.
End Sqlite.

End Sqlite.

#[export] Instance sqlite_store {D} `{SqlKeys D} : Store (Sqlite.sqliteStore D) := {
  CreateKey := Sqlite.CreateKey;
  LookupKey := Sqlite.LookupKey;
  ListKeys := Sqlite.ListKeys;
  RevokeKey := Sqlite.RevokeKey;
}.

Lemma alter_Some `{Countable K} {A} (f : A -> A) (m : gmap K A) i x :
  m !! i = Some x -> alter f i m = <[i := f x]> m.
Proof.
  intros Hi. apply map_eq. intros j. rewrite lookup_alter, lookup_insert.
  repeat case_decide; subst; by rewrite ?Hi.
Qed.

Lemma alter_None `{Countable K} {A} (f : A -> A) (m : gmap K A) i :
  m !! i = None -> alter f i m = m.
Proof.
  intros Hi. apply map_eq. intros j. rewrite lookup_alter.
  case_decide; subst; by rewrite ?Hi.
Qed.

#[export] Instance table_laws : SqlLaws TableDB.
Proof.
  refine {| table d := d |}; cbn.
  - intros r d q d'. intros Hq. case_hyp Hq; by simplify_eq.
  - by intros id d q d' [= <- <-].
  - by intros d q d' [= <- <-].
  - by intros t id d q d' [= <- <-].
Defined.

#[export] Instance sqlite_laws {D} `{SqlLaws D} : StoreLaws (Sqlite.sqliteStore D).
Proof.
  refine {| keys s := Sqlite.scan_row <$> table (Sqlite.db s);
            stored_time t := time_of_millis (UnixMilli t) |}; cbn.
  - unfold Sqlite.CreateKey. intros id now name hash s r s' Hr.
    destruct (sql_insert _ _) as [q d] eqn:Hq. apply sql_insert_law in Hq.
    destruct q; simplify_eq/=; [|by rewrite Hq]. destruct Hq as [_ ->]. by rewrite fmap_insert.
  - unfold Sqlite.LookupKey. intros id s r s' Hr.
    destruct (sql_select _ _) as [q d] eqn:Hq. apply sql_select_law in Hq as [Ht Hq].
    destruct q as [[row|]|]; simplify_eq/=; rewrite Ht, ?lookup_fmap, <- ?Hq; done.
  - unfold Sqlite.ListKeys. intros s r s' Hr.
    destruct (sql_select_all _) as [q d] eqn:Hq. apply sql_select_all_law in Hq as [Ht Hq].
    destruct q as [rs|]; simplify_eq/=; rewrite Ht; split; try done.
    rewrite Hq, map_to_list_fmap, <- !list_fmap_compose. done.
  - unfold Sqlite.RevokeKey. intros now id s r s' Hr.
    destruct (sql_revoke _ _ _) as [q d] eqn:Hq. apply sql_revoke_law in Hq.
    destruct q as [n|]; [|by simplify_eq/=; rewrite Hq]. destruct Hq as [Ht ->].
    destruct (table (Sqlite.db s) !! id) as [row|] eqn:Hrow; simplify_eq/=.
    + exists (Sqlite.scan_row row). rewrite lookup_fmap, Hrow. split; [done|].
      rewrite Ht, (alter_Some _ _ _ _ Hrow), fmap_insert. done.
    + rewrite lookup_fmap, Hrow, Ht. split; [done|]. by rewrite (alter_None _ _ _ Hrow).
Defined.

(** ** Runs of a store *)

Inductive store_op : Type :=
  | OpCreate (id : string) (now : Z) (name hash : string)
  | OpLookup (id : string)
  | OpList
  | OpRevoke (now : Z) (id : string).

Inductive store_answer : Type :=
  | AKey (r : res store_err Key)
  | AKeys (r : res store_err (list Key))
  | ADone (r : res store_err unit).

Definition store_step {S} `{Store S} (o : store_op) (s : S) : store_answer * S :=
  match o with
  | OpCreate id now name hash => let '(r, s') := CreateKey id now name hash s in (AKey r, s')
  | OpLookup id => let '(r, s') := LookupKey id s in (AKey r, s')
  | OpList => let '(r, s') := ListKeys s in (AKeys r, s')
  | OpRevoke now id => let '(r, s') := RevokeKey now id s in (ADone r, s')
  end.

Fixpoint store_run {S} `{Store S} (ops : list store_op) (s : S) : list store_answer * S :=
  match ops with
  | [] => ([], s)
  | o :: ops' =>
      let '(a, s') := store_step o s in
      let '(l, s2) := store_run ops' s' in (a :: l, s2)
  end.

(** Did the backend answer? *)
Definition no_backend_err {A} (r : res store_err A) : bool :=
  match r with Err (ErrBackend _) => false | _ => true end.

Definition answered (a : store_answer) : bool :=
  match a with
  | AKey r => no_backend_err r
  | AKeys r => no_backend_err r
  | ADone r => no_backend_err r
  end.

(** A key to the millisecond. *)
Definition to_millis (t : Z) : Z := time_of_millis (UnixMilli t).
Definition round_key (k : Key) : Key :=
  MkKey (k_ID k) (k_Name k) (k_SecretHash k) (to_millis (k_CreatedAt k))
    (to_millis <$> k_RevokedAt k).

(** Two answers that say the same, to the millisecond and up to order. *)
Definition same_answer (a b : store_answer) : Prop :=
  match a, b with
  | AKey (Ok k), AKey (Ok k') => round_key k = round_key k'
  | AKeys (Ok ks), AKeys (Ok ks') => (round_key <$> ks) ≡ₚ (round_key <$> ks')
  | AKey (Err e), AKey (Err e') => e = e'
  | ADone r, ADone r' => r = r'
  | _, _ => False
  end.

Lemma to_millis_idem t : to_millis (to_millis t) = to_millis t.
Proof.
  unfold to_millis, UnixMilli, time_of_millis. by rewrite Z.div_mul.
Qed.

Lemma round_key_idem k : round_key (round_key k) = round_key k.
Proof.
  destruct k as [? ? ? ? r]. unfold round_key. cbn. rewrite to_millis_idem.
  destruct r; cbn; by rewrite ?to_millis_idem.
Qed.

Lemma round_revoked t k : round_key (revoked_at t k) = revoked_at (to_millis t) (round_key k).
Proof. done. Qed.

Section Agree.
Context {S : Type} `{StoreLaws S}.
Context (Hprec : forall t, stored_time t = to_millis t).

(** One operation on the map and on a lawful store with millisecond times. *)
Lemma agree_step o (m : Memory.memoryStore) (s : S) a s' :
  keys s = round_key <$> Memory.mkeys m ->
  store_step o s = (a, s') -> answered a = true ->
  same_answer (store_step o m).1 a
  /\ keys s' = round_key <$> Memory.mkeys (store_step o m).2.
Proof using All.
  intros Hk Hs Ha. destruct o as [id now name hash|id| |now id]; cbn in Hs.
  - destruct (CreateKey _ _ _ _ s) as [r s1] eqn:E. simplify_eq/=.
    apply CreateKey_law in E. destruct r as [k|[]]; [|done..]. destruct E as [-> ->].
    by rewrite Hk, Hprec, fmap_insert.
  - destruct (LookupKey _ s) as [r s1] eqn:E. simplify_eq/=.
    apply LookupKey_law in E as [-> Hr]. unfold Memory.LookupKey. rewrite Hk, lookup_fmap in Hr.
    destruct r as [k|[]]; [| |done]; destruct (Memory.mkeys m !! id); simplify_eq/=; [|done].
    split; [|done]. by rewrite round_key_idem.
  - destruct (ListKeys s) as [r s1] eqn:E. simplify_eq/=.
    apply ListKeys_law in E as [-> Hr]. split; [|done]. destruct r as [ks|[]]; [|done..].
    rewrite Hr, Hk, map_to_list_fmap, <- !list_fmap_compose. apply Permutation_refl'.
    apply list_fmap_ext. intros ? [? k] _. cbn. by rewrite round_key_idem.
  - destruct (RevokeKey _ _ s) as [r s1] eqn:E. simplify_eq/=.
    apply RevokeKey_law in E. unfold Memory.RevokeKey.
    destruct r as [[]|[]]; [| |done]; [destruct E as (k & E & ->)|destruct E as [E ->]];
      rewrite Hk, lookup_fmap in E; destruct (Memory.mkeys m !! id) as [k'|]; simplify_eq/=; [|done].
    by rewrite Hk, Hprec, fmap_insert, round_revoked.
Qed.

Lemma agree_run ops (m : Memory.memoryStore) (s : S) l s' :
  keys s = round_key <$> Memory.mkeys m ->
  store_run ops s = (l, s') -> Forall (fun a => answered a = true) l ->
  Forall2 same_answer (store_run ops m).1 l.
Proof using All.
  revert m s l s'. induction ops as [|o ops IH]; intros m s l s' Hk Hs Hl; cbn in *.
  { by simplify_eq. }
  destruct (store_step o s) as [a s1] eqn:Ho. destruct (store_run ops s1) as [l1 s2] eqn:Hr.
  simplify_eq. apply Forall_cons in Hl as [Ha Hl].
  destruct (agree_step _ _ _ _ _ Hk Ho Ha) as [Hsame Hk'].
  destruct (store_step o m) as [am m1] eqn:Hm. cbn in *.
  specialize (IH _ _ _ _ Hk' Hr Hl). destruct (store_run ops m1) as [lm m2]. by constructor.
Qed.
End Agree.

Lemma sqlite_precision {D} `{SqlLaws D} t :
  stored_time (S := Sqlite.sqliteStore D) t = to_millis t.
Proof. reflexivity. Qed.

(** C22. The two key stores agree. Any sequence of operations that SQLite
    answers gets from the memory store the same answers, to the millisecond and
    up to the order of a listing. *)
Theorem stores_agree {D} `{SqlLaws D} ops (d : D) l s' :
  table d = ∅ ->
  store_run ops (Sqlite.MkSqlite d) = (l, s') ->
  Forall (fun a => answered a = true) l ->
  Forall2 same_answer (store_run ops Memory.NewMemory).1 l.
Proof.
  intros Hd Hr Hl. apply (agree_run sqlite_precision ops _ (Sqlite.MkSqlite d) l s'); [|done..].
  cbn. by rewrite Hd, !fmap_empty.
Qed.

(** ** Revocation is for good *)

Definition creates (id : string) (o : store_op) : Prop :=
  match o with OpCreate id' _ _ _ => id' = id | _ => False end.

Definition is_revoked {S} `{StoreLaws S} (id : string) (s : S) : Prop :=
  exists k, keys s !! id = Some k /\ is_Some (k_RevokedAt k).

Lemma revoked_step {S} `{StoreLaws S} id o (s : S) :
  is_revoked id s -> ~ creates id o -> is_revoked id (store_step o s).2.
Proof.
  intros (k & Hk & Hr) Ho. unfold is_revoked.
  destruct o as [id' now name hash|id'| |now id']; cbn.
  - destruct (CreateKey _ _ _ _ s) as [r s1] eqn:E. cbn. apply CreateKey_law in E.
    destruct r as [k'|[]]; [|done|rewrite E; eauto]. destruct E as [_ ->].
    rewrite lookup_insert_ne by done. eauto.
  - destruct (LookupKey _ s) as [r s1] eqn:E. cbn. apply LookupKey_law in E as [-> _]. eauto.
  - destruct (ListKeys s) as [r s1] eqn:E. cbn. apply ListKeys_law in E as [-> _]. eauto.
  - destruct (RevokeKey _ _ s) as [r s1] eqn:E. cbn. apply RevokeKey_law in E.
    destruct r as [[]|[]]; [destruct E as (k' & Hk' & ->)|destruct E as [_ ->]; eauto|rewrite E; eauto].
    rewrite lookup_insert. case_decide; [|eauto]. eexists. split; [done|]. by eexists.
Qed.

Lemma revoked_run {S} `{StoreLaws S} id ops (s : S) :
  is_revoked id s -> Forall (fun o => ~ creates id o) ops ->
  is_revoked id (store_run ops s).2.
Proof.
  revert s. induction ops as [|o ops IH]; intros s Hs Ho; [done|].
  apply Forall_cons in Ho as [Ho Hops]. cbn.
  pose proof (revoked_step id o s Hs Ho) as Hs1.
  destruct (store_step o s) as [a s1]. cbn [snd] in Hs1. specialize (IH _ Hs1 Hops).
  by destruct (store_run ops s1).
Qed.

(** Revocation is for good. In any store that keeps the contract, once
    RevokeKey has succeeded for an identifier, whatever operations follow (other
    than creating that identifier anew), looking it up never yields a key that
    is not revoked. *)
Theorem revocation_is_permanent {S} `{StoreLaws S} now id ops (s s1 : S) :
  RevokeKey now id s = (Ok tt, s1) ->
  Forall (fun o => ~ creates id o) ops ->
  match (LookupKey id (store_run ops s1).2).1 with
  | Ok k => is_Some (k_RevokedAt k)
  | Err e => e <> ErrKeyNotFound
  end.
Proof.
  intros Hr Hops. apply RevokeKey_law in Hr as (k & Hk & Hk1).
  assert (is_revoked id s1) as Hs1.
  { exists (revoked_at (stored_time now) k). rewrite Hk1, lookup_insert_eq. split; [done|]. by eexists. }
  destruct (revoked_run _ _ _ Hs1 Hops) as (k' & Hk' & Hrev).
  destruct (LookupKey id (store_run ops s1).2) as [r s2] eqn:E. cbn.
  apply LookupKey_law in E as [_ E]. destruct r as [k2|[]]; congruence.
Qed.

(** What a run does not name it keeps. *)
Definition touches (id : string) (o : store_op) : Prop :=
  match o with OpCreate id' _ _ _ => id' = id | OpRevoke _ id' => id' = id | _ => False end.

Lemma kept_step {S} `{StoreLaws S} id o (s : S) :
  ~ touches id o -> keys (store_step o s).2 !! id = keys s !! id.
Proof.
  intros Ho. destruct o as [id' now name hash|id'| |now id']; cbn.
  - destruct (CreateKey _ _ _ _ s) as [r s1] eqn:E. cbn. apply CreateKey_law in E.
    destruct r as [k'|[]]; [|done|by rewrite E]. destruct E as [_ ->]. by rewrite lookup_insert_ne.
  - destruct (LookupKey _ s) as [r s1] eqn:E. cbn. by apply LookupKey_law in E as [-> _].
  - destruct (ListKeys s) as [r s1] eqn:E. cbn. by apply ListKeys_law in E as [-> _].
  - destruct (RevokeKey _ _ s) as [r s1] eqn:E. cbn. apply RevokeKey_law in E.
    destruct r as [[]|[]]; [destruct E as (k' & _ & ->)|by destruct E as [_ ->]|by rewrite E].
    by rewrite lookup_insert_ne.
Qed.

Lemma kept_run {S} `{StoreLaws S} id ops (s : S) :
  Forall (fun o => ~ touches id o) ops -> keys (store_run ops s).2 !! id = keys s !! id.
Proof.
  intros Hops. revert s. induction Hops as [|o ops Ho _ IH]; intros s; [done|]. cbn.
  pose proof (kept_step id o s Ho) as Hs.
  destruct (store_step o s) as [a s1]. cbn [snd] in Hs. rewrite <- Hs, <- (IH s1).
  by destruct (store_run ops s1).
Qed.

(** ** The path guard *)

Lemma validateDBPath_ok path :
  validateDBPath path = Ok tt
  <-> IsAbs path = true /\ Forall (fun c => string_elem c path = false) forbidden.
Proof.
  unfold validateDBPath, ContainsAny. rewrite Forall_forall.
  case_decide as Hp; [subst; naive_solver|].
  destruct (IsAbs path); cbn [negb]; [|naive_solver].
  destruct (existsb _ _) eqn:Hc.
  - apply existsb_exists in Hc as (c & Hin & Hc). split; [done|]. intros [_ Hall].
    rewrite Hall in Hc; [done|]. by apply list_elem_of_In.
  - split; [|done]. intros _. split; [done|]. intros c Hin.
    apply not_true_iff_false. intros Hc'. apply not_true_iff_false in Hc. apply Hc, existsb_exists.
    exists c. split; [by apply list_elem_of_In|done].
Qed.

(** No DSN smuggling. An accepted database path is absolute and is exactly
    what the DSN's first question mark separates from the server's own
    parameters. *)
Theorem db_path_is_the_dsn_path path :
  validateDBPath path = Ok tt ->
  Cut "?" (sqlite_dsn path) = Some (path, dsn_query)
  /\ string_elem "#" (sqlite_dsn path) = false
  /\ IsAbs path = true.
Proof.
  intros [Habs Hf]%validateDBPath_ok. rewrite Forall_forall in Hf.
  split_and!; [|unfold sqlite_dsn|done].
  - apply Cut_app, Hf. set_solver.
  - rewrite string_elem_app, Hf; [done|]. set_solver.
Qed.

(** ** Concrete runs *)

(** Times are of 2.5 ms and 3.7 ms. *)
Definition demo_ops : list store_op :=
  [OpCreate "K1" 2500000 "alice" "h1"; OpLookup "K1"; OpRevoke 3700000 "K1"; OpLookup "K1";
   OpList; OpRevoke 0 "nobody"].

Lemma stores_agree_witness :
  Forall2 same_answer (store_run demo_ops Memory.NewMemory).1
    (store_run demo_ops (Sqlite.MkSqlite (∅ : TableDB))).1.
Proof.
  apply (stores_agree demo_ops (∅ : TableDB) _
    (store_run demo_ops (Sqlite.MkSqlite (∅ : TableDB))).2); [done|done|].
  repeat constructor.
Defined.

Lemma revocation_is_permanent_witness :
  match (LookupKey "K1" (store_run [OpLookup "K1"; OpRevoke 9 "K1"]
           (Memory.MkMemory {["K1" := MkKey "K1" "a" "h" 1 (Some 5%Z)]})).2).1 with
  | Ok k => is_Some (k_RevokedAt k)
  | Err e => e <> ErrKeyNotFound
  end.
Proof.
  apply (revocation_is_permanent 5 "K1" [OpLookup "K1"; OpRevoke 9 "K1"]
    (Memory.MkMemory {["K1" := MkKey "K1" "a" "h" 1 None]})).
  - reflexivity.
  - repeat constructor; intros [].
Defined.

Lemma db_path_is_the_dsn_path_witness :
  Cut "?" (sqlite_dsn "/var/lib/wirefan/wirefan.db")
    = Some ("/var/lib/wirefan/wirefan.db", dsn_query)
  /\ string_elem "#" (sqlite_dsn "/var/lib/wirefan/wirefan.db") = false
  /\ IsAbs "/var/lib/wirefan/wirefan.db" = true.
Proof. apply db_path_is_the_dsn_path. by vm_compute. Defined.
