(* ===== verification/GoNetip.v ===== *)
(** * net/netip

    Addresses and prefixes as the server uses them: [ParseAddr],
    [ParsePrefix], [Unmap], [Prefix], [Contains] and [String]. *)
From S2P Require Import Prelude GoStd GoBytes GoJson.
From stdpp Require Import options.
Local Open Scope N_scope.

(** An IPv4 address is its 32 bits, an IPv6 address its 128 bits with a zone. *)
Inductive Addr : Type :=
  | A4 (n : N)
  | A6 (n : N) (zone : string).

#[export] Instance Addr_eq_dec : EqDecision Addr.
Proof. solve_decision. Defined.

Definition colon : ascii := ":".
Definition dot : ascii := ".".

(** ** Parsing *)

(** An octet: digits, no leading zero, at most 255. *)
Definition octet (s : string) : option N :=
  v ← parse_uint s;
  match s with
  | String "0" (String _ _) => None
  | _ => if decide (v <= 255)%Z then Some (Z.to_N v) else None
  end.

Definition parse_ipv4 (s : string) : option N :=
  match Split dot s with
  | [a; b; c; d] =>
      a ← octet a; b ← octet b; c ← octet c; d ← octet d;
      Some (((a * 256 + b) * 256 + c) * 256 + d)
  | _ => None
  end.

(** A group of one to four hexadecimal digits, and the rest. *)
Definition is_hex (c : ascii) : bool :=
  match hex_val (N_of_ascii c) with Some _ => true | None => false end.

Fixpoint hex_fold (acc : N) (s : string) : N :=
  match s with
  | EmptyString => acc
  | String c s' => hex_fold (acc * 16 + default 0 (hex_val (N_of_ascii c))) s'
  end.

Definition hex_group (s : string) : option (N * string) :=
  let '(d, rest) := span is_hex s in
  if decide (d = "" \/ (4 < String.length d)%nat) then None else Some (hex_fold 0 d, rest).

(** The loop over the groups: at most eight, so the fuel is the loop's bound.
    [ell] is the number of words before the ellipsis. *)
Fixpoint ipv6_loop (fuel : nat) (ws : list N) (ell : option nat) (s : string)
    : option (list N * option nat * string) :=
  match fuel with
  | O => Some (ws, ell, s)
  | S fuel' =>
      '(acc, rest) ← hex_group s;
      let ws' := ws ++ [acc] in
      match rest with
      | EmptyString => Some (ws', ell, "")
      | String c s1 =>
          if decide (c = dot) then
            if decide ((ell = None /\ length ws <> 6%nat) \/ (6 < length ws)%nat) then None
            else v ← parse_ipv4 s; Some (ws ++ [v / 65536; v mod 65536], ell, "")
          else if decide (c <> colon) then None
          else
            match s1 with
            | EmptyString => None
            | String c2 s2 =>
                if decide (c2 = colon) then
                  match ell with
                  | Some _ => None
                  | None =>
                      if decide (s2 = "") then Some (ws', Some (length ws'), "")
                      else ipv6_loop fuel' ws' (Some (length ws')) s2
                  end
                else ipv6_loop fuel' ws' ell s1
            end
      end
  end.

Definition words_value (ws : list N) : N := fold_left (fun acc w => acc * 65536 + w) ws 0.

(** Expand the ellipsis. *)
Definition expand (ws : list N) (ell : option nat) : option (list N) :=
  if decide (length ws < 8)%nat then
    e ← ell; Some (take e ws ++ replicate (8 - length ws) 0 ++ drop e ws)
  else match ell with Some _ => None | None => Some ws end.

Definition parse_groups (s : string) : option N :=
  let '(ell, s') := match s with
                    | String a (String b s2) =>
                        if decide (a = colon /\ b = colon) then (Some O, s2) else (None, s)
                    | _ => (None, s)
                    end in
  if decide (ell = Some O /\ s' = "") then Some 0 else
  '(ws, ell, rest) ← ipv6_loop 8 [] ell s';
  if decide (rest = "") then words_value <$> expand ws ell else None.

Definition parse_ipv6 (s : string) : option Addr :=
  match Cut "%" s with
  | Some (_, EmptyString) => None
  | Some (a, zone) => (fun n => A6 n zone) <$> parse_groups a
  | None => (fun n => A6 n "") <$> parse_groups s
  end.

(** The first of the three bytes decides what is parsed. *)
Fixpoint addr_kind (s : string) : option ascii :=
  match s with
  | EmptyString => None
  | String c s' => if decide (c = dot \/ c = colon \/ c = "%"%char) then Some c else addr_kind s'
  end.

Definition ParseAddr (s : string) : option Addr :=
  c ← addr_kind s;
  if decide (c = dot) then A4 <$> parse_ipv4 s
  else if decide (c = colon) then parse_ipv6 s
  else None.

(** ** Operations *)

Definition Is4In6 (a : Addr) : bool :=
  match a with A4 _ => false | A6 n _ => n / 4294967296 =? 65535 end.

Definition Is4 (a : Addr) : bool := match a with A4 _ => true | A6 _ _ => false end.
Definition Is6 (a : Addr) : bool := negb (Is4 a).

Definition Unmap (a : Addr) : Addr :=
  match a with
  | A6 n _ => if Is4In6 a then A4 (n mod 4294967296) else a
  | A4 _ => a
  end.

Definition zone_of (a : Addr) : string := match a with A4 _ => "" | A6 _ z => z end.

(** [WithZone] is a no-op on IPv4. *)
Definition WithZone (zone : string) (a : Addr) : Addr :=
  match a with A4 n => A4 n | A6 n _ => A6 n zone end.

Record Pfx : Type := MkPfx { p_addr : Addr; p_bits : N }.

Definition bit_len (a : Addr) : N := if Is4 a then 32 else 128.
Definition addr_val (a : Addr) : N := match a with A4 n => n | A6 n _ => n end.

(** [PrefixFrom] drops the zone. *)
Definition PrefixFrom (a : Addr) (bits : N) : Pfx := MkPfx (WithZone "" a) bits.

(** [Addr.Prefix] clears the bits after the first [bits]. *)
Definition Prefix (a : Addr) (bits : N) : option Pfx :=
  if decide (bit_len a < bits) then None else
  let k := 2 ^ (bit_len a - bits) in
  let n := addr_val a / k * k in
  Some (PrefixFrom (match a with A4 _ => A4 n | A6 _ z => A6 n z end) bits).

Definition Contains (p : Pfx) (a : Addr) : bool :=
  bool_decide (zone_of a = "") && bool_decide (bit_len (p_addr p) = bit_len a)
  && (addr_val a / 2 ^ (bit_len a - p_bits p)
      =? addr_val (p_addr p) / 2 ^ (bit_len a - p_bits p)).

(** [LastIndexByte]: what is before and after the last [sep]. *)
Fixpoint cut_last (sep : ascii) (s : string) : option (string * string) :=
  match s with
  | EmptyString => None
  | String c s' =>
      match cut_last sep s' with
      | Some (a, b) => Some (String c a, b)
      | None => if decide (c = sep) then Some (EmptyString, s') else None
      end
  end.

(** No sign, no leading zero. *)
Definition prefix_bits (s : string) : option N :=
  match s with
  | String "0" (String _ _) => None
  | _ => v ← parse_uint s; if decide (v <= 128)%Z then Some (Z.to_N v) else None
  end.

Definition ParsePrefix (s : string) : option Pfx :=
  '(ip, bits) ← cut_last "/" s;
  a ← ParseAddr ip;
  if decide (zone_of a <> "") then None else
  b ← prefix_bits bits;
  if decide (bit_len a < b) then None else Some (PrefixFrom a b).

(** ** Printing *)

Definition dec (n : N) : string := FormatInt (Z.of_N n).

Definition string4 (n : N) : string :=
  dec (n / 16777216) +:+ String dot (dec (n / 65536 mod 256) +:+ String dot
    (dec (n / 256 mod 256) +:+ String dot (dec (n mod 256)))).

(** Hexadecimal without leading zeros, of a 16-bit word. *)
Definition hex16 (n : N) : string :=
  if n <? 16 then String (hex_digit n) ""
  else if n <? 256 then String (hex_digit (n / 16)) (String (hex_digit (n mod 16)) "")
  else if n <? 4096 then
    String (hex_digit (n / 256)) (String (hex_digit (n / 16 mod 16)) (String (hex_digit (n mod 16)) ""))
  else String (hex_digit (n / 4096)) (String (hex_digit (n / 256 mod 16))
         (String (hex_digit (n / 16 mod 16)) (String (hex_digit (n mod 16)) ""))).

(** The eight words, first the most significant. *)
Definition words (n : N) : list N :=
  (fun k => n / 2 ^ (16 * k) mod 65536) <$> [7; 6; 5; 4; 3; 2; 1; 0].

Fixpoint zeros (ws : list N) : nat :=
  match ws with w :: ws' => if w =? 0 then S (zeros ws') else O | [] => O end.

(** The first longest run of at least two zero words: its start and length. *)
Fixpoint best_run (i : nat) (ws : list N) (best : option (nat * nat)) : option (nat * nat) :=
  match ws with
  | [] => best
  | _ :: ws' =>
      let l := zeros ws in
      best_run (S i) ws'
        (if (2 <=? l)%nat && (match best with Some (_, l') => l' | None => O end <? l)%nat
         then Some (i, l) else best)
  end.

Fixpoint join_words (ws : list N) : string :=
  match ws with
  | [] => ""
  | [w] => hex16 w
  | w :: ws' => hex16 w +:+ String colon (join_words ws')
  end.

Definition string6 (n : N) : string :=
  match best_run 0 (words n) None with
  | None => join_words (words n)
  | Some (i, l) =>
      join_words (take i (words n)) +:+ String colon (String colon (join_words (drop (i + l) (words n))))
  end.

Definition Addr_String (a : Addr) : string :=
  match a with
  | A4 n => string4 n
  | A6 n z =>
      (if Is4In6 a then "::ffff:" +:+ string4 (n mod 4294967296) else string6 n)
      +:+ (if decide (z = "") then "" else String "%" z)
  end.

Definition Pfx_String (p : Pfx) : string := Addr_String (p_addr p) +:+ String "/" (dec (p_bits p)).

(** ** Examples *)

Example ParseAddr_v4 : ParseAddr "10.0.255.1" = Some (A4 167837441).
Proof. reflexivity. Qed.
Example ParseAddr_v4_zero : ParseAddr "10.00.255.1" = None.
Proof. reflexivity. Qed.
Example ParseAddr_v6 : Addr_String <$> ParseAddr "2001:DB8:0:0:1:0:0:01%eth0" = Some "2001:db8::1:0:0:1%eth0".
Proof. vm_compute. reflexivity. Qed.
Example ParseAddr_mapped : Addr_String ∘ Unmap <$> ParseAddr "::ffff:1.2.3.4" = Some "1.2.3.4".
Proof. vm_compute. reflexivity. Qed.
Example ParseAddr_ellipsis : ParseAddr "::" = Some (A6 0 "") /\ ParseAddr "1:2:3:4:5:6:7::" <> None
  /\ ParseAddr "1:2:3:4:5:6:7:8::" = None /\ ParseAddr "1::2::3" = None /\ ParseAddr "1:2:" = None.
Proof. vm_compute. done. Qed.
