(* ===== verification/NetipFacts.v ===== *)
(** * Facts about printed addresses

    Printing is injective on IPv4 addresses and on IPv6 prefixes of 64 bits,
    and the two never print alike. *)
From S2P Require Import Prelude GoStd GoBytes GoJson JsonFacts GoNetip.
From stdpp Require Import options.
Local Open Scope N_scope.

(** ** Words in hexadecimal *)

Ltac hex_bound := first [apply N.mod_lt | apply N.Div0.div_lt_upper_bound | idtac]; lia.

Lemma hex16_value n : n < 65536 -> hex_fold 0 (hex16 n) = n.
Proof.
  intros Hn. unfold hex16. repeat case_match; bool_hyps; cbn [hex_fold];
    rewrite !hex_val_digit by hex_bound; cbn [default]; unfold id;
    change 4096 with (16 * (16 * 16)); change 256 with (16 * 16); rewrite <- ?N.Div0.div_div;
    pose proof (N.div_mod n 16 ltac:(done)); pose proof (N.div_mod (n / 16) 16 ltac:(done));
    pose proof (N.div_mod (n / 16 / 16) 16 ltac:(done)); lia.
Qed.

Lemma hex16_inj n n' : n < 65536 -> n' < 65536 -> hex16 n = hex16 n' -> n = n'.
Proof. intros Hn Hn' Heq. rewrite <- (hex16_value n), <- (hex16_value n') by done. congruence. Qed.

Lemma hex16_colon n : n < 65536 -> string_elem colon (hex16 n) = false.
Proof.
  intros Hn. apply (string_forall_elem is_hex_digit); [|done].
  unfold hex16. repeat case_match; bool_hyps; cbn [string_forall];
    rewrite !hex_digit_is_hex by hex_bound; done.
Qed.

Lemma hex16_nonempty n : n < 65536 -> hex16 n <> "".
Proof. intros _. unfold hex16. by repeat case_match. Qed.

(** What follows the first word of a list that ends in an ellipsis. *)
Definition words_end (ws : list N) : string :=
  match ws with
  | [] => String colon ""
  | _ => join_words ws +:+ String colon (String colon "")
  end.

Lemma words_end_cons w ws : words_end (w :: ws) = hex16 w +:+ String colon (words_end ws).
Proof.
  destruct ws; cbn [words_end join_words]; [done|]. by rewrite string_app_assoc, string_app_cons.
Qed.

Lemma words_end_inj ws ws' :
  Forall (fun w => w < 65536) ws -> Forall (fun w => w < 65536) ws' ->
  words_end ws = words_end ws' -> ws = ws'.
Proof.
  intros Hws. revert ws'. induction Hws as [|w ws Hw _ IH]; intros ws' Hws' Heq.
  - destruct Hws' as [|w' ws' Hw' _]; [done|]. exfalso. rewrite words_end_cons in Heq.
    change (words_end []) with ("" +:+ String colon "") in Heq.
    apply string_sep_inj in Heq as [Heq _]; [|done|by apply hex16_colon].
    by apply (hex16_nonempty w').
  - destruct Hws' as [|w' ws' Hw' Hws']; rewrite ?words_end_cons in Heq.
    + exfalso. change (words_end []) with ("" +:+ String colon "") in Heq.
      apply string_sep_inj in Heq as [Heq _]; [|by apply hex16_colon|done].
      by apply (hex16_nonempty w).
    + apply string_sep_inj in Heq as [Heq Heq']; [|by apply hex16_colon..].
      f_equal; [by apply hex16_inj|by apply IH].
Qed.

(** ** 64-bit prefixes *)

(** Four words without the zeros at their end. *)
Definition strip_zeros (a b c d : N) : list N :=
  if negb (d =? 0) then [a; b; c; d] else if negb (c =? 0) then [a; b; c]
  else if negb (b =? 0) then [a; b] else if negb (a =? 0) then [a] else [].

Lemma strip_zeros_inj a b c d a' b' c' d' :
  strip_zeros a b c d = strip_zeros a' b' c' d' -> a = a' /\ b = b' /\ c = c' /\ d = d'.
Proof.
  unfold strip_zeros. intros Heq. repeat (case_match; bool_hyps; simplify_eq); naive_solver.
Qed.

Lemma strip_zeros_small a b c d :
  a < 65536 -> b < 65536 -> c < 65536 -> d < 65536 ->
  Forall (fun w => w < 65536) (strip_zeros a b c d).
Proof. intros. unfold strip_zeros. repeat case_match; by repeat constructor. Qed.

Definition prefix_words (l : list N) : string := join_words l +:+ String colon (String colon "").

Lemma string6_64 n a b c d :
  words n = [a; b; c; d; 0; 0; 0; 0] ->
  string6 n = prefix_words (strip_zeros a b c d).
Proof.
  intros Hw. unfold string6, strip_zeros. rewrite Hw. cbn -[N.eqb join_words hex16 colon String.append].
  destruct (a =? 0), (b =? 0), (c =? 0), (d =? 0); reflexivity.
Qed.

Lemma prefix_words_inj l l' :
  Forall (fun w => w < 65536) l -> Forall (fun w => w < 65536) l' ->
  prefix_words l = prefix_words l' -> l = l'.
Proof.
  intros Hl Hl' Heq. apply words_end_inj; [done..|].
  destruct l as [|w l], l' as [|w' l']; unfold prefix_words in Heq; [done|exfalso..|exact Heq].
  - change (join_words (w' :: l') +:+ String colon (String colon "")) with (words_end (w' :: l')) in Heq.
    rewrite words_end_cons in Heq. apply Forall_cons in Hl' as [Hw' _].
    apply string_sep_inj in Heq as [Heq _]; [|done|by apply hex16_colon].
    by apply (hex16_nonempty w').
  - change (join_words (w :: l) +:+ String colon (String colon "")) with (words_end (w :: l)) in Heq.
    rewrite words_end_cons in Heq. apply Forall_cons in Hl as [Hw _].
    apply string_sep_inj in Heq as [Heq _]; [|by apply hex16_colon|done].
    by apply (hex16_nonempty w).
Qed.

Lemma word_hi m j : m * 2 ^ 64 / 2 ^ (64 + j) = m / 2 ^ j.
Proof.
  rewrite N.pow_add_r, (N.mul_comm (2 ^ 64)). apply N.Div0.div_mul_cancel_r. done.
Qed.

Lemma word_lo m j : j <= 48 -> m * 2 ^ 64 / 2 ^ j mod 65536 = 0.
Proof.
  intros Hj. replace 64 with (48 - j + 16 + j) by lia. rewrite N.pow_add_r, N.mul_assoc.
  rewrite N.div_mul by (by apply N.pow_nonzero).
  rewrite N.pow_add_r, N.mul_assoc. apply N.Div0.mod_mul.
Qed.

(** The words of an address whose low 64 bits are zero. *)
Lemma words_64 m :
  words (m * 2 ^ 64)
  = [m / 2 ^ 48 mod 65536; m / 2 ^ 32 mod 65536; m / 2 ^ 16 mod 65536; m mod 65536; 0; 0; 0; 0].
Proof.
  change (words ?n) with ((fun k => n / 2 ^ k mod 65536)
    <$> [64 + 48; 64 + 32; 64 + 16; 64 + 0; 48; 32; 16; 0]).
  cbn [fmap list_fmap]. rewrite !word_hi, !word_lo by lia. by rewrite N.div_1_r.
Qed.

Lemma words_64_value m : m < 2 ^ 64 ->
  m = ((m / 2 ^ 48 mod 65536 * 65536 + m / 2 ^ 32 mod 65536) * 65536 + m / 2 ^ 16 mod 65536) * 65536
      + m mod 65536.
Proof.
  intros Hm. change (2 ^ 64) with 18446744073709551616 in Hm.
  change (2 ^ 48) with (65536 * (65536 * 65536)). change (2 ^ 32) with (65536 * 65536).
  change (2 ^ 16) with 65536. rewrite <- !N.Div0.div_div.
  pose proof (N.div_mod m 65536 ltac:(done)).
  pose proof (N.div_mod (m / 65536) 65536 ltac:(done)).
  pose proof (N.div_mod (m / 65536 / 65536) 65536 ltac:(done)).
  assert (m / 65536 / 65536 / 65536 < 65536).
  { rewrite !N.Div0.div_div. apply N.Div0.div_lt_upper_bound. lia. }
  rewrite (N.mod_small (m / 65536 / 65536 / 65536)) by done. lia.
Qed.

Lemma string6_64_inj m m' :
  m < 2 ^ 64 -> m' < 2 ^ 64 -> string6 (m * 2 ^ 64) = string6 (m' * 2 ^ 64) -> m = m'.
Proof.
  intros Hm Hm'. rewrite !(string6_64 _ _ _ _ _ (words_64 _)). intros Heq.
  apply prefix_words_inj in Heq; [|apply strip_zeros_small; by apply N.mod_lt..].
  apply strip_zeros_inj in Heq as (E1 & E2 & E3 & E4).
  rewrite (words_64_value m), (words_64_value m') by done. congruence.
Qed.

(** ** IPv4 *)

Lemma dec_inj n n' : dec n = dec n' -> n = n'.
Proof. unfold dec, FormatInt. intros Heq. apply (inj pretty) in Heq. lia. Qed.

Lemma dec_elem c n : digit_val c = None -> c <> "-"%char -> string_elem c (dec n) = false.
Proof. apply FormatInt_elem. Qed.

Lemma string4_inj n n' : n < 2 ^ 32 -> n' < 2 ^ 32 -> string4 n = string4 n' -> n = n'.
Proof.
  unfold string4. intros Hn Hn' Heq.
  do 3 (apply string_sep_inj in Heq as [?%dec_inj Heq]; [|by apply dec_elem..]).
  apply dec_inj in Heq. zify; Z.to_euclidean_division_equations; lia.
Qed.

Lemma string4_colon n : string_elem colon (string4 n) = false.
Proof.
  unfold string4. rewrite !string_elem_app. cbn [string_elem].
  rewrite !string_elem_app. cbn [string_elem]. rewrite !string_elem_app. cbn [string_elem].
  rewrite !dec_elem by done. done.
Qed.

(** ** Parsed addresses are in range *)

Definition addr_ok (a : Addr) : Prop := addr_val a < 2 ^ bit_len a.

Lemma octet_bound s v : octet s = Some v -> v <= 255.
Proof.
  unfold octet. destruct (parse_uint s) as [z|]; [|done]. cbn [mbind option_bind]. intros Hv.
  repeat case_match; simplify_eq; lia.
Qed.

Lemma parse_ipv4_bound s v : parse_ipv4 s = Some v -> v < 2 ^ 32.
Proof.
  unfold parse_ipv4. destruct (Split dot s) as [|a [|b [|c [|d [|]]]]]; try done. intros Hv.
  apply bind_Some in Hv as (va & ?%octet_bound & Hv).
  apply bind_Some in Hv as (vb & ?%octet_bound & Hv).
  apply bind_Some in Hv as (vc & ?%octet_bound & Hv).
  apply bind_Some in Hv as (vd & ?%octet_bound & Hv).
  simplify_eq. change (2 ^ 32) with 4294967296. lia.
Qed.

Lemma hex_val_bound b v : hex_val b = Some v -> v < 16.
Proof. unfold hex_val. intros. repeat case_match; bool_hyps; simplify_eq; lia. Qed.

Lemma hex_fold_bound s acc : hex_fold acc s < (acc + 1) * 16 ^ N.of_nat (String.length s).
Proof.
  revert acc. induction s as [|c s IH]; intros acc; cbn [hex_fold String.length]; [cbn; lia|].
  eapply N.lt_le_trans; [apply IH|]. rewrite Nat2N.inj_succ, N.pow_succ_r'.
  assert (default 0 (hex_val (N_of_ascii c)) < 16).
  { destruct (hex_val _) eqn:E; cbn; [by eapply hex_val_bound|lia]. }
  rewrite N.mul_assoc. apply N.mul_le_mono_r. lia.
Qed.

Lemma hex_group_bound s v rest : hex_group s = Some (v, rest) -> v < 65536.
Proof.
  unfold hex_group. destruct (span is_hex s) as [d r]. case_decide as Hd; [done|].
  intros [= <- <-]. pose proof (hex_fold_bound d 0) as Hb.
  eapply N.lt_le_trans; [exact Hb|]. change 65536 with ((0 + 1) * 16 ^ 4).
  apply N.mul_le_mono_l, N.pow_le_mono_r; lia.
Qed.

Definition words_ok (ws : list N) : Prop := Forall (fun w => w < 65536) ws.

Lemma ipv6_loop_ok fuel ws ell s ws' ell' r :
  words_ok ws -> (length ws + fuel = 8)%nat ->
  ipv6_loop fuel ws ell s = Some (ws', ell', r) -> words_ok ws' /\ (length ws' <= 8)%nat.
Proof.
  revert ws ell s. induction fuel as [|fuel IH]; intros ws ell s Hws Hlen Hl; cbn in Hl.
  { simplify_eq. split; [done|lia]. }
  destruct (hex_group s) as [[acc rest]|] eqn:Hg; [|done]. apply hex_group_bound in Hg.
  assert (words_ok (ws ++ [acc])) as Hws1 by (apply Forall_app; by repeat constructor).
  assert (length (ws ++ [acc]) = S (length ws)) as Hlen1 by (rewrite length_app; cbn; lia).
  cbn in Hl. destruct rest as [|c s1]; [simplify_eq; split; [done|lia]|].
  case_decide.
  { case_decide as Hroom; [done|]. destruct (parse_ipv4 s) as [v|] eqn:Hv; [|done].
    apply parse_ipv4_bound in Hv. cbn in Hl. simplify_eq. split.
    - apply Forall_app. split; [done|]. repeat constructor; [|by apply N.mod_lt].
      apply N.Div0.div_lt_upper_bound. exact Hv.
    - rewrite length_app. cbn. lia. }
  case_decide; [done|]. destruct s1 as [|c2 s2]; [done|].
  case_decide; [|by eapply IH; [done|lia|done]].
  destruct ell; [done|]. case_decide; [|by eapply IH; [done|lia|done]].
  simplify_eq. split; [done|lia].
Qed.

Lemma words_value_bound ws acc :
  words_ok ws -> fold_left (fun acc w => acc * 65536 + w) ws acc < (acc + 1) * 65536 ^ N.of_nat (length ws).
Proof.
  intros Hws. revert acc. induction Hws as [|w ws Hw _ IH]; intros acc; cbn [fold_left length].
  { cbn. lia. }
  eapply N.lt_le_trans; [apply IH|]. rewrite Nat2N.inj_succ, N.pow_succ_r', N.mul_assoc.
  apply N.mul_le_mono_r. lia.
Qed.

Lemma expand_ok ws ell ws' :
  words_ok ws -> (length ws <= 8)%nat -> expand ws ell = Some ws' ->
  words_ok ws' /\ length ws' = 8%nat.
Proof.
  unfold expand. intros Hws Hlen He. case_decide.
  - destruct ell as [e|]; [|done]. cbn in He. simplify_eq. unfold words_ok in *. split.
    + apply Forall_app. split; [by apply Forall_take|]. apply Forall_app.
      split; [by apply Forall_replicate|by apply Forall_drop].
    + rewrite !length_app, length_replicate, length_take, length_drop. lia.
  - destruct ell; simplify_eq. split; [done|lia].
Qed.

Lemma parse_groups_bound s n : parse_groups s = Some n -> n < 2 ^ 128.
Proof.
  unfold parse_groups.
  destruct (match s with String a (String b s2) => _ | _ => _ end) as [ell s'].
  case_decide; [by intros [= <-]|].
  destruct (ipv6_loop _ _ _ _) as [[[ws ell'] r]|] eqn:Hl; [|done].
  apply ipv6_loop_ok in Hl as [Hws Hlen]; [|constructor|done]. cbn [mbind option_bind].
  case_decide; [|done]. destruct (expand ws ell') as [ws'|] eqn:He; [|done].
  apply expand_ok in He as [Hws' Hlen']; [|done..]. cbn. intros [= <-].
  pose proof (words_value_bound ws' 0 Hws') as Hb. rewrite Hlen' in Hb. exact Hb.
Qed.

Lemma ParseAddr_ok s a : ParseAddr s = Some a -> addr_ok a.
Proof.
  unfold ParseAddr, addr_ok. destruct (addr_kind s) as [c|]; [|done]. cbn [mbind option_bind].
  case_decide.
  - destruct (parse_ipv4 s) eqn:Hv; [|done]. intros [= <-]. by apply parse_ipv4_bound in Hv.
  - case_decide; [|done]. unfold parse_ipv6. intros Ha.
    assert (forall t z, (fun n => A6 n z) <$> parse_groups t = Some a -> addr_val a < 2 ^ bit_len a) as Hok.
    { intros t z Ht. apply fmap_Some in Ht as (n & Hn & ->). by apply parse_groups_bound in Hn. }
    destruct (Cut "%" s) as [[b [|z0 z]]|]; [done|by eapply Hok..].
Qed.

Lemma Unmap_ok a : addr_ok a -> addr_ok (Unmap a).
Proof.
  destruct a as [n|n z]; [done|]. intros Hn. unfold Unmap. destruct (Is4In6 _); [|done].
  apply N.mod_lt. done.
Qed.
