(* ===== verification/Upgrade.v ===== *)
(** * internal/server/upgrade.go: the checks before a WebSocket

    Client addresses, the per-address cap and its table, log sanitizing, and
    the check order of [ServeHTTP]. *)
From S2P Require Import Prelude GoStd GoBytes Utf8 GoJson JsonFacts GoNetip NetipFacts Store.
From stdpp Require Import options.

(** ** The cap's configuration and key *)

Definition defaultIPCap : Z := 200.
Definition ipv6CapPrefixBits : N := 64.

Definition parseIPCap (raw : string) : Z :=
  let raw := TrimSpace raw in
  if decide (raw = "") then defaultIPCap else
  match ParseInt raw with
  | None => defaultIPCap
  | Some n => if decide (n <= 0)%Z then defaultIPCap else n
  end.

Definition ipCapKey (ip : string) : string :=
  match ParseAddr ip with
  | None => ip
  | Some a =>
      let a := Unmap a in
      if Is4 a then Addr_String a else
      match Prefix (WithZone "" a) ipv6CapPrefixBits with
      | None => ip
      | Some p => Pfx_String p
      end
  end.

(** ** sanitizeLogValue *)

Definition log_max : nat := 1024.

Definition log_control (r : N) : bool := ((r <? 32)%N && negb (r =? 9)%N) || (r =? 127)%N.

Definition sanitizeLogValue (s : string) : string :=
  let s := if decide (log_max < String.length s) then string_take log_max s else s in
  let us := utf8_units s in
  if forallb (fun u : N * string => negb (log_control u.1)) us then s
  else foldr (fun u acc => (if log_control u.1 then "?" else encode_rune u.1) +:+ acc) "" us.

(** ** Trusted proxies and the client's address *)

Definition parse_proxy (s : string) : option Pfx :=
  let s := TrimSpace s in
  if decide (s = "") then None else
  match ParsePrefix s with
  | Some p => Some p
  | None => a ← ParseAddr s; Prefix a (if Is6 a then 128 else 32)
  end.

Definition parseTrustedProxies (raw : string) : list Pfx :=
  if decide (raw = "") then [] else omap parse_proxy (Split "," raw).

Definition addrInPrefixes (a : Addr) (prefixes : list Pfx) : bool :=
  existsb (fun p => Contains p a) prefixes.

Definition count_byte (c : ascii) (s : string) : nat :=
  length (filter (fun b => b = N_of_ascii c) (bytes_of_string s)).

(** The address, when it parses, and the host part. *)
Definition stripHostPort (s : string) : option Addr * string :=
  let s := TrimSpace s in
  if decide (s = "") then (None, "") else
  let host :=
    match s with
    | String c s' =>
        if decide (c = "["%char) then
          match cut_last "]" s' with Some (a, _) => a | None => s end
        else
          match cut_last ":" s with
          | Some (a, _) => if decide (a <> "" /\ count_byte ":" s = 1) then a else s
          | None => s
          end
    | EmptyString => s
    end in
  (ParseAddr host, host).

(** The walk from the right: the first hop that parses and is not trusted. *)
Fixpoint rightmost_untrusted (trusted : list Pfx) (hops : list string) : option string :=
  match hops with
  | [] => None
  | h :: hops' =>
      match rightmost_untrusted trusted hops' with
      | Some ip => Some ip
      | None =>
          let '(a, host) := stripHostPort h in
          match a with
          | Some a => if negb (addrInPrefixes a trusted) then Some host else None
          | None => None
          end
      end
  end.

(** [xff] is the values of the header; [Header.Get] returns the first. *)
Definition clientIP (remote : string) (xff : list string) (trusted : list Pfx) : string :=
  let '(ra, raStr) := stripHostPort remote in
  match ra with
  | None => remote
  | Some a =>
      if bool_decide (trusted = []) || negb (addrInPrefixes a trusted) then raStr else
      let h := default "" (head xff) in
      if decide (h = "") then raStr else
      let hops := Split "," h in
      match rightmost_untrusted trusted hops with
      | Some ip => ip
      | None =>
          let '(la, leftStr) := stripHostPort (default "" (head hops)) in
          match la with Some _ => leftStr | None => raStr end
      end
  end.

(** ** The table of the cap *)

Abbreviation IPTable := (gmap string Z).

(** The critical section that counts a request. *)
Definition ip_count (cap : Z) (ip : string) (t : IPTable) : option IPTable :=
  let n := default 0%Z (t !! ip) in
  if decide (cap <= n)%Z then None else Some (<[ip := (n + 1)%Z]> t).

(** The deferred one that forgets it. *)
Definition ip_release (ip : string) (t : IPTable) : IPTable :=
  let n := (default 0 (t !! ip) - 1)%Z in
  if decide (n <= 0)%Z then delete ip t else <[ip := n]> t.

(** ** ServeHTTP, up to the handshake *)

Inductive rejection : Type :=
  | RejDraining
  | RejMissingKey
  | RejInvalidKey
  | RejIPCap.

#[export] Instance rejection_eq_dec : EqDecision rejection.
Proof. solve_decision. Defined.

(** Status, body and the label counted in [wirefan_upgrade_rejections]. *)
Definition rejection_status (r : rejection) : Z * string * string :=
  match r with
  | RejDraining => (503%Z, "draining", "draining")
  | RejMissingKey => (401%Z, "missing key", "bad_key")
  | RejInvalidKey => (401%Z, "invalid key", "bad_key")
  | RejIPCap => (429%Z, "too many connections from this IP", "phantom_cap")
  end.

Record upgrade_req : Type := MkUpgradeReq {
  uq_key : string;         (* the [key] query parameter *)
  uq_remote : string;
  uq_xff : list string;
}.

Section Serve.
Context {S : Type} `{Store S}.

(** The checks up to the key. *)
Definition check_key (draining : bool) (q : upgrade_req) (st : S) : res rejection Key * S :=
  if draining then (Err RejDraining, st) else
  if decide (uq_key q = "") then (Err RejMissingKey, st) else
  let '(r, st') := LookupKey (uq_key q) st in
  match r with
  | Err _ => (Err RejInvalidKey, st')
  | Ok k => match k_RevokedAt k with
            | Some _ => (Err RejInvalidKey, st')
            | None => (Ok k, st')
            end
  end.

Definition req_ip (trusted : list Pfx) (q : upgrade_req) : string :=
  ipCapKey (clientIP (uq_remote q) (uq_xff q) trusted).

(** All of them: on success the address is counted. *)
Definition ServeHTTP_checks (trusted : list Pfx) (cap : Z) (draining : bool) (q : upgrade_req)
    (st : S) (t : IPTable) : res rejection (Key * string) * S * IPTable :=
  let '(r, st') := check_key draining q st in
  match r with
  | Err e => (Err e, st', t)
  | Ok k =>
      let ip := req_ip trusted q in
      match ip_count cap ip t with
      | None => (Err RejIPCap, st', t)
      | Some t' => (Ok (k, ip), st', t')
      end
  end.
End Serve.

(** ** Examples *)

Definition demo_trusted : list Pfx := parseTrustedProxies "127.0.0.1, 10.0.0.0/8,bogus,".

Example demo_trusted_two : length demo_trusted = 2.
Proof. reflexivity. Qed.
Example clientIP_direct : clientIP "203.0.113.7:5000" ["1.2.3.4"] demo_trusted = "203.0.113.7".
Proof. reflexivity. Qed.
Example clientIP_proxied :
  clientIP "127.0.0.1:80" ["6.6.6.6, 198.51.100.4:99, 10.1.2.3"] demo_trusted = "198.51.100.4".
Proof. reflexivity. Qed.
Example ipCapKey_64 : ipCapKey "2001:db8:1:2:aaaa::1" = "2001:db8:1:2::/64".
Proof. vm_compute. reflexivity. Qed.
Example ipCapKey_zero : ipCapKey "::1" = "::/64".
Proof. vm_compute. reflexivity. Qed.

(** ** One bucket per client *)

(** Who a client is: an IPv4 address, or the /64 an IPv6 address is in. *)
Definition client (a : Addr) : N + N :=
  match Unmap a with A4 n => inl n | A6 n _ => inr (n / 2 ^ 64)%N end.

(** The key's text, by client. *)
Definition client_key (c : N + N) : string :=
  match c with
  | inl n => string4 n
  | inr m => string6 (m * 2 ^ 64) +:+ "/64"
  end.

Lemma Unmap_not_mapped a : Is4 (Unmap a) = false -> Is4In6 (Unmap a) = false.
Proof. destruct a as [n|n z]; [done|]. unfold Unmap. by destruct (Is4In6 (A6 n z)) eqn:E. Qed.

Lemma ipCapKey_client ip a : ParseAddr ip = Some a -> ipCapKey ip = client_key (client a).
Proof.
  intros Ha. unfold ipCapKey, client. rewrite Ha.
  destruct (Unmap a) as [n|n z] eqn:Hu; cbn -[N.pow Addr_String Pfx_String].
  { reflexivity. }
  unfold Prefix. rewrite decide_False by done.
  unfold Pfx_String, PrefixFrom. cbn [p_addr p_bits WithZone addr_val bit_len Is4].
  change (2 ^ (128 - ipv6CapPrefixBits))%N with (2 ^ 64)%N.
  unfold Addr_String. cbn [Is4In6]. rewrite (proj2 (N.eqb_neq _ _)).
  { rewrite decide_True by done. by rewrite string_app_nil_r. }
  change (2 ^ 64)%N with (4294967296 * 4294967296)%N. rewrite N.mul_assoc, N.div_mul by done.
  intros Heq. generalize dependent (n / (4294967296 * 4294967296))%N. intros m. lia.
Qed.

Lemma client_range a : addr_ok a ->
  match client a with inl n => n < 2 ^ 32 | inr m => m < 2 ^ 64 end%N.
Proof.
  intros Ha%Unmap_ok. unfold client. destruct (Unmap a) as [n|n z]; [exact Ha|].
  apply N.Div0.div_lt_upper_bound. exact Ha.
Qed.

Lemma string_app_inj_r (a b s : string) : a +:+ s = b +:+ s -> a = b.
Proof.
  intros Heq. assert (String.length a = String.length b) as Hlen.
  { apply (f_equal String.length) in Heq. rewrite !string_length_app in Heq. lia. }
  by apply string_app_inj_len in Heq as [-> _].
Qed.

Lemma string6_colon m : string_elem colon (string6 (m * 2 ^ 64)) = true.
Proof.
  rewrite (string6_64 _ _ _ _ _ (words_64 m)). unfold prefix_words.
  rewrite string_elem_app. apply orb_true_iff. by right.
Qed.

Lemma client_key_inj c c' :
  match c with inl n => n < 2 ^ 32 | inr m => m < 2 ^ 64 end%N ->
  match c' with inl n => n < 2 ^ 32 | inr m => m < 2 ^ 64 end%N ->
  client_key c = client_key c' -> c = c'.
Proof.
  assert (forall n m, string4 n <> string6 (m * 2 ^ 64) +:+ "/64") as Hne.
  { intros n m Heq. apply (f_equal (string_elem colon)) in Heq.
    by rewrite string4_colon, string_elem_app, string6_colon in Heq. }
  destruct c as [n|m], c' as [n'|m']; cbn [client_key]; intros Hc Hc' Heq.
  - f_equal. by apply string4_inj.
  - by apply Hne in Heq.
  - symmetry in Heq. by apply Hne in Heq.
  - f_equal. apply string_app_inj_r in Heq. by apply string6_64_inj.
Qed.

(** The cap counts clients. Two addresses share a bucket exactly when they
    are the same IPv4 address, mapped or not, or lie in the same IPv6 /64. *)
Theorem ip_cap_counts_clients ip ip' a a' :
  ParseAddr ip = Some a -> ParseAddr ip' = Some a' ->
  ipCapKey ip = ipCapKey ip' <-> client a = client a'.
Proof.
  intros Ha Ha'. rewrite (ipCapKey_client _ _ Ha), (ipCapKey_client _ _ Ha').
  split; [|congruence].
  apply client_key_inj; by eapply client_range, ParseAddr_ok.
Qed.

Lemma ip_cap_counts_clients_witness :
  ipCapKey "2001:db8::1" = ipCapKey "2001:DB8:0:0:ffff::9"
  <-> client (A6 42540766411282592856903984951653826561 "")
      = client (A6 42540766411282592875350447550386667529 "").
Proof. apply ip_cap_counts_clients; vm_decide. Defined.

(** ** Forwarded headers cannot be forged *)

(** A hop the walk passes over: trusted, or no address at all. *)
Definition skipped (trusted : list Pfx) (hop : string) : Prop :=
  match (stripHostPort hop).1 with
  | Some a => addrInPrefixes a trusted = true
  | None => True
  end.

Lemma rightmost_untrusted_skipped trusted hops :
  Forall (skipped trusted) hops -> rightmost_untrusted trusted hops = None.
Proof.
  induction 1 as [|h hops Hh _ IH]; [done|]. cbn. rewrite IH. unfold skipped in Hh.
  destruct (stripHostPort h) as [[a|] host]; cbn in *; [|done]. by rewrite Hh.
Qed.

Lemma rightmost_untrusted_app trusted pre hops ip :
  rightmost_untrusted trusted hops = Some ip -> rightmost_untrusted trusted (pre ++ hops) = Some ip.
Proof. intros Hh. induction pre as [|p pre IH]; cbn; [done|]. by rewrite IH. Qed.

Lemma rightmost_untrusted_hop trusted pre h post a ip :
  stripHostPort h = (Some a, ip) -> addrInPrefixes a trusted = false ->
  Forall (skipped trusted) post ->
  rightmost_untrusted trusted (pre ++ h :: post) = Some ip.
Proof.
  intros Hh Ha Hpost. apply rightmost_untrusted_app. cbn.
  by rewrite (rightmost_untrusted_skipped _ _ Hpost), Hh, Ha.
Qed.

Lemma clientIP_line remote trusted ra host line :
  stripHostPort remote = (Some ra, host) -> addrInPrefixes ra trusted = true -> line <> "" ->
  clientIP remote [line] trusted
  = match rightmost_untrusted trusted (Split "," line) with
    | Some ip => ip
    | None => match stripHostPort (default "" (head (Split "," line))) with
              | (Some _, ip) => ip
              | (None, _) => host
              end
    end.
Proof.
  intros Hr Ht Hl. unfold clientIP. rewrite Hr, Ht, orb_false_r.
  rewrite bool_decide_eq_false_2 by (by intros ->). cbn [head default]. unfold id. by rewrite decide_False.
Qed.

(** C28. Where a connection comes from. A peer that is not a trusted proxy is
    taken at its own address whatever it sends. Behind a trusted proxy, for a
    request with one X-Forwarded-For line (of several only the first is read,
    which is a finding), it is the rightmost hop of the line that parses and is
    not trusted, whatever is to its left; so with a proxy that appends the
    address it saw to what the client sent, the client cannot choose; if every
    hop is trusted or no address it is the leftmost one, or the peer's own, as
    it is without a line. *)
Theorem client_ip_rightmost remote trusted ra host :
  stripHostPort remote = (Some ra, host) ->
  (addrInPrefixes ra trusted = false -> forall lines, clientIP remote lines trusted = host)
  /\ (addrInPrefixes ra trusted = true ->
      clientIP remote [] trusted = host
      /\ (forall line pre h post a ip,
            line <> "" -> Split "," line = pre ++ h :: post ->
            stripHostPort h = (Some a, ip) -> addrInPrefixes a trusted = false ->
            Forall (skipped trusted) post -> clientIP remote [line] trusted = ip)
      /\ (forall sent h a ip,
            string_elem "," h = false -> stripHostPort h = (Some a, ip) -> addrInPrefixes a trusted = false ->
            clientIP remote [sent +:+ String "," h] trusted = ip)
      /\ (forall line,
            Forall (skipped trusted) (Split "," line) ->
            clientIP remote [line] trusted
            = match stripHostPort (default "" (head (Split "," line))) with
              | (Some _, ip) => ip
              | (None, _) => host
              end)).
Proof.
  intros Hr. split.
  - intros Ht lines. unfold clientIP. by rewrite Hr, Ht, orb_true_r.
  - intros Ht. pose proof (fun line => clientIP_line remote trusted ra host line Hr Ht) as Hline. split_and!.
    + unfold clientIP. rewrite Hr. by case_match.
    + intros line pre h post a ip Hne Hs Hh Ha Hpost. rewrite (Hline _ Hne), Hs.
      by rewrite (rightmost_untrusted_hop _ _ _ _ _ _ Hh Ha Hpost).
    + intros sent h a ip Hc Hh Ha. rewrite Hline by (by destruct sent).
      rewrite Split_middle, (Split_none _ h) by done.
      by rewrite (rightmost_untrusted_hop _ _ _ [] _ _ Hh Ha).
    + intros line Hs. destruct (decide (line = "")) as [->|Hne].
      * unfold clientIP. rewrite Hr. by case_match.
      * by rewrite (Hline _ Hne), (rightmost_untrusted_skipped _ _ Hs).
Qed.

(** A client's own header, joined with the address its proxy saw. *)
Lemma client_ip_rightmost_witness :
  clientIP "127.0.0.1:4000" ["1.1.1.1, 2.2.2.2,203.0.113.9:77"] demo_trusted = "203.0.113.9"
  /\ clientIP "127.0.0.1:4000" ["1.1.1.1,203.0.113.9:77, 10.0.0.3"] demo_trusted = "203.0.113.9".
Proof.
  destruct (proj2 (client_ip_rightmost "127.0.0.1:4000" demo_trusted (A4 2130706433) "127.0.0.1" eq_refl) eq_refl)
    as (_ & Hhop & Hsent & _). split.
  - apply (Hsent "1.1.1.1, 2.2.2.2" "203.0.113.9:77" (A4 3405803785)); done.
  - apply (Hhop _ ["1.1.1.1"] "203.0.113.9:77" [" 10.0.0.3"] (A4 3405803785)); [done|done|done|done|].
    repeat constructor.
Defined.

(** Only the first X-Forwarded-For line counts. Further header lines never
    matter, so behind a trusted proxy that adds a line of its own the client
    picks its address, where one joined line would give the real one. *)
Theorem later_header_lines_ignored remote line more more' trusted :
  clientIP remote (line :: more) trusted = clientIP remote (line :: more') trusted
  /\ clientIP "127.0.0.1:4000" ["6.6.6.6"; "203.0.113.9"] demo_trusted = "6.6.6.6"
  /\ clientIP "127.0.0.1:4000" ["6.6.6.6, 203.0.113.9"] demo_trusted = "203.0.113.9".
Proof. split_and!; [done|vm_decide..]. Qed.

(** ** Log values *)

Lemma string_forall_app f a b : string_forall f (a +:+ b) = string_forall f a && string_forall f b.
Proof. induction a as [|c a IH]; str_simpl; cbn; [done|]. by rewrite IH, andb_assoc. Qed.

(** A byte that can forge a log line. *)
Definition log_safe_byte (c : ascii) : bool := negb (log_control (N_of_ascii c)).

Lemma log_control_high n : (128 <= n)%N -> log_control n = false.
Proof.
  intros Hn. unfold log_control. rewrite (proj2 (N.ltb_ge _ _)) by lia. cbn [andb orb].
  apply N.eqb_neq. lia.
Qed.

Lemma unit_log_safe s u s' :
  unit_of s u s' -> log_control u.1 = false -> string_forall log_safe_byte u.2 = true.
Proof.
  intros Hu Hc. unfold log_safe_byte. destruct (unit_of_bytes _ _ _ Hu) as [[Hlt Hraw]|[_ Hraw]].
  - rewrite Hraw. cbn. by rewrite N_ascii_embedding, Hc by lia.
  - clear -Hraw. induction u.2 as [|c a IH]; [done|]. cbn in *. unfold ascii_byte in Hraw.
    apply andb_true_iff in Hraw as [Hb Ha]. bool_hyps. by rewrite log_control_high, IH.
Qed.

Lemma encode_rune_log_safe s u s' :
  unit_of s u s' -> log_control u.1 = false ->
  string_forall log_safe_byte (encode_rune u.1) = true
  /\ String.length (encode_rune u.1) <= 3 * String.length u.2.
Proof.
  intros Hu Hc. destruct (unit_ok u) eqn:Hok.
  - rewrite (encode_rune_unit _ _ _ Hu Hok). split; [by eapply unit_log_safe|lia].
  - unfold unit_ok in Hok. apply negb_false_iff in Hok. bool_hyps.
    match goal with H : u.1 = _ |- _ => rewrite H end. split; [done|].
    assert (1 <= String.length u.2) by (inversion Hu; cbn; lia). cbn. lia.
Qed.

Lemma string_take_length n s : String.length (string_take n s) <= n.
Proof. revert s. induction n as [|n IH]; intros [|c s]; cbn; [lia..|]. specialize (IH s). lia. Qed.

Lemma sanitize_units s :
  let out := foldr (fun u acc => (if log_control u.1 then "?" else encode_rune u.1) +:+ acc) ""
               (utf8_units s) in
  string_forall log_safe_byte out = true /\ String.length out <= 3 * String.length s.
Proof.
  cbn. induction s as [|s u s' Hu Heq [IHs IHl]] using utf8_ind; [done|].
  rewrite Heq. cbn [foldr]. rewrite string_forall_app, string_length_app, IHs, andb_true_r.
  pose proof (unit_of_raw _ _ _ Hu) as ->. rewrite string_length_app.
  assert (1 <= String.length u.2) by (inversion Hu; cbn; lia).
  destruct (log_control u.1) eqn:Hc; [split; [done|cbn; lia]|].
  destruct (encode_rune_log_safe _ _ _ Hu Hc) as [? ?]. split; [done|lia].
Qed.

Lemma clean_units_safe s :
  forallb (fun u : N * string => negb (log_control u.1)) (utf8_units s) = true ->
  string_forall log_safe_byte s = true.
Proof.
  induction s as [|s u s' Hu Heq IH] using utf8_ind; [done|].
  rewrite Heq. cbn [forallb]. intros [Hc Hs]%andb_true_iff. bool_hyps.
  rewrite (unit_of_raw _ _ _ Hu), string_forall_app, IH by done.
  by rewrite (unit_log_safe _ _ _ Hu) by done.
Qed.

(** Log values are safe. A sanitized value has no control byte but the tab,
    is at most 3 KiB, and is the value itself when that was clean and at most 1
    KiB. *)
Theorem log_values_safe s :
  string_forall log_safe_byte (sanitizeLogValue s) = true
  /\ String.length (sanitizeLogValue s) <= 3 * log_max
  /\ (string_forall log_safe_byte s = true -> String.length s <= log_max -> sanitizeLogValue s = s).
Proof.
  unfold sanitizeLogValue.
  set (s1 := if decide _ then _ else _).
  assert (String.length s1 <= log_max) as Hlen.
  { subst s1. case_decide; [apply string_take_length|lia]. }
  pose proof (sanitize_units s1) as [Hsafe Hl]. cbn in Hsafe, Hl.
  split_and!; [case_match; [by apply clean_units_safe|done]|case_match; lia|].
  intros Hs Hle. subst s1. rewrite decide_False by lia.
  enough (forallb (fun u : N * string => negb (log_control u.1)) (utf8_units s) = true) as -> by done.
  clear -Hs. induction s as [|s u s' Hu Heq IH] using utf8_ind; [done|].
  rewrite (unit_of_raw _ _ _ Hu), string_forall_app in Hs. apply andb_true_iff in Hs as [Hr Hs].
  rewrite Heq. cbn [forallb]. rewrite IH, andb_true_r by done.
  destruct (unit_of_bytes _ _ _ Hu) as [[Hlt Hraw]|[Hge _]].
  - rewrite Hraw in Hr. cbn in Hr. unfold log_safe_byte in Hr.
    by rewrite N_ascii_embedding, andb_true_r in Hr by lia.
  - by rewrite log_control_high.
Qed.

(** The bound is met up to two bytes: 1024 bytes in, 3070 out. *)
Example log_value_expands :
  String.length (sanitizeLogValue (String (ascii_of_N 10) (string_of_bytes (replicate 1023 255%N))))
  = 3070.
Proof. vm_compute. reflexivity. Qed.

(** ** The order of the checks *)

Section Order.
Context {S : Type} `{StoreLaws S}.

(** A key that may open connections. *)
Definition live_key (st : S) (id : string) (k : Key) : Prop :=
  keys st !! id = Some k /\ k_RevokedAt k = None.

Lemma check_key_spec draining q (st : S) r st' :
  check_key draining q st = (r, st') ->
  keys st' = keys st /\
  match r with
  | Ok k => draining = false /\ uq_key q <> "" /\ live_key st (uq_key q) k
  | Err RejDraining => draining = true
  | Err RejMissingKey => draining = false /\ uq_key q = ""
  | Err RejInvalidKey => draining = false /\ uq_key q <> "" /\
      ((forall k, ~ live_key st (uq_key q) k)
       \/ exists e, (LookupKey (uq_key q) st).1 = Err (ErrBackend e))
  | Err RejIPCap => False
  end.
Proof.
  unfold check_key, live_key. intros Hr. destruct draining; [by simplify_eq|].
  case_decide; [by simplify_eq|].
  destruct (LookupKey _ st) as [lr st1] eqn:Hl. pose proof Hl as Hl'. apply LookupKey_law in Hl' as [Hk Hl'].
  destruct lr as [k|[|e]].
  - destruct (k_RevokedAt k) eqn:Hrev; simplify_eq; split; try done.
    split_and!; [done..|]. left. intros k' [Hk' ?]. congruence.
  - simplify_eq. split_and!; [done..|]. left. intros k' [Hk' ?]. congruence.
  - simplify_eq. split_and!; [done..|]. right. by exists e.
Qed.

(** C21. The pre-upgrade checks, on every branch: each refusal happens exactly
    when its check fails and the earlier ones hold, in the order draining, key
    given, key known and live, address under its cap; a refusal leaves the table
    of addresses alone, acceptance counts the address once, and the keys never
    change. *)
Theorem upgrade_checks_in_order trusted cap draining q (st : S) t r st' t' :
  ServeHTTP_checks trusted cap draining q st t = (r, st', t') ->
  let ip := req_ip trusted q in
  let n := default 0%Z (t !! ip) in
  keys st' = keys st /\
  match r with
  | Err RejDraining => draining = true /\ t' = t
  | Err RejMissingKey => draining = false /\ uq_key q = "" /\ t' = t
  | Err RejInvalidKey => draining = false /\ uq_key q <> "" /\ t' = t /\
      ((forall k, ~ live_key st (uq_key q) k)
       \/ exists e, (LookupKey (uq_key q) st).1 = Err (ErrBackend e))
  | Err RejIPCap => draining = false /\ (exists k, live_key st (uq_key q) k)
      /\ (cap <= n)%Z /\ t' = t
  | Ok (k, ip') => draining = false /\ live_key st (uq_key q) k
      /\ ip' = ip /\ (n < cap)%Z /\ t' = <[ip := (n + 1)%Z]> t
  end.
Proof.
  unfold ServeHTTP_checks, ip_count. intros Hr.
  destruct (check_key draining q st) as [kr st1] eqn:Hk. apply check_key_spec in Hk as [Hst Hk].
  destruct kr as [k|[]]; [|simplify_eq; naive_solver..].
  case_decide; simplify_eq; split_and!; try done; naive_solver lia.
Qed.
End Order.

(** A store with the live key "K". *)
Definition demo_store : Memory.memoryStore :=
  Memory.MkMemory {["K" := MkKey "K" "alice" "h" 0 None]}.

Definition demo_req : upgrade_req := MkUpgradeReq "K" "203.0.113.7:5000" [].

Lemma upgrade_checks_in_order_witness :
  let n := default 0%Z ((∅ : IPTable) !! req_ip [] demo_req) in
  keys demo_store = keys demo_store
  /\ false = false /\ live_key demo_store "K" (MkKey "K" "alice" "h" 0 None)
  /\ "203.0.113.7" = req_ip [] demo_req /\ (n < 1)%Z
  /\ <["203.0.113.7" := 1%Z]> (∅ : IPTable) = <[req_ip [] demo_req := (n + 1)%Z]> ∅.
Proof.
  apply (upgrade_checks_in_order [] 1 false demo_req demo_store ∅
    (Ok (MkKey "K" "alice" "h" 0 None, "203.0.113.7")) demo_store).
  vm_compute. reflexivity.
Defined.
