(* ===== verification/Rest.v ===== *)
(** * internal/server/rest.go: the REST control plane

    The admin gate and the four handlers, from the request's header and body
    to the answer and the new store.  [ulid.ParseStrict] is a parameter. *)
From S2P Require Import Prelude GoStd GoBytes GoSha256 Utf8 GoJson Token Channel Registry Limiter Hub Conn Handler Store.
From stdpp Require Import options.

(** ** Bodies *)

Definition maxAdminBodyBytes : nat := N.to_nat 65536.

(** [Decoder.Decode] of the body, cut at the limit, into a struct of string
    fields: the values by tag, or an error. [strict] is [DisallowUnknownFields]. *)
Definition set_string (tags : list string) (strict : bool) (acc : gmap string string) (f : member)
    : option (gmap string string) :=
  let '(k, (v, _)) := f in
  match filter (fun tag => field_match tag k = true) tags with
  | [] => if strict then None else Some acc
  | tag :: _ =>
      match v with
      | JStr s => Some (<[tag := s]> acc)
      | JNull => Some acc
      | _ => None
      end
  end.

Definition decode_body (tags : list string) (strict : bool) (body : string)
    : option (gmap string string) :=
  '(t, _) ← parse_first (string_take maxAdminBodyBytes body);
  match t with
  | TObject ms => foldl (fun acc f => m ← acc; set_string tags strict m f) (Some ∅) ms
  | TValue JNull => Some ∅
  | TValue _ => None
  end.

Definition field (tag : string) (m : gmap string string) : string := default "" (m !! tag).

(** ** Answers *)

Record keyView : Type := MkView {
  v_ID : string;
  v_Name : string;
  v_CreatedAt : Z;
  v_RevokedAt : option Z;
}.

Definition toKeyView (k : Key) : keyView :=
  MkView (k_ID k) (k_Name k) (k_CreatedAt k) (k_RevokedAt k).

(** [http.Error], [writeJSON] of a map and of the views, and a bare status. *)
Inductive answer : Type :=
  | RError (status : Z) (msg : string)
  | RMap (status : Z) (kvs : list (string * string))
  | RViews (status : Z) (vs : list keyView)
  | RStatus (status : Z).

Definition StatusOK : Z := 200.
Definition StatusCreated : Z := 201.
Definition StatusNoContent : Z := 204.
Definition StatusBadRequest : Z := 400.
Definition StatusUnauthorized : Z := 401.
Definition StatusNotFound : Z := 404.
Definition StatusInternalServerError : Z := 500.

Definition internal_error : answer := RError StatusInternalServerError "internal error".
Definition bad_request : answer := RError StatusBadRequest "bad request".
Definition bad_credentials : answer := RError StatusUnauthorized "bad credentials".

(** ** The handlers *)

Definition bearer : string := "Bearer ".

(** [requireAdmin]: [None] runs the handler. *)
Definition requireAdmin (adminToken ah : string) : option answer :=
  let unauthorized := Some (RError StatusUnauthorized "unauthorized") in
  if negb (HasPrefix ah bearer) then unauthorized else
  let got := string_drop (String.length bearer) ah in
  if decide (String.length got <> String.length adminToken) then unauthorized
  else if decide (got = adminToken) then None else unauthorized.

Section Rest.
Context {S : Type} `{Store S}.

(** [rnd] is the random source, [id] and [now] what [CreateKey] draws. *)
Definition create (rnd : option (list N)) (id : string) (now : Z) (body : string) (st : S)
    : answer * S :=
  match decode_body ["name"] true body with
  | None => (bad_request, st)
  | Some m =>
      if decide (field "name" m = "") then (bad_request, st) else
      match Keys.GenerateSecret rnd with
      | None => (internal_error, st)
      | Some secret =>
          let '(r, st') := CreateKey id now (field "name" m) (Keys.HashSecret secret) st in
          match r with
          | Err _ => (internal_error, st')
          | Ok k => (RMap StatusCreated [("id", k_ID k); ("name", k_Name k); ("secret", secret)], st')
          end
      end
  end.

Definition list_keys (st : S) : answer * S :=
  let '(r, st') := ListKeys st in
  match r with
  | Err _ => (internal_error, st')
  | Ok ks => (RViews StatusOK (toKeyView <$> ks), st')
  end.

(** [revoke] up to the store; the boolean says whether [CloseKey] follows. *)
Definition revoke_store (now : Z) (id : string) (st : S) : answer * bool * S :=
  let '(r, st') := RevokeKey now id st in
  match r with
  | Err ErrKeyNotFound => (RError StatusNotFound "not found", false, st')
  | Err _ => (internal_error, false, st')
  | Ok _ => (RStatus StatusNoContent, true, st')
  end.

(** The whole handler: the conns it closes, when it does. *)
Definition revoke (now : Z) (id : string) (st : S) (h : Hub) : answer * list conn_id * S * Hub :=
  let '(a, closing, st') := revoke_store now id st in
  if closing : bool then
    let '(cs, h') := CloseKey id StatusPolicyViolation "key revoked" h in (a, cs, st', h')
  else (a, [], st', h).

(** The credential check of [sign]: the key when it passes. *)
Definition sign_auth (ah : string) (st : S) : option Key * S :=
  match SplitN ":" 2 (TrimPrefix ah bearer) with
  | [id; secret] =>
      let '(r, st') := LookupKey id st in
      match r with
      | Err _ => (None, st')
      | Ok k =>
          match k_RevokedAt k with
          | Some _ => (None, st')
          | None => if Keys.VerifySecret secret (k_SecretHash k) then (Some k, st') else (None, st')
          end
      end
  | _ => (None, st)
  end.

Definition tokenTTL : Z := 5 * 60 * second.

Context (ParseStrict : string -> bool).

Definition sign (rnd : option (list N)) (now : Z) (signingSecret ah body : string) (st : S)
    : answer * S :=
  let '(k, st') := sign_auth ah st in
  match k with
  | None => (bad_credentials, st')
  | Some _ =>
      match decode_body ["socket_id"; "channel"] false body with
      | None => (bad_request, st')
      | Some m =>
          let socketID := field "socket_id" m in
          let channel := field "channel" m in
          if negb (ParseStrict socketID) then
            (RError StatusBadRequest "bad request: socket_id is not a valid socket id", st')
          else if negb (is_ok (ValidateChannelName channel)) || negb (ChannelRequiresAuth channel) then
            (RError StatusBadRequest "bad request: channel must be a valid private- or presence- channel name", st')
          else
            match SignToken rnd signingSecret socketID channel (now + tokenTTL) with
            | None => (internal_error, st')
            | Some tok => (RMap StatusOK [("token", tok)], st')
            end
      end
  end.
End Rest.

(** ** The admin gate *)

Lemma prefix_drop p s :
  HasPrefix s p = true -> s = p +:+ string_drop (String.length p) s.
Proof.
  unfold HasPrefix. revert s. induction p as [|c p IH]; intros s Hp; [done|].
  destruct s as [|d s]; [done|]. cbn in Hp. destruct (ascii_dec c d) as [->|]; [|done].
  cbn [String.length string_drop]. str_simpl. f_equal. by apply IH.
Qed.

Lemma drop_app p s : string_drop (String.length p) (p +:+ s) = s.
Proof. induction p as [|c p IH]; str_simpl; [done|]. exact IH. Qed.

Lemma requires_auth_not_reserved name :
  ChannelRequiresAuth name = true -> channelReserved name = false.
Proof.
  unfold ChannelRequiresAuth, channelReserved, authRequiredPrefixes. cbn [existsb].
  rewrite orb_false_r. intros [Hp|Hp]%orb_true_iff; by rewrite (prefix_drop _ _ Hp).
Qed.

(** The admin gate. A request gets to an admin handler exactly when its
    Authorization header is Bearer followed by the admin token, byte for byte;
    any other is answered 401. *)
Theorem admin_gate adminToken ah :
  requireAdmin adminToken ah
  = if decide (ah = bearer +:+ adminToken) then None
    else Some (RError StatusUnauthorized "unauthorized").
Proof.
  unfold requireAdmin. destruct (decide (ah = bearer +:+ adminToken)) as [Hah|Hah].
  - subst ah. rewrite HasPrefix_app, drop_app. cbn [negb].
    rewrite decide_False by (intros []; done). by rewrite decide_True.
  - destruct (HasPrefix ah bearer) eqn:Hp; [|done]. cbn [negb].
    case_decide as Hl; [done|]. case_decide as He; [|done].
    exfalso. apply Hah. rewrite (prefix_drop _ _ Hp), He. done.
Qed.

(** ** Credentials *)

Section Credentials.
Context {S : Type} `{StoreLaws S}.

(** The header that carries a key's credentials. *)
Definition credentials (id secret : string) : string := bearer +:+ id +:+ ":" +:+ secret.

Lemma TrimPrefix_app p s : TrimPrefix (p +:+ s) p = s.
Proof using Type. unfold TrimPrefix. by rewrite HasPrefix_app, drop_app. Qed.

(** What [sign] demands of the caller. *)
Lemma sign_auth_spec id secret (st : S) k st' :
  string_elem ":" id = false ->
  sign_auth (credentials id secret) st = (k, st') ->
  keys st' = keys st /\
  match k with
  | Some k => keys st !! id = Some k /\ k_RevokedAt k = None
      /\ Keys.VerifySecret secret (k_SecretHash k) = true
  | None => forall k, keys st !! id = Some k -> k_RevokedAt k = None ->
      Keys.VerifySecret secret (k_SecretHash k) = true ->
      exists e, (LookupKey id st).1 = Err (ErrBackend e)
  end.
Proof using Type.
  unfold sign_auth, credentials. intros Hid. rewrite TrimPrefix_app. cbn [SplitN].
  rewrite string_app_cons, string_app_nil_l, Cut_app by done.
  destruct (LookupKey id st) as [r st1] eqn:Hl. intros Hr.
  pose proof Hl as [Hk Hl']%LookupKey_law. destruct r as [k0|[|e]].
  - destruct (k_RevokedAt k0) eqn:Hrev; [|destruct (Keys.VerifySecret _ _) eqn:Hv];
      simplify_eq; split; try done; intros; congruence.
  - simplify_eq. split; [done|]. intros; congruence.
  - simplify_eq. split; [done|]. eauto.
Qed.

(** A token [sign] hands out, and what it took. *)
Lemma sign_ok PS rnd now ss ah body (st : S) a st' tok :
  sign PS rnd now ss ah body st = (a, st') -> a = RMap StatusOK [("token", tok)] ->
  exists k m, (sign_auth ah st).1 = Some k
    /\ decode_body ["socket_id"; "channel"] false body = Some m
    /\ PS (field "socket_id" m) = true
    /\ ValidateChannelName (field "channel" m) = Ok tt
    /\ ChannelRequiresAuth (field "channel" m) = true
    /\ SignToken rnd ss (field "socket_id" m) (field "channel" m) (now + tokenTTL) = Some tok.
Proof using Type.
  unfold sign. intros Hs ->. destruct (sign_auth ah st) as [[k|] st1]; [|done].
  destruct (decode_body _ _ _) as [m|]; [|done].
  destruct (PS _) eqn:Hps; [|done]. cbn [negb] in Hs.
  destruct (ValidateChannelName _) as [[]|] eqn:Hv; [|done].
  destruct (ChannelRequiresAuth _) eqn:Hc; [|done]. cbn in Hs.
  destruct (SignToken _ _ _ _ _) eqn:Ht; simplify_eq. eauto 10.
Qed.

(** C20. Credentials work until they are revoked. The identifier and secret that
    POST /v1/keys answers pass the check of POST /v1/auth/sign, unless the store
    fails, whatever operations on other keys follow, and no secret with another
    hash does; after DELETE /v1/keys/{id} has succeeded no secret passes any
    more. *)
Theorem credentials_lifecycle bytes id id' now body name secret (st st1 : S) :
  create (Some bytes) id now body st
    = (RMap StatusCreated [("id", id'); ("name", name); ("secret", secret)], st1) ->
  string_elem ":" id = false ->
  id' = id /\ name <> "" /\ secret = hex_encode bytes
  /\ (forall ops, Forall (fun o => ~ touches id o) ops ->
      let st2 := (store_run ops st1).2 in
      (forall other, Keys.HashSecret other <> Keys.HashSecret secret ->
        (sign_auth (credentials id other) st2).1 = None)
      /\ (is_Some (sign_auth (credentials id secret) st2).1
          \/ exists e, (LookupKey id st2).1 = Err (ErrBackend e)))
  /\ (forall ops ops' now' a st2, Forall (fun o => ~ touches id o) ops ->
      revoke_store now' id (store_run ops st1).2 = (a, true, st2) ->
      Forall (fun o => ~ creates id o) ops' ->
      forall any, (sign_auth (credentials id any) (store_run ops' st2).2).1 = None).
Proof using All.
  unfold create. intros Hc Hid. destruct (decode_body _ _ _) as [m|]; [|done].
  case_decide as Hn; [done|]. cbn in Hc.
  destruct (CreateKey _ _ _ _ st) as [r st0] eqn:Hcr. apply CreateKey_law in Hcr.
  destruct r as [k|[]]; [|done|done]. destruct Hcr as [-> Hk1]. cbn in Hc. simplify_eq.
  split; [done|]. split; [done|]. split; [done|]. split.
  - intros ops Hops. pose proof (kept_run id' ops st1 Hops) as Hkeep.
    rewrite Hk1, lookup_insert_eq in Hkeep. set (st2 := (store_run ops st1).2) in *. split.
    + intros other Ho. destruct (sign_auth (credentials id' other) st2) as [[k|] st3] eqn:Hs; [|done].
      apply sign_auth_spec in Hs as [_ (Hk & _ & Hv)]; [|done]. exfalso.
      rewrite Hkeep in Hk. simplify_eq. unfold Keys.VerifySecret in Hv. by bool_hyps.
    + destruct (sign_auth (credentials id' (hex_encode bytes)) st2) as [[k|] st3] eqn:Hs; [by left|right].
      apply sign_auth_spec in Hs as [_ Hs]; [|done]. eapply Hs; [exact Hkeep|done|].
      unfold Keys.VerifySecret. by apply bool_decide_eq_true_2.
  - intros ops ops' now' a st2 _ Hr Hops' any. unfold revoke_store in Hr.
    destruct (RevokeKey _ _ _) as [[[]|[]] st3] eqn:Hrv; simplify_eq.
    apply RevokeKey_law in Hrv as (k & _ & Hk2).
    assert (is_revoked id' st2) as Hrev.
    { exists (revoked_at (stored_time now') k). rewrite Hk2, lookup_insert_eq. split; [done|]. by eexists. }
    destruct (revoked_run _ _ _ Hrev Hops') as (k' & Hk' & Hr').
    destruct (sign_auth _ _) as [[k3|] st4] eqn:Hs; [|done].
    apply sign_auth_spec in Hs as [_ (Hk3 & Hr3 & _)]; [|done].
    rewrite Hk' in Hk3. simplify_eq. rewrite Hr3 in Hr'. by destruct Hr'.
Qed.

Section Token.
Context {R B F : Type} `{Registry R, TokenBucket B}.

(** C27. What POST /v1/auth/sign mints is good for a subscribe. A token in its
    answer passes the token check of a subscribe to the body's channel on a
    connection with the body's socket id, at any time of the next five minutes,
    and the channel is one that needs a token. *)
Theorem signed_token_subscribes PS bytes now cfg ah body (st st' : S) tok :
  sign PS (Some bytes) now (signingSecret cfg) ah body st = (RMap StatusOK [("token", tok)], st') ->
  Forall byte_ok bytes -> length bytes = 16 -> int64_ok (UnixMilli (now + tokenTTL)) ->
  exists m, decode_body ["socket_id"; "channel"] false body = Some m /\
  let sid := field "socket_id" m in let ch := field "channel" m in
  PS sid = true /\ ValidateChannelName ch = Ok tt
  /\ ChannelRequiresAuth ch = true /\ channelReserved ch = false
  /\ forall rd (c : Conn B) msg (w : World R B F) cache,
      socketID c = sid -> in_Channel msg = ch -> in_Token msg = tok ->
      w_cache w = Some cache -> cache !! hex_encode bytes = None ->
      (UnixMilli (rd_verify rd) <= UnixMilli (now + tokenTTL))%Z ->
      check_token cfg rd c msg w
      = (None, set_cache (Some (<[hex_encode bytes := to_millis (now + tokenTTL)]> cache)) w).
Proof using Type.
  intros Hs Hb Hlen Hexp. eapply sign_ok in Hs as (k & m & _ & Hm & Hps & Hv & Hc & Ht); [|done].
  exists m. split; [done|]. split_and!; try done.
  { by apply requires_auth_not_reserved. }
  intros rd c msg w cache Hsid Hch Htok Hw Hfresh Hle. unfold check_token.
  rewrite Hsid, Hch, Htok, Hc, Hw.
  assert (VerifyTokenAgainst (rd_verify rd) (signingSecret cfg) (field "socket_id" m)
    (field "channel" m) tok (Some cache)
    = (Ok tt, Some (<[hex_encode bytes := to_millis (now + tokenTTL)]> cache))) as ->.
  { apply VerifyTokenAgainst_ok. eexists _, _, _.
    split; [by eapply SignToken_parts|]. done. }
  done.
Qed.
End Token.
End Credentials.

(** ** A concrete key and token *)

Definition demo_bytes : list N := replicate 16 171%N.
Definition demo_create_body : string := object true [("name", quote true "alice")].
Definition demo_created : Memory.memoryStore :=
  Memory.MkMemory {["K1" := MkKey "K1" "alice" (Keys.HashSecret (hex_encode demo_bytes)) 7 None]}.

Lemma credentials_lifecycle_witness :
  is_Some (sign_auth (credentials "K1" (hex_encode demo_bytes))
    (store_run [OpLookup "K1"; OpList] demo_created).2).1
  \/ exists e, (LookupKey "K1" (store_run [OpLookup "K1"; OpList] demo_created).2).1 = Err (ErrBackend e).
Proof.
  apply (credentials_lifecycle demo_bytes "K1" "K1" 7 demo_create_body "alice" (hex_encode demo_bytes)
    Memory.NewMemory demo_created); [by vm_compute|done|].
  repeat constructor; intros [].
Defined.

(** [ulid.ParseStrict] accepts 26 bytes of its alphabet; here, by length. *)
Definition demo_ulid (s : string) : bool := bool_decide (String.length s = 26).
Definition demo_sid : string := "01ARZ3NDEKTSV4RRFFQ69G5FAV".
Definition demo_sign_body : string :=
  object true [("socket_id", quote true demo_sid); ("channel", quote true "private-a")].
Definition demo_signed : answer :=
  (sign demo_ulid (Some demo_bytes) 0 "k" (credentials "K1" (hex_encode demo_bytes))
    demo_sign_body demo_created).1.
Definition demo_signed_token : string :=
  match demo_signed with RMap _ [(_, tok)] => tok | _ => "" end.

Definition demo_cfg : Config := MkConfig "k" PolicyDisconnect.
Definition demo_rd : readings := MkReadings 0 0 0 0 "" [].
Definition demo_world : World SyncMap.t tbucket PerConn :=
  MkWorld (SyncMap.Mk ∅) heap_empty ∅ (Limiter.New 100 200 (600 * second)) (Some ∅)
    (MkMetrics 0 0 0 0) NewPerConn Hub.New.
Definition demo_conn : Conn tbucket :=
  MkConn demo_sid "K1" [] (NewLimiter 50 100) (NewLimiter 20 64) false (Some ∅) false.
Definition demo_msg : incoming := MkIncoming "subscribe" "private-a" demo_signed_token None.

(** The subscribe that presents the token, if its socket and channel are the
    ones of the body. *)
Lemma signed_token_subscribes_witness :
  check_token demo_cfg demo_rd demo_conn demo_msg demo_world
  = (None, set_cache (Some (<[hex_encode demo_bytes := to_millis (0 + tokenTTL)]> ∅)) demo_world).
Proof.
  assert (field "socket_id" <$> decode_body ["socket_id"; "channel"] false demo_sign_body = Some demo_sid
    /\ field "channel" <$> decode_body ["socket_id"; "channel"] false demo_sign_body = Some "private-a")
    as [Hsid Hch] by (split; by vm_compute).
  destruct (signed_token_subscribes (R := SyncMap.t) (B := tbucket) (F := PerConn) demo_ulid demo_bytes 0 demo_cfg
    (credentials "K1" (hex_encode demo_bytes)) demo_sign_body demo_created demo_created
    demo_signed_token) as (m & Hm & _ & _ & _ & _ & Hrun).
  - by vm_compute.
  - repeat constructor.
  - reflexivity.
  - vm_decide.
  - rewrite Hm in Hsid, Hch. cbn in Hsid, Hch. injection Hsid as Hsid. injection Hch as Hch.
    apply (Hrun demo_rd demo_conn demo_msg demo_world ∅); [by rewrite Hsid|by rewrite Hch|done|done|done|vm_decide].
Defined.
