(* ===== verification/Server.v ===== *)
(** * internal/server: the whole server as a transition system

    Requests to [/v1/connect] interleaved at the points where [ServeHTTP]
    touches shared state, the REST handlers ([revoke] in two steps, for the
    store and for the hub), shutdown, and everything that happens inside the
    open connections. *)
From S2P Require Import Prelude GoStd Utf8 GoJson Token Channel Registry Sweep Limiter Hub Frame Conn World Handler Membership Run GoNetip Store Upgrade Rest.
From stdpp Require Import options.

(** ** health.go *)

Record HealthHandler : Type := MkHealth { h_draining : bool }.

Definition NewHealthHandler : HealthHandler := MkHealth false.
Definition SetDraining (d : bool) (h : HealthHandler) : HealthHandler := MkHealth d.
Definition Draining (h : HealthHandler) : bool := h_draining h.

(** The probe's status and body. *)
Definition health_ServeHTTP (h : HealthHandler) : Z * string :=
  if h_draining h then (503%Z, "draining") else (200%Z, "ok").

(** ** Requests in flight *)

(** A [ServeHTTP] call after the key check, after counting its address, and
    inside [conn.Run]. *)
Inductive req_pc : Type :=
  | RqLooked (key ip : string)
  | RqCounted (key ip : string)
  | RqServing (key ip : string) (i : conn_id).

#[export] Instance req_pc_eq_dec : EqDecision req_pc.
Proof. solve_decision. Defined.

Definition counted (ip : string) (p : req_pc) : Prop :=
  match p with
  | RqLooked _ _ => False
  | RqCounted _ ip' | RqServing _ ip' _ => ip' = ip
  end.

#[export] Instance counted_dec ip p : Decision (counted ip p).
Proof. destruct p; unfold counted; apply _. Defined.

(** How many requests an address has. *)
Definition in_use (ip : string) (reqs : gmap nat req_pc) : nat :=
  size (filter (fun np => counted ip np.2) reqs).

Section Inner.
Context {R B F : Type} `{RegistryLaws R, TokenBucket B, !Fanout R B F, !FanoutLaws R B F}.
Context (cfg : Config).

(** What happens inside the open connections, and the background loops. *)
Inductive inner_step : World R B F -> World R B F -> Prop :=
  | is_frame i raw rd c w :
      w_conns w !! i = Some c -> closed c = false -> inner_step w (handle cfg rd i raw w)
  | is_write i w : inner_step w (write_pump i w)
  | is_sweep w : inner_step w (sweep_tick w)
  | is_cache now w : inner_step w (cache_tick now w)
  | is_gc now w : inner_step w (set_limiter (gcOnce now (w_limiter w)) w)
  | is_stats snap id w : inner_step w (stats_tick cfg snap id w)
  | is_work w w' : work cfg w w' -> inner_step w w'.

(** ** Inner steps leave the hub alone *)

Lemma hub_core (w w' : World R B F) : core_eq w w' -> w_hub w' = w_hub w.
Proof using Type. intros Hc. apply Hc. Qed.

Lemma join_hub rd i msg m (w : World R B F) : w_hub (join rd i msg m w) = w_hub w.
Proof using Type.
  unfold join. destruct (subscribe_retry _ _ _ _ _) as [[ch|[]] s];
    unfold sendAck, sendOpError, sendErrorFrame; by rewrite (hub_core _ _ (core_reply _ _ _)).
Qed.

Lemma handle_hub rd i raw (w : World R B F) : w_hub (handle cfg rd i raw w) = w_hub w.
Proof using All.
  unfold handle. destruct (Valid raw); cbn [negb]; [|apply hub_core, core_sendError].
  destruct (unmarshal raw) as [msg|]; [|apply hub_core, core_sendError].
  destruct (if is_op _ then _ else _) as [[]|e]; [|apply hub_core, core_sendOpError].
  unfold dispatch. case_decide; [|case_decide; [|case_decide]].
  - unfold handleSubscribe. destruct (channelReserved _ && _); [apply hub_core, core_sendOpError|].
    pose proof (hub_core _ _ (core_allowControl rd i msg w)) as Hh1.
    destruct (allowControl rd i msg w) as [[] w1]; cbn in *; [|done].
    rewrite <- Hh1. destruct (w_conns w1 !! i) as [c|]; [|done].
    case_decide; [apply hub_core, core_sendAck|].
    pose proof (hub_core _ _ (core_check_token cfg rd c msg w1)) as Hh2.
    destruct (check_token _ _ _ _ _) as [[[code m]|] w2]; cbn in Hh2; rewrite <- Hh2;
      [apply hub_core, core_sendOpError|].
    case_decide; [apply hub_core, core_sendOpError|apply join_hub].
  - unfold handleUnsubscribe.
    pose proof (hub_core _ _ (core_allowControl rd i msg w)) as Hh1.
    destruct (allowControl rd i msg w) as [[] w1]; cbn in *; [|done].
    rewrite <- Hh1. destruct (w_conns w1 !! i) as [c|]; [|done].
    destruct (conn_subs c !! _); [|apply hub_core, core_sendAck].
    unfold sendAck. by rewrite (hub_core _ _ (core_reply _ _ _)).
  - apply hub_core, core_handlePublish.
  - apply hub_core, core_sendError.
Qed.

Lemma inner_step_hub w w' : inner_step w w' -> w_hub w' = w_hub w.
Proof using All.
  destruct 1; try done.
  - apply handle_hub.
  - unfold stats_tick. destruct (GetOrCreate _ _) as [ch s].
    by rewrite (hub_core _ _ (core_Broadcast _ _ _ _)).
  - by eapply hub_core, work_core.
Qed.

Lemma inner_step_world w w' : inner_step w w' -> world_step cfg w w'.
Proof using Type.
  destruct 1; [by eapply ws_frame|apply ws_write|apply ws_sweep|apply ws_cache|apply ws_gc|
    apply ws_stats|by apply ws_work].
Qed.
End Inner.

Section Server.
Context {S R B F : Type} `{StoreLaws S}.
Context `{RegistryLaws R, TokenBucket B, !Fanout R B F, !FanoutLaws R B F}.
Context (cfg : Config) (trusted : list Pfx) (cap : Z) (ParseStrict : string -> bool).

Record server : Type := MkServer {
  sv_store : S;
  sv_health : HealthHandler;
  sv_ips : IPTable;
  sv_reqs : gmap nat req_pc;
  sv_revoking : gset string;      (* revoked in the store, [CloseKey] not yet called *)
  sv_world : World R B F;
}.

Definition sv_hub (s : server) : Hub := w_hub (sv_world s).

Definition set_st (st : S) (s : server) : server :=
  MkServer st (sv_health s) (sv_ips s) (sv_reqs s) (sv_revoking s) (sv_world s).
Definition set_health (h : HealthHandler) (s : server) : server :=
  MkServer (sv_store s) h (sv_ips s) (sv_reqs s) (sv_revoking s) (sv_world s).
Definition set_ips (t : IPTable) (s : server) : server :=
  MkServer (sv_store s) (sv_health s) t (sv_reqs s) (sv_revoking s) (sv_world s).
Definition set_req (n : nat) (p : req_pc) (s : server) : server :=
  MkServer (sv_store s) (sv_health s) (sv_ips s) (<[n := p]> (sv_reqs s)) (sv_revoking s) (sv_world s).
Definition end_req (n : nat) (s : server) : server :=
  MkServer (sv_store s) (sv_health s) (sv_ips s) (delete n (sv_reqs s)) (sv_revoking s) (sv_world s).
Definition set_revoking (ks : gset string) (s : server) : server :=
  MkServer (sv_store s) (sv_health s) (sv_ips s) (sv_reqs s) ks (sv_world s).
Definition set_world (w : World R B F) (s : server) : server :=
  MkServer (sv_store s) (sv_health s) (sv_ips s) (sv_reqs s) (sv_revoking s) w.

(** The deferred release, on every return after the count. *)
Definition release (n : nat) (ip : string) (s : server) : server :=
  end_req n (set_ips (ip_release ip (sv_ips s)) s).

Inductive server_step : server -> server -> Prop :=
  (** [ServeHTTP] *)
  | sv_refuse q e st s :
      check_key (Draining (sv_health s)) q (sv_store s) = (Err e, st) -> server_step s (set_st st s)
  | sv_look n q k st s :
      sv_reqs s !! n = None ->
      check_key (Draining (sv_health s)) q (sv_store s) = (Ok k, st) ->
      server_step s (set_req n (RqLooked (k_ID k) (req_ip trusted q)) (set_st st s))
  | sv_over_cap n key ip s :
      sv_reqs s !! n = Some (RqLooked key ip) -> ip_count cap ip (sv_ips s) = None ->
      server_step s (end_req n s)
  | sv_count n key ip t s :
      sv_reqs s !! n = Some (RqLooked key ip) -> ip_count cap ip (sv_ips s) = Some t ->
      server_step s (set_req n (RqCounted key ip) (set_ips t s))
  | sv_no_handshake n key ip s :
      sv_reqs s !! n = Some (RqCounted key ip) -> server_step s (release n ip s)
  | sv_run n key ip i sid w s :
      sv_reqs s !! n = Some (RqCounted key ip) -> w_conns (sv_world s) !! i = None ->
      run_start i sid key (sv_world s) = (Ok tt, w) ->
      server_step s (set_req n (RqServing key ip i) (set_world w s))
  | sv_run_refused n key ip i sid ce w s :
      sv_reqs s !! n = Some (RqCounted key ip) -> w_conns (sv_world s) !! i = None ->
      run_start i sid key (sv_world s) = (Err ce, w) ->
      server_step s (release n ip (set_world w s))
  | sv_return n key ip i c s :
      sv_reqs s !! n = Some (RqServing key ip i) ->
      w_conns (sv_world s) !! i = Some c -> closed c = false ->
      server_step s (release n ip (set_world (run_teardown i (sv_world s)) s))
  (** REST.  [ulid.Make] never repeats an identifier.  A key can be under
      revocation by more than one request. *)
  | sv_create rnd id now body a st s :
      keys (sv_store s) !! id = None ->
      create rnd id now body (sv_store s) = (a, st) -> server_step s (set_st st s)
  | sv_list a st s : list_keys (sv_store s) = (a, st) -> server_step s (set_st st s)
  | sv_sign rnd now ah body a st s :
      sign ParseStrict rnd now (signingSecret cfg) ah body (sv_store s) = (a, st) ->
      server_step s (set_st st s)
  | sv_revoke_fails now id a st s :
      revoke_store now id (sv_store s) = (a, false, st) -> server_step s (set_st st s)
  | sv_revoke now id a st s :
      revoke_store now id (sv_store s) = (a, true, st) ->
      server_step s (set_revoking ({[id]} ∪ sv_revoking s) (set_st st s))
  | sv_close_key id rest s :
      id ∈ sv_revoking s -> sv_revoking s ∖ {[id]} ⊆ rest -> rest ⊆ sv_revoking s ->
      server_step s (set_revoking rest
        (set_world (set_hub (CloseKey id StatusPolicyViolation "key revoked" (sv_hub s)).2
                      (sv_world s)) s))
  (** [Server.Run] after its context ends: the health flag, then [Hub.Drain]. *)
  | sv_draining s : server_step s (set_health (SetDraining true (sv_health s)) s)
  | sv_drain s :
      Draining (sv_health s) = true ->
      server_step s (set_world (set_hub (set_draining (sv_hub s)) (sv_world s)) s)
  | sv_inner w s : inner_step cfg (sv_world s) w -> server_step s (set_world w s).

Definition server_init (st : S) (l : Limiter B) (cache : option ReplayCache) (f : F) : server :=
  MkServer st NewHealthHandler ∅ ∅ ∅ (world_init l cache f).

End Server.
