(* ===== verification/ServerSafety.v ===== *)
(** * What the server guarantees

    The invariant of the whole server, and its three promises: the per-address
    cap holds and its table never leaks, a revoked key is dead, and a draining
    server opens nothing. *)
From S2P Require Import Prelude GoStd GoBytes Utf8 GoJson Token Channel Registry Sweep Limiter Hub Frame Conn World Handler Membership Run GoNetip Store Upgrade Rest Server.
From stdpp Require Import options.

(** ** Counting requests *)

Lemma in_use_insert ip n p reqs :
  reqs !! n = None ->
  in_use ip (<[n := p]> reqs) = (if decide (counted ip p) then 1 else 0) + in_use ip reqs.
Proof.
  intros Hn. unfold in_use. case_decide as Hp.
  - rewrite map_filter_insert_True by done.
    rewrite map_size_insert_None; [done|]. apply map_lookup_filter_None. by left.
  - rewrite map_filter_insert_False by done. by rewrite delete_id.
Qed.

Lemma in_use_delete ip n p reqs :
  reqs !! n = Some p ->
  in_use ip reqs = (if decide (counted ip p) then 1 else 0) + in_use ip (delete n reqs).
Proof.
  intros Hn. rewrite <- (insert_delete_id reqs n p) at 1 by done.
  apply in_use_insert, lookup_delete_eq.
Qed.

Lemma in_use_replace ip n p p' reqs :
  reqs !! n = Some p ->
  in_use ip (<[n := p']> reqs) + (if decide (counted ip p) then 1 else 0)
  = in_use ip reqs + (if decide (counted ip p') then 1 else 0).
Proof.
  intros Hn. rewrite (in_use_delete ip n p reqs) by done.
  rewrite <- insert_delete_eq, in_use_insert by apply lookup_delete_eq. lia.
Qed.

Lemma in_use_empty ip : in_use ip ∅ = 0.
Proof. unfold in_use. by rewrite map_filter_empty, map_size_empty. Qed.

(** The table has exactly the addresses in use, with their number. *)
Definition table_ok (t : IPTable) (reqs : gmap nat req_pc) : Prop :=
  forall ip, t !! ip = if decide (in_use ip reqs = 0) then None else Some (Z.of_nat (in_use ip reqs)).

Lemma table_default t reqs ip : table_ok t reqs -> default 0%Z (t !! ip) = Z.of_nat (in_use ip reqs).
Proof. intros Ht. rewrite Ht. case_decide as Hz; [by rewrite Hz|done]. Qed.

(** A change of the requests that leaves every count alone. *)
Lemma table_ok_same t reqs reqs' :
  table_ok t reqs -> (forall ip, in_use ip reqs' = in_use ip reqs) -> table_ok t reqs'.
Proof. intros Ht Heq ip. by rewrite Heq. Qed.

Lemma table_ok_count cap t reqs reqs' ip t' :
  table_ok t reqs -> ip_count cap ip t = Some t' ->
  (forall ip', in_use ip' reqs' = in_use ip' reqs + (if decide (ip' = ip) then 1 else 0)) ->
  table_ok t' reqs' /\ (Z.of_nat (in_use ip reqs') <= cap)%Z.
Proof.
  intros Ht Hc Hr. unfold ip_count in Hc. rewrite (table_default _ _ _ Ht) in Hc.
  case_decide as Hcap; simplify_eq. split.
  - intros ip'. rewrite lookup_insert, Hr. destruct (decide (ip = ip')) as [<-|Hne].
    + rewrite (decide_True _ _ (eq_refl ip)), decide_False by lia. f_equal. lia.
    + rewrite (decide_False (P := ip' = ip)) by congruence. rewrite Nat.add_0_r. apply Ht.
  - rewrite Hr, decide_True by done. lia.
Qed.

Lemma table_ok_release t reqs reqs' ip :
  table_ok t reqs ->
  (forall ip', in_use ip' reqs = in_use ip' reqs' + (if decide (ip' = ip) then 1 else 0)) ->
  table_ok (ip_release ip t) reqs'.
Proof.
  intros Ht Hr ip'. unfold ip_release. rewrite (table_default _ _ _ Ht), Hr, (decide_True (P := ip = ip)) by done.
  specialize (Ht ip'). rewrite Hr in Ht. destruct (decide (ip' = ip)) as [->|Hne].
  - repeat case_decide; rewrite ?lookup_delete_eq, ?lookup_insert_eq; try lia; [done|].
    f_equal. lia.
  - rewrite Nat.add_0_r in Ht.
    destruct (decide (_ <= 0)%Z); by rewrite ?lookup_delete_ne, ?lookup_insert_ne.
Qed.

Section Safety.
Context {S R B F : Type} `{StoreLaws S}.
Context `{RegistryLaws R, TokenBucket B, !Fanout R B F, !FanoutLaws R B F}.
Context (cfg : Config) (trusted : list Pfx) (rawcap : string) (ParseStrict : string -> bool).
Local Abbreviation cap := (parseIPCap rawcap).
Implicit Types (s : @server S R B F).

Lemma parseIPCap_pos raw : (0 < parseIPCap raw)%Z.
Proof using Type.
  unfold parseIPCap, defaultIPCap. case_decide; [done|]. destruct (ParseInt _); [|done].
  case_decide; lia.
Qed.

(** ** The store's part *)

Definition named (st : S) : Prop := forall id k, keys st !! id = Some k -> k_ID k = id.

(** What every store operation of the server keeps. *)
Record store_keeps (st st' : S) : Prop := {
  sk_named : named st -> named st';
  sk_revoked id : is_revoked id st -> is_revoked id st';
}.

Lemma store_keeps_eq st st' : keys st' = keys st -> store_keeps st st'.
Proof using Type. intros Hk. split; unfold named, is_revoked; by rewrite Hk. Qed.

Lemma check_key_keeps d q st r st' : check_key d q st = (r, st') -> store_keeps st st'.
Proof using Type. intros [Hk _]%check_key_spec. by apply store_keeps_eq. Qed.

Lemma create_keeps rnd id now body st a st' :
  keys st !! id = None -> create rnd id now body st = (a, st') -> store_keeps st st'.
Proof using Type.
  intros Hid. unfold create. destruct (decode_body _ _ _) as [m|]; [|intros; simplify_eq; by apply store_keeps_eq].
  case_decide; [intros; simplify_eq; by apply store_keeps_eq|].
  destruct (Keys.GenerateSecret rnd) as [sec|]; [|intros; simplify_eq; by apply store_keeps_eq].
  destruct (CreateKey _ _ _ _ st) as [r st1] eqn:Hc. apply CreateKey_law in Hc.
  intros Ha. assert (st1 = st') as -> by (destruct r; by simplify_eq).
  destruct r as [k|[]]; [|done|by apply store_keeps_eq]. destruct Hc as [-> Hk]. split.
  - intros Hn id' k'. rewrite Hk. intros [[<- <-]|[_ Hk']]%lookup_insert_Some; [done|by apply Hn].
  - intros id' (k' & Hk' & Hr). exists k'. split; [|done]. rewrite Hk, lookup_insert_ne; congruence.
Qed.

Lemma list_keeps st a st' : list_keys st = (a, st') -> store_keeps st st'.
Proof using Type.
  unfold list_keys. destruct (ListKeys st) as [r st1] eqn:Hl. apply ListKeys_law in Hl as [Hk _].
  intros Ha. assert (st1 = st') as -> by (destruct r; by simplify_eq). by apply store_keeps_eq.
Qed.

Lemma sign_auth_keeps ah st k st' : sign_auth ah st = (k, st') -> keys st' = keys st.
Proof using Type.
  unfold sign_auth. destruct (SplitN _ _ _) as [|id [|sec [|]]]; try by intros; simplify_eq.
  destruct (LookupKey id st) as [r st1] eqn:Hl. apply LookupKey_law in Hl as [Hk _].
  intros Ha. by repeat case_match; simplify_eq.
Qed.

Lemma sign_keeps rnd now ss ah body st a st' :
  sign ParseStrict rnd now ss ah body st = (a, st') -> store_keeps st st'.
Proof using Type.
  unfold sign. destruct (sign_auth ah st) as [k st1] eqn:Hs. apply sign_auth_keeps in Hs.
  intros Ha. assert (st1 = st') as -> by (repeat case_match; by simplify_eq).
  by apply store_keeps_eq.
Qed.

Lemma revoke_store_keeps now id st a b st' :
  revoke_store now id st = (a, b, st') ->
  store_keeps st st' /\ (b = true -> is_revoked id st').
Proof using Type.
  unfold revoke_store. destruct (RevokeKey now id st) as [r st1] eqn:Hr. apply RevokeKey_law in Hr.
  intros Ha. assert (st1 = st') as -> by (destruct r as [|[]]; by simplify_eq).
  destruct r as [[]|[]]; simplify_eq.
  - destruct Hr as (k & Hk & Hk'). split.
    + split.
      * intros Hn id' k'. rewrite Hk'. intros [[<- <-]|[_ Hk2]]%lookup_insert_Some; [|by apply Hn].
        by apply Hn in Hk.
      * intros id' (k' & Hk2 & Hrev). unfold is_revoked. rewrite Hk', lookup_insert.
        case_decide; [|eauto]. eexists. split; [done|]. by eexists.
    + intros _. exists (revoked_at (stored_time now) k). rewrite Hk', lookup_insert_eq.
      split; [done|]. by eexists.
  - destruct Hr as [_ Hr]. split; [by apply store_keeps_eq|done].
  - split; [by apply store_keeps_eq|done].
Qed.

(** ** The invariant *)

Record server_ok s : Prop := {
  so_world : world_ok (sv_world s);
  so_named : named (sv_store s);
  so_table : table_ok (sv_ips s) (sv_reqs s);
  so_cap ip : (Z.of_nat (in_use ip (sv_reqs s)) <= cap)%Z;
  (** The tracked conns are the requests inside [Run], each once. *)
  so_serving i key : conns (sv_hub s) !! i = Some key <->
    exists n ip, sv_reqs s !! n = Some (RqServing key ip i);
  so_unique n n' key key' ip ip' i :
    sv_reqs s !! n = Some (RqServing key ip i) ->
    sv_reqs s !! n' = Some (RqServing key' ip' i) -> n = n';
  (** A key closed in the hub, or about to be, is revoked in the store. *)
  so_closed id : is_Some (closedKeys (sv_hub s) !! id) -> is_revoked id (sv_store s);
  so_revoking id : id ∈ sv_revoking s -> is_revoked id (sv_store s);
  so_drain : draining (sv_hub s) = true -> Draining (sv_health s) = true;
}.

Lemma server_ok_st st s :
  server_ok s -> store_keeps (sv_store s) st -> server_ok (set_st st s).
Proof using Type. intros [] [Hn Hr]. split; cbn; eauto. Qed.

(** Requests come, go and are counted outside [Run]. *)
Lemma server_ok_reqs t reqs s :
  server_ok s -> table_ok t reqs -> (forall ip, Z.of_nat (in_use ip reqs) <= cap)%Z ->
  (forall n key ip i, reqs !! n = Some (RqServing key ip i)
     <-> sv_reqs s !! n = Some (RqServing key ip i)) ->
  server_ok (MkServer (sv_store s) (sv_health s) t reqs (sv_revoking s) (sv_world s)).
Proof using Type.
  intros [] Ht Hc Hs. split; cbn; try done.
  - intros i key. rewrite so_serving0. by setoid_rewrite Hs.
  - intros n n' key key' ip ip' i Hn Hn'. apply Hs in Hn, Hn'. by eapply so_unique0.
Qed.

Lemma server_ok_world w s :
  server_ok s -> world_ok w -> w_hub w = sv_hub s -> server_ok (set_world w s).
Proof using Type.
  intros [] Hw Hh. split; unfold sv_hub in *; cbn; rewrite ?Hh; done.
Qed.

(** ** [conn.Run] and the hub *)

Lemma run_start_hub i sid key (w w' : World R B F) r :
  run_start i sid key w = (r, w') ->
  match r with
  | Ok _ => draining (w_hub w) = false /\ closedKeys (w_hub w) !! key = None
      /\ w_hub w' = MkHub (<[i := key]> (conns (w_hub w))) (closedKeys (w_hub w)) false
  | Err _ => w_hub w' = w_hub w
  end.
Proof using Type.
  unfold run_start. destruct (Add i key _) as [[[]|ce] h] eqn:Ha; cbn in Ha; intros Hr.
  - apply Add_Ok in Ha as (Hd & Hk & ->). rewrite try_send_nil in Hr. by simplify_eq.
  - by simplify_eq.
Qed.

Lemma run_teardown_hub i c (w : World R B F) :
  w_conns w !! i = Some c -> w_hub (run_teardown i w) = Remove i (w_hub w).
Proof using Type. intros Hi. unfold run_teardown. by rewrite Hi. Qed.

(** ** Every step keeps it *)

Lemma serving_insert n p (reqs : gmap nat req_pc) :
  (forall key ip i, p <> RqServing key ip i) ->
  (forall key ip i, reqs !! n <> Some (RqServing key ip i)) ->
  forall m key ip i, <[n := p]> reqs !! m = Some (RqServing key ip i)
    <-> reqs !! m = Some (RqServing key ip i).
Proof using Type.
  intros Hp Hn m key ip i. rewrite lookup_insert. case_decide; [subst m|done].
  split; [intros [= He]; by apply Hp in He|intros He; by apply Hn in He].
Qed.

Lemma serving_delete n (reqs : gmap nat req_pc) :
  (forall key ip i, reqs !! n <> Some (RqServing key ip i)) ->
  forall m key ip i, delete n reqs !! m = Some (RqServing key ip i)
    <-> reqs !! m = Some (RqServing key ip i).
Proof using Type.
  intros Hn m key ip i. rewrite lookup_delete. case_decide; [subst m|done].
  split; [done|intros He; by apply Hn in He].
Qed.

Lemma server_ok_look n key ip s :
  server_ok s -> sv_reqs s !! n = None -> server_ok (set_req n (RqLooked key ip) s).
Proof using Type.
  intros Hok Hn. assert (forall ip', in_use ip' (<[n := RqLooked key ip]> (sv_reqs s)) = in_use ip' (sv_reqs s)) as Hu.
  { intros ip'. rewrite in_use_insert by done. by rewrite decide_False by (intros []). }
  apply server_ok_reqs; [done|by eapply table_ok_same; [apply Hok|]|intros ip'; rewrite Hu; apply Hok|].
  apply serving_insert; [done|by rewrite Hn].
Qed.

Lemma server_ok_over_cap n key ip s :
  server_ok s -> sv_reqs s !! n = Some (RqLooked key ip) -> server_ok (end_req n s).
Proof using Type.
  intros Hok Hn. assert (forall ip', in_use ip' (delete n (sv_reqs s)) = in_use ip' (sv_reqs s)) as Hu.
  { intros ip'. rewrite (in_use_delete ip' n _ (sv_reqs s) Hn). by rewrite decide_False by (intros []). }
  apply server_ok_reqs; [done|by eapply table_ok_same; [apply Hok|]|intros ip'; rewrite Hu; apply Hok|].
  apply serving_delete. by rewrite Hn.
Qed.

Lemma server_ok_count n key ip t s :
  server_ok s -> sv_reqs s !! n = Some (RqLooked key ip) -> ip_count cap ip (sv_ips s) = Some t ->
  server_ok (set_req n (RqCounted key ip) (set_ips t s)).
Proof using Type.
  intros Hok Hn Hc.
  assert (forall ip', in_use ip' (<[n := RqCounted key ip]> (sv_reqs s))
    = in_use ip' (sv_reqs s) + (if decide (ip' = ip) then 1 else 0)) as Hu.
  { intros ip'. pose proof (in_use_replace ip' n _ (RqCounted key ip) _ Hn) as Hr.
    rewrite decide_False in Hr by (intros []). rewrite Nat.add_0_r in Hr. rewrite Hr. f_equal.
    cbn. repeat case_decide; congruence. }
  destruct (table_ok_count _ _ _ _ _ _ (so_table _ Hok) Hc Hu) as [Ht Hle].
  apply (server_ok_reqs t (<[n := RqCounted key ip]> (sv_reqs s)) s); [done|done| |].
  - intros ip'. destruct (decide (ip' = ip)) as [->|Hne]; [done|].
    rewrite Hu, decide_False, Nat.add_0_r by done. apply Hok.
  - apply serving_insert; [done|by rewrite Hn].
Qed.

(** The table after a counted request is gone. *)
Lemma release_table n p ip s :
  server_ok s -> sv_reqs s !! n = Some p -> (forall ip', counted ip' p <-> ip' = ip) ->
  table_ok (ip_release ip (sv_ips s)) (delete n (sv_reqs s))
  /\ forall ip', (Z.of_nat (in_use ip' (delete n (sv_reqs s))) <= cap)%Z.
Proof using Type.
  intros Hok Hn Hp.
  assert (forall ip', in_use ip' (sv_reqs s)
    = in_use ip' (delete n (sv_reqs s)) + (if decide (ip' = ip) then 1 else 0)) as Hu.
  { intros ip'. rewrite (in_use_delete ip' n p) by done. rewrite Nat.add_comm. f_equal.
    repeat case_decide; rewrite ?Hp in *; done. }
  split; [by eapply table_ok_release; [apply Hok|]|].
  intros ip'. pose proof (so_cap _ Hok ip') as Hc. rewrite Hu in Hc. lia.
Qed.

Lemma server_ok_release n key ip s :
  server_ok s -> sv_reqs s !! n = Some (RqCounted key ip) -> server_ok (release n ip s).
Proof using Type.
  intros Hok Hn. destruct (release_table n _ ip s Hok Hn) as [Ht Hc];
    [intros ip'; cbn; split; congruence|].
  apply (server_ok_reqs (ip_release ip (sv_ips s)) (delete n (sv_reqs s)) s); try done.
  apply serving_delete. by rewrite Hn.
Qed.

Lemma server_ok_run n key ip i sid w s :
  server_ok s -> sv_reqs s !! n = Some (RqCounted key ip) -> w_conns (sv_world s) !! i = None ->
  run_start i sid key (sv_world s) = (Ok tt, w) ->
  server_ok (set_req n (RqServing key ip i) (set_world w s)).
Proof using Type.
  intros Hok Hn Hi Hr. pose proof (world_ok_run_start i sid key _ (so_world _ Hok) Hi) as Hw.
  rewrite Hr in Hw. cbn in Hw. apply run_start_hub in Hr as (Hd & Hk & Hh).
  assert (conns (sv_hub s) !! i = None) as Hfresh.
  { apply eq_None_not_Some. intros [k (c & Hc & _)%(wo_hub _ (so_world _ Hok))]. congruence. }
  assert (forall m key' ip', sv_reqs s !! m <> Some (RqServing key' ip' i)) as Hnew.
  { intros m key' ip' Hm. assert (conns (sv_hub s) !! i = Some key') by (apply (so_serving _ Hok); eauto). congruence. }
  assert (forall ip', in_use ip' (<[n := RqServing key ip i]> (sv_reqs s)) = in_use ip' (sv_reqs s)) as Hu.
  { intros ip'. pose proof (in_use_replace ip' n _ (RqServing key ip i) _ Hn) as Hu.
    destruct (decide (counted ip' (RqServing key ip i))) as [Ha|Ha],
      (decide (counted ip' (RqCounted key ip))) as [Hb|Hb]; [lia|by destruct Hb|by destruct Ha|lia]. }
  destruct Hok. split; unfold sv_hub; cbn; rewrite ?Hh; try done.
  - by eapply table_ok_same.
  - intros ip'. by rewrite Hu.
  - intros j key'. cbn. rewrite lookup_insert. case_decide as Hj.
    + subst j. split.
      * intros [= <-]. exists n, ip. apply lookup_insert_eq.
      * intros (m & ip' & Hm). rewrite lookup_insert in Hm. case_decide; [congruence|]. by apply Hnew in Hm.
    + rewrite so_serving0. split; intros (m & ip' & Hm); exists m, ip'.
      * rewrite lookup_insert_ne; [done|]. intros ->. congruence.
      * rewrite lookup_insert in Hm. case_decide; [congruence|done].
  - intros m m' key1 key2 ip1 ip2 j. rewrite !lookup_insert.
    repeat case_decide; intros; simplify_eq; try done; try (by exfalso; eapply Hnew). by eapply so_unique0.
Qed.

Lemma server_ok_return n key ip i c s :
  server_ok s -> sv_reqs s !! n = Some (RqServing key ip i) ->
  w_conns (sv_world s) !! i = Some c -> closed c = false ->
  server_ok (release n ip (set_world (run_teardown i (sv_world s)) s)).
Proof using Type.
  intros Hok Hn Hi Hcl. destruct (release_table n _ ip s Hok Hn) as [Ht Hc];
    [intros ip'; cbn; split; congruence|].
  pose proof (world_ok_teardown _ _ _ (so_world _ Hok) Hi Hcl) as Hw.
  pose proof (run_teardown_hub _ _ _ Hi) as Hh.
  destruct Hok. split; unfold sv_hub in *; cbn; rewrite ?Hh; cbn; try done.
  - intros j key'. rewrite lookup_delete. case_decide as Hj.
    + subst j. split; [done|]. intros (m & ip' & Hm). rewrite lookup_delete in Hm.
      case_decide as Hmn; [done|]. by destruct (so_unique0 _ _ _ _ _ _ _ Hn Hm).
    + rewrite so_serving0. split; intros (m & ip' & Hm); exists m, ip'.
      * rewrite lookup_delete_ne; [done|]. intros ->. congruence.
      * rewrite lookup_delete in Hm. by case_decide.
  - intros m m' key1 key2 ip1 ip2 j. rewrite !lookup_delete.
    repeat case_decide; intros; simplify_eq. by eapply so_unique0.
Qed.

Lemma server_ok_close_key id rest s :
  server_ok s -> id ∈ sv_revoking s -> rest ⊆ sv_revoking s ->
  server_ok (set_revoking rest
    (set_world (set_hub (CloseKey id StatusPolicyViolation "key revoked" (sv_hub s)).2 (sv_world s)) s)).
Proof using All.
  intros Hok Hid Hrest. pose proof (so_revoking _ Hok _ Hid) as Hrev.
  pose proof (world_ok_step cfg _ _ (so_world _ Hok) (ws_revoke cfg id _)) as Hw.
  destruct Hok. split; cbn; try done.
  - intros id'. cbn. rewrite lookup_insert_is_Some'. intros [<-|Hid']; [done|by apply so_closed0].
  - intros id' Hid'. by apply so_revoking0, Hrest.
Qed.

Lemma server_ok_drain s :
  server_ok s -> Draining (sv_health s) = true ->
  server_ok (set_world (set_hub (set_draining (sv_hub s)) (sv_world s)) s).
Proof using All.
  intros Hok Hd. pose proof (world_ok_step cfg _ _ (so_world _ Hok) (ws_drain cfg _)) as Hw.
  destruct Hok. by split.
Qed.

Lemma server_ok_step s s' :
  server_ok s -> server_step cfg trusted cap ParseStrict s s' -> server_ok s'.
Proof using All.
  intros Hok Hstep. destruct Hstep.
  - by eapply server_ok_st, check_key_keeps.
  - apply server_ok_look; [|done]. by eapply server_ok_st, check_key_keeps.
  - by eapply server_ok_over_cap.
  - by eapply server_ok_count.
  - by eapply server_ok_release.
  - by eapply server_ok_run.
  - eapply server_ok_release; [|done].
    match goal with Hr : run_start _ _ _ _ = _ |- _ =>
      pose proof (run_start_hub _ _ _ _ _ _ Hr) as Hh;
      pose proof (world_ok_run_start i sid key _ (so_world _ Hok) ltac:(done)) as Hw; rewrite Hr in Hw
    end. by apply server_ok_world.
  - by eapply server_ok_return.
  - by eapply server_ok_st, create_keeps.
  - by eapply server_ok_st, list_keeps.
  - by eapply server_ok_st, sign_keeps.
  - eapply server_ok_st; [done|]. by eapply revoke_store_keeps.
  - match goal with Hr : revoke_store _ _ _ = _ |- _ =>
      destruct (revoke_store_keeps _ _ _ _ _ _ Hr) as [Hk Hrev] end.
    pose proof (server_ok_st _ _ Hok Hk) as []. split; cbn in *; try done.
    intros id'. rewrite elem_of_union, elem_of_singleton. intros [->|?]; auto.
  - by apply server_ok_close_key.
  - destruct Hok. by split.
  - by apply server_ok_drain.
  - apply server_ok_world; [done| |by eapply inner_step_hub].
    eapply world_ok_step; [apply Hok|]. by eapply inner_step_world.
Qed.

Lemma server_ok_init st l cache f :
  named st -> server_ok (server_init st l cache f).
Proof using Type.
  intros Hst. split; cbn.
  - apply world_ok_init.
  - exact Hst.
  - intros ip. by rewrite in_use_empty.
  - intros ip. rewrite in_use_empty. pose proof (parseIPCap_pos rawcap). lia.
  - intros i key. rewrite lookup_empty. split; [done|]. by intros (n & ip & ?).
  - done.
  - intros id. rewrite lookup_empty. by intros [].
  - intros id. set_solver.
  - done.
Qed.

Lemma server_reach st l cache f s :
  named st ->
  rtc (server_step cfg trusted cap ParseStrict) (server_init st l cache f) s -> server_ok s.
Proof using All.
  intros Hst. apply (rtc_invariant _ server_ok); [by apply server_ok_init|apply server_ok_step].
Qed.

(** ** The cap *)

Lemma in_use_ge ip cs reqs :
  NoDup cs -> Forall (fun i => exists n key, reqs !! n = Some (RqServing key ip i)) cs ->
  length cs <= in_use ip reqs.
Proof using Type.
  intros Hnd. revert reqs. induction Hnd as [|i cs Hi _ IH]; intros reqs Hcs; [cbn; lia|].
  apply Forall_cons in Hcs as [(n & key & Hn) Hcs].
  rewrite (in_use_delete ip n _ reqs Hn), decide_True by done. cbn. apply le_n_S, IH.
  rewrite Forall_forall in *. intros j Hj. destruct (Hcs _ Hj) as (m & key' & Hm).
  exists m, key'. rewrite lookup_delete_ne; [done|]. intros ->. congruence.
Qed.

(** Conn [i] is open and its request came from [ip]. *)
Definition open_from s (ip : string) (i : conn_id) : Prop :=
  (exists c, w_conns (sv_world s) !! i = Some c /\ closed c = false)
  /\ exists n key, sv_reqs s !! n = Some (RqServing key ip i).

(** C14. The per-address cap holds for the whole server. From any store that
    keeps each key under its own identifier, in every reachable state, whatever
    requests, REST calls, frames and shutdown steps ran, the open connections
    that came from one address are at most its count in the table, which is at
    most the cap; every open connection has an address, and when no request is
    left the table is empty. *)
Theorem ip_cap_holds st l cache f s :
  named st ->
  rtc (server_step cfg trusted cap ParseStrict) (server_init st l cache f) s ->
  (forall ip cs, NoDup cs -> Forall (open_from s ip) cs ->
     (Z.of_nat (length cs) <= default 0 (sv_ips s !! ip) <= cap)%Z)
  /\ (forall i c, w_conns (sv_world s) !! i = Some c -> closed c = false ->
       exists ip, open_from s ip i)
  /\ (sv_reqs s = ∅ -> sv_ips s = ∅).
Proof using All.
  intros Hst Hr. pose proof (server_reach _ _ _ _ _ Hst Hr) as Hok. split_and!.
  - intros ip cs Hnd Hcs. rewrite (table_default _ _ _ (so_table _ Hok)).
    pose proof (so_cap _ Hok ip). pose proof (in_use_ge ip cs (sv_reqs s) Hnd) as Hge.
    assert (length cs <= in_use ip (sv_reqs s)); [|lia].
    apply Hge. eapply Forall_impl; [exact Hcs|]. by intros i [_ ?].
  - intros i c Hi Hcl. assert (conns (sv_hub s) !! i = Some (apiKeyID c)) as Hh
      by (apply (wo_hub _ (so_world _ Hok)); eauto).
    apply (so_serving _ Hok) in Hh as (n & ip & Hn). exists ip. split; eauto.
  - intros He. apply map_eq. intros ip. rewrite (so_table _ Hok ip), He, in_use_empty, lookup_empty.
    done.
Qed.

(** ** Revocation and draining *)

(** What a step does to the hub: a conn it tracks anew has a key that is not
    closed, while the hub is not draining. *)
Record hub_evolves (h h' : Hub) : Prop := {
  he_conns i k : conns h' !! i = Some k ->
    conns h !! i = Some k \/ (closedKeys h !! k = None /\ draining h = false);
  he_closed k : is_Some (closedKeys h !! k) -> is_Some (closedKeys h' !! k);
  he_draining : draining h = true -> draining h' = true;
}.

Lemma hub_evolves_refl h : hub_evolves h h.
Proof using Type. split; auto. Qed.

Lemma server_step_hub s s' :
  server_step cfg trusted cap ParseStrict s s' -> hub_evolves (sv_hub s) (sv_hub s').
Proof using All.
  intros Hstep. destruct Hstep; try apply hub_evolves_refl.
  - match goal with Hr : run_start _ _ _ _ = _ |- _ =>
      apply run_start_hub in Hr as (Hd & Hk & Hh) end.
    unfold sv_hub in *. cbn. rewrite Hh. split; cbn; [|done|by rewrite Hd].
    intros j k. rewrite lookup_insert. case_decide; [intros [= <-]; by right|by left].
  - match goal with Hr : run_start _ _ _ _ = _ |- _ => apply run_start_hub in Hr end.
    unfold sv_hub in *. cbn. match goal with Hh : w_hub w = _ |- _ => rewrite Hh end.
    apply hub_evolves_refl.
  - unfold sv_hub in *. cbn. erewrite run_teardown_hub by done. split; cbn; [|done|done].
    intros j k [_ Hj]%lookup_delete_Some. by left.
  - split; cbn; [by left| |done]. intros k Hk. apply lookup_insert_is_Some'. by right.
  - split; cbn; [by left|done|done].
  - match goal with Hi : inner_step _ _ _ |- _ => apply inner_step_hub in Hi as Hh end.
    unfold sv_hub in *. cbn. rewrite Hh. apply hub_evolves_refl.
Qed.

Lemma server_steps_hub s s' :
  rtc (server_step cfg trusted cap ParseStrict) s s' -> hub_evolves (sv_hub s) (sv_hub s').
Proof using All.
  induction 1 as [s|s s1 s2 Hstep _ IH]; [apply hub_evolves_refl|].
  pose proof (server_step_hub _ _ Hstep) as H01. split.
  - intros i k Hi. apply (he_conns _ _ IH) in Hi as [Hi|[Hk Hd]]; [by apply (he_conns _ _ H01)|right].
    split.
    + apply eq_None_not_Some. intros Hk'%(he_closed _ _ H01). rewrite Hk in Hk'. by destruct Hk'.
    + apply not_true_iff_false. intros Hd'%(he_draining _ _ H01). congruence.
  - intros k Hk. by apply (he_closed _ _ IH), (he_closed _ _ H01).
  - intros Hd. by apply (he_draining _ _ IH), (he_draining _ _ H01).
Qed.

(** Conn [i] is open with key [k]. *)
Definition open_with s (k : string) (i : conn_id) : Prop :=
  exists c, w_conns (sv_world s) !! i = Some c /\ closed c = false /\ apiKeyID c = k.

Lemma open_with_hub s k i : server_ok s -> open_with s k i <-> conns (sv_hub s) !! i = Some k.
Proof using Type. intros Hok. symmetry. apply (wo_hub _ (so_world _ Hok)). Qed.

Lemma revoked_no_check_key st id d q k st' :
  is_revoked id st -> uq_key q = id -> check_key d q st <> (Ok k, st').
Proof using Type.
  intros (k' & Hk' & Hr) <- [_ (_ & _ & Hk & Hn)]%check_key_spec. rewrite Hk' in Hk. simplify_eq.
  rewrite Hn in Hr. by destruct Hr.
Qed.

(** What a closed key can no longer do, whatever the server did since. *)
Lemma closed_no_open s s' id i :
  server_ok s -> server_ok s' -> hub_evolves (sv_hub s) (sv_hub s') ->
  is_Some (closedKeys (sv_hub s) !! id) -> open_with s' id i -> open_with s id i.
Proof using Type.
  intros Hok Hok' Hh Hc. rewrite !open_with_hub by done. intros [Hi|[Hn _]]%(he_conns _ _ Hh); [done|].
  rewrite Hn in Hc. by destruct Hc.
Qed.

Lemma closed_revoked s s' id :
  server_ok s' -> hub_evolves (sv_hub s) (sv_hub s') -> is_Some (closedKeys (sv_hub s) !! id) ->
  is_revoked id (sv_store s').
Proof using Type. intros Hok' Hh Hc. by apply (so_closed _ Hok'), (he_closed _ _ Hh). Qed.

Lemma revoked_no_sign st id any k st' :
  is_revoked id st -> string_elem ":" id = false -> sign_auth (credentials id any) st <> (Some k, st').
Proof using Type.
  intros (k' & Hk' & Hs) Hcolon [_ (Hk & Hn & _)]%sign_auth_spec; [|done].
  rewrite Hk' in Hk. simplify_eq. rewrite Hn in Hs. by destruct Hs.
Qed.

(** A revoked key is dead. Once the hub has closed a key, whatever the
    server does next, including upgrades that had passed the key check before,
    no further connection opens with it, no upgrade passes the key check with
    it, and no token is signed for it with any secret. *)
Theorem revoked_key_is_dead st l cache f s s' id :
  named st ->
  rtc (server_step cfg trusted cap ParseStrict) (server_init st l cache f) s ->
  is_Some (closedKeys (sv_hub s) !! id) ->
  rtc (server_step cfg trusted cap ParseStrict) s s' ->
  (forall i, open_with s' id i -> open_with s id i)
  /\ (forall d q k st', uq_key q = id -> check_key d q (sv_store s') <> (Ok k, st'))
  /\ (string_elem ":" id = false -> forall any k st',
       sign_auth (credentials id any) (sv_store s') <> (Some k, st')).
Proof using All.
  intros Hst Hr Hc Hr'. pose proof (server_reach _ _ _ _ _ Hst Hr) as Hok.
  pose proof (server_reach _ _ _ _ _ Hst (transitivity Hr Hr')) as Hok'.
  pose proof (server_steps_hub _ _ Hr') as Hh. pose proof (closed_revoked _ _ _ Hok' Hh Hc) as Hrev. split_and!.
  - intros i. by apply closed_no_open.
  - intros d q k st' Hq. by apply (revoked_no_check_key _ id).
  - intros Hcolon any k st'. by apply revoked_no_sign.
Qed.

(** C23. A draining server opens nothing. In every run from a store that keeps
    each key under its own identifier: once the hub drains, whatever happens
    next, requests already past the health flag included, no connection opens;
    every new upgrade is refused as draining before its key is looked at, and
    the health probe answers 503. *)
Theorem draining_opens_nothing st l cache f s s' :
  named st ->
  rtc (server_step cfg trusted cap ParseStrict) (server_init st l cache f) s ->
  draining (sv_hub s) = true ->
  rtc (server_step cfg trusted cap ParseStrict) s s' ->
  (forall k i, open_with s' k i -> open_with s k i)
  /\ (forall q, check_key (Draining (sv_health s')) q (sv_store s') = (Err RejDraining, sv_store s'))
  /\ health_ServeHTTP (sv_health s') = (503%Z, "draining").
Proof using All.
  intros Hst Hr Hd Hr'. pose proof (server_reach _ _ _ _ _ Hst Hr) as Hok.
  pose proof (server_reach _ _ _ _ _ Hst (transitivity Hr Hr')) as Hok'.
  pose proof (server_steps_hub _ _ Hr') as Hh.
  pose proof (so_drain _ Hok' (he_draining _ _ Hh Hd)) as Hd'. split_and!.
  - intros k i. rewrite !open_with_hub by done. intros [Hi|[_ Hn]]%(he_conns _ _ Hh); congruence.
  - intros q. unfold check_key. by rewrite Hd'.
  - unfold health_ServeHTTP. unfold Draining in Hd'. by rewrite Hd'.
Qed.
End Safety.

(** ** A concrete run

    A key is created, a conn is opened with it, the key is revoked and the
    server drains; one connection per address is allowed. *)

Abbreviation demo_server := (@server Memory.memoryStore SyncMap.t tbucket PerConn).
Abbreviation demo_step := (server_step (S := Memory.memoryStore) (R := SyncMap.t) (B := tbucket)
  (F := PerConn) demo_cfg [] (parseIPCap "1") demo_ulid).

Definition demo_q : upgrade_req := MkUpgradeReq "K1" "203.0.113.7:5000" [].
Definition demo_key : Key := MkKey "K1" "alice" (Keys.HashSecret (hex_encode demo_bytes)) 7 None.

Definition demo_s0 : demo_server :=
  server_init Memory.NewMemory (Limiter.New 100 200 (600 * second)) (Some ∅) NewPerConn.
Definition demo_s1 : demo_server :=
  set_st (create (Some demo_bytes) "K1" 7 demo_create_body (sv_store demo_s0)).2 demo_s0.
Definition demo_s2 : demo_server :=
  set_req 5 (RqLooked (k_ID demo_key) (req_ip [] demo_q))
    (set_st (check_key false demo_q (sv_store demo_s1)).2 demo_s1).
Definition demo_s3 : demo_server :=
  set_req 5 (RqCounted "K1" "203.0.113.7")
    (set_ips (default ∅ (ip_count (parseIPCap "1") "203.0.113.7" (sv_ips demo_s2))) demo_s2).
Definition demo_s4 : demo_server :=
  set_req 5 (RqServing "K1" "203.0.113.7" 1)
    (set_world (run_start 1 demo_sid "K1" (sv_world demo_s3)).2 demo_s3).
Definition demo_s5 : demo_server :=
  set_revoking ({["K1"]} ∪ sv_revoking demo_s4)
    (set_st (revoke_store 9 "K1" (sv_store demo_s4)).2 demo_s4).
Definition demo_s6 : demo_server :=
  set_revoking (sv_revoking demo_s5 ∖ {["K1"]})
    (set_world (set_hub (CloseKey "K1" StatusPolicyViolation "key revoked" (sv_hub demo_s5)).2
                  (sv_world demo_s5)) demo_s5).
Definition demo_s7 : demo_server := set_health (SetDraining true (sv_health demo_s6)) demo_s6.
Definition demo_s8 : demo_server :=
  set_world (set_hub (set_draining (sv_hub demo_s7)) (sv_world demo_s7)) demo_s7.

Lemma pair_fst {A B} (p : A * B) a : p.1 = a -> p = (a, p.2).
Proof. by destruct p as [x y]; intros [= ->]. Qed.

Lemma demo_step1 : demo_step demo_s0 demo_s1.
Proof.
  apply (sv_create _ _ _ _ (Some demo_bytes) "K1" 7 demo_create_body
    (create (Some demo_bytes) "K1" 7 demo_create_body (sv_store demo_s0)).1
    (create (Some demo_bytes) "K1" 7 demo_create_body (sv_store demo_s0)).2 demo_s0);
    [done|apply surjective_pairing].
Qed.

Lemma demo_step2 : demo_step demo_s1 demo_s2.
Proof.
  apply (sv_look _ _ _ _ 5 demo_q demo_key (check_key false demo_q (sv_store demo_s1)).2 demo_s1);
    [done|apply pair_fst; vm_decide].
Qed.

Lemma demo_step3 : demo_step demo_s2 demo_s3.
Proof.
  apply (sv_count _ _ _ _ 5 "K1" "203.0.113.7"
    (default ∅ (ip_count (parseIPCap "1") "203.0.113.7" (sv_ips demo_s2))) demo_s2); vm_decide.
Qed.

Lemma demo_step4 : demo_step demo_s3 demo_s4.
Proof.
  apply (sv_run _ _ _ _ 5 "K1" "203.0.113.7" 1 demo_sid
    (run_start 1 demo_sid "K1" (sv_world demo_s3)).2 demo_s3);
    [vm_decide|done|apply pair_fst; reflexivity].
Qed.

Lemma demo_step5 : demo_step demo_s4 demo_s5.
Proof.
  apply (sv_revoke _ _ _ _ 9 "K1" (RStatus StatusNoContent)
    (revoke_store 9 "K1" (sv_store demo_s4)).2 demo_s4). apply pair_fst. reflexivity.
Qed.

Lemma demo_step6 : demo_step demo_s5 demo_s6.
Proof. apply (sv_close_key _ _ _ _ "K1" (sv_revoking demo_s5 ∖ {["K1"]}) demo_s5); [vm_decide|set_solver..]. Qed.

Lemma demo_step7 : demo_step demo_s6 demo_s7.
Proof. apply (sv_draining _ _ _ _ demo_s6). Qed.

Lemma demo_step8 : demo_step demo_s7 demo_s8.
Proof. by apply (sv_drain _ _ _ _ demo_s7). Qed.

Lemma demo_s4_reach : rtc demo_step demo_s0 demo_s4.
Proof. eauto using rtc_l, rtc_refl, demo_step1, demo_step2, demo_step3, demo_step4. Qed.

Lemma demo_s6_reach : rtc demo_step demo_s0 demo_s6.
Proof. etrans; [apply demo_s4_reach|]. eauto using rtc_l, rtc_refl, demo_step5, demo_step6. Qed.

Lemma demo_s8_reach : rtc demo_step demo_s0 demo_s8.
Proof. etrans; [apply demo_s6_reach|]. eauto using rtc_l, rtc_refl, demo_step7, demo_step8. Qed.

Lemma new_memory_named : named Memory.NewMemory.
Proof. intros id k Hk. change ((∅ : gmap string Key) !! id = Some k) in Hk. by rewrite lookup_empty in Hk. Qed.

Lemma demo_open : open_from demo_s4 "203.0.113.7" 1.
Proof.
  split.
  - eexists. split; reflexivity.
  - exists 5, "K1". vm_decide.
Qed.

Lemma ip_cap_holds_witness :
  (Z.of_nat (length [1%nat]) <= default 0 (sv_ips demo_s4 !! "203.0.113.7") <= parseIPCap "1")%Z.
Proof.
  apply (ip_cap_holds demo_cfg [] "1" demo_ulid Memory.NewMemory
    (Limiter.New 100 200 (600 * second)) (Some ∅) NewPerConn demo_s4).
  - exact new_memory_named.
  - exact demo_s4_reach.
  - apply NoDup_singleton.
  - apply Forall_singleton, demo_open.
Defined.

Lemma revoked_key_is_dead_witness :
  (forall i, open_with demo_s6 "K1" i -> open_with demo_s6 "K1" i)
  /\ (forall d q k st', uq_key q = "K1" -> check_key d q (sv_store demo_s6) <> (Ok k, st'))
  /\ (string_elem ":" "K1" = false -> forall any k st',
       sign_auth (credentials "K1" any) (sv_store demo_s6) <> (Some k, st')).
Proof.
  apply (revoked_key_is_dead demo_cfg [] "1" demo_ulid Memory.NewMemory
    (Limiter.New 100 200 (600 * second)) (Some ∅) NewPerConn demo_s6 demo_s6 "K1");
    [exact new_memory_named|exact demo_s6_reach|by eexists|apply rtc_refl].
Defined.

Lemma draining_opens_nothing_witness :
  (forall k i, open_with demo_s8 k i -> open_with demo_s8 k i)
  /\ (forall q, check_key (Draining (sv_health demo_s8)) q (sv_store demo_s8)
       = (Err RejDraining, sv_store demo_s8))
  /\ health_ServeHTTP (sv_health demo_s8) = (503%Z, "draining").
Proof.
  apply (draining_opens_nothing demo_cfg [] "1" demo_ulid Memory.NewMemory
    (Limiter.New 100 200 (600 * second)) (Some ∅) NewPerConn demo_s8 demo_s8);
    [exact new_memory_named|exact demo_s8_reach|reflexivity|apply rtc_refl].
Defined.
