(* ===== verification/Routes.v ===== *)
(** * internal/server: the two listeners' routes

    [New] and the [Register] functions as tables of patterns, [http.ServeMux]'s
    matching as an executable function (literal segments before wildcards before
    subtrees, methods, redirects to the cleaned path and to a subtree, 405), and
    what a REST request does from its method and path to the store and the hub.
    CONNECT, for which the path is not cleaned, is left out. *)
From S2P Require Import Prelude GoStd GoPath GoBytes Utf8 GoJson Token Channel Hub Frame Handler Store Rest Server.
From stdpp Require Import options.

(** ** net/http.ServeMux *)

Inductive seg : Type :=
  | Lit (s : string)
  | Wild.

(** A pattern: its method or nothing, its segments, and whether it ends with a
    slash, which stands for everything below. *)
Record pattern : Type := MkPattern {
  pt_method : string;
  pt_segs : list seg;
  pt_multi : bool;
}.

Fixpoint percent_decode (s : string) : option string :=
  match s with
  | EmptyString => Some ""
  | String c s' =>
      if decide (c = "%"%char) then
        match s' with
        | String a (String b r) =>
            x ← hex_val (ord a); y ← hex_val (ord b); t ← percent_decode r;
            Some (String (ascii_of_N (x * 16 + y)) t)
        | _ => None
        end
      else t ← percent_decode s'; Some (String c t)
  end.

(** A segment that cannot be unescaped stands for itself. *)
Definition pathUnescape (s : string) : string := default s (percent_decode s).

(** A trailing slash is a segment of its own. *)
Fixpoint segs_of (parts : list string) : list string :=
  match parts with
  | [] => []
  | [p] => [if decide (p = "") then "/" else pathUnescape p]
  | p :: parts' => pathUnescape p :: segs_of parts'
  end.

Definition segments (path : string) : list string := segs_of (Split "/" (string_drop 1 path)).

Definition ends_slash (path : string) : bool := bool_decide (List.last (Split "/" path) "" = "").

Definition cleanPath (p : string) : string :=
  let p := if IsAbs p then p else String "/" p in
  let np := Clean p in
  if ends_slash p && negb (bool_decide (np = "/")) then np +:+ "/" else np.

Section Mux.
Context {H : Type}.
Implicit Types (tbl : list (pattern * H)) (method : string).

(** The candidates left, with their remaining segments, against the path. *)
Fixpoint match_path (cands : list (list seg * (pattern * H))) (path caps : list string)
    : option (pattern * H * list string) :=
  match path with
  | [] => head (omap (fun c => match c.1 with
                               | [] => if pt_multi c.2.1 then None else Some (c.2, caps)
                               | _ => None
                               end) cands)
  | s :: rest =>
      let lits := omap (fun c => match c.1 with
                                 | Lit l :: tl => if decide (l = s) then Some (tl, c.2) else None
                                 | _ => None
                                 end) cands in
      let wilds := omap (fun c => match c.1 with Wild :: tl => Some (tl, c.2) | _ => None end) cands in
      let multi := head (omap (fun c => match c.1 with
                                        | [] => if pt_multi c.2.1 then Some (c.2, caps) else None
                                        | _ => None
                                        end) cands) in
      match match_path lits rest caps with
      | Some x => Some x
      | None =>
          match (if decide (s = "/") then None else match_path wilds rest (caps ++ [s])) with
          | Some x => Some x
          | None => multi
          end
      end
  end.

Definition candidates tbl method : list (list seg * (pattern * H)) :=
  (fun r => (pt_segs r.1, r)) <$> filter (fun r => pt_method r.1 = method) tbl.

(** A pattern with the method, for HEAD one with GET, or one for all methods. *)
Definition route_match tbl method (path : list string) : option (pattern * H * list string) :=
  let at_method m := match_path (candidates tbl m) path [] in
  match at_method method with
  | Some x => Some x
  | None =>
      match (if decide (method = "HEAD") then at_method "GET" else None) with
      | Some x => Some x
      | None => at_method ""
      end
  end.

Definition exactMatch (m : option (pattern * H * list string)) (path : string) : bool :=
  match m with
  | None => false
  | Some (p, _, _) =>
      negb (pt_multi p)
      || (ends_slash path && bool_decide (S (length (pt_segs p)) = length (segments path)))
  end.

(** Does a pattern with a method match the path, whatever the method? *)
Definition other_method tbl (path : string) : bool :=
  existsb (fun r => negb (bool_decide (pt_method r.1 = ""))
    && bool_decide (is_Some (match_path [(pt_segs r.1, r)] (segments path) []))) tbl.

Inductive routed : Type :=
  | Routed (h : H) (caps : list string)
  | Redirect (path : string)
  | NotAllowed
  | NotFound.

(** The handler of a request, for any method but CONNECT. *)
Definition serve_mux tbl method (escaped : string) : routed :=
  let path := cleanPath escaped in
  let m := route_match tbl method (segments path) in
  if negb (exactMatch m path) && negb (ends_slash path)
     && exactMatch (route_match tbl method (segments (path +:+ "/"))) (path +:+ "/")
  then Redirect (path +:+ "/")
  else if decide (path <> escaped) then Redirect path
  else match m with
       | Some (_, h, caps) => Routed h caps
       | None =>
           if other_method tbl path || (negb (ends_slash path) && other_method tbl (path +:+ "/"))
           then NotAllowed else NotFound
       end.

(** *** One pattern against a path *)

Lemma match_path_nil path caps : match_path [] path caps = None.
Proof using Type.
  revert caps. induction path as [|s path IH]; intros caps; [done|]. cbn. rewrite !IH. by case_decide.
Qed.

Lemma match_path_lit l tl r path caps x :
  match_path [(tl, r)] path caps = Some x -> match_path [(Lit l :: tl, r)] (l :: path) caps = Some x.
Proof using Type. intros Hm. cbn. rewrite decide_True by done. cbn. by rewrite Hm. Qed.

Lemma match_path_wild s tl r path caps x :
  s <> "/" -> match_path [(tl, r)] path (caps ++ [s]) = Some x ->
  match_path [(Wild :: tl, r)] (s :: path) caps = Some x.
Proof using Type. intros Hs Hm. cbn. by rewrite match_path_nil, decide_False, Hm. Qed.

(** *** What is served is in the table *)

Lemma match_path_in cands path : forall caps p h caps',
  match_path cands path caps = Some (p, h, caps') -> (p, h) ∈ cands.*2.
Proof using Type.
  revert cands. induction path as [|s rest IH]; intros cands caps p h caps'.
  - cbn. intros Hh%head_Some_elem_of. apply list_elem_of_omap in Hh as ([segs r] & Hc & Hr). cbn in Hr.
    destruct segs; [|done]. destruct (pt_multi _); [done|]. simplify_eq.
    apply list_elem_of_fmap. by exists ([], (p, h)).
  - assert (forall f : list seg * (pattern * H) -> option (list seg * (pattern * H)),
      (forall c c', f c = Some c' -> c'.2 = c.2) -> (p, h) ∈ (omap f cands).*2 -> (p, h) ∈ cands.*2) as Hf.
    { intros f Hf (c' & Heq & Hc')%list_elem_of_fmap. apply list_elem_of_omap in Hc' as (c & Hc & Hcc).
      apply list_elem_of_fmap. exists c. split; [|done]. rewrite Heq. by apply Hf in Hcc. }
    cbn [match_path]. destruct (match_path _ rest caps) as [x|] eqn:Hl.
    { intros [= ->]. apply IH in Hl. apply Hf in Hl; [done|]. intros [[|[l|] tl] r] c' Hc; try done.
      cbn in Hc. by case_decide; simplify_eq/=. }
    destruct (if decide (s = "/") then None else _) as [x|] eqn:Hw.
    { case_decide; [done|]. intros [= ->]. apply IH in Hw. apply Hf in Hw; [done|].
      intros [[|[l|] tl] r] c' Hc; try done. by simplify_eq/=. }
    intros Hh%head_Some_elem_of. apply list_elem_of_omap in Hh as ([segs r] & Hc & Hr). cbn in Hr.
    destruct segs; [|done]. destruct (pt_multi _); [|done]. simplify_eq.
    apply list_elem_of_fmap. by exists ([], (p, h)).
Qed.

(** The handler comes from the table, with a method that fits. *)
Lemma serve_mux_in tbl method path h caps :
  serve_mux tbl method path = Routed h caps ->
  exists p, (p, h) ∈ tbl /\ (pt_method p = method \/ pt_method p = "" \/ method = "HEAD" /\ pt_method p = "GET").
Proof using Type.
  unfold serve_mux. destruct (_ && _); [done|]. case_decide; [done|].
  destruct (route_match tbl method _) as [[[p h'] caps']|] eqn:Hm; [|by destruct (_ || _)].
  intros [= <- <-]. exists p. unfold route_match in Hm.
  assert (forall m, match_path (candidates tbl m) (segments (cleanPath path)) [] = Some (p, h', caps') ->
    (p, h') ∈ tbl /\ pt_method p = m) as Hc.
  { intros m Hp%match_path_in. unfold candidates in Hp. rewrite <- list_fmap_compose in Hp.
    apply list_elem_of_fmap in Hp as ([p1 h1] & Heq & Hin). cbn in Heq. simplify_eq.
    by apply list_elem_of_filter in Hin as [? ?]. }
  destruct (match_path (candidates tbl method) _ _) as [x|] eqn:H1.
  { simplify_eq. apply Hc in H1 as [? ?]. auto. }
  destruct (if decide (method = "HEAD") then _ else None) as [x|] eqn:H2.
  { case_decide; [|done]. simplify_eq. apply Hc in H2 as [? ?]. auto. }
  apply Hc in Hm as [? ?]. auto.
Qed.
End Mux.
Arguments routed H : clear implicits.

(** ** The tables *)

Inductive handler : Type :=
  | HHealth
  | HSign
  | HConnect
  | HStatic
  | HMetrics
  | HPprof (name : string)
  | HCreate
  | HList
  | HRevoke.

#[export] Instance handler_eq_dec : EqDecision handler.
Proof. solve_decision. Defined.

Definition lits (l : list string) : list seg := Lit <$> l.

(** [RegisterPublic] and [RegisterAdmin]. *)
Definition RegisterPublic : list (pattern * handler) :=
  [(MkPattern "POST" (lits ["v1"; "auth"; "sign"]) false, HSign)].
Definition RegisterAdmin : list (pattern * handler) :=
  [(MkPattern "POST" (lits ["v1"; "keys"]) false, HCreate);
   (MkPattern "GET" (lits ["v1"; "keys"]) false, HList);
   (MkPattern "DELETE" (lits ["v1"; "keys"] ++ [Wild]) false, HRevoke)].

(** The two muxes of [New]. *)
Definition public_mux : list (pattern * handler) :=
  (MkPattern "" (lits ["v1"; "health"]) false, HHealth) :: RegisterPublic
  ++ [(MkPattern "" (lits ["v1"; "connect"]) false, HConnect); (MkPattern "" [] true, HStatic)].

Definition pprof_routes : list (pattern * handler) :=
  (MkPattern "" (lits ["debug"; "pprof"]) true, HPprof "")
  :: ((fun n => (MkPattern "" (lits ["debug"; "pprof"; n]) false, HPprof n))
        <$> ["cmdline"; "profile"; "symbol"; "trace"]).
Definition admin_mux : list (pattern * handler) :=
  (MkPattern "" (lits ["metrics"]) false, HMetrics) :: pprof_routes ++ RegisterAdmin.

Example routes_examples :
  serve_mux public_mux "GET" "/v1/health" = Routed HHealth []
  /\ serve_mux public_mux "GET" "/v1/auth/sign" = Routed HStatic []
  /\ serve_mux public_mux "GET" "/v1/../v1//connect" = Redirect "/v1/connect"
  /\ serve_mux public_mux "DELETE" "/v1/keys/x" = Routed HStatic []
  /\ serve_mux admin_mux "HEAD" "/v1/key%73" = Routed HList []
  /\ serve_mux admin_mux "PUT" "/v1/keys" = NotAllowed
  /\ serve_mux admin_mux "GET" "/v1/health" = NotFound
  /\ serve_mux admin_mux "GET" "/debug/pprof" = Redirect "/debug/pprof/"
  /\ serve_mux admin_mux "GET" "/debug/pprof/heap" = Routed (HPprof "") []
  /\ serve_mux admin_mux "DELETE" "/v1/keys/a%2Fb" = Routed HRevoke ["a/b"].
Proof. by vm_compute. Qed.

(** ** Serving a REST request *)

Record request : Type := MkRequest {
  rq_method : string;
  rq_path : string;            (* escaped, as on the request line *)
  rq_auth : string;            (* the Authorization header *)
  rq_body : string;
}.

(** What a request reads besides: random bytes, a fresh identifier, the clock. *)
Record draws : Type := MkDraws {
  dr_rnd : option (list N);
  dr_id : string;
  dr_now : Z;
}.

(** An answer of the REST handlers, of the probe, of the mux, or of a handler
    that is not the key store's. *)
Inductive http_reply : Type :=
  | RpAnswer (a : answer)
  | RpHealth (status : Z) (body : string)
  | RpRedirect (path : string)
  | RpMux (status : Z)
  | RpOther (h : handler).

Definition StatusMethodNotAllowed : Z := 405.

Section Serve.
Context {S : Type} `{Store S}.
Implicit Types (st : S) (q : request) (h : Hub).

(** [requireAdmin next]. *)
Definition gated (adminToken : string) q (next : answer * list conn_id * S * Hub) st h
    : http_reply * list conn_id * S * Hub :=
  match requireAdmin adminToken (rq_auth q) with
  | Some a => (RpAnswer a, [], st, h)
  | None => let '(a, cs, st', h') := next in (RpAnswer a, cs, st', h')
  end.

Definition admin_serve (adminToken : string) (dr : draws) q st h : http_reply * list conn_id * S * Hub :=
  match serve_mux admin_mux (rq_method q) (rq_path q) with
  | Routed HCreate _ =>
      let '(a, st') := create (dr_rnd dr) (dr_id dr) (dr_now dr) (rq_body q) st in
      gated adminToken q (a, [], st', h) st h
  | Routed HList _ => let '(a, st') := list_keys st in gated adminToken q (a, [], st', h) st h
  | Routed HRevoke caps => gated adminToken q (revoke (dr_now dr) (default "" (head caps)) st h) st h
  | Routed hd _ => (RpOther hd, [], st, h)
  | Redirect p => (RpRedirect p, [], st, h)
  | NotAllowed => (RpMux StatusMethodNotAllowed, [], st, h)
  | NotFound => (RpMux StatusNotFound, [], st, h)
  end.

Context (ParseStrict : string -> bool).

Definition public_serve (signingSecret : string) (health : HealthHandler) (dr : draws) q st : http_reply * S :=
  match serve_mux public_mux (rq_method q) (rq_path q) with
  | Routed HHealth _ => let '(c, b) := health_ServeHTTP health in (RpHealth c b, st)
  | Routed HSign _ =>
      let '(a, st') := sign ParseStrict (dr_rnd dr) (dr_now dr) signingSecret (rq_auth q) (rq_body q) st in
      (RpAnswer a, st')
  | Routed hd _ => (RpOther hd, st)
  | Redirect p => (RpRedirect p, st)
  | NotAllowed => (RpMux StatusMethodNotAllowed, st)
  | NotFound => (RpMux StatusNotFound, st)
  end.

End Serve.

(** ** What reaches the keys *)

(** A key's identifier as it is written in a path. *)
Definition plain_id (id : string) : bool :=
  negb (string_elem "/" id) && negb (string_elem "%" id) && negb (bool_decide (id ∈ [""; "."; ".."])).

Lemma percent_decode_plain s : string_elem "%" s = false -> pathUnescape s = s.
Proof.
  unfold pathUnescape. intros Hs. enough (percent_decode s = Some s) as -> by done.
  induction s as [|c s IH]; [done|]. cbn in Hs |- *. apply orb_false_iff in Hs as [Hc Hs].
  bool_hyps. rewrite decide_False by congruence. by rewrite IH.
Qed.

Lemma key_path_parts id : string_elem "/" id = false -> Split "/" ("/v1/keys/" +:+ id) = [""; "v1"; "keys"; id].
Proof.
  intros Hs. change ("/v1/keys/" +:+ id) with ("" +:+ String "/" ("v1" +:+ String "/" ("keys" +:+ String "/" id))).
  rewrite !Split_app by done. by rewrite Split_none.
Qed.

Lemma key_path_route id :
  plain_id id = true -> serve_mux admin_mux "DELETE" ("/v1/keys/" +:+ id) = Routed HRevoke [id].
Proof.
  unfold plain_id. intros Hp. apply andb_true_iff in Hp as [Hp Hn]. apply andb_true_iff in Hp as [Hs He].
  apply negb_true_iff in Hs, He, Hn. apply bool_decide_eq_false in Hn.
  assert (id <> "" /\ id <> "." /\ id <> "..") as (H0 & H1 & H2) by set_solver.
  pose proof (key_path_parts id Hs) as Hparts.
  assert (ends_slash ("/v1/keys/" +:+ id) = false) as Hends.
  { unfold ends_slash. rewrite Hparts. by apply bool_decide_eq_false. }
  assert (cleanPath ("/v1/keys/" +:+ id) = "/v1/keys/" +:+ id) as Hclean.
  { unfold cleanPath. change (IsAbs ("/v1/keys/" +:+ id)) with true. cbv iota. rewrite Hends. cbn [andb].
    unfold Clean. rewrite decide_False by done. change (IsAbs ("/v1/keys/" +:+ id)) with true. cbv iota zeta.
    rewrite Hparts. change (foldl (clean_step true) [] [""; "v1"; "keys"; id])
      with (clean_step true ["keys"; "v1"] id).
    unfold clean_step. by rewrite !decide_False by naive_solver. }
  assert (segments ("/v1/keys/" +:+ id) = ["v1"; "keys"; id]) as Hsegs.
  { unfold segments. change (string_drop 1 ("/v1/keys/" +:+ id)) with ("v1" +:+ String "/" ("keys" +:+ String "/" id)).
    rewrite !Split_app, Split_none by done. cbn [segs_of].
    rewrite decide_False by done. by rewrite (percent_decode_plain id) by done. }
  assert (id <> "/") as Hne by (by intros ->).
  assert (route_match admin_mux "DELETE" ["v1"; "keys"; id]
    = Some (MkPattern "DELETE" (lits ["v1"; "keys"] ++ [Wild]) false, HRevoke, [id])) as Hr.
  { unfold route_match.
    change (match_path (candidates admin_mux "DELETE") ["v1"; "keys"; id] []) with
      (match_path [([Lit "v1"; Lit "keys"; Wild],
        (MkPattern "DELETE" (lits ["v1"; "keys"] ++ [Wild]) false, HRevoke))] ["v1"; "keys"; id] []).
    erewrite match_path_lit; [done|]. apply match_path_lit. by apply match_path_wild. }
  unfold serve_mux. rewrite Hclean, Hsegs, Hr. cbn [exactMatch pt_multi negb orb andb].
  by rewrite decide_False by (intros []; done).
Qed.

Section Surface.
Context {S : Type} `{Store S} (ParseStrict : string -> bool).
Implicit Types (st : S) (q : request) (h : Hub).

Lemma gated_denied adminToken q next st h :
  rq_auth q <> bearer +:+ adminToken ->
  gated adminToken q next st h = (RpAnswer (RError StatusUnauthorized "unauthorized"), [], st, h).
Proof using Type. intros Ha. unfold gated. by rewrite admin_gate, decide_False. Qed.

Lemma gated_allowed adminToken q a cs st' h' st h :
  rq_auth q = bearer +:+ adminToken -> gated adminToken q (a, cs, st', h') st h = (RpAnswer a, cs, st', h').
Proof using Type. intros Ha. unfold gated. by rewrite admin_gate, decide_True. Qed.

(** C34. Keys are managed behind the token only. Whatever its method and path, a
    request to the admin listener without the admin token changes neither the
    keys nor the connections and gets no answer of a key handler but the 401;
    with the token, creating, listing and deleting by path run exactly their
    handlers, the identifier being the last path segment; and no request to the
    public listener reaches an admin handler or changes the store beyond the
    lookup of a sign. *)
Theorem keys_behind_the_token adminToken signingSecret health dr q st h :
  (rq_auth q <> bearer +:+ adminToken ->
     exists r, admin_serve adminToken dr q st h = (r, [], st, h)
     /\ forall a, r = RpAnswer a -> a = RError StatusUnauthorized "unauthorized")
  /\ (rq_auth q = bearer +:+ adminToken ->
     (rq_method q = "POST" -> rq_path q = "/v1/keys" ->
        let '(a, st') := create (dr_rnd dr) (dr_id dr) (dr_now dr) (rq_body q) st in
        admin_serve adminToken dr q st h = (RpAnswer a, [], st', h))
     /\ (rq_method q = "GET" -> rq_path q = "/v1/keys" ->
        let '(a, st') := list_keys st in admin_serve adminToken dr q st h = (RpAnswer a, [], st', h))
     /\ (forall id, plain_id id = true -> rq_method q = "DELETE" -> rq_path q = "/v1/keys/" +:+ id ->
        let '(a, cs, st', h') := revoke (dr_now dr) id st h in
        admin_serve adminToken dr q st h = (RpAnswer a, cs, st', h')))
  /\ (let '(r, st') := public_serve ParseStrict signingSecret health dr q st in
      (st' = st \/ rq_method q = "POST" /\ st' = (sign_auth (rq_auth q) st).2)
      /\ forall hd, r = RpOther hd -> hd = HConnect \/ hd = HStatic).
Proof using Type.
  split_and!.
  - intros Ha. unfold admin_serve.
    destruct (serve_mux _ _ _) as [hd caps|p| |]; try (by eexists).
    destruct hd; try (by eexists);
      repeat match goal with |- context [let '(_, _) := ?x in _] => destruct x end;
      rewrite gated_denied by done; eexists; (split; [done|]); by intros ? [= <-].
  - intros Ha. split_and!.
    + intros Hm Hp. unfold admin_serve. rewrite Hm, Hp.
      change (serve_mux admin_mux "POST" "/v1/keys") with (Routed HCreate []).
      destruct (create _ _ _ _ _) as [a st']. by rewrite gated_allowed.
    + intros Hm Hp. unfold admin_serve. rewrite Hm, Hp.
      change (serve_mux admin_mux "GET" "/v1/keys") with (Routed HList []).
      destruct (list_keys _) as [a st']. by rewrite gated_allowed.
    + intros id Hid Hm Hp. unfold admin_serve. rewrite Hm, Hp, key_path_route by done. cbn [head default].
      destruct (revoke _ _ _ _) as [[[a cs] st'] h']. by rewrite gated_allowed.
  - unfold public_serve. destruct (serve_mux _ _ _) as [hd caps|p| |] eqn:Hs; try (split; [by left|done]).
    apply serve_mux_in in Hs as (p & Hin & Hm).
    assert (hd = HHealth \/ hd = HSign /\ pt_method p = "POST" \/ hd = HConnect \/ hd = HStatic) as Hhd.
    { unfold public_mux, RegisterPublic in Hin. set_solver. }
    destruct Hhd as [->|[[-> Hpost]|[->| ->]]].
    + destruct (health_ServeHTTP health). split; [by left|done].
    + destruct (sign _ _ _ _ _ _ _) as [a st'] eqn:Hsg. split; [|done]. right. split.
      * rewrite Hpost in Hm. by destruct Hm as [|[|[]]].
      * unfold sign in Hsg. destruct (sign_auth (rq_auth q) st) as [k st1].
        repeat case_match; by simplify_eq.
    + split; [by left|]. intros hd [= <-]. by left.
    + split; [by left|]. intros hd [= <-]. by right.
Qed.
End Surface.

(** The demo key is revoked by its path; without the token the same request
    changes nothing. *)
Definition demo_delete (auth : string) : request := MkRequest "DELETE" ("/v1/keys/" +:+ demo_sid) auth "".
Definition demo_draws : draws := MkDraws None "" 0.

Lemma keys_behind_the_token_witness :
  (exists r, admin_serve "t0k" demo_draws (demo_delete "Bearer t0") demo_created Hub.New = (r, [], demo_created, Hub.New))
  /\ let '(a, cs, st', h') := revoke 0 demo_sid demo_created Hub.New in
     admin_serve "t0k" demo_draws (demo_delete "Bearer t0k") demo_created Hub.New = (RpAnswer a, cs, st', h').
Proof.
  split.
  - destruct (keys_behind_the_token (fun _ => true) "t0k" "s" NewHealthHandler demo_draws
      (demo_delete "Bearer t0") demo_created Hub.New) as [Hd _].
    destruct Hd as (r & Hr & _); [done|by exists r].
  - destruct (keys_behind_the_token (fun _ => true) "t0k" "s" NewHealthHandler demo_draws
      (demo_delete "Bearer t0k") demo_created Hub.New) as (_ & Ha & _).
    destruct (Ha eq_refl) as (_ & _ & Hr). by apply Hr.
Defined.
