(* ===== verification/Migrate.v ===== *)
(** * internal/store/migrate.go: schema versions

    What is accepted and what is refused, one transaction per migration, and
    several processes opening the same file at once.  The database engine is a
    class: its version pragma, its list of tables, the columns of [keys], and the
    execution of a statement; the one that is shipped is here as text.  A
    statement that fails is an argument, and a transaction that does not commit
    leaves the database as it was. *)
From S2P Require Import Prelude GoStd GoBytes GoJson.
From stdpp Require Import options.
Local Open Scope Z_scope.

(** ** The engine *)

Record keyColumn : Type := MkColumn {
  c_name : string;
  c_notNull : Z;
  c_pk : Z;
}.

#[export] Instance keyColumn_eq_dec : EqDecision keyColumn.
Proof. solve_decision. Defined.

Class Schema (D : Type) : Type := {
  user_version : D -> Z;
  set_version : Z -> D -> D;
  tables : D -> list string;            (* not sqlite's own, by name *)
  table_info : D -> list keyColumn;     (* of [keys] *)
  exec_sql : string -> D -> res string D;   (* [Exec] inside a transaction *)
  user_version_set v d : user_version (set_version v d) = v;
  tables_set v d : tables (set_version v d) = tables d;
  table_info_set v d : table_info (set_version v d) = table_info d;
}.

Inductive merr : Type :=
  | MSql (msg : string)
  | MNotContiguous (index : nat)
  | MNewer (current latest : Z)
  | MForeignTables (ts : list string)
  | MColumns (cols : string).

#[export] Instance merr_eq_dec : EqDecision merr.
Proof. solve_decision. Defined.

Section Migrate.
Context {D : Type} `{Schema D}.

(** One schema step. *)
Record migration : Type := MkMigration {
  m_version : Z;
  m_name : string;
  m_apply : D -> res string D;
}.

Definition createKeysTableSQL : string :=
  join_with "010"
    ["";
     "CREATE TABLE IF NOT EXISTS keys (";
     "    id TEXT PRIMARY KEY,";
     "    name TEXT NOT NULL,";
     "    secret_hash TEXT NOT NULL,";
     "    created_at INTEGER NOT NULL,";
     "    revoked_at INTEGER";
     ");";
     ""].

(** The baseline's [apply]. *)
Definition create_keys : D -> res string D := exec_sql createKeysTableSQL.

(** The list the server ships: the baseline only. *)
Definition migrations : list migration :=
  [MkMigration 1 "baseline: keys table (v0.2.0 schema)" create_keys].

(** ** Checks *)

Fixpoint validate_from (i : nat) (ms : list migration) : res merr unit :=
  match ms with
  | [] => Ok tt
  | m :: ms' =>
      if decide (m_version m <> Z.of_nat i + 1) then Err (MNotContiguous i)
      else validate_from (S i) ms'
  end.

Definition validateMigrations (ms : list migration) : res merr unit := validate_from 0 ms.

(** The statements of one open that fail, if any. *)
Record faults : Type := MkFaults {
  f_begin : option string;
  f_version : option string;
  f_tables : option string;
  f_info : option string;
}.

Definition no_faults : faults := MkFaults None None None None.

Definition latest (ms : list migration) : Z := from_option m_version 0 (last ms).

(** *** Columns *)

Definition format_column (c : keyColumn) : string :=
  c_name c +:+ (if decide (c_pk c <> 0) then " pk" else "")
  +:+ (if decide (c_notNull c <> 0) then " notnull" else "").

(** [strings.Join parts ", "]. *)
Fixpoint join_comma (l : list string) : string :=
  match l with
  | [] => ""
  | [a] => a
  | a :: l' => a +:+ ", " +:+ join_comma l'
  end.

Definition formatColumns (cols : list keyColumn) : string := join_comma (format_column <$> cols).

Definition v020KeysColumns : list keyColumn :=
  [MkColumn "created_at" 1 0; MkColumn "id" 0 1; MkColumn "name" 1 0;
   MkColumn "revoked_at" 0 0; MkColumn "secret_hash" 1 0].

(** [sort.Slice] by name; column names are distinct. *)
Fixpoint insert_column (c : keyColumn) (l : list keyColumn) : list keyColumn :=
  match l with
  | [] => [c]
  | c' :: l' => if String.leb (c_name c) (c_name c') then c :: l else c' :: insert_column c l'
  end.
Definition sort_columns (l : list keyColumn) : list keyColumn := foldr insert_column [] l.

Definition checkV020KeysTable (fl : faults) (d : D) : res merr unit :=
  match f_info fl with
  | Some e => Err (MSql e)
  | None =>
      let cols := sort_columns (table_info d) in
      if decide (formatColumns cols <> formatColumns v020KeysColumns)
      then Err (MColumns (formatColumns cols)) else Ok tt
  end.

Definition checkPreVersioningDatabase (fl : faults) (d : D) : res merr unit :=
  match f_tables fl with
  | Some e => Err (MSql e)
  | None =>
      if decide (tables d = []) then Ok tt
      else if decide (tables d = ["keys"]) then checkV020KeysTable fl d
      else Err (MForeignTables (tables d))
  end.

(** All of it reads one snapshot. *)
Definition checkDatabase (fl : faults) (ms : list migration) (d : D) : res merr Z :=
  match f_begin fl, f_version fl with
  | Some e, _ | None, Some e => Err (MSql e)
  | None, None =>
      let current := user_version d in
      if decide (latest ms < current) then Err (MNewer current (latest ms))
      else if decide (current = 0) then
        match checkPreVersioningDatabase fl d with Err e => Err e | Ok _ => Ok current end
      else Ok current
  end.

(** ** One migration *)

(** The statements of the transaction that fail: taking the connection and the
    lock, re-reading the version, the bump and the commit. *)
Record tx_faults : Type := MkTxFaults {
  t_begin : option string;
  t_read : option string;
  t_bump : option string;
  t_commit : option string;
}.

Definition no_tx_faults : tx_faults := MkTxFaults None None None None.

(** The new database, or the old one after the deferred ROLLBACK; the boolean
    says whether the step ran. *)
Definition applyMigration (tf : tx_faults) (m : migration) (d : D) : res merr bool * D :=
  match t_begin tf with
  | Some e => (Err (MSql e), d)
  | None =>
      match t_read tf with
      | Some e => (Err (MSql e), d)
      | None =>
          if decide (m_version m <= user_version d) then (Ok false, d) else
          match m_apply m d with
          | Err e => (Err (MSql e), d)
          | Ok d' =>
              match t_bump tf, t_commit tf with
              | Some e, _ | None, Some e => (Err (MSql e), d)
              | None, None => (Ok true, set_version (m_version m) d')
              end
          end
      end
  end.

(** ** migrate, alone on the file *)

Fixpoint migrate_loop (tfs : Z -> tx_faults) (current : Z) (ms : list migration) (d : D)
    : res merr unit * D :=
  match ms with
  | [] => (Ok tt, d)
  | m :: ms' =>
      if decide (m_version m <= current) then migrate_loop tfs current ms' d else
      match applyMigration (tfs (m_version m)) m d with
      | (Err e, d') => (Err e, d')
      | (Ok _, d') => migrate_loop tfs (m_version m) ms' d'
      end
  end.

Definition migrate (fl : faults) (tfs : Z -> tx_faults) (ms : list migration) (d : D)
    : res merr unit * D :=
  match validateMigrations ms with
  | Err e => (Err e, d)
  | Ok _ =>
      match checkDatabase fl ms d with
      | Err e => (Err e, d)
      | Ok current => migrate_loop tfs current ms d
      end
  end.

(** ** Several processes on one file *)

(** A process in [migrate]: about to check, in the loop, or returned. *)
Inductive opener : Type :=
  | OStart
  | OLoop (current : Z) (rest : list migration)
  | ODone (ok : bool).

Record db_sys : Type := MkDbSys {
  file : D;
  openers : gmap nat opener;
  applied : list Z;              (* versions whose transaction committed *)
}.

Definition set_opener (p : nat) (o : opener) (s : db_sys) : db_sys :=
  MkDbSys (file s) (<[p := o]> (openers s)) (applied s).

Inductive open_step (ms : list migration) : db_sys -> db_sys -> Prop :=
  | os_open p s : openers s !! p = None -> open_step ms s (set_opener p OStart s)
  | os_refuse p fl e s :
      openers s !! p = Some OStart -> checkDatabase fl ms (file s) = Err e ->
      open_step ms s (set_opener p (ODone false) s)
  | os_check p fl current s :
      openers s !! p = Some OStart -> checkDatabase fl ms (file s) = Ok current ->
      open_step ms s (set_opener p (OLoop current ms) s)
  | os_skip p current m rest s :
      openers s !! p = Some (OLoop current (m :: rest)) -> m_version m <= current ->
      open_step ms s (set_opener p (OLoop current rest) s)
  | os_apply p current m rest tf ran d s :
      openers s !! p = Some (OLoop current (m :: rest)) -> current < m_version m ->
      applyMigration tf m (file s) = (Ok ran, d) ->
      open_step ms s (MkDbSys d (<[p := OLoop (m_version m) rest]> (openers s))
                        (if ran : bool then applied s ++ [m_version m] else applied s))
  | os_apply_fails p current m rest tf e d s :
      openers s !! p = Some (OLoop current (m :: rest)) -> current < m_version m ->
      applyMigration tf m (file s) = (Err e, d) ->
      open_step ms s (MkDbSys d (<[p := ODone false]> (openers s)) (applied s))
  | os_return p current s :
      openers s !! p = Some (OLoop current []) -> open_step ms s (set_opener p (ODone true) s)
  (** A process may die anywhere; an open transaction rolls back. *)
  | os_crash p s : open_step ms s (MkDbSys (file s) (delete p (openers s)) (applied s)).
End Migrate.
Arguments migration D : clear implicits.
Arguments db_sys D : clear implicits.
Arguments opener D : clear implicits.

(** ** readOnlyDSN *)

(** [url.URL.EscapedPath]: the bytes a path may hold as they are. *)
Definition path_byte (c : ascii) : bool :=
  let n := N_of_ascii c in
  ((48 <=? n) && (n <=? 57) || (65 <=? n) && (n <=? 90) || (97 <=? n) && (n <=? 122))%N
  || bool_decide (c ∈ ["-"; "_"; "."; "~"; "$"; "&"; "+"; ","; "/"; ":"; ";"; "="; "@"]%char).

(** [%XX], with upper-case digits. *)
Definition upper_hex (n : N) : ascii := ascii_of_N (if decide (n < 10)%N then 48 + n else 55 + n)%N.

Fixpoint escape_path (s : string) : string :=
  match s with
  | EmptyString => EmptyString
  | String c s' =>
      if path_byte c then String c (escape_path s')
      else String "%" (String (upper_hex (N_of_ascii c / 16)) (String (upper_hex (N_of_ascii c mod 16))
             (escape_path s')))
  end.

Definition ro_query (immutable : bool) : string :=
  if immutable then "mode=ro&immutable=1&_busy_timeout=5000" else "mode=ro&_busy_timeout=5000".

(** On Unix [filepath.ToSlash] is the identity. *)
Definition readOnlyDSN (path : string) (immutable : bool) : string :=
  let p := if HasPrefix path "/" then path else String "/" path in
  "file://" +:+ escape_path p +:+ "?" +:+ ro_query immutable.

(** ** isCleanWALDatabase *)

(** What the function finds out about a file: is there a [-wal] beside it, and
    its first bytes. *)
Record file_view : Type := MkView {
  fv_wal : res string bool;
  fv_head : res string (list N);
}.

Definition isCleanWALDatabase (f : file_view) : res string bool :=
  match fv_wal f with
  | Err e => Err e
  | Ok true => Ok false
  | Ok false =>
      match fv_head f with
      | Err e => Err e
      | Ok bytes =>
          if decide (length bytes < 20)%nat then Ok false
          else Ok (bool_decide (nth 18 bytes 0%N = 2%N) && bool_decide (nth 19 bytes 0%N = 2%N))
      end
  end.

(** ** preflight and NewSQLite's order *)

(** [os.Stat]: an error, no file, or its size. *)
Definition preflight {D} `{Schema D} (stat : res string (option nat)) (view : file_view)
    (open_err : option string) (fl : faults) (ms : list (migration D)) (d : D) : res merr unit :=
  match stat with
  | Err e => Err (MSql e)
  | Ok None => Ok tt
  | Ok (Some O) => Ok tt
  | Ok (Some _) =>
      match isCleanWALDatabase view, open_err with
      | Err e, _ | Ok _, Some e => Err (MSql e)
      | Ok _, None => match checkDatabase fl ms d with Err e => Err e | Ok _ => Ok tt end
      end
  end.

(** ** The migration list *)

Section Facts.
Context {D : Type} `{Schema D}.
Implicit Types (d : D) (ms : list (migration D)).

Lemma validate_from_lookup i ms j m :
  validate_from i ms = Ok tt -> ms !! j = Some m -> m_version m = Z.of_nat (i + j) + 1.
Proof using Type.
  revert i j. induction ms as [|m' ms IH]; intros i j Hv Hj; [done|]. cbn in Hv.
  case_decide as Hm; [done|]. destruct j as [|j]; cbn in Hj.
  - simplify_eq. rewrite Nat.add_0_r. lia.
  - rewrite (IH _ _ Hv Hj). lia.
Qed.

Lemma validate_lookup ms j m :
  validateMigrations ms = Ok tt -> ms !! j = Some m -> m_version m = Z.of_nat j + 1.
Proof using Type. apply (validate_from_lookup 0). Qed.

Lemma latest_length ms : validateMigrations ms = Ok tt -> latest ms = Z.of_nat (length ms).
Proof using Type.
  intros Hv. unfold latest. rewrite last_lookup.
  destruct ms as [|m ms]; [done|]. destruct (lookup_lt_is_Some_2 (m :: ms) (length ms)) as [m' Hm'];
    [cbn; lia|]. cbn [length Nat.pred]. rewrite Hm'. cbn.
  rewrite (validate_lookup _ _ _ Hv Hm'). lia.
Qed.

(** ** What committed transactions make of a database *)

Inductive evolves ms d : list Z -> D -> Prop :=
  | ev_nil : evolves ms d [] d
  | ev_snoc l m d1 d2 :
      evolves ms d l d1 -> m ∈ ms -> m_apply m d1 = Ok d2 ->
      evolves ms d (l ++ [m_version m]) (set_version (m_version m) d2).

Lemma applyMigration_spec tf m d r d' :
  applyMigration tf m d = (r, d') ->
  match r with
  | Ok true => user_version d < m_version m
      /\ exists d1, m_apply m d = Ok d1 /\ d' = set_version (m_version m) d1
  | Ok false => m_version m <= user_version d /\ d' = d
  | Err _ => d' = d
  end.
Proof using Type.
  unfold applyMigration. intros Ha. repeat case_match; simplify_eq; try done.
  split; [lia|]. eauto.
Qed.

(** A list of versions that starts after [v0] and ends at [v]. *)
Definition versions (v0 v : Z) : list Z := seqZ (v0 + 1) (v - v0).

Lemma versions_nil v : versions v v = [].
Proof using Type. unfold versions. by rewrite Z.sub_diag. Qed.

Lemma versions_snoc v0 v : v0 <= v -> versions v0 (v + 1) = versions v0 v ++ [v + 1].
Proof using Type.
  intros Hv. unfold versions. replace (v + 1 - v0) with (v - v0 + 1) by lia.
  rewrite seqZ_app by lia. f_equal. by rewrite (seqZ_cons _ 1), seqZ_nil by lia; f_equal; lia.
Qed.

(** The next step of a process that has [drop k ms] left. *)
Lemma drop_head ms k m rest :
  drop k ms = m :: rest -> ms !! k = Some m /\ drop (S k) ms = rest.
Proof using Type.
  intros Hd. split.
  - rewrite <- (Nat.add_0_r k), <- lookup_drop, Hd. done.
  - rewrite <- (Nat.add_1_r k), <- drop_drop, Hd. done.
Qed.

(** ** Every open of the file *)

(** How many steps a version means: a negative one, none. *)
Definition level (v : Z) : Z := Z.max 0 v.

(** What a process knows: it is past [k] steps, and the file has them. *)
Definition opener_ok ms (v : Z) (o : opener D) : Prop :=
  match o with
  | OStart | ODone false => True
  | OLoop current rest => exists k, rest = drop k ms /\ Z.of_nat k <= level current /\ current <= v
  | ODone true => latest ms <= level v
  end.

Lemma opener_ok_mono ms v v' o : v <= v' -> opener_ok ms v o -> opener_ok ms v' o.
Proof using Type.
  intros Hv. destruct o as [|current rest|[]]; cbn; unfold level; [done| |lia|done].
  intros (k & Hr & Hk). exists k. split; [done|]. lia.
Qed.

Record db_ok ms d0 (s : db_sys D) : Prop := {
  do_version : user_version d0 <= user_version (file s);
  do_applied : applied s = versions (level (user_version d0)) (level (user_version (file s)));
  do_file : evolves ms d0 (applied s) (file s);
  do_openers p o : openers s !! p = Some o -> opener_ok ms (user_version (file s)) o;
}.

Lemma db_ok_opener ms d0 s p o :
  db_ok ms d0 s -> opener_ok ms (user_version (file s)) o -> db_ok ms d0 (set_opener p o s).
Proof using Type.
  intros [] Ho. split; cbn; try done. intros p' o'. rewrite lookup_insert.
  case_decide; [by intros [= <-]|by apply do_openers0].
Qed.

Lemma checkDatabase_version fl ms d v : checkDatabase fl ms d = Ok v -> v = user_version d.
Proof using Type. unfold checkDatabase. intros Hc. by repeat case_match; simplify_eq. Qed.

Lemma db_ok_apply ms d0 s p current m rest tf ran d :
  validateMigrations ms = Ok tt -> db_ok ms d0 s ->
  openers s !! p = Some (OLoop current (m :: rest)) -> current < m_version m ->
  applyMigration tf m (file s) = (Ok ran, d) ->
  db_ok ms d0 (MkDbSys d (<[p := OLoop (m_version m) rest]> (openers s))
                 (if ran : bool then applied s ++ [m_version m] else applied s)).
Proof using Type.
  intros Hv Hok Hp Hlt Ha. destruct (do_openers _ _ _ Hok _ _ Hp) as (k & Hrest & Hk & Hcur).
  symmetry in Hrest. apply drop_head in Hrest as [Hm Hrest].
  pose proof (validate_lookup _ _ _ Hv Hm) as Hver. apply applyMigration_spec in Ha.
  destruct Hok as [Hle Happ Hfile Hops]. unfold level in *. destruct ran.
  - destruct Ha as (Huv & d1 & Hd1 & ->).
    assert (m_version m = Z.max 0 (user_version (file s)) + 1) as Hnext by lia.
    split; cbn; rewrite ?user_version_set.
    + lia.
    + unfold level. by rewrite (Z.max_r 0 (m_version m)), Hnext, versions_snoc, Happ by lia.
    + eapply ev_snoc; [done| |done]. by eapply list_elem_of_lookup_2.
    + intros p' o'. rewrite lookup_insert. case_decide.
      * intros [= <-]. exists (S k). split; [done|]. unfold level. lia.
      * intros Ho. eapply opener_ok_mono; [|by eapply Hops]. lia.
  - destruct Ha as [Hge ->]. split; cbn; try done.
    intros p' o'. rewrite lookup_insert. case_decide; [|by apply Hops].
    intros [= <-]. exists (S k). split; [done|]. unfold level. lia.
Qed.

Lemma db_ok_step ms d0 s s' :
  validateMigrations ms = Ok tt ->
  db_ok ms d0 s -> open_step ms s s' -> db_ok ms d0 s'.
Proof using Type.
  intros Hv Hok Hstep. pose proof (do_version _ _ _ Hok) as Hle.
  destruct Hstep as [p s Hp|p fl e s Hp Hc|p fl current s Hp Hc|p current m rest s Hp Hm
    |p current m rest tf ran d s Hp Hm Ha|p current m rest tf e d s Hp Hm Ha|p current s Hp|p s].
  - by apply db_ok_opener.
  - by apply db_ok_opener.
  - apply db_ok_opener; [done|]. apply checkDatabase_version in Hc as ->. exists 0%nat. split; [done|]. unfold level. lia.
  - apply db_ok_opener; [done|]. destruct (do_openers _ _ _ Hok _ _ Hp) as (k & Hrest & Hk).
    symmetry in Hrest. apply drop_head in Hrest as [Hk' Hrest].
    pose proof (validate_lookup _ _ _ Hv Hk') as Hver. exists (S k). split; [done|]. unfold level. lia.
  - by eapply db_ok_apply.
  - apply applyMigration_spec in Ha as ->. by apply (db_ok_opener _ _ s p (ODone false)).
  - apply db_ok_opener; [done|]. destruct (do_openers _ _ _ Hok _ _ Hp) as (k & Hrest & Hk).
    cbn. rewrite latest_length by done. assert (length (drop k ms) = 0%nat) as Hd by by rewrite <- Hrest.
    rewrite length_drop in Hd. unfold level in *. lia.
  - destruct Hok as [? ? ? Hops]. split; cbn; try done.
    intros p' o [_ Ho]%lookup_delete_Some. by eapply Hops.
Qed.

(** C17. Each migration runs once. However many processes open one file, in any
    interleaving, with any statement failing and any process dying, the versions
    whose transactions committed are exactly the consecutive ones from after the
    version the file started with to the one it has now (a negative version,
    which the server never writes, counting as 0); the file is what applying
    them in that order makes of it; and an open that succeeded left it at the
    newest version or beyond. *)
Theorem migrations_run_once ms d0 s :
  validateMigrations ms = Ok tt -> rtc (open_step ms) (MkDbSys d0 ∅ []) s ->
  applied s = versions (level (user_version d0)) (level (user_version (file s)))
  /\ evolves ms d0 (applied s) (file s)
  /\ forall p, openers s !! p = Some (ODone true) -> ms <> [] -> latest ms <= user_version (file s).
Proof using Type.
  intros Hv Hr. assert (db_ok ms d0 s) as [Hle Happ Hfile Hops].
  { apply (rtc_invariant (open_step ms) (db_ok ms d0) (MkDbSys d0 ∅ [])); [| |done].
    - split; cbn; [lia|by rewrite versions_nil|constructor|]. intros p o. by rewrite lookup_empty.
    - intros a b Ha Hb. by eapply db_ok_step. }
  split_and!; [done..|]. intros p Hp Hms. pose proof (Hops _ _ Hp) as Hl. cbn in Hl.
  rewrite latest_length in * by done. unfold level in Hl. destruct ms; [done|]. cbn in *. lia.
Qed.
End Facts.

(** ** What is adopted *)

(** A name without the two bytes [formatColumns] writes around names. *)
Definition plain_name (n : string) : bool :=
  negb (string_elem " " n) && negb (string_elem "," n).

(** What a column is to the check. *)
Definition column_shape (c : keyColumn) : string * bool * bool :=
  (c_name c, bool_decide (c_pk c <> 0), bool_decide (c_notNull c <> 0)).

Lemma Cut_space_name n s :
  string_elem " " n = false -> Cut " " (n +:+ String " " s) = Some (n, s).
Proof. apply Cut_app. Qed.

Lemma format_column_inj c c' :
  plain_name (c_name c) = true -> plain_name (c_name c') = true ->
  format_column c = format_column c' -> column_shape c = column_shape c'.
Proof.
  destruct c as [n a b], c' as [n' a' b']. unfold plain_name, format_column, column_shape.
  cbn [c_name c_notNull c_pk]. intros Hn Hn' Heq. bool_hyps.
  apply (f_equal (Cut " ")) in Heq as Hcut. revert Hcut.
  repeat case_decide; rewrite ?bool_decide_eq_true_2, ?bool_decide_eq_false_2 by done;
    str_simpl; rewrite ?string_app_nil_r, ?Cut_app, ?Cut_none by done; intros Hcut;
    simplify_eq; try done.
  all: rewrite ?string_app_nil_r in Heq; by subst.
Qed.

Lemma format_column_shape c c' : column_shape c = column_shape c' -> format_column c = format_column c'.
Proof.
  destruct c as [n a b], c' as [n' a' b']. unfold format_column, column_shape. cbn. intros [= -> Ha Hb].
  f_equal. f_equal; [clear Hb|clear Ha]; case_bool_decide; case_bool_decide; try done;
    repeat case_decide; done.
Qed.

Lemma format_column_comma c :
  plain_name (c_name c) = true -> string_elem "," (format_column c) = false.
Proof.
  unfold plain_name, format_column. intros Hn. bool_hyps. rewrite !string_elem_app.
  repeat case_decide; by apply orb_false_iff.
Qed.

Lemma join_comma_cons a b l :
  join_comma (a :: b :: l) = a +:+ String "," (String " " (join_comma (b :: l))).
Proof. done. Qed.

Lemma join_comma_inj l l' :
  l <> [] -> l' <> [] ->
  Forall (fun a => string_elem "," a = false) l -> Forall (fun a => string_elem "," a = false) l' ->
  join_comma l = join_comma l' -> l = l'.
Proof.
  intros Hl Hl' Hf. revert l' Hl'. induction Hf as [|a l Ha Hf IH]; intros l' Hl' Hf' Heq; [done|].
  destruct Hf' as [|a' l' Ha' Hf']; [done|].
  destruct l as [|b l], l' as [|b' l']; rewrite ?join_comma_cons in Heq.
  - cbn in Heq. by subst.
  - apply (f_equal (Cut ",")) in Heq. cbn [join_comma] in Heq.
    by rewrite Cut_app, Cut_none in Heq by done.
  - apply (f_equal (Cut ",")) in Heq. cbn [join_comma] in Heq.
    by rewrite Cut_app, Cut_none in Heq by done.
  - apply string_sep_inj in Heq as [-> Heq]; [|done..]. injection Heq as Heq.
    f_equal. by apply IH.
Qed.

Lemma formatColumns_shape cols cols' :
  cols <> [] -> cols' <> [] ->
  Forall (fun c => plain_name (c_name c) = true) cols ->
  Forall (fun c => plain_name (c_name c) = true) cols' ->
  formatColumns cols = formatColumns cols' <-> column_shape <$> cols = column_shape <$> cols'.
Proof.
  intros Hne Hne' Hp Hp'. unfold formatColumns. split.
  - intros Heq. apply join_comma_inj in Heq.
    + revert cols' Hne' Hp' Heq. clear Hne. induction Hp as [|c cols Hc Hp IH]; intros cols' Hne' Hp' Heq.
      { by destruct cols'. }
      destruct Hp' as [|c' cols' Hc' Hp']; [done|]. cbn in Heq |- *.
      injection Heq as Hh Ht. f_equal; [by apply format_column_inj|].
      destruct cols' as [|c2 cols2]; [by destruct cols|]. by apply IH.
    + by destruct cols.
    + by destruct cols'.
    + apply Forall_fmap. eapply Forall_impl; [exact Hp|]. apply format_column_comma.
    + apply Forall_fmap. eapply Forall_impl; [exact Hp'|]. apply format_column_comma.
  - intros Heq. f_equal. clear -Heq. revert cols' Heq.
    induction cols as [|c cols IH]; intros [|c' cols'] Heq; [done..|].
    cbn in Heq |- *. injection Heq as Hn Hpk Hnn Ht.
    f_equal; [|by apply IH]. apply format_column_shape. unfold column_shape. by rewrite Hn, Hpk, Hnn.
Qed.

Section Adopt.
Context {D : Type} `{Schema D}.
Implicit Types (d : D) (ms : list (migration D)).

(** The columns of [keys], by name, with their flags. *)
Definition shape d : list (string * bool * bool) := column_shape <$> sort_columns (table_info d).

Definition v020_shape : list (string * bool * bool) :=
  [("created_at", false, true); ("id", true, false); ("name", false, true);
   ("revoked_at", false, false); ("secret_hash", false, true)].

(** A database [migrate] may run on. *)
Definition adoptable ms d : Prop :=
  user_version d <= latest ms
  /\ (user_version d = 0 -> tables d = [] \/ (tables d = ["keys"] /\ shape d = v020_shape)).

Lemma insert_column_Forall P c l : P c -> Forall P l -> Forall P (insert_column c l).
Proof using Type.
  intros Hc. induction 1 as [|c' l Hc' Hl IH]; cbn; [by repeat constructor|].
  case_match; by repeat constructor.
Qed.

Lemma sort_columns_Forall P l : Forall P l -> Forall P (sort_columns l).
Proof using Type. induction 1; cbn; [constructor|]. by apply insert_column_Forall. Qed.

Lemma checkV020KeysTable_ok d :
  Forall (fun c => plain_name (c_name c) = true) (table_info d) ->
  checkV020KeysTable no_faults d = Ok tt <-> shape d = v020_shape.
Proof using Type.
  intros Hp%sort_columns_Forall. unfold checkV020KeysTable, shape. cbn [f_info no_faults].
  change v020_shape with (column_shape <$> v020KeysColumns).
  destruct (sort_columns (table_info d)) as [|c cols] eqn:Hs.
  { rewrite decide_True by (by vm_compute). done. }
  rewrite <- Hs in *. rewrite <- formatColumns_shape.
  - case_decide as Hd; split; intros; done.
  - by rewrite Hs.
  - done.
  - done.
  - by repeat constructor.
Qed.

(** Whatever statements fail, an acceptance is one for cause. *)
Lemma checkDatabase_accepts fl ms d v :
  Forall (fun c => plain_name (c_name c) = true) (table_info d) ->
  checkDatabase fl ms d = Ok v -> adoptable ms d.
Proof using Type.
  intros Hp. unfold checkDatabase, adoptable, checkPreVersioningDatabase.
  destruct (f_begin fl), (f_version fl); [done..|].
  case_decide as Hv; [done|]. case_decide as H0; [|split; [lia|done]].
  destruct (f_tables fl); [done|]. case_decide as Ht; [split; [lia|by left]|].
  case_decide as Hk; [|done]. split; [lia|]. right. split; [done|].
  apply (checkV020KeysTable_ok d Hp). 
  unfold checkV020KeysTable in *. cbn [f_info no_faults]. destruct (f_info fl); [done|].
  cbn zeta in *. destruct (decide (formatColumns _ <> _)); done.
Qed.

(** What is refused. With column names that hold no comma or space, and no
    statement failing, the check accepts exactly the databases at most as new as
    the newest migration that, at version 0, have no table or just a keys table
    with the columns, not-null flags and primary key of v0.2.0. *)
Theorem adopted_iff ms d :
  Forall (fun c => plain_name (c_name c) = true) (table_info d) ->
  (exists v, checkDatabase no_faults ms d = Ok v) <-> adoptable ms d.
Proof using Type.
  intros Hp. unfold checkDatabase, adoptable. cbn [f_begin f_version no_faults].
  case_decide as Hv; [split; [by intros [v ?]|lia]|].
  case_decide as H0; [|split; [|eauto]; intros _; split; [lia|done]].
  unfold checkPreVersioningDatabase. cbn [f_tables no_faults].
  case_decide as Ht; [split; [intros _; split; [lia|by left]|eauto]|].
  case_decide as Hk.
  - rewrite <- (checkV020KeysTable_ok d Hp). destruct (checkV020KeysTable no_faults d) as [[]|e].
    + split; [intros _; split; [lia|by right]|eauto].
    + split; [by intros [v ?]|]. intros [_ Hx]. destruct (Hx H0) as [?|[_ ?]]; done.
  - split; [by intros [v ?]|]. intros [_ Hx]. destruct (Hx H0) as [?|[? _]]; done.
Qed.

(** ** One process *)

Lemma migrate_loop_spec ms k tfs d0 d r d' :
  validateMigrations ms = Ok tt -> 0 <= user_version d0 <= user_version d ->
  Z.of_nat k <= user_version d -> evolves ms d0 (versions (user_version d0) (user_version d)) d ->
  forall cur, Z.of_nat k <= cur <= user_version d ->
  migrate_loop tfs cur (drop k ms) d = (r, d') ->
  user_version d <= user_version d'
  /\ evolves ms d0 (versions (user_version d0) (user_version d')) d'
  /\ (r = Ok tt -> latest ms <= user_version d').
Proof using Type.
  intros Hv. remember (drop k ms) as rest eqn:Hrest. symmetry in Hrest. revert k d Hrest.
  induction rest as [|m rest IH]; intros k d Hrest H0 Hk Hev cur Hcur Hl; cbn in Hl.
  - simplify_eq. split; [lia|]. split; [done|]. intros _. rewrite latest_length by done.
    assert (length (drop k ms) = 0%nat) as Hd by (by rewrite Hrest). rewrite length_drop in Hd. lia.
  - apply drop_head in Hrest as [Hm Hrest]. pose proof (validate_lookup _ _ _ Hv Hm) as Hver.
    case_decide as Hskip.
    { apply (IH (S k) d Hrest H0 ltac:(lia) Hev cur ltac:(lia) Hl). }
    destruct (applyMigration _ m d) as [[ran|e] d1] eqn:Ha; apply applyMigration_spec in Ha.
    + assert (user_version d <= user_version d1 /\ m_version m <= user_version d1
        /\ evolves ms d0 (versions (user_version d0) (user_version d1)) d1) as (Hle & Hge & Hev1).
      { destruct ran; [|by destruct Ha as [? ->]]. destruct Ha as (Huv & d2 & Hd2 & ->).
        rewrite user_version_set. split_and!; [lia..|].
        assert (m_version m = user_version d + 1) as Hnext by lia.
        rewrite Hnext at 1. rewrite versions_snoc by lia. rewrite <- Hnext.
        eapply ev_snoc; [done| |done]. by eapply list_elem_of_lookup_2. }
      destruct (IH (S k) d1 Hrest ltac:(lia) ltac:(lia) Hev1 (m_version m) ltac:(lia) Hl) as (? & ? & ?).
      split; [lia|done].
    + subst d1. simplify_eq. split; [lia|]. done.
Qed.

(** C: all or nothing per step. *)
Theorem migrate_is_atomic fl tfs ms d r d' :
  validateMigrations ms = Ok tt -> 0 <= user_version d ->
  migrate fl tfs ms d = (r, d') ->
  evolves ms d (versions (user_version d) (user_version d')) d'
  /\ (r = Ok tt -> user_version d <= latest ms <= user_version d')
  /\ (forall e, checkDatabase fl ms d = Err e -> r = Err e /\ d' = d).
Proof using Type.
  intros Hv H0 Hm. unfold migrate in Hm. rewrite Hv in Hm.
  destruct (checkDatabase fl ms d) as [cur|e] eqn:Hc.
  - assert (user_version d <= latest ms) as Hle.
    { unfold checkDatabase in Hc. repeat case_match; simplify_eq; lia. }
    apply checkDatabase_version in Hc as ->.
    destruct (migrate_loop_spec ms 0 tfs d d r d' Hv) with (cur := user_version d) as (? & ? & Hr);
      [lia|lia|rewrite versions_nil; constructor|lia|done|].
    split; [done|]. split; [intros ->; split; [done|by apply Hr]|done].
  - simplify_eq. split; [rewrite versions_nil; constructor|]. split; [done|].
    by intros e' [= <-].
Qed.
End Adopt.

(** ** The shipped list *)

(** A [CREATE TABLE IF NOT EXISTS] statement, read as far as the one above goes:
    words and punctuation, then a name and column definitions, each a name, a
    type and at most one constraint. *)
Definition flush (w : string) : list string := if decide (w = "") then [] else [w].

Fixpoint sql_tokens (s w : string) : list string :=
  match s with
  | EmptyString => flush w
  | String c s' =>
      if decide (c ∈ [" "; "009"; "010"; "013"]%char) then flush w ++ sql_tokens s' ""
      else if decide (c ∈ ["("; ")"; ","; ";"]%char) then flush w ++ String c "" :: sql_tokens s' ""
      else sql_tokens s' (w +:+ String c "")
  end.

Definition column_of (def : list string) : option keyColumn :=
  match def with
  | [n; _] => Some (MkColumn n 0 0)
  | [n; _; a; b] =>
      if decide ((a, b) = ("PRIMARY", "KEY")) then Some (MkColumn n 0 1)
      else if decide ((a, b) = ("NOT", "NULL")) then Some (MkColumn n 1 0) else None
  | _ => None
  end.

(** The definitions up to the closing parenthesis; [def] is the one begun. *)
Fixpoint column_defs (ts def : list string) : option (list (list string)) :=
  match ts with
  | [] => None
  | t :: ts' =>
      if decide (t = ")") then (if decide (ts' = [";"]) then Some [def] else None)
      else if decide (t = ",") then cons def <$> column_defs ts' []
      else column_defs ts' (def ++ [t])
  end.

Definition create_table (sql : string) : option (string * list keyColumn) :=
  match sql_tokens sql "" with
  | c :: t :: i :: n :: e :: name :: p :: rest =>
      if decide ([c; t; i; n; e; p] = ["CREATE"; "TABLE"; "IF"; "NOT"; "EXISTS"; "("]) then
        defs ← column_defs rest []; cols ← mapM column_of defs; Some (name, cols)
      else None
  | _ => None
  end.

(** What such a statement does: nothing at all to a database that has the
    table; it never touches the version; and in a database without tables it
    creates the one it describes. *)
Class SchemaSQL (D : Type) `{Schema D} : Prop := {
  create_exists sql n cols d d' :
    create_table sql = Some (n, cols) -> n ∈ tables d -> exec_sql sql d = Ok d' -> d' = d;
  create_version sql n cols d d' :
    create_table sql = Some (n, cols) -> exec_sql sql d = Ok d' -> user_version d' = user_version d;
  create_fresh sql n cols d d' :
    create_table sql = Some (n, cols) -> tables d = [] -> exec_sql sql d = Ok d' ->
    tables d' = [n] /\ (n = "keys" -> table_info d' = cols);
}.

(** The columns of the shipped statement. *)
Definition key_columns : list keyColumn :=
  [MkColumn "id" 0 1; MkColumn "name" 1 0; MkColumn "secret_hash" 1 0;
   MkColumn "created_at" 1 0; MkColumn "revoked_at" 0 0].

Lemma shipped_statement : create_table createKeysTableSQL = Some ("keys", key_columns).
Proof. reflexivity. Qed.

Lemma shipped_shape : column_shape <$> sort_columns key_columns = v020_shape.
Proof. by vm_compute. Qed.

Section Shipped.
Context {D : Type} `{SchemaSQL D}.
Implicit Types d : D.

Lemma shipped_valid : validateMigrations (@migrations D _) = Ok tt.
Proof using Type. done. Qed.

End Shipped.

(** ** The read-only DSN *)

(** How SQLite reads a URI's path: [%XX] is a byte. *)
Fixpoint unescape (s : string) : string :=
  match s with
  | EmptyString => EmptyString
  | String c s' =>
      if decide (c = "%"%char) then
        match s' with
        | String a (String b s'') =>
            match hex_val (N_of_ascii a), hex_val (N_of_ascii b) with
            | Some x, Some y => String (ascii_of_N (x * 16 + y)) (unescape s'')
            | _, _ => String c (unescape s')
            end
        | _ => String c (unescape s')
        end
      else String c (unescape s')
  end.

Lemma below_16 (P : N -> Prop) : Forall P (N.of_nat <$> seq 0 16) -> forall n, (n < 16)%N -> P n.
Proof.
  intros HP n Hn. eapply Forall_forall in HP; [exact HP|]. apply list_elem_of_fmap.
  exists (N.to_nat n). split; [lia|]. apply elem_of_seq. lia.
Qed.

Lemma upper_hex_val n : (n < 16)%N -> hex_val (N_of_ascii (upper_hex n)) = Some n.
Proof. revert n. apply below_16. by repeat constructor. Qed.

Lemma escape_path_step c s :
  unescape (escape_path (String c s)) = String c (unescape (escape_path s)).
Proof.
  cbn [escape_path]. destruct (path_byte c) eqn:Hc.
  - cbn [unescape]. case_decide; [by subst|done].
  - pose proof (N_ascii_bounded c). cbn [unescape]. rewrite decide_True by done.
    rewrite !upper_hex_val by (apply N.Div0.div_lt_upper_bound || apply N.mod_lt; lia).
    f_equal. rewrite N.mul_comm, <- N.div_mod by done. apply ascii_N_embedding.
Qed.

Lemma unescape_escape s : unescape (escape_path s) = s.
Proof. induction s as [|c s IH]; [done|]. by rewrite escape_path_step, IH. Qed.

(** An escaped path has no byte that means something to a URI. *)
Lemma escape_path_no x s :
  path_byte x = false -> x <> "%"%char -> Forall (fun n => upper_hex (N.of_nat n) <> x) (seq 0 16) ->
  string_elem x (escape_path s) = false.
Proof.
  intros Hx Hp Hh. assert (forall n, (n < 16)%N -> upper_hex n <> x) as Hhex.
  { apply below_16. by apply Forall_fmap. }
  induction s as [|c s IH]; [done|]. pose proof (N_ascii_bounded c).
  cbn [escape_path]. destruct (path_byte c) eqn:Hc; cbn [string_elem]; rewrite IH.
  - apply orb_false_iff. split; [|done]. apply bool_decide_eq_false. congruence.
  - repeat (apply orb_false_iff; split); try done; apply bool_decide_eq_false; [done|..];
      intros Heq; symmetry in Heq; revert Heq; apply Hhex.
    + apply N.Div0.div_lt_upper_bound; lia.
    + apply N.mod_lt; lia.
Qed.

(** The read-only DSN names the file. Its first question mark ends the path
    part and starts exactly the server's own parameters, the path part has no
    fragment mark, and undoing the percent escapes gives the path back, whatever
    bytes it holds. *)
Theorem readOnlyDSN_names_the_file path immutable :
  exists p, Cut "?" (readOnlyDSN path immutable) = Some ("file://" +:+ p, ro_query immutable)
  /\ unescape p = (if HasPrefix path "/" then path else String "/" path)
  /\ HasPrefix p "/" = true /\ string_elem "#" p = false.
Proof.
  unfold readOnlyDSN. set (q := if HasPrefix path "/" then path else String "/" path).
  assert (exists q', q = String "/" q') as [q' Hq].
  { subst q. destruct path as [|c path]; [by eexists|]. unfold HasPrefix. cbn [String.prefix].
    destruct (ascii_dec "/" c) as [<-|]; [|by eexists]. by destruct path; eexists. }
  clearbody q. exists (escape_path q). split_and!.
  - rewrite <- string_app_assoc. apply (Cut_app _ _ (ro_query immutable)). rewrite string_elem_app.
    apply orb_false_iff. split; [done|]. apply escape_path_no; [done|done|by repeat constructor].
  - apply unescape_escape.
  - rewrite Hq. cbn. by destruct (escape_path q').
  - apply escape_path_no; [done|done|by repeat constructor].
Qed.

(** ** A database for the witnesses *)

Module Demo.

Record db : Type := MkDb {
  db_version : Z;
  db_tables : list string;
  db_columns : list keyColumn;
}.

#[global, refine] Instance schema : Schema db := {
  user_version := db_version;
  set_version v d := MkDb v (db_tables d) (db_columns d);
  tables := db_tables;
  table_info := db_columns;
  exec_sql sql d :=
    match create_table sql with
    | None => Err "syntax error"
    | Some (n, cols) =>
        if decide (n ∈ db_tables d) then Ok d
        else Ok (MkDb (db_version d) (db_tables d ++ [n]) (if decide (n = "keys") then cols else db_columns d))
    end;
}.
Proof. all: done. Defined.

#[global] Instance schema_sql : SchemaSQL db.
Proof.
  split; cbn -[create_table].
  - intros sql n cols d d' -> Hk. rewrite decide_True by done. congruence.
  - intros sql n cols d d' ->. case_decide; intros; by simplify_eq.
  - intros sql n cols d d' -> Ht. rewrite Ht. intros [= <-]. cbn. split; [done|]. intros ->. by rewrite decide_True.
Defined.

Definition fresh : db := MkDb 0 [] [].
Definition v020 : db := MkDb 0 ["keys"] v020KeysColumns.

(** Two processes open a fresh file: both read version 0, one creates the
    table, the other finds it done under the lock. *)
Definition migrated : db := MkDb 1 ["keys"] key_columns.

Definition race_end : db_sys db :=
  MkDbSys migrated {[0%nat := ODone true; 1%nat := ODone true]} [1].

Lemma race : rtc (open_step migrations) (MkDbSys fresh ∅ []) race_end.
Proof.
  eapply rtc_l; [by apply (os_open _ 0%nat)|]. eapply rtc_l; [by apply (os_open _ 1%nat)|].
  eapply rtc_l; [by apply (os_check _ 0%nat no_faults 0)|].
  eapply rtc_l; [by apply (os_check _ 1%nat no_faults 0)|].
  eapply rtc_l; [by eapply (os_apply _ 0%nat 0 _ [] no_tx_faults true migrated)|].
  eapply rtc_l; [by eapply (os_apply _ 1%nat 0 _ [] no_tx_faults false migrated)|].
  eapply rtc_l; [by eapply (os_return _ 0%nat 1)|]. eapply rtc_l; [by eapply (os_return _ 1%nat 1)|].
  apply rtc_refl.
Qed.
End Demo.

Lemma migrations_run_once_witness :
  rtc (open_step migrations) (MkDbSys Demo.fresh ∅ []) Demo.race_end
  /\ [1] = versions 0 1 /\ (openers Demo.race_end !! 1%nat = Some (ODone true) -> 1 <= 1).
Proof.
  split; [apply Demo.race|].
  destruct (migrations_run_once migrations Demo.fresh Demo.race_end eq_refl Demo.race) as (Ha & _ & Hd).
  split; [exact Ha|]. intros Hp. by apply (Hd _ Hp).
Defined.

Lemma adopted_iff_witness :
  (exists v, checkDatabase no_faults migrations Demo.v020 = Ok v) <-> adoptable migrations Demo.v020.
Proof. apply (adopted_iff migrations Demo.v020). by repeat constructor. Defined.

Lemma migrate_is_atomic_witness :
  migrate no_faults (fun _ => no_tx_faults) migrations Demo.fresh = (Ok tt, Demo.migrated)
  /\ evolves migrations Demo.fresh [1] Demo.migrated.
Proof.
  split; [reflexivity|].
  destruct (migrate_is_atomic no_faults (fun _ => no_tx_faults) migrations Demo.fresh (Ok tt) Demo.migrated)
    as [He _]; [reflexivity|cbn; lia|reflexivity|exact He].
Defined.


(** ** Two databases that should be refused *)

(** A single column with a long name prints as the five of v0.2.0. *)
Example odd_column_is_adopted :
  let odd := Demo.MkDb 0 ["keys"]
    [MkColumn "created_at notnull, id pk, name notnull, revoked_at, secret_hash notnull" 0 0] in
  checkDatabase no_faults migrations odd = Ok 0
  /\ column_shape <$> sort_columns (table_info odd) <> v020_shape.
Proof. by vm_compute. Qed.

(** The checks ask for version 0 and for versions that are too new; a negative
    one, which another application may have set, skips both. *)
Theorem negative_version_is_migrated :
  migrate no_faults (fun _ => no_tx_faults) migrations (Demo.MkDb (-7) ["other"] [])
  = (Ok tt, Demo.MkDb 1 ["other"; "keys"] (Demo.db_columns Demo.migrated)).
Proof. reflexivity. Qed.
