(* ===== verification/Lifecycle.v ===== *)
(** * internal/conn/conn.go and pumps.go: the goroutines of a connection

    [Run]'s own goroutine, the two pumps, the [errc] channel between them, and
    what others do to a conn: [Send] asking for a close, [CloseFrame]'s timer,
    [CloseNow], and the request's context.  One step per channel operation or
    call on the socket.  The socket itself is coder/websocket: all that is used
    of it is that an operation fails when it starts after its context was
    cancelled or its TCP connection closed, that one under way fails in the end
    when either happens, and that writes and pings have deadlines. *)
From S2P Require Import Prelude.
From stdpp Require Import options.

(** ** State *)

(** [writePump]: in its select, in [Write] or [Ping] ([live] when the operation
    began on a live context and connection), about to return, and returned
    (its error is in [errc]). *)
Inductive wpc : Type :=
  | WSelect
  | WOp (live : bool)
  | WExit
  | WGone.

(** [readPump]: in [Read], in [handle], about to return, and returned. *)
Inductive rpc : Type :=
  | RRead (live : bool)
  | RHandle
  | RExit
  | RGone.

(** [Run] after it has started the pumps. *)
Inductive mpc : Type :=
  | MSelect                 (* the select on errc and closeReq *)
  | MFirst                  (* one error received, before cancel *)
  | MSlow                   (* in CloseFrame with 1008 *)
  | MCancel                 (* before the cancel of the slow branch *)
  | MWait2                  (* two errors to receive *)
  | MWait1
  | MCloseNow               (* both received: ws.CloseNow *)
  | MCloseNet
  | MMark                   (* closed.Store(true) *)
  | MUnsub                  (* drop the subscriptions *)
  | MDefer                  (* the deferred calls *)
  | MDone.

(** What [Run] has done to the outside, in order. *)
Inductive effect : Type :=
  | EClose1008
  | ECancel
  | ECloseNow
  | ECloseNet
  | EMarkClosed
  | EUnsubscribe
  | ERemoveAndCount.

#[export] Instance wpc_eq_dec : EqDecision wpc.
Proof. solve_decision. Defined.
#[export] Instance rpc_eq_dec : EqDecision rpc.
Proof. solve_decision. Defined.
#[export] Instance mpc_eq_dec : EqDecision mpc.
Proof. solve_decision. Defined.

Record life : Type := MkLife {
  l_main : mpc;
  l_write : wpc;
  l_read : rpc;
  l_errc : nat;               (* errors waiting; the capacity is two *)
  l_slow : bool;              (* a token in closeReq *)
  l_cancelled : bool;         (* runCtx is done *)
  l_tcp : bool;               (* the TCP connection is open *)
  l_log : list effect;
}.

Definition errcCap : nat := 2.

Definition life_start : life := MkLife MSelect WSelect (RRead true) 0 false false true [].

Definition set_main (m : mpc) (s : life) : life :=
  MkLife m (l_write s) (l_read s) (l_errc s) (l_slow s) (l_cancelled s) (l_tcp s) (l_log s).
Definition set_write (p : wpc) (s : life) : life :=
  MkLife (l_main s) p (l_read s) (l_errc s) (l_slow s) (l_cancelled s) (l_tcp s) (l_log s).
Definition set_read (p : rpc) (s : life) : life :=
  MkLife (l_main s) (l_write s) p (l_errc s) (l_slow s) (l_cancelled s) (l_tcp s) (l_log s).
Definition set_errc (n : nat) (s : life) : life :=
  MkLife (l_main s) (l_write s) (l_read s) n (l_slow s) (l_cancelled s) (l_tcp s) (l_log s).
Definition set_slow (b : bool) (s : life) : life :=
  MkLife (l_main s) (l_write s) (l_read s) (l_errc s) b (l_cancelled s) (l_tcp s) (l_log s).
Definition cancel (s : life) : life :=
  MkLife (l_main s) (l_write s) (l_read s) (l_errc s) (l_slow s) true (l_tcp s) (l_log s).
Definition closeNetConn (s : life) : life :=
  MkLife (l_main s) (l_write s) (l_read s) (l_errc s) (l_slow s) (l_cancelled s) false (l_log s).
Definition did (e : effect) (s : life) : life :=
  MkLife (l_main s) (l_write s) (l_read s) (l_errc s) (l_slow s) (l_cancelled s) (l_tcp s)
    (l_log s ++ [e]).

(** [Drain]'s forced close. *)
Definition CloseNow (s : life) : life := closeNetConn (cancel s).

(** An operation that starts now may succeed. *)
Definition alive (s : life) : bool := negb (l_cancelled s) && l_tcp s.

(** ** Steps *)

(** Whose turn it is.  The first four are taken whenever they stay possible;
    the last is what the peer, the network and other goroutines may do. *)
Inductive actor : Type :=
  | AMain
  | AWrite
  | ARead
  | ATimer
  | AEnv.

Inductive life_step : actor -> life -> life -> Prop :=
  (** [writePump] *)
  | ls_w_done s :
      l_write s = WSelect -> l_cancelled s = true -> life_step AWrite s (set_write WExit s)
  | ls_w_send s :                          (* a message, or the ping ticker *)
      l_write s = WSelect -> life_step AEnv s (set_write (WOp (alive s)) s)
  | ls_w_ok s :
      l_write s = WOp true -> life_step AEnv s (set_write WSelect s)
  | ls_w_fail live s :
      l_write s = WOp live -> life_step AWrite s (set_write WExit s)
  | ls_w_return s :
      l_write s = WExit -> l_errc s < errcCap ->
      life_step AWrite s (set_errc (S (l_errc s)) (set_write WGone s))
  (** [readPump] *)
  | ls_r_frame s :
      l_read s = RRead true -> life_step AEnv s (set_read RHandle s)
  | ls_r_handled s :
      l_read s = RHandle -> life_step ARead s (set_read (RRead (alive s)) s)
  | ls_r_fail live s :
      l_read s = RRead live -> alive s = false -> life_step ARead s (set_read RExit s)
  | ls_r_peer live s :                     (* the peer closes, a frame is too large *)
      l_read s = RRead live -> life_step AEnv s (set_read RExit s)
  | ls_r_return s :
      l_read s = RExit -> l_errc s < errcCap ->
      life_step ARead s (set_errc (S (l_errc s)) (set_read RGone s))
  (** [Run] *)
  | ls_first n s :
      l_main s = MSelect -> l_errc s = S n -> life_step AMain s (set_errc n (set_main MFirst s))
  | ls_first_cancel s :
      l_main s = MFirst -> life_step AMain s (did ECancel (cancel (set_main MWait1 s)))
  | ls_slow s :
      l_main s = MSelect -> l_slow s = true ->
      life_step AMain s (did EClose1008 (set_slow false (set_main MSlow s)))
  | ls_handshake s :                       (* ws.Close: the peer answered *)
      l_main s = MSlow -> life_step AEnv s (set_main MCancel s)
  | ls_handshake_cut s :
      l_main s = MSlow -> l_tcp s = false -> life_step AMain s (set_main MCancel s)
  | ls_timer s :                           (* closeHandshakeTimeout *)
      l_main s = MSlow -> l_tcp s = true -> life_step ATimer s (closeNetConn s)
  | ls_slow_cancel s :
      l_main s = MCancel -> life_step AMain s (did ECancel (cancel (set_main MWait2 s)))
  | ls_wait2 n s :
      l_main s = MWait2 -> l_errc s = S n -> life_step AMain s (set_errc n (set_main MWait1 s))
  | ls_wait1 n s :
      l_main s = MWait1 -> l_errc s = S n -> life_step AMain s (set_errc n (set_main MCloseNow s))
  | ls_close_now s :
      l_main s = MCloseNow -> life_step AMain s (did ECloseNow (set_main MCloseNet s))
  | ls_close_net s :
      l_main s = MCloseNet -> life_step AMain s (did ECloseNet (closeNetConn (set_main MMark s)))
  | ls_mark s :
      l_main s = MMark -> life_step AMain s (did EMarkClosed (set_main MUnsub s))
  | ls_unsub s :
      l_main s = MUnsub -> life_step AMain s (did EUnsubscribe (set_main MDefer s))
  | ls_defer s :
      l_main s = MDefer -> life_step AMain s (did ERemoveAndCount (set_main MDone s))
  (** Others: [Send] on a full buffer, the request's context, [CloseFrame]'s
      timer in another goroutine, [Drain]'s [CloseNow]. *)
  | ls_signal s : life_step AEnv s (set_slow true s)
  | ls_cancel s : life_step AEnv s (cancel s)
  | ls_tcp s : life_step AEnv s (closeNetConn s)
  | ls_force s : life_step AEnv s (CloseNow s).

Definition life_any (s s' : life) : Prop := exists a, life_step a s s'.

(** ** What always holds *)

(** How many errors [Run] has received, and how many pumps have returned. *)
Definition received (m : mpc) : nat :=
  match m with
  | MSelect | MSlow | MCancel | MWait2 => 0
  | MFirst | MWait1 => 1
  | _ => 2
  end.

Definition returned (s : life) : nat :=
  (if decide (l_write s = WGone) then 1 else 0) + (if decide (l_read s = RGone) then 1 else 0).

(** Past the cancel. *)
Definition past_cancel (m : mpc) : bool :=
  match m with MSelect | MFirst | MSlow | MCancel => false | _ => true end.

(** What [Run] has done when it is at [m]: the branch it took, and how far. *)
Definition tail_log : list effect :=
  [ECloseNow; ECloseNet; EMarkClosed; EUnsubscribe; ERemoveAndCount].

Definition log_head (l : list effect) : Prop := l = [ECancel] \/ l = [EClose1008; ECancel].

Definition log_at (m : mpc) (log : list effect) : Prop :=
  match m with
  | MSelect | MFirst => log = []
  | MSlow | MCancel => log = [EClose1008]
  | MWait2 => log = [EClose1008; ECancel]
  | MWait1 | MCloseNow => log_head log
  | MCloseNet => exists l, log_head l /\ log = l ++ take 1 tail_log
  | MMark => exists l, log_head l /\ log = l ++ take 2 tail_log
  | MUnsub => exists l, log_head l /\ log = l ++ take 3 tail_log
  | MDefer => exists l, log_head l /\ log = l ++ take 4 tail_log
  | MDone => exists l, log_head l /\ log = l ++ tail_log
  end.

Record life_ok (s : life) : Prop := {
  lo_count : received (l_main s) + l_errc s = returned s;
  lo_cancel : past_cancel (l_main s) = true -> l_cancelled s = true;
  lo_log : log_at (l_main s) (l_log s);
  lo_tcp : match l_main s with MMark | MUnsub | MDefer | MDone => l_tcp s = false | _ => True end;
}.

Lemma returned_two s : returned s <= 2.
Proof. unfold returned. repeat case_decide; lia. Qed.

(** [errc] never fills: a pump's return does not block. *)
Lemma errc_room s : life_ok s -> l_write s <> WGone \/ l_read s <> RGone -> l_errc s < errcCap.
Proof.
  intros [Hc _ _ _] Hp. unfold returned, errcCap in *. destruct Hp; repeat case_decide; try done; lia.
Qed.

Lemma life_ok_start : life_ok life_start.
Proof. by split. Qed.

Lemma log_at_step a s s' :
  life_step a s s' -> log_at (l_main s) (l_log s) -> log_at (l_main s') (l_log s').
Proof.
  destruct 1; destruct s as [m w r e sl c t lg]; cbn in *; subst; cbn; intros Hl; try done;
    try (by subst; (left + right)); try (by subst); try (by right);
    try (by exists lg); destruct Hl as (l & Hh & ->); exists l; (split; [done|]);
    by rewrite <- app_assoc.
Qed.

Lemma life_ok_step a s s' : life_ok s -> life_step a s s' -> life_ok s'.
Proof.
  intros [Hc Hx Hl Ht] Hs. pose proof (log_at_step _ _ _ Hs Hl) as Hl'. clear Hl.
  split; [..|exact Hl'|]; clear Hl'; destruct Hs; destruct s as [m w r e sl c t lg]; cbn in *; subst;
    cbn in *; try done; try (by destruct m; auto); unfold returned in *; cbn in *;
    repeat case_decide; try done; lia.
Qed.

Lemma life_ok_reach s : rtc life_any life_start s -> life_ok s.
Proof.
  apply (rtc_invariant life_any life_ok); [apply life_ok_start|].
  intros a b Ha [x Hx]. by eapply life_ok_step.
Qed.

(** ** Progress

    A measure no step increases, and for every state that is ending a goroutine
    whose next step decreases it and stays possible until it is taken. *)

Definition main_rank (m : mpc) : nat :=
  match m with
  | MSelect => 11 | MFirst | MSlow => 9 | MCancel => 8 | MWait2 => 7 | MWait1 => 6
  | MCloseNow => 5 | MCloseNet => 4 | MMark => 3 | MUnsub => 2 | MDefer => 1 | MDone => 0
  end.

Definition write_rank (w : wpc) (cancelled : bool) : nat :=
  match w with
  | WGone => 0
  | WExit => 1
  | WOp live => if cancelled then (if live then 4 else 2) else 5
  | WSelect => if cancelled then 3 else 5
  end.

Definition read_rank (r : rpc) (up : bool) : nat :=
  match r with
  | RGone => 0
  | RExit => 1
  | RRead live => if up then 5 else if live then 4 else 2
  | RHandle => if up then 5 else 3
  end.

Definition wait_rank (m : mpc) (slow : bool) : nat :=
  match m with MSelect => if slow then 0 else 1 | _ => 0 end.

Definition rank (s : life) : nat :=
  main_rank (l_main s) + write_rank (l_write s) (l_cancelled s) + read_rank (l_read s) (alive s)
  + (if l_tcp s then 1 else 0) + wait_rank (l_main s) (l_slow s).

(** Something has happened that must end the connection. *)
Definition ending (s : life) : bool :=
  negb (alive s) || l_slow s || bool_decide (l_main s <> MSelect) || (0 <? l_errc s)
  || bool_decide (l_write s = WExit) || bool_decide (l_read s = RExit).

(** Who is to move. *)
Definition helpful (s : life) : actor :=
  match l_main s with
  | MSlow => if l_tcp s then ATimer else AMain
  | MSelect =>
      if (0 <? l_errc s) || l_slow s then AMain
      else if bool_decide (l_write s = WExit) then AWrite
      else if bool_decide (l_read s = RExit) then ARead
      else if l_cancelled s then AWrite else ARead
  | MWait2 | MWait1 =>
      if 0 <? l_errc s then AMain else if bool_decide (l_write s = WGone) then ARead else AWrite
  | _ => AMain
  end.

(** A cancel or a closed connection lowers what the pumps can still do. *)
Lemma write_rank_cancel w : write_rank w true <= write_rank w false.
Proof. destruct w as [|[]| |]; cbn; lia. Qed.

Lemma read_rank_dead r : read_rank r false <= read_rank r true.
Proof. destruct r as [[]| | |]; cbn; lia. Qed.

Lemma wait_rank_slow m : wait_rank m true <= wait_rank m false.
Proof. destruct m; cbn; lia. Qed.

Ltac life_cases :=
  match goal with H : life_step _ _ _ |- _ => destruct H end;
  match goal with st : life |- _ => destruct st as [m w r e [] [] [] lg]; cbn in *; subst; cbn end;
  try match goal with live : bool |- _ => destruct live end.

Lemma rank_le a s s' : life_step a s s' -> rank s' <= rank s.
Proof.
  intros Hs. unfold rank, alive. life_cases;
    try pose proof (write_rank_cancel w); try pose proof (read_rank_dead r);
    try pose proof (wait_rank_slow m); lia.
Qed.

Lemma ending_stays a s s' : life_step a s s' -> ending s = true -> ending s' = true.
Proof. intros Hs. unfold ending, alive. life_cases; rewrite ?orb_true_r; try done. Qed.

(** A pump that has begun to return, or that must, can move. *)
Lemma write_moves s :
  l_errc s < errcCap -> l_write s = WExit \/ (l_cancelled s = true /\ l_write s <> WGone) ->
  exists s', life_step AWrite s s'.
Proof.
  intros He Hw. destruct (l_write s) eqn:Hl.
  - destruct Hw as [|[Hc _]]; [done|]. eexists. by apply ls_w_done.
  - eexists. by eapply ls_w_fail.
  - eexists. by apply ls_w_return.
  - by destruct Hw as [|[_ ?]].
Qed.

Lemma read_moves s :
  l_errc s < errcCap -> l_read s = RExit \/ (alive s = false /\ l_read s <> RGone) ->
  exists s', life_step ARead s s'.
Proof.
  intros He Hr. destruct (l_read s) eqn:Hl.
  - destruct Hr as [|[Hc _]]; [done|]. eexists. by eapply ls_r_fail.
  - eexists. by apply ls_r_handled.
  - eexists. by apply ls_r_return.
  - by destruct Hr as [|[_ ?]].
Qed.

(** [Run] waits for a pump that has not returned. *)
Lemma wait_moves s :
  life_ok s -> l_cancelled s = true -> l_errc s = 0 -> received (l_main s) < 2 ->
  exists s', life_step (if bool_decide (l_write s = WGone) then ARead else AWrite) s s'.
Proof.
  intros Hok Hx He Hr. pose proof (lo_count _ Hok) as Hc. unfold returned in Hc.
  case_bool_decide as Hw; repeat case_decide; try done; try lia.
  - apply read_moves; [unfold errcCap; lia|right]. split; [|done]. unfold alive. by rewrite Hx.
  - apply write_moves; [unfold errcCap; lia|by right].
  - apply write_moves; [unfold errcCap; lia|by right].
Qed.

Lemma select_moves s :
  life_ok s -> ending s = true -> l_main s = MSelect -> exists s', life_step (helpful s) s s'.
Proof.
  intros Hok He Hm. pose proof (lo_count _ Hok) as Hc. unfold helpful. rewrite Hm in *. cbn in Hc.
  destruct (l_errc s) as [|n] eqn:Herr; [|eexists; by apply ls_first].
  assert (l_write s <> WGone /\ l_read s <> RGone) as [Hw Hr].
  { unfold returned in Hc. repeat case_decide; try lia. done. }
  assert (l_errc s < errcCap) as Hroom by (rewrite Herr; unfold errcCap; lia).
  cbn. destruct (l_slow s) eqn:Hs; [eexists; by apply ls_slow|].
  case_bool_decide as Hwx; [by apply write_moves; auto|].
  case_bool_decide as Hrx; [by apply read_moves; auto|].
  destruct (l_cancelled s) eqn:Hcan; [apply write_moves; auto|].
  apply read_moves; [done|right]. split; [|done]. unfold ending in He.
  rewrite Hm, Herr, Hs, !bool_decide_eq_false_2 in He by (done || by intros []).
  by rewrite !orb_false_r, negb_true_iff in He.
Qed.

Lemma helpful_enabled s :
  life_ok s -> ending s = true -> l_main s <> MDone -> exists s', life_step (helpful s) s s'.
Proof.
  intros Hok He Hm. destruct (l_main s) eqn:Hl; try done; unfold helpful; rewrite Hl;
    try (eexists; constructor; by rewrite ?Hl).
  - pose proof (select_moves s Hok He Hl) as Hs. unfold helpful in Hs. by rewrite Hl in Hs.
  - destruct (l_tcp s) eqn:Ht; eexists; [by apply ls_timer|by apply ls_handshake_cut].
  - destruct (l_errc s) eqn:Herr; [|eexists; by apply ls_wait2]. cbn.
    apply wait_moves; [done| |done|by rewrite Hl; cbn; lia]. apply (lo_cancel _ Hok). by rewrite Hl.
  - destruct (l_errc s) eqn:Herr; [|eexists; by apply ls_wait1]. cbn.
    apply wait_moves; [done| |done|by rewrite Hl; cbn; lia]. apply (lo_cancel _ Hok). by rewrite Hl.
Qed.

Lemma step_lowers a s s' :
  life_step a s s' -> a <> AEnv -> (a = ARead -> alive s = false \/ l_read s = RExit) ->
  rank s' < rank s.
Proof.
  intros Hs Ha Hr. unfold rank, alive in *. life_cases; try done;
    try pose proof (write_rank_cancel w); try pose proof (read_rank_dead r);
    try lia; destruct (Hr eq_refl); done.
Qed.

Lemma helpful_read s :
  life_ok s -> ending s = true -> helpful s = ARead -> alive s = false \/ l_read s = RExit.
Proof.
  intros Hok He. unfold helpful. destruct (l_main s) eqn:Hm; try done.
  - destruct (l_errc s) eqn:Herr; [|done]. cbn. destruct (l_slow s) eqn:Hs; [done|].
    case_bool_decide; [done|]. case_bool_decide; [by right|]. destruct (l_cancelled s) eqn:Hc; [done|].
    left. unfold ending in He.
    rewrite Hm, Herr, Hs, !bool_decide_eq_false_2 in He by (done || by intros []).
    by rewrite !orb_false_r, negb_true_iff in He.
  - by destruct (l_tcp s).
  - intros _. left. unfold alive. by rewrite (lo_cancel _ Hok) by by rewrite Hm.
  - intros _. left. unfold alive. by rewrite (lo_cancel _ Hok) by by rewrite Hm.
Qed.

Lemma helpful_lowers s s' :
  life_ok s -> ending s = true -> life_step (helpful s) s s' -> rank s' < rank s.
Proof.
  intros Hok He Hs. eapply step_lowers; [done| |by apply helpful_read].
  unfold helpful. repeat case_match; done.
Qed.

(** A step that leaves the rank alone leaves the turn alone. *)
Lemma helpful_stays a s s' :
  life_ok s -> ending s = true -> life_step a s s' -> rank s' = rank s -> helpful s' = helpful s.
Proof.
  intros Hok He Hs Hr. pose proof (lo_count _ Hok) as Hc. clear Hok. unfold returned in Hc.
  revert Hr He. unfold rank, helpful, ending, alive. life_cases; intros Hr He; try reflexivity; try lia;
    try pose proof (write_rank_cancel w); try pose proof (read_rank_dead r);
    try pose proof (wait_rank_slow m); try (exfalso; lia);
    (destruct m; try done; try (exfalso; cbn in Hr; lia));
    (destruct w as [|[]| |]; cbn in *; try (exfalso; lia); try done);
    (destruct e; cbn in *; try done; repeat case_decide; try (exfalso; lia); try done);
    destruct r as [[]| | |]; cbn in *; try (exfalso; lia); done.
Qed.

(** ** Fair runs *)

(** A schedule: at each moment somebody moves, or nobody does; and a goroutine
    that stays able to move does, in the end. *)
Definition can (a : actor) (s : life) : Prop := exists s', life_step a s s'.

Record fair_run (run : nat -> life) : Prop := {
  fr_start : run 0 = life_start;
  fr_step n : run (S n) = run n \/ life_any (run n) (run (S n));
  fr_fair a n : a <> AEnv ->
    exists k, n <= k /\ (~ can a (run k) \/ life_step a (run k) (run (S k)));
}.

Section Fair.
Context (run : nat -> life) (Hfair : fair_run run).

Lemma run_reach n : rtc life_any life_start (run n).
Proof using All.
  induction n as [|n IH]; [by rewrite (fr_start _ Hfair)|].
  destruct (fr_step _ Hfair n) as [->|Hs]; [done|]. by eapply rtc_r.
Qed.

Lemma run_ok n : life_ok (run n).
Proof using All. apply life_ok_reach, run_reach. Qed.

Lemma run_later n k : n <= k ->
  rank (run k) <= rank (run n) /\ (ending (run n) = true -> ending (run k) = true)
  /\ (ending (run n) = true -> rank (run k) = rank (run n) -> helpful (run k) = helpful (run n)).
Proof using All.
  induction 1 as [|k Hk (Hr & He & Hh)]; [done|].
  destruct (fr_step _ Hfair k) as [->|[a Hs]]; [done|]. pose proof (rank_le _ _ _ Hs) as Hle.
  split_and!; [lia|intros Hn; eapply ending_stays; eauto|]. intros Hn Heq.
  rewrite (helpful_stays a (run k)); [apply Hh; [done|lia]|apply run_ok|auto|done|lia].
Qed.

Lemma helpful_not_env s : helpful s <> AEnv.
Proof using Type. unfold helpful. repeat case_match; done. Qed.

Lemma run_lowers n :
  ending (run n) = true ->
  exists k, n <= k /\ (l_main (run k) = MDone \/ rank (run k) < rank (run n)).
Proof using All.
  intros He. destruct (fr_fair _ Hfair (helpful (run n)) n (helpful_not_env _)) as (k & Hk & Hfk).
  destruct (run_later n k Hk) as (Hr & He' & Hh).
  destruct (decide (l_main (run k) = MDone)) as [|Hm]; [exists k; auto|].
  destruct (decide (rank (run k) = rank (run n))) as [Heq|]; [|exists k; split; [done|right; lia]].
  rewrite <- Hh in Hfk by done. destruct Hfk as [Hn|Hs].
  - destruct Hn. apply helpful_enabled; auto using run_ok.
  - exists (S k). split; [lia|right]. apply helpful_lowers in Hs; auto using run_ok. lia.
Qed.

(** C18. Run returns. From the moment something ends a connection (a pump error,
    a slow consumer, a cancelled context, a closed socket), Run reaches its end
    in every fair schedule of its goroutine, the two pumps and the close timer,
    whatever the peer and other goroutines do, and in particular if the peer
    never answers the close handshake. *)
Theorem run_returns n :
  ending (run n) = true -> exists k, n <= k /\ l_main (run k) = MDone.
Proof using All.
  remember (rank (run n)) as r eqn:Hr. revert n Hr.
  induction r as [r IH] using lt_wf_ind. intros n Hr He.
  destruct (run_lowers n He) as (k & Hk & [Hd|Hlt]); [by exists k|].
  destruct (IH (rank (run k)) ltac:(lia) k eq_refl) as (k' & Hk' & Hd).
  { by apply (run_later n k Hk). }
  exists k'. split; [lia|done].
Qed.
End Fair.

(** ** When Run tears down *)

Lemma log_marked m log :
  log_at m log -> In EMarkClosed log -> m = MUnsub \/ m = MDefer \/ m = MDone.
Proof.
  destruct m; cbn; unfold log_head; intros Hl Hin; auto; exfalso; decompose [ex or and] Hl; subst;
    cbn in Hin; intuition congruence.
Qed.

(** C19. Teardown runs alone and once. When Run marks the conn closed and drops
    its subscriptions, both pumps have returned and the socket is released, so
    no handler of this conn runs any more; and what Run has done is, in order,
    the 1008 close on the slow path only, the cancel, CloseNow, the TCP close,
    the mark, the unsubscribes and the deferred removal, each once. *)
Theorem teardown_is_alone s :
  rtc life_any life_start s -> In EMarkClosed (l_log s) ->
  l_write s = WGone /\ l_read s = RGone /\ l_errc s = 0 /\ l_cancelled s = true /\ l_tcp s = false
  /\ (l_main s = MDone -> l_log s = [ECancel] ++ tail_log \/ l_log s = [EClose1008; ECancel] ++ tail_log).
Proof.
  intros Hr Hin. destruct (life_ok_reach s Hr) as [Hc Hx Hl Ht].
  pose proof (log_marked _ _ Hl Hin) as Hm.
  assert (received (l_main s) = 2) as H2 by (by destruct Hm as [->|[->| ->]]).
  rewrite H2 in Hc. unfold returned in Hc. repeat case_decide; try lia. split_and!; try done.
  - lia.
  - by apply Hx; destruct Hm as [->|[->| ->]].
  - by destruct Hm as [Hm|[Hm|Hm]]; rewrite Hm in Ht.
  - intros Hd. rewrite Hd in Hl. destruct Hl as (l & [->| ->] & ->); auto.
Qed.

(** ** A schedule *)

(** A slow consumer whose peer never answers: the timer cuts the handshake. *)
Definition demo_life (n : nat) : life :=
  let base m w r e c t log := MkLife m w r e false c t log in
  match n with
  | 0 => life_start
  | 1 => set_slow true life_start
  | 2 => base MSlow WSelect (RRead true) 0 false true [EClose1008]
  | 3 => base MSlow WSelect (RRead true) 0 false false [EClose1008]
  | 4 => base MCancel WSelect (RRead true) 0 false false [EClose1008]
  | 5 => base MWait2 WSelect (RRead true) 0 true false [EClose1008; ECancel]
  | 6 => base MWait2 WExit (RRead true) 0 true false [EClose1008; ECancel]
  | 7 => base MWait2 WGone (RRead true) 1 true false [EClose1008; ECancel]
  | 8 => base MWait2 WGone RExit 1 true false [EClose1008; ECancel]
  | 9 => base MWait2 WGone RGone 2 true false [EClose1008; ECancel]
  | 10 => base MWait1 WGone RGone 1 true false [EClose1008; ECancel]
  | 11 => base MCloseNow WGone RGone 0 true false [EClose1008; ECancel]
  | 12 => base MCloseNet WGone RGone 0 true false ([EClose1008; ECancel] ++ take 1 tail_log)
  | 13 => base MMark WGone RGone 0 true false ([EClose1008; ECancel] ++ take 2 tail_log)
  | 14 => base MUnsub WGone RGone 0 true false ([EClose1008; ECancel] ++ take 3 tail_log)
  | 15 => base MDefer WGone RGone 0 true false ([EClose1008; ECancel] ++ take 4 tail_log)
  | _ => base MDone WGone RGone 0 true false ([EClose1008; ECancel] ++ tail_log)
  end.

Lemma demo_life_step n : demo_life (S n) = demo_life n \/ life_any (demo_life n) (demo_life (S n)).
Proof.
  do 16 (destruct n as [|n]; [right; unfold life_any; cbn; eexists; solve
    [by apply ls_signal | by apply ls_slow | by apply ls_timer | by apply ls_handshake_cut
    |by apply ls_slow_cancel | by apply ls_w_done | apply ls_w_return; [done|cbn; unfold errcCap; lia]
    |by eapply ls_r_fail | apply ls_r_return; [done|cbn; unfold errcCap; lia] | by eapply ls_wait2 | by eapply ls_wait1
    |by apply ls_close_now | by apply ls_close_net | by apply ls_mark | by apply ls_unsub
    |by apply ls_defer]|]).
  by left.
Qed.

Lemma demo_life_fair : fair_run demo_life.
Proof.
  split; [done|apply demo_life_step|]. intros a n Ha. exists (16 + n). split; [lia|left].
  intros [s' Hs]. inversion Hs; subst; cbn in *; done.
Qed.

Lemma run_returns_witness : exists k, 1 <= k /\ l_main (demo_life k) = MDone.
Proof. apply (run_returns demo_life demo_life_fair 1). reflexivity. Defined.

Lemma teardown_is_alone_witness :
  l_write (demo_life 16) = WGone /\ l_read (demo_life 16) = RGone /\ l_errc (demo_life 16) = 0.
Proof.
  destruct (teardown_is_alone (demo_life 16)) as (? & ? & ? & _);
    [apply (run_reach demo_life demo_life_fair)|cbn; tauto|by split_and!].
Defined.
