(* ===== verification/Flags.v ===== *)
(** * cmd/wirefan/main.go: the command line

    [flag.FlagSet.Parse], as far as string and boolean flags go, and
    [parseFlags] on top of it. *)
From S2P Require Import Prelude GoStd Utf8.
From stdpp Require Import options.

(** ** package flag *)

Inductive flag_val : Type :=
  | VStr (s : string)
  | VBool (b : bool).

Inductive flag_err : Type :=
  | ErrHelp
  | BadSyntax (arg : string)
  | NotDefined (name : string)
  | NeedsArgument (name : string)
  | InvalidBool (value name : string).

#[export] Instance flag_err_eq_dec : EqDecision flag_err.
Proof. solve_decision. Defined.

(** The defined flags, with their current values. *)
Abbreviation FlagSet := (gmap string flag_val).

(** [strconv.ParseBool]. *)
Definition ParseBool (s : string) : option bool :=
  if decide (s ∈ ["1"; "t"; "T"; "TRUE"; "true"; "True"]) then Some true
  else if decide (s ∈ ["0"; "f"; "F"; "FALSE"; "false"; "False"]) then Some false else None.

(** What one argument is: not a flag, the terminator, ill-formed, or a flag
    with the value after its equals sign. *)
Inductive arg_kind : Type :=
  | ArgStop
  | ArgTerm
  | ArgBad
  | ArgFlag (name : string) (value : option string).

Definition flag_name (s : string) : arg_kind :=
  match s with
  | EmptyString => ArgBad
  | String c _ =>
      if decide (c = "-"%char \/ c = "="%char) then ArgBad else
      match Cut "=" s with
      | Some (n, v) => ArgFlag n (Some v)
      | None => ArgFlag s None
      end
  end.

Definition classify (arg : string) : arg_kind :=
  match arg with
  | String a (String b s) =>
      if decide (a <> "-"%char) then ArgStop
      else if decide (b = "-"%char) then (if decide (s = "") then ArgTerm else flag_name s)
      else flag_name (String b s)
  | _ => ArgStop
  end.

(** [parseOne] in a loop; what is left after the flags is kept in [Args]. *)
Fixpoint Parse (args : list string) (fs : FlagSet) : res flag_err (FlagSet * list string) :=
  match args with
  | [] => Ok (fs, [])
  | arg :: rest =>
      match classify arg with
      | ArgStop => Ok (fs, args)
      | ArgTerm => Ok (fs, rest)
      | ArgBad => Err (BadSyntax arg)
      | ArgFlag name value =>
          match fs !! name with
          | None => Err (if decide (name = "help" \/ name = "h") then ErrHelp else NotDefined name)
          | Some (VBool _) =>
              match value with
              | None => Parse rest (<[name := VBool true]> fs)
              | Some v =>
                  match ParseBool v with
                  | Some b => Parse rest (<[name := VBool b]> fs)
                  | None => Err (InvalidBool v name)
                  end
              end
          | Some (VStr _) =>
              match value, rest with
              | Some v, _ => Parse rest (<[name := VStr v]> fs)
              | None, v :: rest' => Parse rest' (<[name := VStr v]> fs)
              | None, [] => Err (NeedsArgument name)
              end
          end
      end
  end.

Definition fstr (name : string) (fs : FlagSet) : string :=
  match fs !! name with Some (VStr s) => s | _ => "" end.
Definition fbool (name : string) (fs : FlagSet) : bool :=
  match fs !! name with Some (VBool b) => b | _ => false end.

(** ** parseFlags *)

(** server.Config and the process configuration. *)
Record srvConfig : Type := MkSrv {
  Addr : string;
  AdminAddr : string;
  AllowedOrigins : list string;
}.

Record appConfig : Type := MkApp {
  srv : srvConfig;
  store : string;
  dbPath : string;
  registry : string;
  fanout : string;
  showVersion : bool;
}.

#[export] Instance srvConfig_eq_dec : EqDecision srvConfig.
Proof. solve_decision. Defined.
#[export] Instance appConfig_eq_dec : EqDecision appConfig.
Proof. solve_decision. Defined.

Inductive config_err : Type :=
  | CFlag (e : flag_err)
  | CStore
  | CRegistry
  | CFanout
  | COriginsRequired
  | COriginsEmpty
  | CStarNeedsDev.

#[export] Instance config_err_eq_dec : EqDecision config_err.
Proof. solve_decision. Defined.

(** The flags [parseFlags] defines, with their defaults. *)
Definition wirefan_flags : FlagSet :=
  list_to_map
    [("listen", VStr ":8080"); ("admin-addr", VStr "127.0.0.1:6060"); ("allowed-origins", VStr "");
     ("dev", VBool false); ("store", VStr "sqlite"); ("db-path", VStr "");
     ("registry", VStr "sync-map"); ("fanout", VStr "per-conn"); ("version", VBool false)].

Definition version_config : appConfig := MkApp (MkSrv "" "" []) "" "" "" "" true.

(** The trimmed parts of the origin list that are not empty. *)
Definition clean_origins (origins : string) : list string :=
  filter (fun p => p <> "") (TrimSpace <$> Split "," origins).

Definition parseFlags (args : list string) : res config_err appConfig :=
  match Parse args wirefan_flags with
  | Err e => Err (CFlag e)
  | Ok (fs, _) =>
      if fbool "version" fs then Ok version_config else
      let storeKind := fstr "store" fs in
      let registryKind := fstr "registry" fs in
      let fanoutKind := fstr "fanout" fs in
      let origins := fstr "allowed-origins" fs in
      if decide (storeKind <> "sqlite" /\ storeKind <> "memory") then Err CStore
      else if decide (registryKind <> "sync-map" /\ registryKind <> "sharded") then Err CRegistry
      else if decide (fanoutKind <> "per-conn" /\ fanoutKind <> "sharded") then Err CFanout
      else if decide (origins = "") then Err COriginsRequired else
      let cleaned := clean_origins origins in
      if decide (cleaned = []) then Err COriginsEmpty
      else if negb (fbool "dev" fs) && bool_decide ("*" ∈ cleaned) then Err CStarNeedsDev
      else Ok (MkApp (MkSrv (fstr "listen" fs) (fstr "admin-addr" fs) cleaned)
                 storeKind (fstr "db-path" fs) registryKind fanoutKind false)
  end.

(** ** Facts *)

(** What [TrimSpace] leaves was there. *)
Lemma units_string_elem c us :
  string_elem c (units_string us) = existsb (fun u => string_elem c u.2) us.
Proof.
  induction us as [|u us IH]; [done|]. change (units_string (u :: us)) with (u.2 +:+ units_string us).
  by rewrite string_elem_app, IH.
Qed.

Lemma drop_space_incl us u : u ∈ drop_space us -> u ∈ us.
Proof.
  induction us as [|v us IH]; cbn; [done|]. case_match; [|done]. intros Hu. right. by apply IH.
Qed.

Lemma TrimSpace_elem c s : string_elem c s = false -> string_elem c (TrimSpace s) = false.
Proof.
  intros Hs. apply not_true_is_false. unfold TrimSpace. rewrite units_string_elem.
  intros (u & Hu & Hc)%existsb_exists. apply not_true_iff_false in Hs. apply Hs.
  rewrite <- (utf8_units_concat s). change (string_elem c (units_string (utf8_units s)) = true).
  rewrite units_string_elem. apply existsb_exists. exists u. split; [|done].
  apply list_elem_of_In in Hu. apply list_elem_of_In.
  apply elem_of_reverse, drop_space_incl, elem_of_reverse, drop_space_incl in Hu. done.
Qed.

(** *** What a command line spells

    The flags of a command line, in order, each with its value if it has one:
    the value after the equals sign, or, for a flag that is not boolean, the
    next argument.  The first argument that is no flag ends them.  A flag's last
    setting counts; a boolean one without a value is on. *)
Definition is_switch (name : string) : bool := bool_decide (name ∈ ["dev"; "version"]).

Fixpoint settings (args : list string) : list (string * option string) :=
  match args with
  | [] => []
  | arg :: rest =>
      match classify arg with
      | ArgFlag name (Some v) => (name, Some v) :: settings rest
      | ArgFlag name None =>
          if is_switch name then (name, None) :: settings rest
          else match rest with v :: rest' => (name, Some v) :: settings rest' | [] => [] end
      | _ => []
      end
  end.

(** The last setting of a flag, [before] without one. *)
Definition last_of (name : string) (before : option (option string)) (l : list (string * option string))
    : option (option string) :=
  foldl (fun r s => if decide (s.1 = name) then Some s.2 else r) before l.

Definition str_after (o : option (option string)) (before : string) : string :=
  match o with None => before | Some v => default "" v end.
Definition bool_after (o : option (option string)) (before : bool) : bool :=
  match o with
  | None => before
  | Some None => true
  | Some (Some v) => bool_decide (ParseBool v = Some true)
  end.

Definition spelled (name default_value : string) (args : list string) : string :=
  str_after (last_of name None (settings args)) default_value.
Definition switched_on (name : string) (args : list string) : bool :=
  bool_after (last_of name None (settings args)) false.

(** [Parse] keeps exactly that: flags keep their kinds, and a flag's value is
    its last setting's, or the one before. *)
Definition kinds_ok (fs : FlagSet) : Prop :=
  forall name v, fs !! name = Some v -> if is_switch name then exists b, v = VBool b else exists s, v = VStr s.

Lemma last_of_some name o l :
  last_of name o l = match last_of name None l with Some v => Some v | None => o end.
Proof.
  unfold last_of. revert o. induction l as [|s l IH]; intros o; cbn; [done|].
  rewrite IH, (IH (if decide _ then _ else None)). by case_decide; destruct (foldl _ None l).
Qed.

Lemma kinds_insert name v fs :
  kinds_ok fs -> (if is_switch name then exists b, v = VBool b else exists s, v = VStr s) ->
  kinds_ok (<[name := v]> fs).
Proof. intros Hk Hv n w [[<- <-]|[_ Hn]]%lookup_insert_Some; [done|by apply Hk]. Qed.

(** One setting on the way. *)
Lemma after_cons name n v l :
  last_of name None ((n, v) :: l)
  = match last_of name None l with Some w => Some w | None => if decide (n = name) then Some v else None end.
Proof. unfold last_of. cbn. apply last_of_some. Qed.

Lemma Parse_settings args : forall fs fs' rest,
  kinds_ok fs -> Parse args fs = Ok (fs', rest) ->
  forall name,
    (is_switch name = false -> fstr name fs' = str_after (last_of name None (settings args)) (fstr name fs))
    /\ (is_switch name = true -> fbool name fs' = bool_after (last_of name None (settings args)) (fbool name fs)).
Proof.
  induction args as [args IH] using (induction_ltof1 _ length). unfold ltof in IH.
  intros fs fs' rest Hk HP name. destruct args as [|arg args]; cbn [Parse] in HP; [by simplify_eq|].
  cbn [settings]. destruct (classify arg) as [| | |n v] eqn:Hc; try (by simplify_eq).
  destruct (fs !! n) as [w|] eqn:Hn; [|done]. pose proof (Hk _ _ Hn) as Hw.
  assert (forall v args' w, (if is_switch n then exists b, w = VBool b else exists s, w = VStr s) ->
    length args' <= length args -> Parse args' (<[n := w]> fs) = Ok (fs', rest) ->
    (is_switch n = false -> exists s, v = Some s /\ w = VStr s) ->
    (is_switch n = true -> forall b, w = VBool (bool_after (Some v) b)) ->
    (is_switch name = false ->
       fstr name fs' = str_after (last_of name None ((n, v) :: settings args')) (fstr name fs))
    /\ (is_switch name = true ->
       fbool name fs' = bool_after (last_of name None ((n, v) :: settings args')) (fbool name fs))) as Hrec.
  { intros v' args' w' Hw' Hlen HP' Hs Hb.
    destruct (IH args' ltac:(cbn; lia) _ _ _ (kinds_insert _ _ _ Hk Hw') HP' name) as [H1 H2].
    rewrite after_cons. split; intros Hn'; [rewrite H1 by done|rewrite H2 by done];
      destruct (last_of name None (settings args')) as [o|]; try done;
      unfold fstr, fbool; rewrite lookup_insert; (case_decide as Heq; [subst n|done]).
    - destruct (Hs Hn') as (x & -> & ->). done.
    - by rewrite (Hb Hn' (fbool name fs)). }
  destruct w as [s|b].
  - destruct (is_switch n) eqn:Hsw; [by destruct Hw|].
    destruct v as [v|].
    + eapply Hrec; [by eexists|reflexivity|exact HP|by eexists|done].
    + destruct args as [|v args]; [done|]. eapply Hrec; [by eexists|cbn; lia|exact HP|by eexists|done].
  - destruct (is_switch n) eqn:Hsw; [|by destruct Hw].
    destruct v as [v|].
    + destruct (ParseBool v) as [x|] eqn:Hx; [|done].
      eapply Hrec; [by eexists|reflexivity|exact HP|done|].
      intros _ b'. cbn. rewrite Hx. by destruct x.
    + eapply Hrec; [by eexists|reflexivity|exact HP|done|done].
Qed.

Lemma wirefan_kinds : kinds_ok wirefan_flags.
Proof.
  unfold kinds_ok, wirefan_flags. intros name v Hl. apply elem_of_list_to_map_2 in Hl.
  repeat (apply elem_of_cons in Hl as [Hl|Hl]; [injection Hl as -> ->; by eexists|]). by apply elem_of_nil in Hl.
Qed.

(** The flags after [parseFlags] has read its arguments. *)
Lemma Parse_spelled args fs rest name d :
  Parse args wirefan_flags = Ok (fs, rest) -> wirefan_flags !! name = Some (VStr d) ->
  fstr name fs = spelled name d args.
Proof.
  intros HP Hd. pose proof (wirefan_kinds _ _ Hd) as Hk. destruct (is_switch name) eqn:Hs; [by destruct Hk|].
  rewrite (proj1 (Parse_settings _ _ _ _ wirefan_kinds HP name) Hs). unfold spelled, fstr. by rewrite Hd.
Qed.

Lemma Parse_switched args fs rest name :
  Parse args wirefan_flags = Ok (fs, rest) -> wirefan_flags !! name = Some (VBool false) ->
  fbool name fs = switched_on name args.
Proof.
  intros HP Hd. pose proof (wirefan_kinds _ _ Hd) as Hk. destruct (is_switch name) eqn:Hs; [|by destruct Hk].
  rewrite (proj2 (Parse_settings _ _ _ _ wirefan_kinds HP name) Hs). unfold switched_on, fbool. by rewrite Hd.
Qed.

Lemma one_of (s a b : string) : ~ (s <> a /\ s <> b) -> s = a \/ s = b.
Proof. intros Hn. destruct (decide (s = a)), (decide (s = b)); tauto. Qed.

(** The selections are among those the program knows. *)
Lemma parseFlags_kinds args cfg :
  parseFlags args = Ok cfg -> showVersion cfg = false ->
  (store cfg = "sqlite" \/ store cfg = "memory")
  /\ (registry cfg = "sync-map" \/ registry cfg = "sharded")
  /\ (fanout cfg = "per-conn" \/ fanout cfg = "sharded").
Proof.
  unfold parseFlags. destruct (Parse args wirefan_flags) as [[fs rest]|e]; [|done].
  destruct (fbool "version" fs); [intros [= <-]; done|].
  case_decide as H1; [done|]. case_decide as H2; [done|]. case_decide as H3; [done|].
  case_decide; [done|]. case_decide; [done|]. destruct (_ && _); [done|]. intros [= <-] _. cbn.
  split_and!; by apply one_of.
Qed.

(** What the flags spell. *)
Definition spelled_config (args : list string) : appConfig :=
  MkApp (MkSrv (spelled "listen" ":8080" args) (spelled "admin-addr" "127.0.0.1:6060" args)
          (clean_origins (spelled "allowed-origins" "" args)))
    (spelled "store" "sqlite" args) (spelled "db-path" "" args)
    (spelled "registry" "sync-map" args) (spelled "fanout" "per-conn" args) false.

(** C33. What parseFlags returns is what the command line spells, and well-
    formed. With --version on, it is the version request. Otherwise every
    setting is that of the flag's last occurrence, or its default; the store,
    registry and fan-out are among the known ones; there is at least one allowed
    origin, none is empty or holds a comma; and a star is among them only if dev
    is on in the end: its last occurrence as a flag (not as the value of
    another, and not after the arguments' end) has no value or a true one. *)
Theorem parseFlags_sound args cfg :
  parseFlags args = Ok cfg ->
  if switched_on "version" args then cfg = version_config else
  cfg = spelled_config args
  /\ (store cfg = "sqlite" \/ store cfg = "memory")
  /\ (registry cfg = "sync-map" \/ registry cfg = "sharded")
  /\ (fanout cfg = "per-conn" \/ fanout cfg = "sharded")
  /\ AllowedOrigins (srv cfg) <> []
  /\ Forall (fun o => o <> "" /\ string_elem "," o = false) (AllowedOrigins (srv cfg))
  /\ ("*" ∈ AllowedOrigins (srv cfg) -> switched_on "dev" args = true).
Proof.
  intros Hp. destruct (switched_on "version" args) eqn:Hver.
  - revert Hp. unfold parseFlags. destruct (Parse args wirefan_flags) as [[fs rest]|e] eqn:HP; [|done].
    rewrite (Parse_switched _ _ _ "version" HP), Hver by done. congruence.
  - assert (showVersion cfg = false) as Hv.
    { revert Hp. unfold parseFlags. destruct (Parse args wirefan_flags) as [[fs rest]|e] eqn:HP; [|done].
      rewrite (Parse_switched _ _ _ "version" HP), Hver by done.
      repeat (case_decide; [done|]). destruct (_ && _); [done|]. by intros [= <-]. }
    pose proof (parseFlags_kinds _ _ Hp Hv) as (? & ? & ?). revert Hp. unfold parseFlags.
    destruct (Parse args wirefan_flags) as [[fs rest]|e] eqn:HP; [|done].
    rewrite (Parse_switched _ _ _ "version" HP), Hver by done.
    rewrite (Parse_switched _ _ _ "dev" HP) by done.
    rewrite (Parse_spelled _ _ _ "allowed-origins" "" HP), (Parse_spelled _ _ _ "listen" ":8080" HP),
      (Parse_spelled _ _ _ "admin-addr" "127.0.0.1:6060" HP), (Parse_spelled _ _ _ "store" "sqlite" HP),
      (Parse_spelled _ _ _ "db-path" "" HP), (Parse_spelled _ _ _ "registry" "sync-map" HP),
      (Parse_spelled _ _ _ "fanout" "per-conn" HP) by done.
    do 3 (case_decide; [done|]); (case_decide; [done|]); (case_decide as Hne; [done|]).
    destruct (_ && _) eqn:Hdev; [done|]. intros [= <-]. split_and!; try done; cbn [AllowedOrigins srv].
    + apply Forall_forall. intros o [Ho Hin]%list_elem_of_filter. split; [done|].
      apply list_elem_of_fmap in Hin as (p & -> & Hp). apply TrimSpace_elem.
      by apply (proj1 (Forall_forall _ _) (Split_elem "," (spelled "allowed-origins" "" args))).
    + intros Hstar. rewrite bool_decide_eq_true_2, andb_true_r in Hdev by done. by apply negb_false_iff.
Qed.

(** *** Printing a configuration as flags *)

Definition kv (name value : string) : string := "--" +:+ name +:+ "=" +:+ value.

Definition render (dev : bool) (cfg : appConfig) : list string :=
  (if dev then ["--dev"] else []) ++
  [kv "listen" (Addr (srv cfg)); kv "admin-addr" (AdminAddr (srv cfg));
   kv "allowed-origins" (join_with "," (AllowedOrigins (srv cfg)));
   kv "store" (store cfg); kv "db-path" (dbPath cfg);
   kv "registry" (registry cfg); kv "fanout" (fanout cfg)].

(** A configuration [parseFlags] may return, with or without [--dev]. *)
Record config_ok (dev : bool) (cfg : appConfig) : Prop := {
  ck_store : store cfg = "sqlite" \/ store cfg = "memory";
  ck_registry : registry cfg = "sync-map" \/ registry cfg = "sharded";
  ck_fanout : fanout cfg = "per-conn" \/ fanout cfg = "sharded";
  ck_some : AllowedOrigins (srv cfg) <> [];
  ck_origins : Forall (fun o => o <> "" /\ string_elem "," o = false /\ TrimSpace o = o)
                 (AllowedOrigins (srv cfg));
  ck_star : "*" ∈ AllowedOrigins (srv cfg) -> dev = true;
  ck_run : showVersion cfg = false;
}.

Lemma classify_kv name value :
  match name with String c _ => c <> "-"%char /\ c <> "="%char | _ => False end ->
  string_elem "=" name = false -> classify (kv name value) = ArgFlag name (Some value).
Proof.
  destruct name as [|c name]; [done|]. intros [Hc Hc'] He. unfold kv. str_simpl.
  unfold classify. cbn [decide]. rewrite decide_False by (by intros []). rewrite decide_True by done.
  rewrite decide_False by done. unfold flag_name. rewrite decide_False by (by intros []).
  pose proof (Cut_app "=" (String c name) value He) as Hcut. str_simpl. by rewrite Hcut.
Qed.

(** A string flag given as [--name=value]. *)
Lemma Parse_kv name value rest fs s :
  match name with String c _ => c <> "-"%char /\ c <> "="%char | _ => False end ->
  string_elem "=" name = false -> fs !! name = Some (VStr s) ->
  Parse (kv name value :: rest) fs = Parse rest (<[name := VStr value]> fs).
Proof. intros Hn He Hf. cbn [Parse]. by rewrite classify_kv, Hf. Qed.

Lemma clean_origins_join os :
  os <> [] -> Forall (fun o => o <> "" /\ string_elem "," o = false /\ TrimSpace o = o) os ->
  clean_origins (join_with "," os) = os.
Proof.
  intros Hne Hos. unfold clean_origins. rewrite Split_join; [|done|].
  2: { eapply Forall_impl; [exact Hos|]. by intros o (_ & ? & _). }
  clear Hne. induction Hos as [|o os (Ho & _ & Ht) _ IH]; [done|].
  rewrite fmap_cons, Ht. by rewrite filter_cons_True, IH.
Qed.

Lemma join_nonempty os : os <> [] -> Forall (fun o => o <> "") os -> join_with "," os <> "".
Proof.
  intros Hne Hos. destruct Hos as [|o os Ho Hos]; [done|]. destruct os as [|o' os]; [done|].
  change (join_with "," (o :: o' :: os)) with (o +:+ String "," (join_with "," (o' :: os))).
  by destruct o.
Qed.

(** The flags after the rendered arguments, from whatever [dev] was set to. *)
Definition set_flags (cfg : appConfig) (fs : FlagSet) : FlagSet :=
  <["fanout" := VStr (fanout cfg)]> (<["registry" := VStr (registry cfg)]>
  (<["db-path" := VStr (dbPath cfg)]> (<["store" := VStr (store cfg)]>
  (<["allowed-origins" := VStr (join_with "," (AllowedOrigins (srv cfg)))]>
  (<["admin-addr" := VStr (AdminAddr (srv cfg))]> (<["listen" := VStr (Addr (srv cfg))]> fs)))))).

Lemma Parse_render dev cfg :
  Parse (render dev cfg) wirefan_flags
  = Ok (set_flags cfg (if dev then <["dev" := VBool true]> wirefan_flags else wirefan_flags), []).
Proof.
  unfold render. set (fs := if dev then _ else wirefan_flags).
  assert (forall l, Parse ((if dev then ["--dev"] else []) ++ l) wirefan_flags = Parse l fs) as ->.
  { intros l. by destruct dev. }
  assert (forall n s, n <> "dev" -> wirefan_flags !! n = Some (VStr s) -> fs !! n = Some (VStr s)) as Hfs.
  { intros n s Hn Hl. subst fs. destruct dev; [by rewrite lookup_insert_ne|done]. }
  clearbody fs.
  repeat (erewrite Parse_kv; [|by split|done|by rewrite ?lookup_insert_ne by done; apply Hfs]).
  done.
Qed.

(** Flags round trip. Any well-formed configuration, written as flags, is
    parsed back to itself. *)
Theorem flags_round_trip dev cfg : config_ok dev cfg -> parseFlags (render dev cfg) = Ok cfg.
Proof.
  intros [Hst Hrg Hfo Hne Hos Hstar Hrun]. unfold parseFlags. rewrite Parse_render.
  set (fs := if dev then _ else _).
  assert (fbool "version" (set_flags cfg fs) = false /\ fbool "dev" (set_flags cfg fs) = dev) as [-> Hdev].
  { unfold fbool, set_flags, fs. rewrite !lookup_insert_ne by done. by destruct dev. }
  clearbody fs.
  assert (fstr "store" (set_flags cfg fs) = store cfg
    /\ fstr "registry" (set_flags cfg fs) = registry cfg /\ fstr "fanout" (set_flags cfg fs) = fanout cfg
    /\ fstr "db-path" (set_flags cfg fs) = dbPath cfg
    /\ fstr "allowed-origins" (set_flags cfg fs) = join_with "," (AllowedOrigins (srv cfg))
    /\ fstr "listen" (set_flags cfg fs) = Addr (srv cfg)
    /\ fstr "admin-addr" (set_flags cfg fs) = AdminAddr (srv cfg)) as (-> & -> & -> & -> & -> & -> & ->).
  { unfold fstr, set_flags. by split_and!; simplify_map_eq. }
  rewrite Hdev, clean_origins_join by done.
  do 3 (rewrite decide_False by (intros []; naive_solver)).
  rewrite decide_False.
  2: { apply join_nonempty; [done|]. eapply Forall_impl; [exact Hos|]. by intros o [? _]. }
  rewrite decide_False by done.
  assert (negb dev && bool_decide ("*" ∈ AllowedOrigins (srv cfg)) = false) as ->.
  { case_bool_decide as Hin; [by rewrite (Hstar Hin)|by rewrite andb_false_r]. }
  destruct cfg as [[] ? ? ? ? ?]. cbn in *. by subst.
Qed.

(** ** Examples *)

Definition demo_config : appConfig :=
  MkApp (MkSrv ":8080" "" ["https://a.example"; "*"]) "memory" "" "sharded" "per-conn" false.

Lemma demo_config_ok : config_ok true demo_config.
Proof.
  by split; cbn; auto.
Qed.

Lemma flags_round_trip_witness : parseFlags (render true demo_config) = Ok demo_config.
Proof. apply (flags_round_trip true demo_config demo_config_ok). Defined.

Lemma parseFlags_sound_witness :
  demo_config = spelled_config (render true demo_config) /\ switched_on "dev" (render true demo_config) = true.
Proof.
  pose proof (parseFlags_sound (render true demo_config) demo_config ltac:(vm_decide)) as Hs.
  assert (switched_on "version" (render true demo_config) = false) as Hv by vm_decide.
  rewrite Hv in Hs. destruct Hs as (He & _ & _ & _ & _ & _ & Hd). split; [exact He|]. apply Hd. vm_decide.
Defined.

(** The last setting counts, and a flag's value is not a flag. *)
Example star_without_dev :
  (forall last, last ∈ ["--dev=false"; "-dev=0"] ->
     parseFlags ["--dev"; "--allowed-origins=*"; last] = Err CStarNeedsDev)
  /\ parseFlags ["--listen"; "--dev"; "--allowed-origins"; "*"] = Err CStarNeedsDev.
Proof.
  split; [|vm_decide]. intros last Hl. repeat (apply elem_of_cons in Hl as [->|Hl]; [vm_decide|]).
  by apply elem_of_nil in Hl.
Qed.

(** Arguments after the first that is no flag are ignored. *)
Example positional_ends_flags :
  parseFlags ["--allowed-origins"; "https://a.example"; "serve"; "--store=memory"]
  = Ok (MkApp (MkSrv ":8080" "127.0.0.1:6060" ["https://a.example"]) "sqlite" "" "sync-map" "per-conn" false).
Proof. vm_decide. Qed.
