(* ===== verification/Site.v ===== *)
(** * internal/server/server.go: New, and requests over the two listeners

    [New] puts the parts together: the two HTTP servers, the upgrade handler as
    the environment configures it, and the server's first state.  A request is
    routed by its listener's mux and served on that state; whatever it does is a
    run of the transition system of [Server], so what [ServerSafety] shows of
    the latter holds for requests as they arrive. *)
From S2P Require Import Prelude GoStd Utf8 GoJson Token Channel Registry Sweep Limiter Hub Frame Conn World Handler Membership Run GoNetip Store Upgrade Rest Server ServerSafety Routes Flags.
From stdpp Require Import options.

(** ** The parts *)

(** [http.Server], the fields [New] sets. *)
Record http_Server : Type := MkHttp {
  hs_Addr : string;
  hs_ReadHeaderTimeout : Z;
  hs_IdleTimeout : Z;
  hs_ConnContext : bool;      (* [conn.WithNetConn] *)
}.

Record UpgradeHandler : Type := MkUpgrade {
  trustedProxies : list Pfx;
  ipCount : IPTable;
  ipCap : Z;
}.

(** The two arguments are [WIREFAN_TRUSTED_PROXIES] and [WIREFAN_IP_CAP]. *)
Definition NewUpgradeHandler (proxies cap : string) : UpgradeHandler :=
  MkUpgrade (parseTrustedProxies proxies) ∅ (parseIPCap cap).

Section New.
Context {S R B F : Type} `{StoreLaws S}.
Context `{RegistryLaws R, TokenBucket B, !Fanout R B F, !FanoutLaws R B F}.

(** [Deps]; the registry's channels live in [d_heap]. *)
Record Deps : Type := MkDeps {
  d_Store : S;
  d_AdminToken : string;
  d_Registry : R;
  d_heap : Heap;
  d_SigningSecret : string;
  d_Fanout : F;
  d_RateLimit : Limiter B;
  d_Policy : Policy;
  d_Hub : Hub;
}.

Record Server : Type := MkSite {
  s_srv : http_Server;
  s_adminSrv : option http_Server;
  s_upgrade : UpgradeHandler;
  s_conn : Config;
  s_adminToken : string;
  drainGrace : Z;
  listenerGrace : Z;
  s_state : server (S:=S) (R:=R) (B:=B) (F:=F);
}.

Definition New (cfg : srvConfig) (deps : Deps) (proxies cap : string) : Server :=
  let uh := NewUpgradeHandler proxies cap in
  let rc : ReplayCache := ∅ in
  let w := MkWorld (d_Registry deps) (d_heap deps) ∅ (d_RateLimit deps) (Some rc) (MkMetrics 0 0 0 0)
             (d_Fanout deps) (d_Hub deps) in
  MkSite (MkHttp (Addr cfg) (10 * second) (120 * second) true)
    (if decide (AdminAddr cfg = "") then None
     else Some (MkHttp (AdminAddr cfg) (10 * second) (120 * second) false))
    uh (MkConfig (d_SigningSecret deps) (d_Policy deps)) (d_AdminToken deps) (30 * second) (5 * second)
    (MkServer (d_Store deps) NewHealthHandler (ipCount uh) ∅ ∅ w).

(** What [run] hands to [New], given the store, the two secrets and the fan-out. *)
Definition run_deps (st : S) (adminToken secret : string) (f : F) : Deps :=
  MkDeps st adminToken reg_new heap_empty secret f (Limiter.New 100 200 (3600 * second)) PolicyDisconnect Hub.New.

(** ** Serving *)

(** A request on the public listener: what [/v1/connect] reads besides. *)
Record web_request : Type := MkWeb {
  wq : request;
  wq_upgrade : upgrade_req;
}.

Inductive web_reply : Type :=
  | WReply (r : http_reply)
  | WRejected (e : rejection)
  | WUpgrading (n : nat).      (* on to the handshake, as request [n] *)

Section Serving.
Context (ParseStrict : string -> bool) (site : Server).
Implicit Types (s : server (S:=S) (R:=R) (B:=B) (F:=F)).

Definition serve_public (n : nat) (dr : draws) (q : web_request) s : web_reply * server :=
  match serve_mux public_mux (rq_method (wq q)) (rq_path (wq q)) with
  | Routed HConnect _ =>
      let '(r, st', t') := ServeHTTP_checks (trustedProxies (s_upgrade site)) (ipCap (s_upgrade site))
        (Draining (sv_health s)) (wq_upgrade q) (sv_store s) (sv_ips s) in
      match r with
      | Err e => (WRejected e, set_ips t' (set_st st' s))
      | Ok (k, ip) => (WUpgrading n, set_req n (RqCounted (k_ID k) ip) (set_ips t' (set_st st' s)))
      end
  | _ =>
      let '(r, st') := public_serve ParseStrict (signingSecret (s_conn site)) (sv_health s) dr (wq q) (sv_store s) in
      (WReply r, set_st st' s)
  end.

(** The admin listener. *)
Definition serve_admin (dr : draws) (q : request) s : http_reply * list conn_id * server :=
  let '(r, cs, st', h') := admin_serve (s_adminToken site) dr q (sv_store s) (sv_hub s) in
  (r, cs, set_world (set_hub h' (sv_world s)) (set_st st' s)).

(** The server as its requests, and everything else, move it.  Identifiers that
    are drawn are fresh. *)
Inductive site_step s : server (S:=S) (R:=R) (B:=B) (F:=F) -> Prop :=
  | ss_public n dr q : sv_reqs s !! n = None -> site_step s (serve_public n dr q s).2
  | ss_admin dr q : keys (sv_store s) !! dr_id dr = None -> site_step s (serve_admin dr q s).2
  | ss_server s' :
      server_step (s_conn site) (trustedProxies (s_upgrade site)) (ipCap (s_upgrade site)) ParseStrict s s' ->
      site_step s s'.

(** ** Requests are runs of the server *)

Abbreviation steps := (rtc (server_step (s_conn site) (trustedProxies (s_upgrade site)) (ipCap (s_upgrade site)) ParseStrict)).

Lemma set_st_same s : set_st (sv_store s) s = s.
Proof using Type. by destruct s. Qed.
Lemma set_ips_same s : set_ips (sv_ips s) s = s.
Proof using Type. by destruct s. Qed.
Lemma set_hub_same st s : set_world (set_hub (sv_hub s) (sv_world s)) (set_st st s) = set_st st s.
Proof using Type. by destruct s as [? ? ? ? ? []]. Qed.

Lemma connect_steps n q s r st' t' :
  sv_reqs s !! n = None ->
  ServeHTTP_checks (trustedProxies (s_upgrade site)) (ipCap (s_upgrade site)) (Draining (sv_health s)) q
    (sv_store s) (sv_ips s) = (r, st', t') ->
  steps s (match r with
           | Err _ => set_ips t' (set_st st' s)
           | Ok (k, ip) => set_req n (RqCounted (k_ID k) ip) (set_ips t' (set_st st' s))
           end).
Proof using Type.
  intros Hn. unfold ServeHTTP_checks. destruct (check_key _ _ _) as [[k|e] st1] eqn:Hk.
  2: { intros [= <- <- <-]. change (sv_ips s) with (sv_ips (set_st st1 s)). rewrite set_ips_same.
       by eapply rtc_once, sv_refuse. }
  set (s1 := set_req n (RqLooked (k_ID k) (req_ip (trustedProxies (s_upgrade site)) q)) (set_st st1 s)).
  assert (steps s s1) as Hs1 by (by apply rtc_once; eapply sv_look).
  assert (sv_reqs s1 !! n = Some (RqLooked (k_ID k) (req_ip (trustedProxies (s_upgrade site)) q))) as Hn1
    by apply lookup_insert_eq.
  destruct (ip_count _ _ _) as [t1|] eqn:Hc; intros [= <- <- <-].
  - eapply rtc_r; [exact Hs1|]. pose proof (sv_count (s_conn site) (trustedProxies (s_upgrade site)) _ ParseStrict n _ _ t1 s1 Hn1 Hc) as Hstep.
    unfold s1, set_req, set_ips, set_st in *. cbn in *. by rewrite insert_insert_eq in Hstep.
  - eapply rtc_r; [exact Hs1|]. pose proof (sv_over_cap (s_conn site) (trustedProxies (s_upgrade site)) _ ParseStrict n _ _ s1 Hn1 Hc) as Hstep.
    unfold s1, set_req, end_req, set_ips, set_st in *. cbn in *. by rewrite delete_insert_id in Hstep.
Qed.

Lemma public_steps n dr q s : sv_reqs s !! n = None -> steps s (serve_public n dr q s).2.
Proof using Type.
  intros Hn. unfold serve_public. destruct (serve_mux _ _ _) as [hd caps|p| |] eqn:Hm.
  2-4: unfold public_serve; rewrite Hm; cbn; by rewrite set_st_same.
  assert (steps s (let '(r, st') := public_serve ParseStrict (signingSecret (s_conn site)) (sv_health s) dr (wq q)
    (sv_store s) in (WReply r, set_st st' s)).2) as Hrest.
  { unfold public_serve. rewrite Hm. destruct hd; cbn; rewrite ?set_st_same; try done.
    - destruct (health_ServeHTTP _). cbn. by rewrite set_st_same.
    - destruct (sign _ _ _ _ _ _ _) as [a st'] eqn:Hs. cbn. apply rtc_once. by eapply sv_sign. }
  destruct hd; try exact Hrest.
  destruct (ServeHTTP_checks _ _ _ _ _ _) as [[r st'] t'] eqn:Hc. apply (connect_steps n) in Hc; [|done].
  by destruct r as [[k ip]|e].
Qed.

(** A revocation as the server's two steps. *)
Lemma revoke_steps now id s :
  let '(a, cs, st', h') := revoke now id (sv_store s) (sv_hub s) in
  steps s (set_world (set_hub h' (sv_world s)) (set_st st' s)).
Proof using Type.
  unfold revoke. destruct (revoke_store now id (sv_store s)) as [[a []] st'] eqn:Hr.
  - destruct (CloseKey _ _ _ _) as [cs h'] eqn:Hc.
    eapply rtc_l; [by eapply sv_revoke|]. apply rtc_once. injection Hc as <- <-.
    destruct s as [st0 hl ips reqs rv w].
    refine (sv_close_key _ _ _ _ id rv (set_revoking ({[id]} ∪ rv) (MkServer st' hl ips reqs rv w)) _ _ _); cbn; set_solver.
  - rewrite set_hub_same. apply rtc_once. by eapply sv_revoke_fails.
Qed.

Lemma admin_steps dr q s : keys (sv_store s) !! dr_id dr = None -> steps s (serve_admin dr q s).2.
Proof using Type.
  intros Hid. unfold serve_admin.
  assert (steps s (set_world (set_hub (sv_hub s) (sv_world s)) (set_st (sv_store s) s))) as Hsame
    by (by rewrite set_hub_same, set_st_same).
  unfold admin_serve, gated. destruct (serve_mux _ _ _) as [[] caps|p| |]; try exact Hsame;
    destruct (requireAdmin _ _).
  - destruct (create (dr_rnd dr) (dr_id dr) (dr_now dr) (rq_body q) (sv_store s)). exact Hsame.
  - destruct (create _ _ _ _ _) as [a st'] eqn:Hc. cbn. rewrite set_hub_same. apply rtc_once. by eapply sv_create.
  - destruct (list_keys (sv_store s)). exact Hsame.
  - destruct (list_keys _) as [a st'] eqn:Hc. cbn. rewrite set_hub_same. apply rtc_once. by eapply sv_list.
  - destruct (revoke (dr_now dr) (default "" (head caps)) (sv_store s) (sv_hub s)) as [[[? ?] ?] ?]. exact Hsame.
  - pose proof (revoke_steps (dr_now dr) (default "" (head caps)) s) as Hr.
    by destruct (revoke _ _ _ _) as [[[a cs] st'] h'].
Qed.

Lemma site_steps s s' : rtc (site_step) s s' -> steps s s'.
Proof using Type.
  induction 1 as [|s s1 s2 Hs _ IH]; [done|]. etrans; [|exact IH].
  destruct Hs; [by apply public_steps|by apply admin_steps|by apply rtc_once].
Qed.

(** What a 204 to a delete of a key's path says. *)
Lemma deleted_spec dr q s id cs s1 :
  plain_id id = true -> rq_method q = "DELETE" -> rq_path q = "/v1/keys/" +:+ id ->
  serve_admin dr q s = (RpAnswer (RStatus StatusNoContent), cs, s1) ->
  rq_auth q = bearer +:+ s_adminToken site
  /\ is_Some (closedKeys (sv_hub s1) !! id) /\ conns (sv_hub s1) = conns (sv_hub s)
  /\ (forall i, i ∈ cs <-> conns (sv_hub s) !! i = Some id).
Proof using Type.
  intros Hp Hm Hpath. unfold serve_admin, admin_serve. rewrite Hm, Hpath, key_path_route by done. cbn [head default].
  destruct (decide (rq_auth q = bearer +:+ s_adminToken site)) as [Ha|Ha]; [|by rewrite gated_denied].
  unfold revoke. destruct (revoke_store _ _ _) as [[a closing] st'] eqn:Hr. destruct closing.
  - pose proof (fun i => elem_of_CloseKey i id StatusPolicyViolation "key revoked" (sv_hub s)) as Hcs.
    destruct (CloseKey _ _ _ _) as [cs' h'] eqn:Hc. rewrite gated_allowed by done. intros [= -> <- <-].
    injection Hc as <- <-. split_and!; [done| |done|exact Hcs]. cbn. by rewrite lookup_insert_eq.
  - rewrite gated_allowed by done. intros [= -> <- <-]. exfalso. unfold revoke_store in Hr.
    destruct (RevokeKey _ _ _) as [r st1]. repeat case_match; by simplify_eq.
Qed.

End Serving.

(** C6. A deleted key is dead, from request to socket. In every run of a freshly
    built server, on a store that keeps each key under its own identifier, over
    its two listeners, requests, frames, handshakes and background loops
    interleaved: when DELETE on a key's path is answered 204, the request
    carried the admin token, and whatever happens afterwards, no connection
    opens with the key, each one still open was among those the deletion closed,
    every upgrade with the key is rejected, and no token is signed for it. *)
Theorem deleted_key_is_dead ParseStrict cfg st adminToken secret f proxies cap s q dr id cs s1 s2 :
  named st ->
  let site := New cfg (run_deps st adminToken secret f) proxies cap in
  rtc (site_step ParseStrict site) (s_state site) s ->
  plain_id id = true -> rq_method q = "DELETE" -> rq_path q = "/v1/keys/" +:+ id ->
  keys (sv_store s) !! dr_id dr = None ->
  serve_admin site dr q s = (RpAnswer (RStatus StatusNoContent), cs, s1) ->
  rtc (site_step ParseStrict site) s1 s2 ->
  rq_auth q = bearer +:+ adminToken
  /\ (forall i, open_with s2 id i -> open_with s id i /\ i ∈ cs)
  /\ (forall n dr' q' caps, uq_key (wq_upgrade q') = id ->
       serve_mux public_mux (rq_method (wq q')) (rq_path (wq q')) = Routed HConnect caps ->
       exists e, (serve_public ParseStrict site n dr' q' s2).1 = WRejected e)
  /\ (string_elem ":" id = false -> forall any k st', sign_auth (credentials id any) (sv_store s2) <> (Some k, st')).
Proof using All.
  intros Hst site Hr Hp Hm Hpath Hfresh Hd Hr2.
  destruct (deleted_spec _ _ _ _ _ _ _ Hp Hm Hpath Hd) as (Ha & Hclosed & Hconns & Hcs).
  assert (s1 = (serve_admin site dr q s).2) as E1 by (by rewrite Hd).
  pose proof (site_steps _ _ _ _ Hr) as Hs. pose proof (admin_steps ParseStrict site dr q s Hfresh) as H01.
  rewrite <- E1 in H01. pose proof (site_steps _ _ _ _ Hr2) as H12.
  assert (forall s', rtc (server_step (s_conn site) (trustedProxies (s_upgrade site)) (ipCap (s_upgrade site)) ParseStrict)
    (s_state site) s' -> server_ok cap s') as Hreach by (intros s'; by apply server_reach).
  pose proof (Hreach _ Hs) as Hok. pose proof (Hreach _ (transitivity Hs H01)) as Hok1.
  pose proof (Hreach _ (transitivity (transitivity Hs H01) H12)) as Hok2.
  pose proof (server_steps_hub _ _ _ _ _ _ H12) as Hh.
  pose proof (closed_revoked _ _ _ _ Hok2 Hh Hclosed) as Hrev. split_and!; [done| | |].
  - intros i Hi. apply (closed_no_open cap s1) in Hi; [|done..].
    rewrite open_with_hub in Hi by done. rewrite Hconns in Hi. split; [by rewrite open_with_hub|by apply Hcs].
  - intros n dr' q' caps Hq Hmux. unfold serve_public, ServeHTTP_checks. rewrite Hmux.
    destruct (check_key _ _ _) as [[k|e] st'] eqn:Hk; [|by eexists].
    exfalso. by eapply revoked_no_check_key.
  - intros Hcolon any k st'. by apply revoked_no_sign.
Qed.
End New.

(** ** A concrete run

    A key is created over the admin listener, a conn is opened with it over the
    public one, and the key is deleted by its path. *)

Definition demo_site : Server (S:=Memory.memoryStore) (R:=SyncMap.t) (B:=tbucket) (F:=PerConn) :=
  New (MkSrv ":8080" "127.0.0.1:6060" ["*"]) (run_deps Memory.NewMemory "t0k" "secret" NewPerConn) "" "".

Definition demo_post : request := MkRequest "POST" "/v1/keys" "Bearer t0k" demo_create_body.
Definition demo_connect : web_request :=
  MkWeb (MkRequest "GET" "/v1/connect" "" "") (MkUpgradeReq "K1" "203.0.113.7:5000" []).
Definition demo_draws_of (id : string) : draws := MkDraws (Some demo_bytes) id 7.
Definition demo_drop : request := MkRequest "DELETE" "/v1/keys/K1" "Bearer t0k" "".

Definition site0 : demo_server := s_state demo_site.
Definition site1 : demo_server := (serve_admin demo_site (demo_draws_of "K1") demo_post site0).2.
Definition site2 : demo_server := (serve_public demo_ulid demo_site 5 (demo_draws_of "K1") demo_connect site1).2.
Definition site3 : demo_server :=
  set_req 5 (RqServing "K1" "203.0.113.7" 1) (set_world (run_start 1 demo_sid "K1" (sv_world site2)).2 site2).
Definition site4 : demo_server := (serve_admin demo_site (demo_draws_of "K2") demo_drop site3).2.

Lemma site3_reach : rtc (site_step demo_ulid demo_site) site0 site3.
Proof.
  eapply rtc_l; [apply (ss_admin demo_ulid demo_site site0 (demo_draws_of "K1") demo_post); reflexivity|].
  eapply rtc_l; [apply (ss_public demo_ulid demo_site _ 5 (demo_draws_of "K1") demo_connect); reflexivity|].
  apply rtc_once, ss_server, (sv_run _ _ _ _ 5 "K1" "203.0.113.7" 1 demo_sid
    (run_start 1 demo_sid "K1" (sv_world site2)).2 site2); [vm_decide|done|apply pair_fst; reflexivity].
Qed.

Lemma deleted_key_is_dead_witness :
  open_with site4 "K1" 1 /\ 1 ∈ (serve_admin demo_site (demo_draws_of "K2") demo_drop site3).1.2.
Proof.
  assert (open_with site4 "K1" 1) as Hopen by (eexists; split; [reflexivity|done]).
  split; [exact Hopen|].
  destruct (deleted_key_is_dead demo_ulid (MkSrv ":8080" "127.0.0.1:6060" ["*"]) Memory.NewMemory "t0k" "secret"
    NewPerConn "" "" site3 demo_drop (demo_draws_of "K2") "K1"
    (serve_admin demo_site (demo_draws_of "K2") demo_drop site3).1.2 site4 site4) as (_ & Ho & _).
  - exact new_memory_named.
  - exact site3_reach.
  - by vm_compute.
  - reflexivity.
  - reflexivity.
  - reflexivity.
  - assert (forall A B C (x : A * B * C) a, x.1.1 = a -> x = (a, x.1.2, x.2)) as Hx by (by intros ? ? ? [[? ?] ?] ? <-).
    apply Hx. vm_compute. reflexivity.
  - apply rtc_refl.
  - by apply Ho.
Defined.
