(* ===== verification/Boot.v ===== *)
(** * cmd/wirefan/main.go and the ends of internal/server/server.go

    What the process does around the server: the build's version, the state
    directory and the admin token, the choice of store, registry and fan-out,
    and the order in which everything is started, shut down and released. *)
From S2P Require Import Prelude GoStd GoPath GoBytes GoSha256 Token Utf8 Flags Store Migrate.
From stdpp Require Import options.

(** ** The version *)

(** [stamped] is the linker's value, [info] the main module's version when the
    binary has build info. *)
Definition buildVersion (stamped : string) (info : option string) : string :=
  if decide (stamped <> "") then stamped else
  match info with
  | Some v => if decide (v <> "" /\ v <> "(devel)") then v else "dev"
  | None => "dev"
  end.

Definition versionLine (stamped : string) (info : option string) (go os arch : string) : string :=
  "wirefan " +:+ buildVersion stamped info +:+ " (" +:+ go +:+ ", " +:+ os +:+ "/" +:+ arch +:+ ")".

(** ** The state directory and the admin token *)

Record environ : Type := MkEnviron {
  env_token : string;        (* WIREFAN_ADMIN_TOKEN *)
  env_state : string;        (* WIREFAN_STATE_DIR *)
  env_cwd : string;
}.

(** Files by path. *)
Abbreviation disk := (gmap string string).

(** What the operating system refuses: creating the state directory, reading a
    file that may be there, writing one, which can leave part of it, and
    creating the database's directory. *)
Record os_faults : Type := MkOsFaults {
  o_mkdir : option string;
  o_read : option string;
  o_write : option (string * string);
  o_dbdir : option string;
}.

Definition no_os_faults : os_faults := MkOsFaults None None None None.

Definition ensureStateDir (ev : environ) (o : os_faults) : res string string :=
  let dir := if decide (env_state ev = "") then "var" else env_state ev in
  match o_mkdir o with Some e => Err e | None => Ok dir end.

(** The bytes the loop takes off the end. *)
Definition trailing (c : ascii) : bool := bool_decide (c ∈ [ascii_of_N 10; ascii_of_N 13; " "%char]).

Fixpoint trim_token (t : string) : string :=
  match t with
  | EmptyString => EmptyString
  | String c t' =>
      let r := trim_token t' in
      if decide (r = "") then (if trailing c then "" else String c "") else String c r
  end.

Definition token_name : string := "admin.token".

Definition resolveAdminToken (ev : environ) (o : os_faults) (rnd : option (list N)) (fs : disk)
    : res string string * disk :=
  if decide (env_token ev <> "") then (Ok (env_token ev), fs) else
  match ensureStateDir ev o with
  | Err e => (Err e, fs)
  | Ok stateDir =>
      let tokenPath := Join stateDir token_name in
      let fresh :=
        match Keys.GenerateSecret rnd with
        | None => (Err "rand", fs)
        | Some t =>
            match o_write o with
            | Some (e, part) => (Err e, <[tokenPath := part]> fs)
            | None => (Ok t, <[tokenPath := t]> fs)
            end
        end in
      match o_read o, fs !! tokenPath with
      | Some e, _ => (Err e, fs)
      | None, Some data =>
          let t := trim_token data in
          if decide (t <> "") then (Ok t, fs) else fresh
      | None, None => fresh
      end
  end.

(** ** Choosing the parts *)

Inductive store_kind : Type :=
  | KMemory
  | KSqlite (path : string).

Inductive boot_err : Type :=
  | UnknownStore (k : string)
  | UnknownRegistry (k : string)
  | UnknownFanout (k : string)
  | BootOs (e : string)
  | BootPath (e : path_err)
  | BootOpen (path : string) (e : merr).

(** [openStore] up to the constructor: which store, and where. *)
Definition store_choice (ev : environ) (o : os_faults) (cfg : appConfig) : res boot_err store_kind :=
  if decide (Flags.store cfg = "memory") then Ok KMemory
  else if decide (Flags.store cfg = "sqlite") then
    let located :=
      if decide (dbPath cfg = "") then
        match ensureStateDir ev o with Err e => Err e | Ok dir => Ok (Join dir "wirefan.db") end
      else Ok (dbPath cfg) in
    match located, o_dbdir o with
    | Err e, _ | Ok _, Some e => Err (BootOs e)
    | Ok p, None => Ok (KSqlite (Abs (env_cwd ev) p))
    end
  else Err (UnknownStore (Flags.store cfg)).

Inductive reg_kind : Type := RSyncMap | RSharded.
Inductive fan_kind : Type := FPerConn | FSharded (workers : nat).

Definition newRegistry (kind : string) : res boot_err reg_kind :=
  if decide (kind = "sync-map") then Ok RSyncMap
  else if decide (kind = "sharded") then Ok RSharded
  else Err (UnknownRegistry kind).

Definition newFanout (gomaxprocs : nat) (kind : string) : res boot_err fan_kind :=
  if decide (kind = "per-conn") then Ok FPerConn
  else if decide (kind = "sharded") then Ok (FSharded gomaxprocs)
  else Err (UnknownFanout kind).

(** *** NewSQLite *)

(** The database's file as [preflight] finds it, and what fails on the way. *)
Record sqlite_view : Type := MkSqliteView {
  sv_stat : res string (option nat);
  sv_file : file_view;
  sv_ro_open : option string;
  sv_ro : faults;
  sv_rw_open : option string;
  sv_rw : faults;
  sv_tx : Z -> tx_faults;
}.

(** The result, whether the writable handle was opened, and the database. *)
Definition NewSQLite {D} `{Schema D} (v : sqlite_view) (path : string) (d : D)
    : res boot_err unit * bool * D :=
  match validateDBPath path with
  | Err e => (Err (BootPath e), false, d)
  | Ok _ =>
      match preflight (sv_stat v) (sv_file v) (sv_ro_open v) (sv_ro v) migrations d with
      | Err e => (Err (BootOpen path e), false, d)
      | Ok _ =>
          match sv_rw_open v with
          | Some e => (Err (BootOs e), false, d)
          | None =>
              match migrate (sv_rw v) (sv_tx v) migrations d with
              | (Err e, d') => (Err (BootOpen path e), true, d')
              | (Ok _, d') => (Ok tt, true, d')
              end
          end
      end
  end.

(** [openStore]. *)
Definition openStore {D} `{Schema D} (ev : environ) (o : os_faults) (v : sqlite_view) (cfg : appConfig)
    (d : D) : res boot_err store_kind * D :=
  match store_choice ev o cfg with
  | Err e => (Err e, d)
  | Ok KMemory => (Ok KMemory, d)
  | Ok (KSqlite path) =>
      match NewSQLite v path d with
      | (Err e, _, d') => (Err e, d')
      | (Ok _, _, d') => (Ok (KSqlite path), d')
      end
  end.

(** ** Server.Run and run, as traces *)

(** [EListen] is the start of a listener's goroutine, [EListenFailed] its end
    with an error, after which that listener is closed; [EShutdown] says whether
    the requests under way ended in time. *)
Inductive event : Type :=
  | EOpenStore
  | EOpenFanout
  | EOpenRate
  | EListen (admin : bool)
  | EListenFailed (admin : bool)
  | ESetDraining
  | EDrain
  | EShutdown (admin : bool) (in_time : bool)
  | ECloseListener (admin : bool)
  | EFanClose
  | ERateClose
  | EStoreClose.

(** How [http.Server.Shutdown] ends: in time, with or without an error of closing
    the listening socket, or at its deadline, with requests still under way,
    which [Close] then cuts off. *)
Inductive shutdown_end : Type :=
  | ShutOk
  | ShutDeadline (closed : option string)
  | ShutErr (e : string).

Definition shutdownListener (admin : bool) (out : shutdown_end) : option string * list event :=
  match out with
  | ShutOk => (None, [EShutdown admin true])
  | ShutDeadline e => (e, [EShutdown admin false; ECloseListener admin])
  | ShutErr e => (Some e, [EShutdown admin true])
  end.

(** What comes first out of [errc], if anything does before the context ends:
    the listener, and its error.  Only a listener that was started fails. *)
Definition from_errc (admin : bool) (failed : option (bool * string)) : option (bool * string) :=
  match failed with
  | Some (true, e) => if admin then Some (true, e) else None
  | f => f
  end.

Definition Server_Run (admin : bool) (failed : option (bool * string)) (oa op : shutdown_end)
    : option string * list event :=
  let up := EListen false :: (if admin then [EListen true] else []) in
  match from_errc admin failed with
  | Some (a, e) => (Some e, up ++ [EListenFailed a])
  | None =>
      let '(err, pub) := shutdownListener false op in
      (err, up ++ [ESetDraining; EDrain] ++ (if admin then (shutdownListener true oa).2 else [])
              ++ pub ++ [EFanClose])
  end.

(** What a [run] meets: the environment, random bytes, and how serving ends. *)
Record run_input (D : Type) : Type := MkRun {
  ri_env : environ;
  ri_os : os_faults;
  ri_sqlite : sqlite_view;
  ri_db : D;
  ri_disk : disk;
  ri_token : option (list N);
  ri_secret : option (list N);
  ri_procs : nat;
  ri_failed : option (bool * string);
  ri_shut_admin : shutdown_end;
  ri_shut_public : shutdown_end;
}.
Arguments ri_env {D}. Arguments ri_os {D}. Arguments ri_sqlite {D}. Arguments ri_db {D}.
Arguments ri_disk {D}. Arguments ri_token {D}. Arguments ri_secret {D}. Arguments ri_procs {D}.
Arguments ri_failed {D}. Arguments ri_shut_admin {D}. Arguments ri_shut_public {D}.

(** [run]: the deferred calls come last, in reverse. *)
Definition run {D} `{Schema D} (i : run_input D) (cfg : appConfig)
    : res boot_err (option string) * list event :=
  match openStore (ri_env i) (ri_os i) (ri_sqlite i) cfg (ri_db i) with
  | (Err e, _) => (Err e, [])
  | (Ok _, _) =>
      let '(r, tr) :=
        match resolveAdminToken (ri_env i) (ri_os i) (ri_token i) (ri_disk i) with
        | (Err e, _) => (Err (BootOs e), [])
        | (Ok _, _) =>
            match Keys.GenerateSecret (ri_secret i) with
            | None => (Err (BootOs "rand"), [])
            | Some _ =>
                match newRegistry (registry cfg) with
                | Err e => (Err e, [])
                | Ok _ =>
                    match newFanout (ri_procs i) (fanout cfg) with
                    | Err e => (Err e, [])
                    | Ok _ =>
                        let '(err, tr) := Server_Run (bool_decide (AdminAddr (srv cfg) <> ""))
                          (ri_failed i) (ri_shut_admin i) (ri_shut_public i) in
                        (Ok err, EOpenFanout :: EOpenRate :: tr ++ [ERateClose; EFanClose])
                    end
                end
            end
        end in
      (r, EOpenStore :: tr ++ [EStoreClose])
  end.

(** ** main *)

(** What the process prints on its standard output, its exit code, and the
    trace of [run].  [is_canceled] is [errors.Is] with [context.Canceled]. *)
Definition main {D} `{Schema D} (is_canceled : boot_err + string -> bool) (version_line : string)
    (i : run_input D) (args : list string) : option string * nat * list event :=
  match parseFlags args with
  | Err (CFlag ErrHelp) => (None, 0, [])
  | Err _ => (None, 1, [])
  | Ok cfg =>
      if showVersion cfg then (Some version_line, 0, []) else
      let '(r, tr) := run i cfg in
      let failed :=
        match r with Ok None => None | Ok (Some e) => Some (inr e) | Err e => Some (inl e) end in
      (None, match failed with Some e => if is_canceled e then 0 else 1 | None => 0 end, tr)
  end.

(** ** The discipline

    What a reader of the trace may expect, as a checker.  Parts are used only
    while open.  Nothing drains before the probe says so, and no listener is shut
    down before the drain.  Unless a listener failed, which ends the process at
    once, the fan-out is not closed while the public listener serves requests,
    and the rate limiter and the store not while either does. *)
Inductive listener : Type :=
  | LNone
  | LOpen
  | LLingering             (* accepts nothing, serves what it had accepted *)
  | LDown.

Record phase : Type := MkPhase {
  ph_store : bool;
  ph_fan : bool;
  ph_rate : bool;
  ph_flag : bool;
  ph_drained : bool;
  ph_public : listener;
  ph_admin : listener;
  ph_failed : option bool;      (* which listener failed *)
}.

Definition phase0 : phase := MkPhase false false false false false LNone LNone None.

Definition ph_listener (a : bool) (p : phase) : listener := if a then ph_admin p else ph_public p.
Definition set_listener (a : bool) (l : listener) (p : phase) : phase :=
  let 'MkPhase st fa ra fl dr pu ad fd := p in
  if a then MkPhase st fa ra fl dr pu l fd else MkPhase st fa ra fl dr l ad fd.

(** Serves no request. *)
Definition quiet (l : listener) : bool := match l with LNone | LDown => true | _ => false end.
Definition has_failed (p : phase) : bool := match ph_failed p with Some _ => true | None => false end.

Definition allow (e : event) (p : phase) : option phase :=
  let 'MkPhase st fa ra fl dr pu ad fd := p in
  match e with
  | EOpenStore => if st then None else Some (MkPhase true fa ra fl dr pu ad fd)
  | EOpenFanout => if st && negb fa then Some (MkPhase st true ra fl dr pu ad fd) else None
  | EOpenRate => if st && negb ra then Some (MkPhase st fa true fl dr pu ad fd) else None
  | EListen a =>
      match ph_listener a p with
      | LNone => if st && fa && ra && negb fl then Some (set_listener a LOpen p) else None
      | _ => None
      end
  | EListenFailed a =>
      match ph_listener a p, fd with
      | LOpen, None => if fl then None else set_listener a LDown <$> Some (MkPhase st fa ra fl dr pu ad (Some a))
      | _, _ => None
      end
  | ESetDraining => if fl || has_failed p then None else Some (MkPhase st fa ra true dr pu ad fd)
  | EDrain => if fl && fa then Some (MkPhase st fa ra fl true pu ad fd) else None
  | EShutdown a in_time =>
      match ph_listener a p with
      | LOpen => if dr then Some (set_listener a (if in_time : bool then LDown else LLingering) p) else None
      | _ => None
      end
  | ECloseListener a =>
      match ph_listener a p with LLingering => Some (set_listener a LDown p) | _ => None end
  | EFanClose => if has_failed p || quiet pu then Some (MkPhase st false ra fl dr pu ad fd) else None
  | ERateClose =>
      if ra && (has_failed p || quiet pu && quiet ad) then Some (MkPhase st fa false fl dr pu ad fd) else None
  | EStoreClose =>
      if st && negb fa && negb ra && (has_failed p || quiet pu && quiet ad)
      then Some (MkPhase false fa ra fl dr pu ad fd) else None
  end.

Definition check_trace (tr : list event) : option phase :=
  foldl (fun p e => p ← p; allow e p) (Some phase0) tr.

(** Store, fan-out and limiter are closed; and, unless a listener failed, no
    listener serves a request any more.  When one failed, it is closed, and the
    end of the process is what stops the other. *)
Definition released (p : phase) : bool :=
  negb (ph_store p) && negb (ph_fan p) && negb (ph_rate p)
  && match ph_failed p with
     | None => quiet (ph_public p) && quiet (ph_admin p)
     | Some a => match ph_listener a p with LDown => negb (ph_flag p) | _ => false end
     end.

(** Which listener's failure ended the run. *)
Definition run_failed {D} (args : list string) (i : run_input D) : option bool :=
  match parseFlags args with
  | Ok cfg => fst <$> from_errc (bool_decide (AdminAddr (srv cfg) <> "")) (ri_failed i)
  | Err _ => None
  end.

(** The trace is allowed, ends with everything released, and blames a listener
    only if [failed] says so. *)
Definition good_trace (failed : option bool) (tr : list event) : Prop :=
  exists p, check_trace tr = Some p /\ released p = true /\ (ph_failed p = None \/ ph_failed p = failed).

Lemma check_server admin failed oa op :
  good_trace (fst <$> from_errc admin failed) ([EOpenStore; EOpenFanout; EOpenRate]
    ++ (Server_Run admin failed oa op).2 ++ [ERateClose; EFanClose; EStoreClose]).
Proof.
  destruct admin, failed as [[[] e]|], oa, op; (eexists; split; [reflexivity|]); cbn; auto.
Qed.

Section Run.
Context {D : Type} `{Schema D}.

Lemma run_trace (i : run_input D) cfg :
  good_trace (fst <$> from_errc (bool_decide (AdminAddr (srv cfg) <> "")) (ri_failed i)) (run i cfg).2.
Proof using Type.
  set (f := fst <$> _).
  assert (good_trace f [] /\ good_trace f [EOpenStore; EStoreClose]) as [H0 H1]
    by (split; (eexists; split; [reflexivity|]); cbn; auto).
  unfold run. destruct (openStore _ _ _ _ _) as [[k|e] d']; [|exact H0].
  destruct (resolveAdminToken _ _ _ _) as [[t|e] fs]; [|exact H1].
  destruct (Keys.GenerateSecret _); [|exact H1]. destruct (newRegistry _); [|exact H1].
  destruct (newFanout _ _); [|exact H1].
  pose proof (check_server (bool_decide (AdminAddr (srv cfg) <> "")) (ri_failed i)
    (ri_shut_admin i) (ri_shut_public i)) as Hc. fold f in Hc.
  destruct (Server_Run _ _ _ _) as [err tr]. cbn [snd] in *.
  by rewrite <- !app_comm_cons, <- app_assoc.
Qed.

(** C25. Everything is released, in order. However a start or a shutdown goes,
    the trace of the process uses nothing before it is opened or after it is
    closed, and ends with the store, fan-out and rate limiter closed. In a
    shutdown the health flag is set before the drain, the drain comes before any
    listener's shutdown, the fan-out is closed when the public listener serves
    no request any more, the limiter and the store when neither listener does,
    and no listener is left up, or with requests past its deadline. Only when a
    listener that was started fails is there no shutdown: that one is closed,
    the parts are released at once, and the end of the process is what stops the
    other. *)
Theorem run_releases is_canceled version_line (i : run_input D) args :
  exists p, check_trace (main is_canceled version_line i args).2 = Some p
    /\ ph_store p = false /\ ph_fan p = false /\ ph_rate p = false
    /\ match ph_failed p with
       | None => quiet (ph_public p) = true /\ quiet (ph_admin p) = true
       | Some a => run_failed args i = Some a /\ ph_listener a p = LDown /\ ph_flag p = false
       end.
Proof using Type.
  assert (forall tr, good_trace (run_failed args i) tr -> exists p, check_trace tr = Some p
    /\ ph_store p = false /\ ph_fan p = false /\ ph_rate p = false
    /\ match ph_failed p with
       | None => quiet (ph_public p) = true /\ quiet (ph_admin p) = true
       | Some a => run_failed args i = Some a /\ ph_listener a p = LDown /\ ph_flag p = false
       end) as Hgood.
  { intros tr (p & Hp & Hrel & Hf). exists p. split; [done|]. unfold released in Hrel. bool_hyps.
    destruct (ph_store p), (ph_fan p), (ph_rate p); try done. split_and!; try done.
    destruct (ph_failed p) as [a|]; [|by apply andb_true_iff].
    destruct Hf as [|Hf]; [done|]. destruct (ph_listener a p); try done. by destruct (ph_flag p). }
  apply Hgood. unfold main, run_failed.
  destruct (parseFlags args) as [cfg|[[]| | | | | |]]; try (eexists; split; [reflexivity|]; cbn; by auto).
  destruct (showVersion cfg); [eexists; split; [reflexivity|]; cbn; by auto|].
  pose proof (run_trace i cfg) as Ht. by destruct (run i cfg) as [r tr].
Qed.

(** A refused file is untouched. When the file is not empty and holds a
    database that is not one of wirefan's (column names without commas or
    spaces), NewSQLite fails before it opens the file for writing, so nothing in
    it changes. *)
Theorem refused_file_untouched v path (d : D) n :
  Forall (fun c => plain_name (c_name c) = true) (table_info d) -> ~ adoptable migrations d ->
  sv_stat v = Ok (Some (S n)) ->
  exists e, NewSQLite v path d = (Err e, false, d).
Proof using Type.
  intros Hp Hd Hs. unfold NewSQLite. destruct (validateDBPath path); [|eauto].
  unfold preflight. rewrite Hs.
  destruct (isCleanWALDatabase (sv_file v)); [|eauto]. destruct (sv_ro_open v); [eauto|].
  destruct (checkDatabase (sv_ro v) migrations d) as [x|e] eqn:Hc; [|eauto].
  by apply checkDatabase_accepts in Hc.
Qed.
End Run.

(** ** The admin token *)

Lemma trim_token_id t : string_forall (fun c => negb (trailing c)) t = true -> trim_token t = t.
Proof.
  induction t as [|c t IH]; intros Ht; [done|]. cbn in Ht |- *. apply andb_true_iff in Ht as [Hc Ht].
  rewrite IH by done. case_decide as Hr; [|done]. apply negb_true_iff in Hc. by rewrite Hc, Hr.
Qed.

(** What is left does not end with a byte that is trimmed. *)
Lemma trim_token_idem t : trim_token (trim_token t) = trim_token t.
Proof.
  induction t as [|c t IH]; [done|]. cbn. case_decide as Hr.
  - destruct (trailing c) eqn:Hc; [done|]. cbn. by rewrite Hc.
  - cbn. by rewrite IH, decide_False.
Qed.

Lemma hex_not_trailing bytes :
  Forall byte_ok bytes -> string_forall (fun c => negb (trailing c)) (hex_encode bytes) = true.
Proof.
  intros Hb%hex_encode_hex. induction (hex_encode bytes) as [|c s IH]; [done|].
  cbn in Hb |- *. apply andb_true_iff in Hb as [Hc Hb]. rewrite IH, andb_true_r by done.
  clear -Hc. by destruct c as [[] [] [] [] [] [] [] []].
Qed.

(** C32. The admin token is stable. A token the start resolves is not empty, and
    as long as the environment is the same and the directory and file can be
    read, every later start resolves the same token and writes nothing. *)
Theorem admin_token_stable ev o bytes fs t fs' :
  length bytes = 32 -> Forall byte_ok bytes ->
  resolveAdminToken ev o (Some bytes) fs = (Ok t, fs') ->
  t <> "" /\ forall o' rnd, o_mkdir o' = None -> o_read o' = None ->
    resolveAdminToken ev o' rnd fs' = (Ok t, fs').
Proof.
  intros Hlen Hbytes. unfold resolveAdminToken, ensureStateDir. cbn [Keys.GenerateSecret fmap option_fmap option_map].
  case_decide as Ht; [by intros [= <- <-]|]. destruct (o_mkdir o); [done|]. destruct (o_read o); [done|].
  set (p := Join _ _). intros Hr.
  assert (exists data, fs' !! p = Some data /\ trim_token data = t /\ t <> "") as (data & Hf & Htr & Hne).
  { assert (hex_encode bytes <> "") as Hhex by (by destruct bytes).
    destruct (fs !! p) as [data|] eqn:Hp; [case_decide as Hd|]; [by simplify_eq; eauto|..];
      (destruct (o_write o) as [[e part]|]; [done|]); simplify_eq;
      exists (hex_encode bytes); rewrite lookup_insert_eq; split_and!; try done;
      by apply trim_token_id, hex_not_trailing. }
  split; [done|]. intros o' rnd -> ->. fold p. rewrite Hf, Htr, decide_True by done. done.
Qed.

(** A write that fails half-way leaves a file the next start takes as it is. *)
Theorem partial_token_is_used :
  let ev := MkEnviron "" "/state" "/" in
  let half := resolveAdminToken ev (MkOsFaults None None (Some ("no space left on device", "a")) None)
    (Some (replicate 32 171%N)) ∅ in
  half.1 = Err "no space left on device"
  /\ (resolveAdminToken ev no_os_faults (Some (replicate 32 171%N)) half.2).1 = Ok "a".
Proof. split; reflexivity. Qed.

(** ** The choices *)

(** Nothing that [parseFlags] returns is unknown further on, and the database's
    path is absolute, as [validateDBPath] requires. *)
Theorem parsed_config_is_known args cfg ev o procs :
  parseFlags args = Ok cfg -> showVersion cfg = false -> IsAbs (env_cwd ev) = true ->
  is_ok (newRegistry (registry cfg)) = true /\ is_ok (newFanout procs (fanout cfg)) = true
  /\ match store_choice ev o cfg with
     | Ok (KSqlite path) => IsAbs path = true
     | Ok KMemory => True
     | Err e => exists m, e = BootOs m
     end.
Proof.
  intros Hp Hv Hcwd. destruct (parseFlags_kinds _ _ Hp Hv) as (Hs & Hr & Hf). split_and!.
  - unfold newRegistry. by destruct Hr as [->| ->].
  - unfold newFanout. by destruct Hf as [->| ->].
  - unfold store_choice. destruct Hs as [Hs|Hs]; rewrite Hs; cbn; [|done].
    destruct (if decide (dbPath cfg = "") then _ else _) as [p|e]; [|by eexists].
    destruct (o_dbdir o); [by eexists|]. unfold Abs. destruct (IsAbs p) eqn:Habs; [by apply Clean_rooted|].
    by apply Join_rooted.
Qed.

(** ** Examples *)

Definition demo_environ : environ := MkEnviron "" "" "/srv/wirefan".

Lemma admin_token_stable_witness :
  resolveAdminToken demo_environ no_os_faults None
    {["var/admin.token" := hex_encode (replicate 32 171%N)]}
  = (Ok (hex_encode (replicate 32 171%N)), {["var/admin.token" := hex_encode (replicate 32 171%N)]}).
Proof.
  apply (admin_token_stable demo_environ no_os_faults (replicate 32 171%N) ∅); try reflexivity.
  repeat constructor.
Defined.

Lemma refused_file_untouched_witness :
  let foreign := Demo.MkDb 0 ["other"] [] in
  let v := MkSqliteView (Ok (Some 4096)) (MkView (Ok true) (Ok [])) None no_faults None no_faults
             (fun _ => no_tx_faults) in
  exists e, NewSQLite v "/srv/wirefan/var/wirefan.db" foreign = (Err e, false, foreign).
Proof.
  intros foreign v. apply (refused_file_untouched v _ foreign (Nat.pred 4096)).
  - constructor.
  - intros [_ Hx]. by destruct (Hx eq_refl) as [|[? _]].
  - reflexivity.
Defined.

Lemma parsed_config_is_known_witness :
  match store_choice demo_environ no_os_faults demo_config with
  | Ok (KSqlite path) => IsAbs path = true
  | Ok KMemory => True
  | Err e => exists m, e = BootOs m
  end.
Proof.
  apply (parsed_config_is_known (render true demo_config) demo_config demo_environ no_os_faults 4);
    [vm_decide|reflexivity|reflexivity].
Defined.

(** When a listener fails, Run returns at once: nothing is drained, and the other
    listener is left to the end of the process. *)
Example failed_listener_leaves_other :
  (fun p => (ph_admin p, ph_public p, ph_drained p))
    <$> check_trace ([EOpenStore; EOpenFanout; EOpenRate]
          ++ (Server_Run true (Some (true, "address already in use")) ShutOk ShutOk).2
          ++ [ERateClose; EFanClose; EStoreClose])
  = Some (LDown, LOpen, false).
Proof. reflexivity. Qed.
